(** * CrossChainBridge: leaf hashing, Merkle proofs, ledger validator and relay pipeline

    A shallow embedding of the bridge's contracts (BridgeValidator,
    BridgeToken, BridgeVault, MerkleProof, MessageLib) and of the relayer
    (ProofGenerator, DatabaseService, EventListener, TransactionSubmitter),
    with the properties of the specification stated and settled on it. *)

From Stdlib Require Import ZArith Lia String Ascii List.
From stdpp Require Import gmap strings list sorting.

(** Conventions: a byte is an integer in [0, 256); a [bytes32] or a [uint256]
    is an integer in [0, 2^256); an [address] is an integer in [0, 2^160). *)

(* ===================================================================== *)
(** ** Keccak-256, the hash primitive of the EVM and of ethers' [keccak256] *)
(* ===================================================================== *)

Module Keccak.
Local Open Scope Z_scope.

(** The 1600-bit state: 25 lanes of 64 bits, lane (x, y) at index x + 5 y. *)
Definition lanes := list Z.

Definition rotl64 (x : Z) (n : Z) : Z :=
  Z.land (Z.lor (Z.shiftl x n) (Z.shiftr x (64 - n))) (Z.ones 64).

Definition not64 (x : Z) : Z := Z.lxor x (Z.ones 64).

Definition lane (A : lanes) (x y : nat) : Z :=
  nth ((x mod 5) + 5 * (y mod 5))%nat A 0.

Definition RC : list Z :=
  [ 0x0000000000000001; 0x0000000000008082; 0x800000000000808A;
    0x8000000080008000; 0x000000000000808B; 0x0000000080000001;
    0x8000000080008081; 0x8000000000008009; 0x000000000000008A;
    0x0000000000000088; 0x0000000080008009; 0x000000008000000A;
    0x000000008000808B; 0x800000000000008B; 0x8000000000008089;
    0x8000000000008003; 0x8000000000008002; 0x8000000000000080;
    0x000000000000800A; 0x800000008000000A; 0x8000000080008081;
    0x8000000000008080; 0x0000000080000001; 0x8000000080008008 ].

(** Rotation offsets, indexed like the lanes. *)
Definition ROT : list Z :=
  [ 0; 1; 62; 28; 27;   36; 44; 6; 55; 20;   3; 10; 43; 25; 39;
    41; 45; 15; 21; 8;  18; 2; 61; 56; 14 ].

Definition coords : list (nat * nat) :=
  map (fun i => (i mod 5, i / 5)%nat) (seq 0 25).

Definition theta (A : lanes) : lanes :=
  let C x := Z.lxor (lane A x 0) (Z.lxor (lane A x 1) (Z.lxor (lane A x 2)
             (Z.lxor (lane A x 3) (lane A x 4)))) in
  let D x := Z.lxor (C (x + 4)%nat) (rotl64 (C (x + 1)%nat) 1) in
  map (fun '(x, y) => Z.lxor (lane A x y) (D x)) coords.

(** rho and pi together: B[y][2x+3y] = rotl(A[x][y], r[x][y]), read from the
    destination (X, Y), whose source is x = X + 3Y, y = X. *)
Definition rho_pi (A : lanes) : lanes :=
  map (fun '(X, Y) =>
         let x := ((X + 3 * Y) mod 5)%nat in
         rotl64 (lane A x X) (nth (x + 5 * X)%nat ROT 0)) coords.

Definition chi (B : lanes) : lanes :=
  map (fun '(x, y) =>
         Z.lxor (lane B x y)
                (Z.land (not64 (lane B (x + 1) y)) (lane B (x + 2) y))) coords.

Definition iota (rc : Z) (A : lanes) : lanes :=
  match A with
  | a :: rest => Z.lxor a rc :: rest
  | [] => []
  end.

Definition round (A : lanes) (rc : Z) : lanes := iota rc (chi (rho_pi (theta A))).

Definition keccak_f (A : lanes) : lanes := fold_left round RC A.

(** Keccak padding (domain byte 0x01) to a multiple of the 136-byte rate. *)
Definition rate : nat := 136.

Definition pad (len : nat) : list Z :=
  let q := (rate - len mod rate)%nat in
  if (q =? 1)%nat then [0x81]
  else 0x01 :: repeat 0 (q - 2) ++ [0x80].

Definition xor_byte (A : lanes) (pos : nat) (b : Z) : lanes :=
  alter (fun l => Z.lxor l (Z.shiftl b (8 * Z.of_nat (pos mod 8)))) (pos / 8)%nat A.

(** Absorb the padded message a byte at a time; permute after each full block. *)
Fixpoint absorb (m : list Z) (pos : nat) (A : lanes) : lanes :=
  match m with
  | [] => A
  | b :: m' =>
      let A' := xor_byte A pos b in
      if (pos =? 135)%nat then absorb m' 0%nat (keccak_f A')
      else absorb m' (S pos) A'
  end.

Definition lane_bytes (l : Z) : list Z :=
  map (fun k => Z.land (Z.shiftr l (8 * Z.of_nat k)) 255) (seq 0 8).

(** Big-endian value of a byte string. *)
Definition be_value (bs : list Z) : Z := fold_left (fun acc b => acc * 256 + b) bs 0.

Definition digest_bytes (msg : list Z) : list Z :=
  let A := absorb (msg ++ pad (length msg)) 0%nat (repeat 0 25) in
  concat (map lane_bytes (take 4 A)).

(** The digest as a [bytes32] value. *)
Definition keccak256 (msg : list Z) : Z := be_value (digest_bytes msg).

End Keccak.

(* ===================================================================== *)
(** ** Byte encodings shared by the contracts and the relayer *)
(* ===================================================================== *)

Module Enc.
Local Open Scope Z_scope.

(** [n] bytes, big-endian: Solidity's packed encoding of a [uintN]/[bytesN]
    value and of an [address] (n = 20). *)
Fixpoint be_bytes (n : nat) (v : Z) : list Z :=
  match n with
  | O => []
  | S k => be_bytes k (v / 256) ++ [v mod 256]
  end.

Definition fold256 (bs : list Z) (acc : Z) : Z :=
  fold_left (fun a b => a * 256 + b) bs acc.

Definition fold16 (ds : list Z) (acc : Z) : Z :=
  fold_left (fun a d => a * 16 + d) ds acc.

Definition is_byte (b : Z) : Prop := 0 <= b < 256.
Definition is_nibble (d : Z) : Prop := 0 <= d < 16.

(** *** JavaScript string helpers used by [ProofGenerator.generateLeafHash] *)

(** One hexadecimal digit, as [Number.prototype.toString(16)] prints it. *)
Definition hexDigit (d : Z) : ascii :=
  match d with
  | 0 => "0" | 1 => "1" | 2 => "2" | 3 => "3" | 4 => "4" | 5 => "5" | 6 => "6"
  | 7 => "7" | 8 => "8" | 9 => "9" | 10 => "a" | 11 => "b" | 12 => "c"
  | 13 => "d" | 14 => "e" | _ => "f"
  end%char.

(** The value of a hexadecimal digit, either case, as the hex decoder of
    [Buffer.from(s, 'hex')] reads it. *)
Definition hexVal (c : ascii) : option Z :=
  let n := Z.of_nat (nat_of_ascii c) in
  if (48 <=? n) && (n <=? 57) then Some (n - 48)
  else if (97 <=? n) && (n <=? 102) then Some (n - 87)
  else if (65 <=? n) && (n <=? 70) then Some (n - 55)
  else None.

(** Hex digits of a non-negative integer, least significant first. *)
Fixpoint digitsLE (fuel : nat) (n : Z) : list Z :=
  match fuel with
  | O => []
  | S f => if n <? 16 then [n] else (n mod 16) :: digitsLE f (n / 16)
  end.

Definition string_of_digits (ds : list Z) : string :=
  fold_right (fun d s => String (hexDigit d) s) EmptyString ds.

(** [n.toString(16)] for an integer [n] (a [bigint], or a [number] that is a
    safe integer): lower-case digits, no leading zero, a minus sign if
    negative. *)
Definition toString16 (n : Z) : string :=
  let render m := string_of_digits (rev (digitsLE (S (Z.to_nat (Z.log2 m))) m)) in
  if n <? 0 then String "-"%char (render (- n)) else render n.

(** [s.padStart(len, c)] for a one-character filler. *)
Definition padStart (len : nat) (c : ascii) (s : string) : string :=
  fold_right String s (repeat c (len - String.length s)).

(** [s.slice(k)] for 0 <= k. *)
Fixpoint slice (k : nat) (s : string) : string :=
  match k, s with
  | S k', String _ r => slice k' r
  | _, _ => s
  end.

(** [Buffer.from(s, 'hex')]: one byte per pair of hex digits, stopping at the
    first pair that is not hexadecimal; a trailing odd character is dropped. *)
Fixpoint BufferFromHex (s : string) : list Z :=
  match s with
  | String a (String b rest) =>
      match hexVal a, hexVal b with
      | Some x, Some y => (16 * x + y) :: BufferFromHex rest
      | _, _ => []
      end
  | _ => []
  end.

(** All characters read as hex digits. *)
Fixpoint parseHexDigits (s : string) : option (list Z) :=
  match s with
  | EmptyString => Some []
  | String c r =>
      match hexVal c, parseHexDigits r with
      | Some d, Some ds => Some (d :: ds)
      | _, _ => None
      end
  end.

Definition decVal (c : ascii) : option Z :=
  let n := Z.of_nat (nat_of_ascii c) in
  if (48 <=? n) && (n <=? 57) then Some (n - 48) else None.

Fixpoint parseDec (s : string) (acc : Z) : option Z :=
  match s with
  | EmptyString => Some acc
  | String c r =>
      match decVal c with
      | Some d => parseDec r (acc * 10 + d)
      | None => None
      end
  end.

(** *** [BigInt(s)] of a string

    A string is held as its characters of code below 256.  [BigInt] reads a
    StringIntegerLiteral: white space on both sides is skipped; what is left
    is empty (0n), decimal digits with an optional sign, or a literal with
    the prefix 0x, 0o or 0b (either case, no sign) and at least one digit of
    that radix.  [None] stands for the SyntaxError thrown on other text. *)

(** White space and line terminators: TAB, LF, VT, FF, CR, SP, NBSP. *)
Definition isWhiteSpace (c : ascii) : bool :=
  let n := Z.of_nat (nat_of_ascii c) in
  ((9 <=? n) && (n <=? 13)) || (n =? 32) || (n =? 160).

Fixpoint trimStart (s : string) : string :=
  match s with
  | EmptyString => EmptyString
  | String c r => if isWhiteSpace c then trimStart r else s
  end.

Fixpoint trimEnd (s : string) : string :=
  match s with
  | EmptyString => EmptyString
  | String c r =>
      match trimEnd r with
      | EmptyString => if isWhiteSpace c then EmptyString else String c EmptyString
      | r' => String c r'
      end
  end.

Definition trim (s : string) : string := trimEnd (trimStart s).

(** The radix announced by the second character of a prefixed literal. *)
Definition radixOf (c : ascii) : option Z :=
  let n := Z.of_nat (nat_of_ascii c) in
  if (n =? 120) || (n =? 88) then Some 16
  else if (n =? 111) || (n =? 79) then Some 8
  else if (n =? 98) || (n =? 66) then Some 2
  else None.

(** All characters are digits of the radix. *)
Fixpoint parseRadix (radix : Z) (s : string) (acc : Z) : option Z :=
  match s with
  | EmptyString => Some acc
  | String c r =>
      match hexVal c with
      | Some d => if d <? radix then parseRadix radix r (acc * radix + d) else None
      | None => None
      end
  end.

(** Decimal digits with an optional sign; the empty string is 0n. *)
Definition signedDecimal (s : string) : option Z :=
  match s with
  | EmptyString => Some 0
  | String "-"%char (String c r) => Z.opp <$> parseDec (String c r) 0
  | String "+"%char (String c r) => parseDec (String c r) 0
  | String "-"%char EmptyString | String "+"%char EmptyString => None
  | _ => parseDec s 0
  end.

Definition BigInt (s : string) : option Z :=
  match trim s with
  | String a (String b (String c r)) =>
      match (if Ascii.eqb a "0"%char then radixOf b else None) with
      | Some radix => parseRadix radix (String c r) 0
      | None => signedDecimal (trim s)
      end
  | t => signedDecimal t
  end.

(** The 20-byte address written by a "0x"-prefixed string of 40 hex digits. *)
Definition addressOf (s : string) : option Z :=
  match s with
  | String "0"%char (String "x"%char h) =>
      if (String.length h =? 40)%nat
      then (fun ds => fold16 ds 0) <$> parseHexDigits h
      else None
  | _ => None
  end.

End Enc.

(* ===================================================================== *)
(** ** contracts/libraries/MessageLib.sol and MerkleProof.sol *)
(* ===================================================================== *)

Module MessageLib.
Import Enc.

(** [abi.encodePacked(sender, recipient, amount, nonce, sourceChainId,
    destinationChainId, timestamp)]: two addresses of 20 bytes and five
    [uint256] of 32 bytes, concatenated without padding. *)
Definition encodePacked (sender recipient amount nonce sourceChainId
                         destinationChainId timestamp : Z) : list Z :=
  be_bytes 20 sender ++ be_bytes 20 recipient ++ be_bytes 32 amount ++
  be_bytes 32 nonce ++ be_bytes 32 sourceChainId ++
  be_bytes 32 destinationChainId ++ be_bytes 32 timestamp.

Definition generateLeafHash (sender recipient amount nonce sourceChainId
                             destinationChainId timestamp : Z) : Z :=
  Keccak.keccak256 (encodePacked sender recipient amount nonce sourceChainId
                                 destinationChainId timestamp).

End MessageLib.

Module MerkleProof.
Import Enc.
Local Open Scope Z_scope.

(** [mstore(0x00, a); mstore(0x20, b); keccak256(0x00, 0x40)] *)
Definition _efficientHash (a b : Z) : Z := Keccak.keccak256 (be_bytes 32 a ++ be_bytes 32 b).

Definition _hashPair (a b : Z) : Z :=
  if a <? b then _efficientHash a b else _efficientHash b a.

Definition processProof (proof : list Z) (leaf : Z) : Z :=
  fold_left _hashPair proof leaf.

Definition verify (proof : list Z) (root leaf : Z) : bool :=
  processProof proof leaf =? root.

End MerkleProof.

(* ===================================================================== *)
(** ** The Merkle tree of the relayer (package merkletreejs) *)
(* ===================================================================== *)

Module MerkleTreeJs.
Import Enc.
Local Open Scope Z_scope.

(** Modelled from the spec: the [MerkleTree] class of the merkletreejs package,
    which [ProofGenerator] instantiates but whose code is not part of the
    sources.  Section 4.1 of the specification gives its behaviour: sibling
    pairs are combined bottom-up, each pair hashed after sorting the two
    digests ascending; a single leaf is its own root; a proof is the list of
    sibling digests from the leaf to the root; verification folds the leaf
    through the proof with the same pairing.  The odd-node policy is the one
    of the package as configured here ([sortPairs: true], [hashLeaves: false],
    no duplication): an unpaired last node moves up unchanged.  Digests are
    [bytes32] values; the hash function is [keccak256] on the 64 bytes of the
    sorted pair. *)
Definition combine (left right : Z) : Z :=
  if left <=? right
  then Keccak.keccak256 (be_bytes 32 left ++ be_bytes 32 right)
  else Keccak.keccak256 (be_bytes 32 right ++ be_bytes 32 left).

(** One level up. *)
Fixpoint createLayer (nodes : list Z) : list Z :=
  match nodes with
  | a :: b :: rest => combine a b :: createLayer rest
  | [a] => [a]
  | [] => []
  end.

(** [while (nodes.length > 1)]: the layers above [nodes].  The loop runs fewer
    than [length nodes] times; [fuel] bounds it. *)
Fixpoint createHashes (fuel : nat) (nodes : list Z) : list (list Z) :=
  match fuel with
  | O => []
  | S f =>
      if (1 <? length nodes)%nat
      then let up := createLayer nodes in up :: createHashes f up
      else []
  end.

Record MerkleTree := {
  leaves : list Z;
  layers : list (list Z)
}.

Definition new (lvs : list Z) : MerkleTree :=
  {| leaves := lvs; layers := lvs :: createHashes (length lvs) lvs |}.

(** [getHexRoot]: first node of the top layer; [None] is the empty root "0x"
    of a tree without leaves. *)
Definition getRoot (t : MerkleTree) : option Z := last (layers t) ≫= head.

(** The index used by [getProof(leaf)]: the last position holding [leaf]. *)
Fixpoint lastIndex (i : nat) (lvs : list Z) (leaf : Z) (found : option nat) : option nat :=
  match lvs with
  | [] => found
  | x :: rest => lastIndex (S i) rest leaf (if x =? leaf then Some i else found)
  end.

Fixpoint proofFrom (ls : list (list Z)) (index : nat) : list Z :=
  match ls with
  | [] => []
  | layer :: rest =>
      let pairIndex := if Nat.odd index then (index - 1)%nat else (index + 1)%nat in
      match layer !! pairIndex with
      | Some sibling => sibling :: proofFrom rest (index / 2)%nat
      | None => proofFrom rest (index / 2)%nat
      end
  end.

(** [getHexProof(leaf)]: empty when the leaf is not in the tree. *)
Definition getProof (t : MerkleTree) (leaf : Z) : list Z :=
  match lastIndex 0 (leaves t) leaf None with
  | Some index => proofFrom (layers t) index
  | None => []
  end.

(** [verify(proof, targetNode, root)] with [sortPairs]. *)
Definition verifyStep (hash data : Z) : Z :=
  if hash <? data
  then Keccak.keccak256 (be_bytes 32 hash ++ be_bytes 32 data)
  else Keccak.keccak256 (be_bytes 32 data ++ be_bytes 32 hash).

Definition verify (proof : list Z) (targetNode : Z) (root : option Z) : bool :=
  match root with
  | Some r => fold_left verifyStep proof targetNode =? r
  | None => false
  end.

End MerkleTreeJs.

(* ===================================================================== *)
(** ** relayer/src/proofGenerator.ts *)
(* ===================================================================== *)

Module ProofGenerator.
Import Enc.
Local Open Scope Z_scope.

(** [interface Transaction].  A [number] field holds an integer; only the safe
    integers, below 2^53, are certain to be held and printed exactly. *)
Record Transaction := {
  sender : string;
  recipient : string;
  amount : string;
  nonce : Z;
  sourceChainId : Z;
  destinationChainId : Z;
  timestamp : Z
}.

Definition word (n : Z) : list Z := BufferFromHex (padStart 64 "0"%char (toString16 n)).

(** The bytes given to [keccak256]; [None] when [BigInt(tx.amount)] throws. *)
Definition encode (tx : Transaction) : option (list Z) :=
  a ← BigInt (amount tx);
  Some (BufferFromHex (slice 2 (sender tx)) ++
        BufferFromHex (slice 2 (recipient tx)) ++
        word a ++ word (nonce tx) ++ word (sourceChainId tx) ++
        word (destinationChainId tx) ++ word (timestamp tx)).

Definition generateLeafHash (tx : Transaction) : option Z :=
  Keccak.keccak256 <$> encode tx.

Definition buildMerkleTree (transactions : list Transaction) : option MerkleTreeJs.MerkleTree :=
  MerkleTreeJs.new <$> mapM generateLeafHash transactions.

Record ProofAndRoot := { proof : list Z; root : option Z }.

Definition generateProof (transactions : list Transaction) (targetTx : Transaction)
  : option ProofAndRoot :=
  tree ← buildMerkleTree transactions;
  leafHash ← generateLeafHash targetTx;
  Some {| proof := MerkleTreeJs.getProof tree leafHash;
          root := MerkleTreeJs.getRoot tree |}.

Definition verifyProof (leafHash : Z) (prf : list Z) (rt : option Z) : bool :=
  MerkleTreeJs.verify prf leafHash rt.

(** [Map.prototype.set]: a later entry for a key replaces the earlier one. *)
Definition generateBatchProofs (transactions : list Transaction)
  : option (gmap Z ProofAndRoot) :=
  tree ← buildMerkleTree transactions;
  let rt := MerkleTreeJs.getRoot tree in
  foldl (fun acc tx =>
           proofs ← acc;
           leafHash ← generateLeafHash tx;
           Some (<[nonce tx := {| proof := MerkleTreeJs.getProof tree leafHash;
                                   root := rt |}]> proofs))
        (Some ∅) transactions.

Definition getMerkleRoot (transactions : list Transaction) : option (option Z) :=
  MerkleTreeJs.getRoot <$> buildMerkleTree transactions.

(** [validateTransaction]: [None] when [BigInt(tx.amount)] throws. *)
Definition validateTransaction (tx : Transaction) : option bool :=
  if bool_decide (sender tx = EmptyString) || bool_decide (recipient tx = EmptyString)
  then Some false
  else
    a ← BigInt (amount tx);
    if a <=? 0 then Some false
    else if nonce tx <? 0 then Some false
    else if sourceChainId tx =? destinationChainId tx then Some false
    else Some true.

End ProofGenerator.

(* ===================================================================== *)
(** ** Execution model of the contracts *)
(* ===================================================================== *)

Module Evm.
Local Open Scope Z_scope.

(** Custom errors of the contracts and of the OpenZeppelin bases they inherit
    (Ownable, Pausable, ERC20), [require] strings, the arithmetic panic of
    checked [uint256] operations, and [InsufficientFunds] for a transaction
    whose sender cannot pay its [msg.value]. *)
Inductive error :=
  | InvalidProof
  | NonceAlreadyUsed (nonce : Z)
  | InvalidRoot
  | RootUpdateTooSoon
  | InvalidRelayer
  | ZeroAddress
  | InsufficientAmount
  | ExceedsMaximum
  | InvalidRecipient
  | TransactionAlreadyProcessed
  | TransferFailed
  | EnforcedPause
  | ExpectedPause
  | OwnableUnauthorizedAccount (account : Z)
  | OwnableInvalidOwner (account : Z)
  | ERC20InvalidReceiver (account : Z)
  | ERC20InsufficientBalance (account balance needed : Z)
  | ERC20InvalidSender (account : Z)
  | RequireFailed (message : string)
  | InsufficientFunds
  | Panic (code : Z).

(** A call either returns or reverts; a revert discards every state change of
    the transaction, so a reverting function yields no state. *)
Inductive result (A : Type) :=
  | Ok (a : A)
  | Revert (e : error).
Arguments Ok {A} a.
Arguments Revert {A} e.

#[export] Instance result_ret : MRet result := fun A a => Ok a.
#[export] Instance result_bind : MBind result :=
  fun A B f m => match m with Ok a => f a | Revert e => Revert e end.
#[export] Instance result_fmap : FMap result :=
  fun A B f m => match m with Ok a => Ok (f a) | Revert e => Revert e end.

Definition require (b : bool) (e : error) : result unit :=
  if b then Ok tt else Revert e.

Definition MAX_UINT256 : Z := 2 ^ 256 - 1.

(** Checked arithmetic of Solidity 0.8. *)
Definition add (a b : Z) : result Z :=
  if a + b <=? MAX_UINT256 then Ok (a + b) else Revert (Panic 0x11).

Definition sub (a b : Z) : result Z :=
  if b <=? a then Ok (a - b) else Revert (Panic 0x11).

(** Transaction context. *)
Record env := {
  msg_sender : Z;
  msg_value : Z;
  block_timestamp : Z
}.

(** [mapping(K => bool)] and [mapping(K => uint256)]: absent keys read as the
    zero value. *)
Definition flag (m : gmap Z bool) (k : Z) : bool := default false (m !! k).
Definition amountOf (m : gmap Z Z) (k : Z) : Z := default 0 (m !! k).

(** The state a transaction leaves behind. *)
Definition commit {S : Type} (r : result S) (before : S) : S :=
  match r with
  | Ok after => after
  | Revert _ => before
  end.

Definition reverted {A : Type} (r : result A) : bool :=
  match r with
  | Ok _ => false
  | Revert _ => true
  end.

End Evm.

(* ===================================================================== *)
(** ** contracts/BridgeValidator.sol *)
(* ===================================================================== *)

Module BridgeValidator.
Import Evm.
Local Open Scope Z_scope.

Inductive event :=
  | RootRegistered (root timestamp : Z)
  | TransactionValidated (nonce leafHash validator : Z)
  | RelayerUpdated (oldRelayer newRelayer : Z)
  | NonceUsed (nonce : Z)
  | OwnershipTransferred (previousOwner newOwner : Z)
  | Paused (account : Z)
  | Unpaused (account : Z).

Record state := {
  validRoots : gmap Z bool;
  usedNonces : gmap Z bool;
  validatedTransactions : Z;
  lastRootUpdate : Z;
  relayer : Z;
  owner : Z;
  paused : bool;
  events : list event
}.

Definition MIN_ROOT_UPDATE_DELAY : Z := 60.

Definition set_validRoots (f : gmap Z bool -> gmap Z bool) (s : state) : state :=
  {| validRoots := f (validRoots s); usedNonces := usedNonces s;
     validatedTransactions := validatedTransactions s;
     lastRootUpdate := lastRootUpdate s; relayer := relayer s; owner := owner s;
     paused := paused s; events := events s |}.

Definition set_usedNonces (f : gmap Z bool -> gmap Z bool) (s : state) : state :=
  {| validRoots := validRoots s; usedNonces := f (usedNonces s);
     validatedTransactions := validatedTransactions s;
     lastRootUpdate := lastRootUpdate s; relayer := relayer s; owner := owner s;
     paused := paused s; events := events s |}.

Definition set_validatedTransactions (n : Z) (s : state) : state :=
  {| validRoots := validRoots s; usedNonces := usedNonces s;
     validatedTransactions := n;
     lastRootUpdate := lastRootUpdate s; relayer := relayer s; owner := owner s;
     paused := paused s; events := events s |}.

Definition set_lastRootUpdate (t : Z) (s : state) : state :=
  {| validRoots := validRoots s; usedNonces := usedNonces s;
     validatedTransactions := validatedTransactions s;
     lastRootUpdate := t; relayer := relayer s; owner := owner s;
     paused := paused s; events := events s |}.

Definition set_relayer (a : Z) (s : state) : state :=
  {| validRoots := validRoots s; usedNonces := usedNonces s;
     validatedTransactions := validatedTransactions s;
     lastRootUpdate := lastRootUpdate s; relayer := a; owner := owner s;
     paused := paused s; events := events s |}.

Definition set_owner (a : Z) (s : state) : state :=
  {| validRoots := validRoots s; usedNonces := usedNonces s;
     validatedTransactions := validatedTransactions s;
     lastRootUpdate := lastRootUpdate s; relayer := relayer s; owner := a;
     paused := paused s; events := events s |}.

Definition set_paused (b : bool) (s : state) : state :=
  {| validRoots := validRoots s; usedNonces := usedNonces s;
     validatedTransactions := validatedTransactions s;
     lastRootUpdate := lastRootUpdate s; relayer := relayer s; owner := owner s;
     paused := b; events := events s |}.

Definition emit (ev : event) (s : state) : state :=
  {| validRoots := validRoots s; usedNonces := usedNonces s;
     validatedTransactions := validatedTransactions s;
     lastRootUpdate := lastRootUpdate s; relayer := relayer s; owner := owner s;
     paused := paused s; events := events s ++ [ev] |}.

(** Modifiers.  [nonReentrant] guards [validateTransaction] only; the
    validator calls no other contract, so its guard is never found entered
    and the modifier is the identity here. *)
Definition onlyRelayer (e : env) (s : state) : result unit :=
  require (msg_sender e =? relayer s) InvalidRelayer.

Definition onlyOwner (e : env) (s : state) : result unit :=
  require (msg_sender e =? owner s) (OwnableUnauthorizedAccount (msg_sender e)).

Definition whenNotPaused (s : state) : result unit :=
  require (negb (paused s)) EnforcedPause.

Definition whenPaused (s : state) : result unit :=
  require (paused s) ExpectedPause.

(** [constructor(address _relayer) Ownable(msg.sender)] *)
Definition constructor (e : env) (_relayer : Z) : result state :=
  _ ← require (negb (msg_sender e =? 0)) (OwnableInvalidOwner 0);
  _ ← require (negb (_relayer =? 0)) ZeroAddress;
  Ok {| validRoots := ∅; usedNonces := ∅; validatedTransactions := 0;
        lastRootUpdate := block_timestamp e; relayer := _relayer;
        owner := msg_sender e; paused := false;
        events := [OwnershipTransferred 0 (msg_sender e)] |}.

Definition registerRoot (e : env) (root : Z) (s : state) : result state :=
  _ ← onlyRelayer e s;
  _ ← whenNotPaused s;
  deadline ← add (lastRootUpdate s) MIN_ROOT_UPDATE_DELAY;
  _ ← require (negb (block_timestamp e <? deadline)) RootUpdateTooSoon;
  let s := set_validRoots (<[root := true]>) s in
  let s := set_lastRootUpdate (block_timestamp e) s in
  Ok (emit (RootRegistered root (block_timestamp e)) s).

Definition validateTransaction (e : env)
    (sender recipient amount nonce sourceChainId destinationChainId timestamp : Z)
    (proof : list Z) (root : Z) (s : state) : result (bool * state) :=
  _ ← whenNotPaused s;
  _ ← require (negb (flag (usedNonces s) nonce)) (NonceAlreadyUsed nonce);
  _ ← require (flag (validRoots s) root) InvalidRoot;
  let leafHash := MessageLib.generateLeafHash sender recipient amount nonce
                    sourceChainId destinationChainId timestamp in
  _ ← require (MerkleProof.verify proof root leafHash) InvalidProof;
  let s := set_usedNonces (<[nonce := true]>) s in
  count ← add (validatedTransactions s) 1;
  let s := set_validatedTransactions count s in
  let s := emit (TransactionValidated nonce leafHash (msg_sender e)) s in
  let s := emit (NonceUsed nonce) s in
  Ok (true, s).

(** View functions. *)
Definition verifyProof (leafHash : Z) (proof : list Z) (root : Z) (s : state) : bool :=
  if negb (flag (validRoots s) root) then false
  else MerkleProof.verify proof root leafHash.

Definition isNonceUsed (nonce : Z) (s : state) : bool := flag (usedNonces s) nonce.

Definition isRootValid (root : Z) (s : state) : bool := flag (validRoots s) root.

Definition updateRelayer (e : env) (newRelayer : Z) (s : state) : result state :=
  _ ← onlyOwner e s;
  _ ← require (negb (newRelayer =? 0)) ZeroAddress;
  let oldRelayer := relayer s in
  Ok (emit (RelayerUpdated oldRelayer newRelayer) (set_relayer newRelayer s)).

Definition pause (e : env) (s : state) : result state :=
  _ ← onlyOwner e s;
  _ ← whenNotPaused s;
  Ok (emit (Paused (msg_sender e)) (set_paused true s)).

Definition unpause (e : env) (s : state) : result state :=
  _ ← onlyOwner e s;
  _ ← whenPaused s;
  Ok (emit (Unpaused (msg_sender e)) (set_paused false s)).

Definition batchRegisterRoots (e : env) (roots : list Z) (s : state) : result state :=
  _ ← onlyRelayer e s;
  _ ← whenNotPaused s;
  deadline ← add (lastRootUpdate s) MIN_ROOT_UPDATE_DELAY;
  _ ← require (negb (block_timestamp e <? deadline)) RootUpdateTooSoon;
  let s := foldl (fun s root =>
                    emit (RootRegistered root (block_timestamp e))
                         (set_validRoots (<[root := true]>) s)) s roots in
  Ok (set_lastRootUpdate (block_timestamp e) s).

Definition invalidateRoot (e : env) (root : Z) (s : state) : result state :=
  _ ← onlyOwner e s;
  Ok (set_validRoots (<[root := false]>) s).

(** Inherited from Ownable. *)
Definition transferOwnership (e : env) (newOwner : Z) (s : state) : result state :=
  _ ← onlyOwner e s;
  _ ← require (negb (newOwner =? 0)) (OwnableInvalidOwner 0);
  Ok (emit (OwnershipTransferred (owner s) newOwner) (set_owner newOwner s)).

Definition renounceOwnership (e : env) (s : state) : result state :=
  _ ← onlyOwner e s;
  Ok (emit (OwnershipTransferred (owner s) 0) (set_owner 0 s)).

(** The state-changing entry points. *)
Inductive call :=
  | RegisterRoot (root : Z)
  | ValidateTransaction (sender recipient amount nonce sourceChainId
                         destinationChainId timestamp : Z)
                        (proof : list Z) (root : Z)
  | UpdateRelayer (newRelayer : Z)
  | Pause
  | Unpause
  | BatchRegisterRoots (roots : list Z)
  | InvalidateRoot (root : Z)
  | TransferOwnership (newOwner : Z)
  | RenounceOwnership.

Definition exec (e : env) (c : call) (s : state) : result state :=
  match c with
  | RegisterRoot root => registerRoot e root s
  | ValidateTransaction sender recipient amount nonce src dst ts proof root =>
      snd <$> validateTransaction e sender recipient amount nonce src dst ts proof root s
  | UpdateRelayer a => updateRelayer e a s
  | Pause => pause e s
  | Unpause => unpause e s
  | BatchRegisterRoots roots => batchRegisterRoots e roots s
  | InvalidateRoot root => invalidateRoot e root s
  | TransferOwnership a => transferOwnership e a s
  | RenounceOwnership => renounceOwnership e s
  end.

(** One transaction sent to the validator. *)
Definition step (s : state) (tx : env * call) : state :=
  commit (exec (fst tx) (snd tx) s) s.

(** The state after a sequence of transactions. *)
Definition run (s : state) (txs : list (env * call)) : state := foldl step s txs.

End BridgeValidator.

(* ===================================================================== *)
(** ** contracts/BridgeToken.sol *)
(* ===================================================================== *)

Module BridgeToken.
Import Evm.
Local Open Scope Z_scope.

Inductive event :=
  | TokensMinted (recipient amount nonce sourceChainTxHash timestamp : Z)
  | TokensBurned (burner recipient amount nonce timestamp leafHash : Z)
  | MaxMintAmountUpdated (oldMax newMax : Z)
  | Transfer (from to value : Z)
  | OwnershipTransferred (previousOwner newOwner : Z)
  | Paused (account : Z)
  | Unpaused (account : Z).

Record state := {
  sourceChainId : Z;
  destinationChainId : Z;
  currentNonce : Z;
  totalMinted : Z;
  totalBurned : Z;
  totalMintTransactions : Z;
  totalBurnTransactions : Z;
  processedTransactions : gmap Z bool;
  maxMintAmount : Z;
  balances : gmap Z Z;
  totalSupply : Z;
  owner : Z;
  paused : bool;
  events : list event
}.

Definition MIN_AMOUNT : Z := 10 ^ 15.

Definition onlyOwner (e : env) (t : state) : result unit :=
  require (msg_sender e =? owner t) (OwnableUnauthorizedAccount (msg_sender e)).

Definition whenNotPaused (t : state) : result unit :=
  require (negb (paused t)) EnforcedPause.

Definition whenPaused (t : state) : result unit :=
  require (paused t) ExpectedPause.

(** [constructor(address _validator, uint256 _sourceChainId)], run on the
    chain [chainid]. *)
Definition constructor (e : env) (_validator _sourceChainId chainid : Z) : result state :=
  _ ← require (negb (msg_sender e =? 0)) (OwnableInvalidOwner 0);
  _ ← require (negb (_validator =? 0)) ZeroAddress;
  Ok {| sourceChainId := _sourceChainId; destinationChainId := chainid;
        currentNonce := 1; totalMinted := 0; totalBurned := 0;
        totalMintTransactions := 0; totalBurnTransactions := 0;
        processedTransactions := ∅; maxMintAmount := 10 ^ 19;
        balances := ∅; totalSupply := 0; owner := msg_sender e;
        paused := false; events := [OwnershipTransferred 0 (msg_sender e)] |}.

(** [mint].  The call [validator.validateTransaction(...)] is made by the
    token contract, whose address is [self]; a revert of the validator aborts
    the whole transaction.  [_mint] is ERC20's, through the [_update] override
    ([whenNotPaused]). *)
Definition mint (self : Z) (e : env)
    (sender recipient amount nonce timestamp sourceChainTxHash : Z)
    (proof : list Z) (root : Z)
    (v : BridgeValidator.state) (t : state)
  : result (BridgeValidator.state * state) :=
  _ ← whenNotPaused t;
  _ ← require (negb (recipient =? 0)) InvalidRecipient;
  _ ← require (negb (amount <? MIN_AMOUNT)) InsufficientAmount;
  _ ← require (negb (maxMintAmount t <? amount)) ExceedsMaximum;
  let leafHash := MessageLib.generateLeafHash sender recipient amount nonce
                    (sourceChainId t) (destinationChainId t) timestamp in
  _ ← require (negb (flag (processedTransactions t) leafHash)) TransactionAlreadyProcessed;
  '(isValid, v') ← BridgeValidator.validateTransaction
                     {| msg_sender := self; msg_value := 0;
                        block_timestamp := block_timestamp e |}
                     sender recipient amount nonce
                     (sourceChainId t) (destinationChainId t) timestamp proof root v;
  _ ← require isValid InvalidProof;
  minted ← add (totalMinted t) amount;
  mintTxs ← add (totalMintTransactions t) 1;
  _ ← require (negb (recipient =? 0)) (ERC20InvalidReceiver 0);
  _ ← whenNotPaused t;
  supply ← add (totalSupply t) amount;
  Ok (v',
      {| sourceChainId := sourceChainId t; destinationChainId := destinationChainId t;
         currentNonce := currentNonce t;
         totalMinted := minted; totalBurned := totalBurned t;
         totalMintTransactions := mintTxs;
         totalBurnTransactions := totalBurnTransactions t;
         processedTransactions := <[leafHash := true]> (processedTransactions t);
         maxMintAmount := maxMintAmount t;
         balances := <[recipient := amountOf (balances t) recipient + amount]> (balances t);
         totalSupply := supply; owner := owner t; paused := paused t;
         events := events t ++
                   [Transfer 0 recipient amount;
                    TokensMinted recipient amount nonce sourceChainTxHash
                                 (block_timestamp e)] |}).

Definition burnForBridge (e : env) (amount recipient : Z) (t : state) : result state :=
  _ ← whenNotPaused t;
  _ ← require (negb (recipient =? 0)) InvalidRecipient;
  _ ← require (negb (amount <? MIN_AMOUNT)) InsufficientAmount;
  _ ← require (amount <=? amountOf (balances t) (msg_sender e))
              (RequireFailed "Insufficient balance");
  let nonce := currentNonce t in
  next ← add (currentNonce t) 1;
  let timestamp := block_timestamp e in
  let leafHash := MessageLib.generateLeafHash (msg_sender e) recipient amount nonce
                    (destinationChainId t) (sourceChainId t) timestamp in
  burned ← add (totalBurned t) amount;
  burnTxs ← add (totalBurnTransactions t) 1;
  _ ← require (negb (msg_sender e =? 0)) (ERC20InvalidSender 0);
  _ ← whenNotPaused t;
  let fromBalance := amountOf (balances t) (msg_sender e) in
  _ ← require (amount <=? fromBalance)
              (ERC20InsufficientBalance (msg_sender e) fromBalance amount);
  Ok {| sourceChainId := sourceChainId t; destinationChainId := destinationChainId t;
        currentNonce := next;
        totalMinted := totalMinted t; totalBurned := burned;
        totalMintTransactions := totalMintTransactions t;
        totalBurnTransactions := burnTxs;
        processedTransactions := <[leafHash := true]> (processedTransactions t);
        maxMintAmount := maxMintAmount t;
        balances := <[msg_sender e := fromBalance - amount]> (balances t);
        totalSupply := totalSupply t - amount; owner := owner t; paused := paused t;
        events := events t ++
                  [Transfer (msg_sender e) 0 amount;
                   TokensBurned (msg_sender e) recipient amount nonce timestamp leafHash] |}.

Definition with_admin (maxMint : Z) (p : bool) (evs : list event) (t : state) : state :=
  {| sourceChainId := sourceChainId t; destinationChainId := destinationChainId t;
     currentNonce := currentNonce t;
     totalMinted := totalMinted t; totalBurned := totalBurned t;
     totalMintTransactions := totalMintTransactions t;
     totalBurnTransactions := totalBurnTransactions t;
     processedTransactions := processedTransactions t;
     maxMintAmount := maxMint;
     balances := balances t; totalSupply := totalSupply t; owner := owner t;
     paused := p; events := events t ++ evs |}.

Definition updateMaxMintAmount (e : env) (newMax : Z) (t : state) : result state :=
  _ ← onlyOwner e t;
  _ ← require (MIN_AMOUNT <=? newMax) (RequireFailed "Max too low");
  Ok (with_admin newMax (paused t) [MaxMintAmountUpdated (maxMintAmount t) newMax] t).

Definition pause (e : env) (t : state) : result state :=
  _ ← onlyOwner e t;
  _ ← whenNotPaused t;
  Ok (with_admin (maxMintAmount t) true [Paused (msg_sender e)] t).

Definition unpause (e : env) (t : state) : result state :=
  _ ← onlyOwner e t;
  _ ← whenPaused t;
  Ok (with_admin (maxMintAmount t) false [Unpaused (msg_sender e)] t).

End BridgeToken.

(* ===================================================================== *)
(** ** contracts/BridgeVault.sol *)
(* ===================================================================== *)

Module BridgeVault.
Import Evm.
Local Open Scope Z_scope.

Inductive event :=
  | BridgingInitiated (sender recipient amount nonce timestamp leafHash : Z)
  | BridgingCompleted (recipient amount nonce timestamp : Z)
  | MaxBridgeAmountUpdated (oldMax newMax : Z)
  | EmergencyWithdrawal (recipient amount : Z)
  | OwnershipTransferred (previousOwner newOwner : Z)
  | Paused (account : Z)
  | Unpaused (account : Z).

Record state := {
  sourceChainId : Z;
  destinationChainId : Z;
  currentNonce : Z;
  totalLocked : Z;
  totalUnlocked : Z;
  totalBridgeTransactions : Z;
  maxBridgeAmount : Z;
  processedTransactions : gmap Z bool;
  owner : Z;
  paused : bool;
  events : list event
}.

Definition MIN_BRIDGE_AMOUNT : Z := 10 ^ 15.

Definition onlyOwner (e : env) (t : state) : result unit :=
  require (msg_sender e =? owner t) (OwnableUnauthorizedAccount (msg_sender e)).

Definition whenNotPaused (t : state) : result unit :=
  require (negb (paused t)) EnforcedPause.

Definition whenPaused (t : state) : result unit :=
  require (paused t) ExpectedPause.

(** [constructor(address _validator, uint256 _destinationChainId)], run on the
    chain [chainid]. *)
Definition constructor (e : env) (_validator _destinationChainId chainid : Z) : result state :=
  _ ← require (negb (msg_sender e =? 0)) (OwnableInvalidOwner 0);
  _ ← require (negb (_validator =? 0)) ZeroAddress;
  Ok {| sourceChainId := chainid; destinationChainId := _destinationChainId;
        currentNonce := 1; totalLocked := 0; totalUnlocked := 0;
        totalBridgeTransactions := 0; maxBridgeAmount := 10 ^ 19;
        processedTransactions := ∅; owner := msg_sender e; paused := false;
        events := [OwnershipTransferred 0 (msg_sender e)] |}.

(** Ether moves between accounts of the chain: [eth] maps an address to its
    balance. *)
Definition pay (from to value : Z) (eth : gmap Z Z) : gmap Z Z :=
  let eth := <[from := amountOf eth from - value]> eth in
  <[to := amountOf eth to + value]> eth.

(** [lock(address recipient) payable]: [msg.value] reaches the vault (address
    [self]) before the body runs. *)
Definition lock (self : Z) (e : env) (recipient : Z) (eth : gmap Z Z) (t : state)
  : result (gmap Z Z * state) :=
  _ ← require (msg_value e <=? amountOf eth (msg_sender e)) InsufficientFunds;
  let eth := pay (msg_sender e) self (msg_value e) eth in
  _ ← whenNotPaused t;
  let amount := msg_value e in
  _ ← require (negb (recipient =? 0)) InvalidRecipient;
  _ ← require (negb (amount <? MIN_BRIDGE_AMOUNT)) InsufficientAmount;
  _ ← require (negb (maxBridgeAmount t <? amount)) ExceedsMaximum;
  let nonce := currentNonce t in
  next ← add (currentNonce t) 1;
  let timestamp := block_timestamp e in
  let leafHash := MessageLib.generateLeafHash (msg_sender e) recipient amount nonce
                    (sourceChainId t) (destinationChainId t) timestamp in
  locked ← add (totalLocked t) amount;
  count ← add (totalBridgeTransactions t) 1;
  Ok (eth,
      {| sourceChainId := sourceChainId t; destinationChainId := destinationChainId t;
         currentNonce := next; totalLocked := locked;
         totalUnlocked := totalUnlocked t; totalBridgeTransactions := count;
         maxBridgeAmount := maxBridgeAmount t;
         processedTransactions := <[leafHash := true]> (processedTransactions t);
         owner := owner t; paused := paused t;
         events := events t ++
                   [BridgingInitiated (msg_sender e) recipient amount nonce
                                      timestamp leafHash] |}).

(** [unlock].  [accepts] is the outcome of the recipient's code on receiving
    ether; the low-level call succeeds when the vault holds [amount] and the
    recipient accepts it.  The recipient is taken not to call back into the
    bridge. *)
Definition unlock (self : Z) (e : env)
    (sender recipient amount nonce timestamp : Z) (proof : list Z) (root : Z)
    (accepts : bool)
    (v : BridgeValidator.state) (eth : gmap Z Z) (t : state)
  : result (BridgeValidator.state * gmap Z Z * state) :=
  _ ← whenNotPaused t;
  _ ← require (negb (recipient =? 0)) InvalidRecipient;
  _ ← require (negb (amount =? 0)) InsufficientAmount;
  let leafHash := MessageLib.generateLeafHash sender recipient amount nonce
                    (destinationChainId t) (sourceChainId t) timestamp in
  _ ← require (negb (flag (processedTransactions t) leafHash)) TransactionAlreadyProcessed;
  '(isValid, v') ← BridgeValidator.validateTransaction
                     {| msg_sender := self; msg_value := 0;
                        block_timestamp := block_timestamp e |}
                     sender recipient amount nonce
                     (destinationChainId t) (sourceChainId t) timestamp proof root v;
  _ ← require isValid InvalidProof;
  unlocked ← add (totalUnlocked t) amount;
  let success := (amount <=? amountOf eth self) && accepts in
  _ ← require success TransferFailed;
  Ok (v', pay self recipient amount eth,
      {| sourceChainId := sourceChainId t; destinationChainId := destinationChainId t;
         currentNonce := currentNonce t; totalLocked := totalLocked t;
         totalUnlocked := unlocked;
         totalBridgeTransactions := totalBridgeTransactions t;
         maxBridgeAmount := maxBridgeAmount t;
         processedTransactions := <[leafHash := true]> (processedTransactions t);
         owner := owner t; paused := paused t;
         events := events t ++
                   [BridgingCompleted recipient amount nonce (block_timestamp e)] |}).

Definition with_admin (maxBridge : Z) (p : bool) (evs : list event) (t : state) : state :=
  {| sourceChainId := sourceChainId t; destinationChainId := destinationChainId t;
     currentNonce := currentNonce t; totalLocked := totalLocked t;
     totalUnlocked := totalUnlocked t;
     totalBridgeTransactions := totalBridgeTransactions t;
     maxBridgeAmount := maxBridge;
     processedTransactions := processedTransactions t;
     owner := owner t; paused := p; events := events t ++ evs |}.

Definition updateMaxBridgeAmount (e : env) (newMax : Z) (t : state) : result state :=
  _ ← onlyOwner e t;
  _ ← require (MIN_BRIDGE_AMOUNT <=? newMax) (RequireFailed "Max too low");
  Ok (with_admin newMax (paused t) [MaxBridgeAmountUpdated (maxBridgeAmount t) newMax] t).

Definition pause (e : env) (t : state) : result state :=
  _ ← onlyOwner e t;
  _ ← whenNotPaused t;
  Ok (with_admin (maxBridgeAmount t) true [Paused (msg_sender e)] t).

Definition unpause (e : env) (t : state) : result state :=
  _ ← onlyOwner e t;
  _ ← whenPaused t;
  Ok (with_admin (maxBridgeAmount t) false [Unpaused (msg_sender e)] t).

Definition emergencyWithdraw (self : Z) (e : env) (recipient amount : Z) (accepts : bool)
    (eth : gmap Z Z) (t : state) : result (gmap Z Z * state) :=
  _ ← onlyOwner e t;
  _ ← whenPaused t;
  _ ← require (negb (recipient =? 0)) InvalidRecipient;
  _ ← require (amount <=? amountOf eth self) (RequireFailed "Insufficient balance");
  _ ← require accepts TransferFailed;
  Ok (pay self recipient amount eth,
      with_admin (maxBridgeAmount t) (paused t) [EmergencyWithdrawal recipient amount] t).

(** [receive() external payable] *)
Definition receive (self : Z) (e : env) (eth : gmap Z Z) (t : state)
  : result (gmap Z Z * state) :=
  _ ← require (msg_value e <=? amountOf eth (msg_sender e)) InsufficientFunds;
  Ok (pay (msg_sender e) self (msg_value e) eth, t).

End BridgeVault.

(* ===================================================================== *)
(** ** The two ledgers: a validator with the contract that consumes it *)
(* ===================================================================== *)

(** The destination of lock-originated transfers: BridgeValidator and
    BridgeToken deployed together. *)
Module TokenLedger.
Import Evm.
Local Open Scope Z_scope.

Record world := {
  tokenAddress : Z;
  validator : BridgeValidator.state;
  token : BridgeToken.state
}.

Inductive call :=
  | Mint (sender recipient amount nonce timestamp sourceChainTxHash : Z)
         (proof : list Z) (root : Z)
  | BurnForBridge (amount recipient : Z)
  | UpdateMaxMintAmount (newMax : Z)
  | PauseToken
  | UnpauseToken
  | Validator (c : BridgeValidator.call).

Definition with_token (w : world) (t : BridgeToken.state) : world :=
  {| tokenAddress := tokenAddress w; validator := validator w; token := t |}.

Definition exec (e : env) (c : call) (w : world) : result world :=
  match c with
  | Mint sender recipient amount nonce timestamp txHash proof root =>
      '(v, t) ← BridgeToken.mint (tokenAddress w) e sender recipient amount nonce
                  timestamp txHash proof root (validator w) (token w);
      Ok {| tokenAddress := tokenAddress w; validator := v; token := t |}
  | BurnForBridge amount recipient =>
      with_token w <$> BridgeToken.burnForBridge e amount recipient (token w)
  | UpdateMaxMintAmount newMax =>
      with_token w <$> BridgeToken.updateMaxMintAmount e newMax (token w)
  | PauseToken => with_token w <$> BridgeToken.pause e (token w)
  | UnpauseToken => with_token w <$> BridgeToken.unpause e (token w)
  | Validator c =>
      v ← BridgeValidator.exec e c (validator w);
      Ok {| tokenAddress := tokenAddress w; validator := v; token := token w |}
  end.

Definition step (w : world) (tx : env * call) : world :=
  commit (exec (fst tx) (snd tx) w) w.

Definition run (w : world) (txs : list (env * call)) : world := foldl step w txs.

(** Deployment: the validator, then the token that refers to it. *)
Definition deploy (deployer relayer validatorAddress tokenAddr sourceChain chainid now : Z)
  : result world :=
  let e := {| msg_sender := deployer; msg_value := 0; block_timestamp := now |} in
  v ← BridgeValidator.constructor e relayer;
  t ← BridgeToken.constructor e validatorAddress sourceChain chainid;
  Ok {| tokenAddress := tokenAddr; validator := v; token := t |}.

(** A transaction that reaches the validator's [validateTransaction] directly
    rather than through [mint]. *)
Definition direct_validation (tx : env * call) : bool :=
  match snd tx with
  | Validator (BridgeValidator.ValidateTransaction _ _ _ _ _ _ _ _ _) => true
  | _ => false
  end.

(** A [TokensMinted] event for the nonce is in the token's log. *)
Definition minted (w : world) (nonce : Z) : Prop :=
  ∃ recipient amount txHash timestamp,
    BridgeToken.TokensMinted recipient amount nonce txHash timestamp
      ∈ BridgeToken.events (token w).

End TokenLedger.

(** The destination of burn-originated transfers: BridgeValidator and
    BridgeVault deployed together, with the ether balances of the chain. *)
Module VaultLedger.
Import Evm.
Local Open Scope Z_scope.

Record world := {
  vaultAddress : Z;
  validator : BridgeValidator.state;
  vault : BridgeVault.state;
  eth : gmap Z Z
}.

Inductive call :=
  | Lock (recipient : Z)
  | Unlock (sender recipient amount nonce timestamp : Z) (proof : list Z) (root : Z)
           (accepts : bool)
  | UpdateMaxBridgeAmount (newMax : Z)
  | PauseVault
  | UnpauseVault
  | EmergencyWithdraw (recipient amount : Z) (accepts : bool)
  | Receive
  | Validator (c : BridgeValidator.call).

Definition with_vault (w : world) (t : BridgeVault.state) : world :=
  {| vaultAddress := vaultAddress w; validator := validator w; vault := t; eth := eth w |}.

Definition with_funds (w : world) (p : gmap Z Z * BridgeVault.state) : world :=
  {| vaultAddress := vaultAddress w; validator := validator w;
     vault := snd p; eth := fst p |}.

Definition exec (e : env) (c : call) (w : world) : result world :=
  match c with
  | Lock recipient =>
      with_funds w <$> BridgeVault.lock (vaultAddress w) e recipient (eth w) (vault w)
  | Unlock sender recipient amount nonce timestamp proof root accepts =>
      '(v, funds, t) ← BridgeVault.unlock (vaultAddress w) e sender recipient amount
                         nonce timestamp proof root accepts
                         (validator w) (eth w) (vault w);
      Ok {| vaultAddress := vaultAddress w; validator := v; vault := t; eth := funds |}
  | UpdateMaxBridgeAmount newMax =>
      with_vault w <$> BridgeVault.updateMaxBridgeAmount e newMax (vault w)
  | PauseVault => with_vault w <$> BridgeVault.pause e (vault w)
  | UnpauseVault => with_vault w <$> BridgeVault.unpause e (vault w)
  | EmergencyWithdraw recipient amount accepts =>
      with_funds w <$> BridgeVault.emergencyWithdraw (vaultAddress w) e recipient
                         amount accepts (eth w) (vault w)
  | Receive =>
      with_funds w <$> BridgeVault.receive (vaultAddress w) e (eth w) (vault w)
  | Validator c =>
      v ← BridgeValidator.exec e c (validator w);
      Ok {| vaultAddress := vaultAddress w; validator := v; vault := vault w;
            eth := eth w |}
  end.

Definition step (w : world) (tx : env * call) : world :=
  commit (exec (fst tx) (snd tx) w) w.

Definition run (w : world) (txs : list (env * call)) : world := foldl step w txs.

Definition deploy (deployer relayer validatorAddress vaultAddr destinationChain chainid now : Z)
    (funds : gmap Z Z) : result world :=
  let e := {| msg_sender := deployer; msg_value := 0; block_timestamp := now |} in
  v ← BridgeValidator.constructor e relayer;
  t ← BridgeVault.constructor e validatorAddress destinationChain chainid;
  Ok {| vaultAddress := vaultAddr; validator := v; vault := t; eth := funds |}.

Definition direct_validation (tx : env * call) : bool :=
  match snd tx with
  | Validator (BridgeValidator.ValidateTransaction _ _ _ _ _ _ _ _ _) => true
  | _ => false
  end.

(** A [BridgingCompleted] event for the nonce is in the vault's log. *)
Definition unlocked (w : world) (nonce : Z) : Prop :=
  ∃ recipient amount timestamp,
    BridgeVault.BridgingCompleted recipient amount nonce timestamp
      ∈ BridgeVault.events (vault w).

End VaultLedger.

(* ===================================================================== *)
(** ** relayer/src/database.ts *)
(* ===================================================================== *)

Module Js.
Local Open Scope Z_scope.

(** A call returns or throws an [Error] with a message. *)
Inductive outcome (A : Type) :=
  | Return (a : A)
  | Throw (message : string).
Arguments Return {A} a.
Arguments Throw {A} message.

Fixpoint digits10 (fuel : nat) (n : Z) : list Z :=
  match fuel with
  | O => []
  | S f => if n <? 10 then [n] else (n mod 10) :: digits10 f (n / 10)
  end.

(** [n.toString()] of a non-negative [bigint]. *)
Definition toString (n : Z) : string :=
  fold_right (fun d s => String (Enc.hexDigit d) s) EmptyString
             (rev (digits10 (S (Z.to_nat (Z.log2 n))) n)).

(** [Number(n)] of a non-negative [bigint] below 2^1024: the nearest double,
    ties to even. *)
Definition Number (n : Z) : Z :=
  let e := Z.log2 n - 52 in
  if e <=? 0 then n
  else
    let q := Z.shiftr n e in
    let r := n - Z.shiftl q e in
    let half := Z.shiftl 1 (e - 1) in
    let q' := if r <? half then q
              else if half <? r then q + 1
              else if Z.even q then q else q + 1 in
    Z.shiftl q' e.

End Js.

Module Database.
Import Js.
Local Open Scope Z_scope.

Inductive Status := pending | processing | completed | failed.

#[export] Instance Status_eq_dec : EqDecision Status.
Proof. solve_decision. Defined.

(** [interface BridgeTransaction].  Digests are [bytes32] values; [proof] is
    the JSON text of the proof, held as the list it encodes; a merkle root is
    [None] for the empty root "0x".  Nullable columns are options. *)
Record BridgeTransaction := {
  id : Z;
  txHash : string;
  sourceChain : string;
  destChain : string;
  sender : string;
  recipient : string;
  amount : string;
  nonce : Z;
  timestamp : Z;
  leafHash : Z;
  proof : option (list Z);
  merkleRoot : option (option Z);
  status : Status;
  destTxHash : option string;
  errorMessage : option string;
  createdAt : Z;
  updatedAt : Z
}.

(** The table [bridge_transactions], rows in insertion order.  The column
    [txHash] is declared UNIQUE. *)
Abbreviation table := (list BridgeTransaction).

Definition unique (db : table) : Prop := NoDup (txHash <$> db).

Definition with_id (i : Z) (r : BridgeTransaction) : BridgeTransaction :=
  {| id := i; txHash := txHash r; sourceChain := sourceChain r;
     destChain := destChain r; sender := sender r; recipient := recipient r;
     amount := amount r; nonce := nonce r; timestamp := timestamp r;
     leafHash := leafHash r; proof := proof r; merkleRoot := merkleRoot r;
     status := status r; destTxHash := destTxHash r;
     errorMessage := errorMessage r; createdAt := createdAt r;
     updatedAt := updatedAt r |}.

Definition getTransaction (h : string) (db : table) : option BridgeTransaction :=
  find (fun r => bool_decide (txHash r = h)) db.

(** Every writing method runs its SQL statement on the database held in
    memory and then [save()], which exports the database and writes the file
    ([fs.mkdirSync], [fs.writeFileSync]).  [saved] is what that [save()]
    finds: it returns, or it throws with the statement already applied.  The
    table is the database in memory, the one every method reads. *)

(** [insertTransaction]: the INSERT fails on a stored [txHash]; the new row
    gets the next AUTOINCREMENT id (no row is ever deleted), which is
    returned when [save()] has returned. *)
Definition insertTransaction (tx : BridgeTransaction) (saved : outcome unit) (db : table)
  : outcome Z * table :=
  match getTransaction (txHash tx) db with
  | Some _ => (Throw "UNIQUE constraint failed: bridge_transactions.txHash", db)
  | None =>
      let i := Z.of_nat (length db) + 1 in
      let db := db ++ [with_id i tx] in
      match saved with
      | Return _ => (Return i, db)
      | Throw m => (Throw m, db)
      end
  end.

Definition getTransactionByLeafHash (l : Z) (db : table) : option BridgeTransaction :=
  find (fun r => leafHash r =? l) db.

Definition createdBefore (a b : BridgeTransaction) : Prop := createdAt a <= createdAt b.

#[export] Instance createdBefore_dec a b : Decision (createdBefore a b).
Proof. unfold createdBefore. apply _. Defined.

(** [SELECT ... WHERE status = s ORDER BY createdAt ASC] *)
Definition selectByStatus (s : Status) (db : table) : list BridgeTransaction :=
  merge_sort createdBefore (filter (fun r => status r = s) db).

Definition getPendingTransactions (db : table) : list BridgeTransaction :=
  selectByStatus pending db.

Definition getProcessingTransactions (db : table) : list BridgeTransaction :=
  selectByStatus processing db.

(** [Partial<BridgeTransaction>] as [updateTransactionStatus] reads it: a
    field is [None] when undefined, [Some v] when set to [v] (null allowed). *)
Record Updates := {
  u_proof : option (option (list Z));
  u_merkleRoot : option (option (option Z));
  u_destTxHash : option (option string);
  u_errorMessage : option (option string)
}.

Definition noUpdates : Updates :=
  {| u_proof := None; u_merkleRoot := None; u_destTxHash := None; u_errorMessage := None |}.

Definition applyUpdates (s : Status) (now : Z) (u : Updates) (r : BridgeTransaction)
  : BridgeTransaction :=
  {| id := id r; txHash := txHash r; sourceChain := sourceChain r;
     destChain := destChain r; sender := sender r; recipient := recipient r;
     amount := amount r; nonce := nonce r; timestamp := timestamp r;
     leafHash := leafHash r;
     proof := default (proof r) (u_proof u);
     merkleRoot := default (merkleRoot r) (u_merkleRoot u);
     status := s;
     destTxHash := default (destTxHash r) (u_destTxHash u);
     errorMessage := default (errorMessage r) (u_errorMessage u);
     createdAt := createdAt r; updatedAt := now |}.

(** [updateTransactionStatus]:
    [UPDATE bridge_transactions SET status = ?, updatedAt = ?, ... WHERE txHash = ?],
    then [save()]. *)
Definition updateTransactionStatus (h : string) (s : Status) (u : Updates) (now : Z)
    (saved : outcome unit) (db : table) : outcome unit * table :=
  (saved, (fun r => if bool_decide (txHash r = h) then applyUpdates s now u r else r) <$> db).

End Database.

(* ===================================================================== *)
(** ** relayer/src/eventListener.ts *)
(* ===================================================================== *)

Module EventListener.
Import Js Database.
Local Open Scope Z_scope.

(** A [BridgingInitiated] or [TokensBurned] log as ethers delivers it: the
    decoded arguments and the hash of the emitting transaction. *)
Record BridgeEvent := {
  ev_sender : string;
  ev_recipient : string;
  ev_amount : Z;
  ev_nonce : Z;
  ev_timestamp : Z;
  ev_leafHash : Z;
  transactionHash : string
}.

Inductive ledger := Sepolia | Amoy.

Definition chainName (l : ledger) : string :=
  match l with Sepolia => "sepolia" | Amoy => "amoy" end.

Definition counterpart (l : ledger) : ledger :=
  match l with Sepolia => Amoy | Amoy => Sepolia end.

(** The row the listener inserts for an event seen on [source]. *)
Definition newRow (source : ledger) (ev : BridgeEvent) (now : Z) : BridgeTransaction :=
  {| id := 0;
     txHash := transactionHash ev;
     sourceChain := chainName source;
     destChain := chainName (counterpart source);
     sender := ev_sender ev;
     recipient := ev_recipient ev;
     amount := toString (ev_amount ev);
     nonce := Number (ev_nonce ev);
     timestamp := Number (ev_timestamp ev);
     leafHash := ev_leafHash ev;
     proof := None;
     merkleRoot := None;
     status := pending;
     destTxHash := None;
     errorMessage := None;
     createdAt := now;
     updatedAt := now |}.

(** What [waitForConfirmations] finds. *)
Inductive receipt := NoReceipt | FailedReceipt | ConfirmedReceipt.

Definition waitForConfirmations (h : string) (r : receipt) : outcome unit :=
  match r with
  | NoReceipt => Throw ("Transaction " +:+ h +:+ " not found")
  | FailedReceipt => Throw ("Transaction " +:+ h +:+ " failed")
  | ConfirmedReceipt => Return tt
  end.

(** The handler registered by [listenToSepoliaEvents] ([source] = Sepolia) and
    [listenToamoyEvents] ([source] = Amoy); errors, the one of [save()]
    included, are logged and swallowed: the table is as the INSERT left it. *)
Definition onEvent (source : ledger) (ev : BridgeEvent) (r : receipt)
    (saved : outcome unit) (now : Z) (db : table) : table :=
  match waitForConfirmations (transactionHash ev) r with
  | Throw _ => db
  | Return _ =>
      match getTransaction (transactionHash ev) db with
      | Some _ => db
      | None => snd (insertTransaction (newRow source ev now) saved db)
      end
  end.

(** One iteration of a loop of [processHistoricalEvents], on an event and
    what the [save()] of its insertion finds.  The loops run inside one
    [try]: once an insertion has thrown ([true]), nothing more is done. *)
Definition historicalStep (source : ledger) (now : Z) (acc : table * bool)
    (found : BridgeEvent * outcome unit) : table * bool :=
  let '(db, thrown) := acc in
  let '(ev, saved) := found in
  if thrown then acc
  else
    match getTransaction (transactionHash ev) db with
    | Some _ => acc
    | None =>
        match insertTransaction (newRow source ev now) saved db with
        | (Return _, db') => (db', false)
        | (Throw _, db') => (db', true)
        end
    end.

(** [processHistoricalEvents]: the Sepolia events, then the Amoy events, each
    with what the [save()] of its insertion finds. *)
Definition processHistoricalEvents
    (sepoliaEvents amoyEvents : list (BridgeEvent * outcome unit))
    (now : Z) (db : table) : table :=
  let acc := foldl (historicalStep Sepolia now) (db, false) sepoliaEvents in
  fst (foldl (historicalStep Amoy now) acc amoyEvents).

(** Events whose insertions are all written to the file. *)
Definition allSaved (events : list BridgeEvent) : list (BridgeEvent * outcome unit) :=
  (fun ev => (ev, Return tt)) <$> events.

End EventListener.

(* ===================================================================== *)
(** ** relayer/src/transactionSubmitter.ts *)
(* ===================================================================== *)

Module TransactionSubmitter.
Import Js Database.
Local Open Scope Z_scope.

Definition sepoliaChainId : Z := 11155111.
Definition amoyChainId : Z := 80002.

(** Calls the submitter makes on the destination chain. *)
Inductive request :=
  | ValidRoots (chain : string) (root : option Z)
  | RegisterRoot (chain : string) (root : option Z)
  | Mint (tx : BridgeTransaction) (proof : list Z) (root : option Z)
  | Unlock (tx : BridgeTransaction) (proof : list Z) (root : option Z).

Section Submitter.

(** The chains behind the RPC providers and the file system behind the
    database file: a state [W] and, for each call, its outcome (a thrown
    error for a revert, a timeout, a full disk, ...) and the next state.
    [validRoots] answers a boolean; the other chain calls answer the hash of
    the mined transaction; [save] is the [save()] of a database write. *)
Context {W : Type}.
Variable save : W -> outcome unit * W.
Variable validRoots : W -> string -> option Z -> outcome bool * W.
Variable sendTransaction : W -> request -> outcome string * W.

(** An event handled by the listener: where it was seen, what the wait for
    its confirmations found, what the [save()] of its insertion finds, and
    the clock reading. *)
Record arrival := {
  seenOn : EventListener.ledger;
  event : EventListener.BridgeEvent;
  found : EventListener.receipt;
  stored : outcome unit;
  seenAt : Z
}.

(** The listener and the driver share one thread: while the driver is
    suspended at an [await], handlers of the listener may run.  [meanwhile]
    gives the events handled during one suspension. *)
Variable meanwhile : W -> list arrival * W.

(** State threaded through the driver: the table, the chains and the file
    system, the chain calls made, and the tables the store went through,
    oldest first: one for every UPDATE of the driver and one for every event
    the listener handles or replays (the table as the event found it when
    nothing is inserted).  [history] is a record kept for the statements about
    single writes; the code does not read it. *)
Record driver := {
  db : table;
  world : W;
  trace : list request;
  history : list table
}.

(** The store after a write. *)
Definition wrote (t : table) (d : driver) : driver :=
  {| db := t; world := world d; trace := trace d; history := history d ++ [t] |}.

Definition handle (d : driver) (a : arrival) : driver :=
  wrote (EventListener.onEvent (seenOn a) (event a) (found a) (stored a) (seenAt a) (db d)) d.

(** An [await]. *)
Definition suspend (d : driver) : driver :=
  let '(seen, w) := meanwhile (world d) in
  foldl handle {| db := db d; world := w; trace := trace d; history := history d |} seen.

Definition generateProofForTransaction (tx : BridgeTransaction)
  : outcome ProofGenerator.ProofAndRoot :=
  let transaction :=
    {| ProofGenerator.sender := sender tx;
       ProofGenerator.recipient := recipient tx;
       ProofGenerator.amount := amount tx;
       ProofGenerator.nonce := nonce tx;
       ProofGenerator.sourceChainId :=
         if bool_decide (sourceChain tx = "sepolia") then sepoliaChainId else amoyChainId;
       ProofGenerator.destinationChainId :=
         if bool_decide (destChain tx = "amoy") then amoyChainId else sepoliaChainId;
       ProofGenerator.timestamp := timestamp tx |} in
  match ProofGenerator.generateProof [transaction] transaction with
  | Some p => Return p
  | None => Throw "Cannot convert to a BigInt"
  end.

Definition ensureRootRegistered (root : option Z) (destChain : string) (d : driver)
  : outcome unit * driver :=
  let '(isRegistered, w) := validRoots (world d) destChain root in
  let d := suspend {| db := db d; world := w;
                      trace := trace d ++ [ValidRoots destChain root];
                      history := history d |} in
  match isRegistered with
  | Throw m => (Throw m, d)
  | Return true => (Return tt, d)
  | Return false =>
      let '(receipt, w) := sendTransaction (world d) (RegisterRoot destChain root) in
      let d := suspend {| db := db d; world := w;
                          trace := trace d ++ [RegisterRoot destChain root];
                          history := history d |} in
      match receipt with
      | Throw m => (Throw m, d)
      | Return _ => (Return tt, d)
      end
  end.

Definition submitToDestinationChain (tx : BridgeTransaction) (prf : list Z)
    (root : option Z) (d : driver) : outcome string * driver :=
  let req := if bool_decide (destChain tx = "amoy")
             then Mint tx prf root else Unlock tx prf root in
  let '(receipt, w) := sendTransaction (world d) req in
  (receipt, suspend {| db := db d; world := w; trace := trace d ++ [req];
                       history := history d |}).

(** [this.db.updateTransactionStatus(h, s, u)]: the UPDATE, then [save()]. *)
Definition setStatus (h : string) (s : Status) (u : Updates) (now : Z) (d : driver)
  : outcome unit * driver :=
  let '(saved, w) := save (world d) in
  let '(written, t) := updateTransactionStatus h s u now saved (db d) in
  (written, {| db := t; world := w; trace := trace d; history := history d ++ [t] |}).

(** [processTransaction] up to the settlement of the destination call: mark
    processing, build and store the proof, register the root, submit. *)
Definition submitPhase (tx : BridgeTransaction) (now : Z) (d : driver)
  : outcome string * driver :=
  match setStatus (txHash tx) processing noUpdates now d with
  | (Throw m, d) => (Throw m, d)
  | (Return _, d) =>
      let generated := generateProofForTransaction tx in
      let d := suspend d in
      match generated with
      | Throw m => (Throw m, d)
      | Return p =>
          match setStatus (txHash tx) processing
                  {| u_proof := Some (Some (ProofGenerator.proof p));
                     u_merkleRoot := Some (Some (ProofGenerator.root p));
                     u_destTxHash := None; u_errorMessage := None |} now d with
          | (Throw m, d) => (Throw m, d)
          | (Return _, d) =>
              match ensureRootRegistered (ProofGenerator.root p) (destChain tx) d with
              | (Throw m, d) => (Throw m, d)
              | (Return _, d) =>
                  submitToDestinationChain tx (ProofGenerator.proof p)
                    (ProofGenerator.root p) d
              end
          end
      end
  end.

(** [processTransaction]: after the destination call has settled, mark
    completed with its hash. *)
Definition processTransaction (tx : BridgeTransaction) (now : Z) (d : driver)
  : outcome unit * driver :=
  match submitPhase tx now d with
  | (Throw m, d) => (Throw m, d)
  | (Return destTx, d) =>
      setStatus (txHash tx) completed
        {| u_proof := None; u_merkleRoot := None;
           u_destTxHash := Some (Some destTx); u_errorMessage := None |} now d
  end.

(** The body of the [for] loop of [processPendingTransactions]: an error of
    [processTransaction] is caught and the transfer marked failed; an error
    of that write itself leaves the loop. *)
Definition processOne (now : Z) (tx : BridgeTransaction) (d : driver)
  : outcome unit * driver :=
  match processTransaction tx now d with
  | (Return _, d) => (Return tt, d)
  | (Throw m, d) =>
      setStatus (txHash tx) failed
        {| u_proof := None; u_merkleRoot := None; u_destTxHash := None;
           u_errorMessage := Some (Some m) |} now d
  end.

(** The [for] loop over the rows selected when the round starts. *)
Fixpoint processEach (now : Z) (txs : list BridgeTransaction) (d : driver)
  : outcome unit * driver :=
  match txs with
  | [] => (Return tt, d)
  | tx :: rest =>
      match processOne now tx d with
      | (Throw m, d) => (Throw m, d)
      | (Return _, d) => processEach now rest d
      end
  end.

Definition processPendingTransactions (now : Z) (d : driver) : outcome unit * driver :=
  processEach now (getPendingTransactions (db d)) d.

(** The operations of the relay pipeline on the shared store: the live event
    handler (run while the driver sleeps between two rounds), the replay of
    past events at start-up, and one round of the driver's polling loop, whose
    error, if any, [processLoop] catches and logs.  [now] is the clock reading
    of the operation. *)
Inductive op :=
  | Observe (source : EventListener.ledger) (ev : EventListener.BridgeEvent)
            (r : EventListener.receipt) (saved : outcome unit) (now : Z)
  | Replay (sepoliaEvents amoyEvents : list (EventListener.BridgeEvent * outcome unit))
           (now : Z)
  | Poll (now : Z).

(** One iteration of a loop of [processHistoricalEvents] on the store of the
    driver. *)
Definition replayStep (source : EventListener.ledger) (now : Z) (acc : driver * bool)
    (found : EventListener.BridgeEvent * outcome unit) : driver * bool :=
  let '(d, thrown) := acc in
  if thrown then acc
  else
    let '(t, thrown) := EventListener.historicalStep source now (db d, false) found in
    (wrote t d, thrown).

Definition replay (sepoliaEvents amoyEvents : list (EventListener.BridgeEvent * outcome unit))
    (now : Z) (d : driver) : driver :=
  let acc := foldl (replayStep EventListener.Sepolia now) (d, false) sepoliaEvents in
  fst (foldl (replayStep EventListener.Amoy now) acc amoyEvents).

Definition apply (d : driver) (o : op) : driver :=
  match o with
  | Observe source ev r saved now =>
      wrote (EventListener.onEvent source ev r saved now (db d)) d
  | Replay sepoliaEvents amoyEvents now => replay sepoliaEvents amoyEvents now d
  | Poll now => snd (processPendingTransactions now d)
  end.

Definition run (d : driver) (ops : list op) : driver := foldl apply d ops.

(** A relayer process that starts on a stored table: nothing submitted yet. *)
Definition start (t : table) (w : W) : driver :=
  {| db := t; world := w; trace := []; history := [t] |}.

(** The destination call for [h] appears among the calls made. *)
Definition submitted (h : string) (calls : list request) : Prop :=
  ∃ tx prf root, txHash tx = h ∧ (Mint tx prf root ∈ calls ∨ Unlock tx prf root ∈ calls).

End Submitter.

End TransactionSubmitter.

(* ===================================================================== *)
(** ** The two ways of proving a member of a batch *)
(* ===================================================================== *)

Module Batch.
Import ProofGenerator.

(** Single path: [generateProof(txs, t)], then [verifyProof] on the leaf of
    [t].  [None] when a call throws. *)
Definition single (txs : list Transaction) (t : Transaction) : option bool :=
  p ← generateProof txs t;
  leaf ← generateLeafHash t;
  Some (verifyProof leaf (proof p) (root p)).

(** Batch path: [generateBatchProofs(txs)], the entry [proofs.get(t.nonce)],
    then [verifyProof] on the leaf of [t].  [None] when a call throws or the
    entry is missing. *)
Definition batch (txs : list Transaction) (t : Transaction) : option bool :=
  proofs ← generateBatchProofs txs;
  p ← proofs !! nonce t;
  leaf ← generateLeafHash t;
  Some (verifyProof leaf (proof p) (root p)).

End Batch.

(* ===================================================================== *)
(** ** Sample data *)
(* ===================================================================== *)

Module Samples.
Local Open Scope Z_scope.

Definition alice : string := "0x70997970C51812dc3A010C7d01b50e0d17dc79C8".
Definition bob : string := "0x3C44CdDdB6a900fa2b585dd299e03d12FA4293BC".

Definition transfer (amount : string) (nonce : Z) : ProofGenerator.Transaction :=
  {| ProofGenerator.sender := alice;
     ProofGenerator.recipient := bob;
     ProofGenerator.amount := amount;
     ProofGenerator.nonce := nonce;
     ProofGenerator.sourceChainId := 11155111;
     ProofGenerator.destinationChainId := 80002;
     ProofGenerator.timestamp := 1700000000 |}.

Definition tx1 : ProofGenerator.Transaction := transfer "1000000000000000000" 1.
Definition tx2 : ProofGenerator.Transaction := transfer "2000000000000000000" 2.
Definition tx3 : ProofGenerator.Transaction := transfer "3000000000000000000" 3.

(** A second transfer carrying nonce 1. *)
Definition tx1' : ProofGenerator.Transaction := transfer "5000000000000000000" 1.

(** [tx1] with its amount, 10^18, written as a hexadecimal literal between
    white space. *)
Definition tx1hex : ProofGenerator.Transaction := transfer " 0xDE0B6B3A7640000 " 1.

End Samples.

(** A validator deployed at time 0 by [deployer] with relayer [operator], and
    a lock-originated transfer whose leaf is registered as a single-leaf root. *)
Module Scenario.
Import Evm.
Local Open Scope Z_scope.

Definition deployer : Z := 0xA11CE.
Definition operator : Z := 0xB0B.
Definition stranger : Z := 0xC0FFEE.
Definition tokenAddr : Z := 0x70CE.
Definition vaultAddr : Z := 0x7A17.
Definition validatorAddr : Z := 0x7A11.

Definition sender : Z := 0x70997970C51812dc3A010C7d01b50e0d17dc79C8.
Definition recipient : Z := 0x3C44CdDdB6a900fa2b585dd299e03d12FA4293BC.
Definition amount : Z := 10 ^ 18.
Definition sepolia : Z := 11155111.
Definition amoy : Z := 80002.
Definition lockTime : Z := 1700000000.

Definition at_ (who now : Z) : env :=
  {| msg_sender := who; msg_value := 0; block_timestamp := now |}.

(** Leaf of the transfer with nonce 1, Sepolia to Amoy. *)
Definition leaf : Z :=
  MessageLib.generateLeafHash sender recipient amount 1 sepolia amoy lockTime.

(** Leaf of the return transfer with nonce 1, Amoy to Sepolia. *)
Definition leafBack : Z :=
  MessageLib.generateLeafHash sender recipient amount 1 amoy sepolia lockTime.

Definition genesis : BridgeValidator.state :=
  {| BridgeValidator.validRoots := ∅;
     BridgeValidator.usedNonces := ∅;
     BridgeValidator.validatedTransactions := 0;
     BridgeValidator.lastRootUpdate := 0;
     BridgeValidator.relayer := operator;
     BridgeValidator.owner := deployer;
     BridgeValidator.paused := false;
     BridgeValidator.events := [BridgeValidator.OwnershipTransferred 0 deployer] |}.

Definition validation (root : Z) : BridgeValidator.call :=
  BridgeValidator.ValidateTransaction sender recipient amount 1 sepolia amoy lockTime [] root.

End Scenario.

Module ScenarioRuns.
Import Evm Scenario.
Local Open Scope Z_scope.

(** The root is registered, the transfer validated (nonce 1 consumed). *)
Definition consumed : BridgeValidator.state :=
  BridgeValidator.run genesis
    [ (at_ operator 60, BridgeValidator.RegisterRoot leaf);
      (at_ stranger 61, validation leaf) ].

(** ... and then the owner pauses the validator. *)
Definition consumedPaused : BridgeValidator.state :=
  BridgeValidator.step consumed (at_ deployer 62, BridgeValidator.Pause).

(** The root is registered once. *)
Definition registered : BridgeValidator.state :=
  BridgeValidator.step genesis (at_ operator 60, BridgeValidator.RegisterRoot leaf).

End ScenarioRuns.

Module LedgerRuns.
Import Evm Scenario.
Local Open Scope Z_scope.

(** The Amoy side right after deployment. *)
Definition freshToken : BridgeToken.state :=
  {| BridgeToken.sourceChainId := sepolia;
     BridgeToken.destinationChainId := amoy;
     BridgeToken.currentNonce := 1;
     BridgeToken.totalMinted := 0;
     BridgeToken.totalBurned := 0;
     BridgeToken.totalMintTransactions := 0;
     BridgeToken.totalBurnTransactions := 0;
     BridgeToken.processedTransactions := ∅;
     BridgeToken.maxMintAmount := 10 ^ 19;
     BridgeToken.balances := ∅;
     BridgeToken.totalSupply := 0;
     BridgeToken.owner := deployer;
     BridgeToken.paused := false;
     BridgeToken.events := [BridgeToken.OwnershipTransferred 0 deployer] |}.

Definition fresh : TokenLedger.world :=
  {| TokenLedger.tokenAddress := tokenAddr;
     TokenLedger.validator := genesis;
     TokenLedger.token := freshToken |}.

Definition registration : env * TokenLedger.call :=
  (at_ operator 60, TokenLedger.Validator (BridgeValidator.RegisterRoot leaf)).

Definition mintCall : TokenLedger.call :=
  TokenLedger.Mint sender recipient amount 1 lockTime 0xABCD [] leaf.

(** A third party validates the transfer itself, on the validator. *)
Definition bypassed : TokenLedger.world :=
  TokenLedger.run fresh
    [ registration; (at_ stranger 61, TokenLedger.Validator (validation leaf)) ].

(** The relayer mints through the token. *)
Definition bridged : TokenLedger.world :=
  TokenLedger.run fresh [ registration; (at_ operator 61, mintCall) ].

(** The Sepolia side right after deployment, the vault holding 5 ether. *)
Definition freshVault : BridgeVault.state :=
  {| BridgeVault.sourceChainId := sepolia;
     BridgeVault.destinationChainId := amoy;
     BridgeVault.currentNonce := 1;
     BridgeVault.totalLocked := 0;
     BridgeVault.totalUnlocked := 0;
     BridgeVault.totalBridgeTransactions := 0;
     BridgeVault.maxBridgeAmount := 10 ^ 19;
     BridgeVault.processedTransactions := ∅;
     BridgeVault.owner := deployer;
     BridgeVault.paused := false;
     BridgeVault.events := [BridgeVault.OwnershipTransferred 0 deployer] |}.

Definition funds : gmap Z Z := {[ vaultAddr := 5 * 10 ^ 18 ]}.

Definition freshSource : VaultLedger.world :=
  {| VaultLedger.vaultAddress := vaultAddr;
     VaultLedger.validator := genesis;
     VaultLedger.vault := freshVault;
     VaultLedger.eth := funds |}.

Definition registrationBack : env * VaultLedger.call :=
  (at_ operator 60, VaultLedger.Validator (BridgeValidator.RegisterRoot leafBack)).

Definition unlockCall : VaultLedger.call :=
  VaultLedger.Unlock sender recipient amount 1 lockTime [] leafBack true.

Definition released : VaultLedger.world :=
  VaultLedger.run freshSource [ registrationBack; (at_ operator 61, unlockCall) ].

End LedgerRuns.

(** A lock on Sepolia observed by the relayer, and chains that accept every
    call; the state of the chains is the list of calls settled on them. *)
Module RelayRuns.
Import Js Database EventListener TransactionSubmitter.
Local Open Scope Z_scope.

Definition lockEvent : BridgeEvent :=
  {| ev_sender := Samples.alice;
     ev_recipient := Samples.bob;
     ev_amount := 10 ^ 18;
     ev_nonce := 1;
     ev_timestamp := 1700000000;
     ev_leafHash := Scenario.leaf;
     transactionHash := "0x10c4" |}.

(** An event with the zero address as recipient and a zero amount. *)
Definition malformedEvent : BridgeEvent :=
  {| ev_sender := Samples.alice;
     ev_recipient := "0x0000000000000000000000000000000000000000";
     ev_amount := 0;
     ev_nonce := 2;
     ev_timestamp := 1700000100;
     ev_leafHash := 0;
     transactionHash := "0xbad0" |}.

(** Every [save()] returns. *)
Definition saves (w : list request) : outcome unit * list request := (Return tt, w).

(** The disk is full from the moment the mint has settled: every later
    [save()] throws. *)
Definition diskFull (w : list request) : outcome unit * list request :=
  if existsb (fun req => match req with Mint _ _ _ => true | _ => false end) w
  then (Throw "ENOSPC: no space left on device, write", w)
  else (Return tt, w).

Definition rootsUnknown (w : list request) (chain : string) (root : option Z)
  : outcome bool * list request := (Return false, w).

Definition settles (w : list request) (req : request) : outcome string * list request :=
  (Return "0xd357", w ++ [req]).

(** A second lock is observed during the first suspension of the driver. *)
Definition laterEvent : BridgeEvent :=
  {| ev_sender := Samples.bob;
     ev_recipient := Samples.alice;
     ev_amount := 2 * 10 ^ 18;
     ev_nonce := 2;
     ev_timestamp := 1700000050;
     ev_leafHash := 0;
     transactionHash := "0x10c5" |}.

Definition busy (w : list request) : list arrival * list request :=
  match w with
  | [] => ([ {| seenOn := Sepolia; event := laterEvent; found := ConfirmedReceipt;
                stored := Return tt; seenAt := 2001 |} ], w)
  | _ => ([], w)
  end.

(** A lock whose nonce, 2^53 + 1, is not a JavaScript number; its leaf is the
    one the vault computes and emits. *)
Definition farEvent : BridgeEvent :=
  {| ev_sender := Samples.alice;
     ev_recipient := Samples.bob;
     ev_amount := Scenario.amount;
     ev_nonce := 2 ^ 53 + 1;
     ev_timestamp := Scenario.lockTime;
     ev_leafHash :=
       MessageLib.generateLeafHash Scenario.sender Scenario.recipient Scenario.amount
         (2 ^ 53 + 1) Scenario.sepolia Scenario.amoy Scenario.lockTime;
     transactionHash := "0xfa40" |}.

Definition farRow : BridgeTransaction := with_id 1 (newRow Sepolia farEvent 1000).

(** The store after the lock was observed. *)
Definition observed : table := onEvent Sepolia lockEvent ConfirmedReceipt (Return tt) 1000 [].

Definition lockRow : BridgeTransaction := with_id 1 (newRow Sepolia lockEvent 1000).

(** The driver processes the transfer and stops right after the destination
    call has settled, before the completed status is written. *)
Definition beforeCrash : outcome string * driver (W := list request) :=
  submitPhase saves rootsUnknown settles busy lockRow 2000 (start observed []).

Definition crashed : driver (W := list request) := snd beforeCrash.

(** A new process on the stored table: replay of the past events, then two
    rounds of the polling loop. *)
Definition restarted : driver (W := list request) :=
  run saves rootsUnknown settles busy (start (db crashed) (world crashed))
    [ Replay (allSaved [lockEvent]) [] 3000; Poll 4000; Poll 5000 ].

(** Without a crash: one round of the polling loop. *)
Definition polled : driver (W := list request) :=
  run saves rootsUnknown settles busy (start observed []) [ Poll 2000 ].

(** The same round on a disk that is full once the mint has settled. *)
Definition interrupted : driver (W := list request) :=
  run diskFull rootsUnknown settles busy (start observed []) [ Poll 2000 ].

End RelayRuns.

(* ===================================================================== *)
(** * Predicates and auxiliary functions of the statements *)
(* ===================================================================== *)

Section TreeShape.
Import MerkleTreeJs.
Local Open Scope Z_scope.

Definition pairIndex (index : nat) : nat :=
  if Nat.odd index then (index - 1)%nat else (index + 1)%nat.

Definition topOf (ls : list (list Z)) : option Z := last ls ≫= head.

End TreeShape.

Section BatchEntries.
Import ProofGenerator.
Local Open Scope Z_scope.

Definition batchStep (tree : MerkleTreeJs.MerkleTree)
    (acc : option (gmap Z ProofAndRoot)) (tx : Transaction) : option (gmap Z ProofAndRoot) :=
  proofs ← acc;
  leafHash ← generateLeafHash tx;
  Some (<[nonce tx := {| proof := MerkleTreeJs.getProof tree leafHash;
                         root := MerkleTreeJs.getRoot tree |}]> proofs).

Definition entryOf (tree : MerkleTreeJs.MerkleTree) (tx : Transaction) : option ProofAndRoot :=
  leafHash ← generateLeafHash tx;
  Some {| proof := MerkleTreeJs.getProof tree leafHash;
          root := MerkleTreeJs.getRoot tree |}.

End BatchEntries.

Section HexBytes.
Import Enc.
Local Open Scope Z_scope.

(** Bytes read from the hex digits, two at a time. *)
Fixpoint pairBytes (ds : list Z) : list Z :=
  match ds with
  | a :: b :: rest => (16 * a + b) :: pairBytes rest
  | _ => []
  end.

End HexBytes.

Section ValidatorCalls.
Import Evm BridgeValidator.
Local Open Scope Z_scope.

Definition is_validation (c : call) : bool :=
  match c with
  | ValidateTransaction _ _ _ _ _ _ _ _ _ => true
  | _ => false
  end.

End ValidatorCalls.

Section TokenInvariant.
Import Evm TokenLedger.
Local Open Scope Z_scope.

Definition consistent (w : world) : Prop :=
  forall n, flag (BridgeValidator.usedNonces (validator w)) n = true -> minted w n.

End TokenInvariant.

Section VaultInvariant.
Import Evm VaultLedger.
Local Open Scope Z_scope.

Definition settled (w : world) : Prop :=
  forall n, flag (BridgeValidator.usedNonces (validator w)) n = true -> unlocked w n.

End VaultInvariant.

Section StoreRelations.
Import Js Database.
Local Open Scope Z_scope.

(** Statuses in the order of the lifecycle: pending, then processing, then
    one of the terminal statuses completed and failed. *)
Definition forward (a b : Status) : bool :=
  match a, b with
  | pending, _ => true
  | processing, (processing | completed | failed) => true
  | completed, completed => true
  | failed, failed => true
  | _, _ => false
  end.

(** One step of the lifecycle, or none. *)
Definition next (a b : Status) : bool :=
  match a, b with
  | pending, (pending | processing) => true
  | processing, (processing | completed | failed) => true
  | completed, completed => true
  | failed, failed => true
  | _, _ => false
  end.

(** The same, and the step from completed to failed. *)
Definition nextOrRevoked (a b : Status) : bool :=
  match a, b with
  | completed, failed => true
  | _, _ => next a b
  end.

(** Rewrite the rows whose hash is [h]. *)
Definition modifyRow (h : string) (g : BridgeTransaction -> BridgeTransaction)
    (t : table) : table :=
  (fun r => if bool_decide (txHash r = h) then g r else r) <$> t.

Definition keepsHash (g : BridgeTransaction -> BridgeTransaction) : Prop :=
  forall r, txHash (g r) = txHash r.

(** Stored rows are kept as they are, and hashes stay unique. *)
Definition extends (t t' : table) : Prop :=
  (unique t -> unique t') /\
  forall h row, getTransaction h t = Some row -> getTransaction h t' = Some row.

(** The table [t'] is [t] with the row of hash [h] rewritten by [g], and
    possibly new rows. *)
Definition rewrites (h : string) (g : BridgeTransaction -> BridgeTransaction)
    (t t' : table) : Prop :=
  (unique t -> unique t') /\
  forall k row, getTransaction k t = Some row ->
                getTransaction k t' = Some (if bool_decide (k = h) then g row else row).

(** From [t] to [t'] every stored row is kept, with a status that [step]
    allows after the one it had, and hashes stay unique. *)
Definition moves (step : Status -> Status -> bool) (t t' : table) : Prop :=
  (unique t -> unique t') /\
  forall h row, getTransaction h t = Some row ->
    exists row', getTransaction h t' = Some row' /\
                 step (status row) (status row') = true.

(** [R] relates [t] to the first table of the list, and each table of the
    list to the one after it. *)
Fixpoint chain (R : table -> table -> Prop) (t : table) (tables : list table) : Prop :=
  match tables with
  | [] => True
  | t' :: rest => R t t' /\ chain R t' rest
  end.

(** The row stored under [h] has the status [s]. *)
Definition holds (h : string) (s : Status) (t : table) : Prop :=
  exists row, getTransaction h t = Some row /\ status row = s.

End StoreRelations.

Section DriverRelations.
Import Js Database TransactionSubmitter.
Local Open Scope Z_scope.

Context {W : Type}.

(** Destination calls among [calls] are for the transfer [h] only. *)
Definition onlyFor (h : string) (calls : list request) : Prop :=
  forall h', submitted h' calls -> h' = h.

(** What one operation may do to the stored rows and to the calls made:
    every row stays, its status the same or later; a row that is not pending
    stays as it is; new destination calls are for rows that were pending. *)
Definition advances (d d' : driver (W := W)) : Prop :=
  unique (db d) ->
  unique (db d') /\
  (forall h row, getTransaction h (db d) = Some row ->
     exists row', getTransaction h (db d') = Some row' /\
                  forward (status row) (status row') = true /\
                  (status row <> pending -> row' = row)) /\
  exists calls, trace d' = trace d ++ calls /\
    forall h, submitted h calls ->
      forall row, getTransaction h (db d) = Some row -> status row = pending.

(** From [d] to [d'] the store went through tables recorded in order, each
    related by [R] to the one before, the last being the table of [d']. *)
Definition logged (R : table -> table -> Prop) (d d' : driver (W := W)) : Prop :=
  exists tables,
    history d' = history d ++ tables /\ chain R (db d) tables /\
    db d' = List.last tables (db d).

End DriverRelations.

(* ===================================================================== *)
(** * The rest of the libraries, the views and the store *)
(* ===================================================================== *)

(** ** MerkleProof.sol: multi-proofs *)

Module MultiProof.
Import Evm.
Local Open Scope Z_scope.

(** A read of a memory array: [Panic(0x32)] outside its bounds. *)
Definition at_index (xs : list Z) (i : nat) : result Z :=
  match xs !! i with
  | Some x => Ok x
  | None => Revert (Panic 0x32)
  end.

(** The local variables of [processMultiProof]. *)
Record cursor := {
  hashes : list Z;
  leafPos : nat;
  hashPos : nat;
  proofPos : nat
}.

(** [leafPos < leavesLen ? leaves[leafPos++] : hashes[hashPos++]] *)
Definition take (leaves : list Z) (c : cursor) : result (Z * cursor) :=
  if (leafPos c <? length leaves)%nat
  then x ← at_index leaves (leafPos c);
       Ok (x, {| hashes := hashes c; leafPos := S (leafPos c);
                 hashPos := hashPos c; proofPos := proofPos c |})
  else x ← at_index (hashes c) (hashPos c);
       Ok (x, {| hashes := hashes c; leafPos := leafPos c;
                 hashPos := S (hashPos c); proofPos := proofPos c |}).

(** The body of the loop for index [i] and [proofFlags[i]] = [flag]. *)
Definition iteration (proof leaves : list Z) (i : nat) (flag : bool) (c : cursor)
  : result cursor :=
  '(a, c) ← take leaves c;
  '(b, c) ← (if flag then take leaves c
             else x ← at_index proof (proofPos c);
                  Ok (x, {| hashes := hashes c; leafPos := leafPos c;
                            hashPos := hashPos c; proofPos := S (proofPos c) |}));
  Ok {| hashes := <[i := MerkleProof._hashPair a b]> (hashes c);
        leafPos := leafPos c; hashPos := hashPos c; proofPos := proofPos c |}.

(** [for (uint256 i = 0; i < totalHashes; i++)], from index [i] on. *)
Fixpoint loop (proof leaves : list Z) (i : nat) (flags : list bool) (c : cursor)
  : result cursor :=
  match flags with
  | [] => Ok c
  | flag :: rest =>
      c ← iteration proof leaves i flag c;
      loop proof leaves (S i) rest c
  end.

Definition processMultiProof (proof : list Z) (proofFlags : list bool) (leaves : list Z)
  : result Z :=
  let leavesLen := Z.of_nat (length leaves) in
  let totalHashes := Z.of_nat (length proofFlags) in
  sum ← add leavesLen (Z.of_nat (length proof));
  expected ← sub sum 1;
  _ ← require (expected =? totalHashes) (RequireFailed "MerkleProof: invalid multiproof");
  c ← loop proof leaves 0 proofFlags
        {| hashes := replicate (length proofFlags) 0;
           leafPos := 0; hashPos := 0; proofPos := 0 |};
  lastIndex ← sub totalHashes 1;
  at_index (hashes c) (Z.to_nat lastIndex).

Definition multiProofVerify (proof : list Z) (proofFlags : list bool) (root : Z)
    (leaves : list Z) : result bool :=
  (fun computed => computed =? root) <$> processMultiProof proof proofFlags leaves.

End MultiProof.

(** ** MessageLib.sol: the functions on [BridgeMessage] *)

Module BridgeMessages.
Import Enc Evm.
Local Open Scope Z_scope.

Record BridgeMessage := {
  sender : Z;
  recipient : Z;
  amount : Z;
  nonce : Z;
  sourceChainId : Z;
  destinationChainId : Z;
  timestamp : Z
}.

Definition encode (message : BridgeMessage) : Z :=
  Keccak.keccak256
    (MessageLib.encodePacked (sender message) (recipient message) (amount message)
       (nonce message) (sourceChainId message) (destinationChainId message)
       (timestamp message)).

(** [abi.encode] of the seven fields: one 32-byte word each, an address
    padded on the left. *)
Definition encodeMessage (message : BridgeMessage) : list Z :=
  be_bytes 32 (sender message) ++ be_bytes 32 (recipient message) ++
  be_bytes 32 (amount message) ++ be_bytes 32 (nonce message) ++
  be_bytes 32 (sourceChainId message) ++ be_bytes 32 (destinationChainId message) ++
  be_bytes 32 (timestamp message).

(** The [k]-th 32-byte word of [data]. *)
Definition wordAt (k : nat) (data : list Z) : Z :=
  fold256 (take 32 (drop (32 * k) data)) 0.

(** [abi.decode(data, (address, address, uint256, uint256, uint256, uint256,
    uint256))]: the decoder reverts, without a reason ([None]), on data
    shorter than the seven words and on an address word with a bit set above
    the 160th; bytes after the seventh word are ignored. *)
Definition decodeMessage (data : list Z) : option BridgeMessage :=
  if (length data <? 224)%nat then None
  else if (2 ^ 160 <=? wordAt 0 data) || (2 ^ 160 <=? wordAt 1 data) then None
  else Some {| sender := wordAt 0 data; recipient := wordAt 1 data;
               amount := wordAt 2 data; nonce := wordAt 3 data;
               sourceChainId := wordAt 4 data; destinationChainId := wordAt 5 data;
               timestamp := wordAt 6 data |}.

(** The fields are values of their Solidity types. *)
Definition typed (message : BridgeMessage) : Prop :=
  0 <= sender message < 2 ^ 160 /\ 0 <= recipient message < 2 ^ 160 /\
  0 <= amount message < 2 ^ 256 /\ 0 <= nonce message < 2 ^ 256 /\
  0 <= sourceChainId message < 2 ^ 256 /\ 0 <= destinationChainId message < 2 ^ 256 /\
  0 <= timestamp message < 2 ^ 256.

End BridgeMessages.

(** ** View functions of the three contracts *)

Module ValidatorViews.
Import Evm BridgeValidator.

Definition generateLeafHash (sender recipient amount nonce sourceChainId
                             destinationChainId timestamp : Z) : Z :=
  MessageLib.generateLeafHash sender recipient amount nonce sourceChainId
    destinationChainId timestamp.

Definition getInfo (s : state) : Z * Z * bool :=
  (relayer s, validatedTransactions s, paused s).

End ValidatorViews.

Module VaultViews.
Import Evm BridgeVault.

(** [address(this).balance] *)
Definition getBalance (self : Z) (eth : gmap Z Z) : Z := amountOf eth self.

Record Stats := {
  locked : Z;
  unlocked : Z;
  balance : Z;
  transactions : Z;
  nonce : Z
}.

Definition getStats (self : Z) (eth : gmap Z Z) (t : state) : Stats :=
  {| locked := totalLocked t; unlocked := totalUnlocked t;
     balance := amountOf eth self; transactions := totalBridgeTransactions t;
     nonce := currentNonce t |}.

Definition isTransactionProcessed (leafHash : Z) (t : state) : bool :=
  flag (processedTransactions t) leafHash.

Definition previewLeafHash (sender recipient amount nonce timestamp : Z) (t : state) : Z :=
  MessageLib.generateLeafHash sender recipient amount nonce
    (sourceChainId t) (destinationChainId t) timestamp.

End VaultViews.

Module TokenViews.
Import Evm BridgeToken.

Record Stats := {
  minted : Z;
  burned : Z;
  supply : Z;
  mintTxs : Z;
  burnTxs : Z;
  nonce : Z
}.

Definition getStats (t : state) : Stats :=
  {| minted := totalMinted t; burned := totalBurned t; supply := totalSupply t;
     mintTxs := totalMintTransactions t; burnTxs := totalBurnTransactions t;
     nonce := currentNonce t |}.

Definition isTransactionProcessed (leafHash : Z) (t : state) : bool :=
  flag (processedTransactions t) leafHash.

Definition previewMintLeafHash (sender recipient amount nonce timestamp : Z) (t : state) : Z :=
  MessageLib.generateLeafHash sender recipient amount nonce
    (sourceChainId t) (destinationChainId t) timestamp.

Definition previewBurnLeafHash (burner recipient amount nonce timestamp : Z) (t : state) : Z :=
  MessageLib.generateLeafHash burner recipient amount nonce
    (destinationChainId t) (sourceChainId t) timestamp.

End TokenViews.

(** ** database.ts: statistics and the table of roots *)

Module DatabaseStats.
Import Js Database.
Local Open Scope Z_scope.

(** [SELECT COUNT( * ) FROM bridge_transactions WHERE status = s] *)
Definition countByStatus (s : Database.Status) (db : Database.table) : Z :=
  Z.of_nat (length (filter (fun r => Database.status r = s) db)).

Record Stats := {
  total : Z;
  pending : Z;
  processing : Z;
  completed : Z;
  failed : Z
}.

Definition getStats (db : Database.table) : Stats :=
  {| total := Z.of_nat (length db);
     pending := countByStatus Database.pending db;
     processing := countByStatus Database.processing db;
     completed := countByStatus Database.completed db;
     failed := countByStatus Database.failed db |}.

End DatabaseStats.

Module MerkleRoots.
Import Js.
Local Open Scope Z_scope.

(** A row of the table [merkle_roots]; [root] is declared UNIQUE,
    [registered] defaults to 0 and [registrationTxHash] to NULL. *)
Record MerkleRoot := {
  id : Z;
  root : string;
  chain : string;
  transactionCount : Z;
  registered : bool;
  registrationTxHash : option string;
  createdAt : Z
}.

Abbreviation table := (list MerkleRoot).

(** [insertMerkleRoot]: the INSERT fails on a stored [root]; the new row gets
    the next AUTOINCREMENT id (no row is ever deleted), returned when
    [save()] has returned; [saved] is what [save()] finds, as for
    [insertTransaction]. *)
Definition insertMerkleRoot (r c : string) (count now : Z) (saved : outcome unit)
    (t : table) : outcome Z * table :=
  if bool_decide (r ∈ root <$> t)
  then (Throw "UNIQUE constraint failed: merkle_roots.root", t)
  else
    let i := Z.of_nat (length t) + 1 in
    let t := t ++ [ {| id := i; root := r; chain := c; transactionCount := count;
                       registered := false; registrationTxHash := None;
                       createdAt := now |} ] in
    match saved with
    | Return _ => (Return i, t)
    | Throw m => (Throw m, t)
    end.

(** [markRootAsRegistered]:
    [UPDATE merkle_roots SET registered = 1, registrationTxHash = ? WHERE root = ?],
    then [save()]. *)
Definition markRootAsRegistered (r registrationTx : string) (saved : outcome unit)
    (t : table) : outcome unit * table :=
  (saved,
   (fun x => if bool_decide (root x = r)
             then {| id := id x; root := root x; chain := chain x;
                     transactionCount := transactionCount x; registered := true;
                     registrationTxHash := Some registrationTx;
                     createdAt := createdAt x |}
             else x) <$> t).

Definition createdBefore (a b : MerkleRoot) : Prop := createdAt a <= createdAt b.

#[export] Instance createdBefore_dec a b : Decision (createdBefore a b).
Proof. unfold createdBefore. apply _. Defined.

(** [SELECT ... WHERE chain = ? AND registered = 0 ORDER BY createdAt ASC] *)
Definition getUnregisteredRoots (c : string) (t : table) : list MerkleRoot :=
  merge_sort createdBefore (filter (fun x => chain x = c /\ registered x = false) t).

End MerkleRoots.

(** ** Further sample runs *)

(** The Sepolia side right after deployment, with a user who holds 3 ether,
    and two locks by that user. *)
Module VaultRuns.
Import Evm Scenario.
Local Open Scope Z_scope.

Definition funds : gmap Z Z := {[ vaultAddr := 5 * 10 ^ 18; sender := 3 * 10 ^ 18 ]}.

Definition fresh : VaultLedger.world :=
  {| VaultLedger.vaultAddress := vaultAddr;
     VaultLedger.validator := genesis;
     VaultLedger.vault := LedgerRuns.freshVault;
     VaultLedger.eth := funds |}.

Definition lockOne : env * VaultLedger.call :=
  ({| msg_sender := sender; msg_value := 10 ^ 18; block_timestamp := 100 |},
   VaultLedger.Lock recipient).

Definition lockTwo : env * VaultLedger.call :=
  ({| msg_sender := sender; msg_value := 2 * 10 ^ 18; block_timestamp := 130 |},
   VaultLedger.Lock recipient).

(** The first lock as ethers delivers it to the listener. *)
Definition lockOneEvent : EventListener.BridgeEvent :=
  {| EventListener.ev_sender := Samples.alice;
     EventListener.ev_recipient := Samples.bob;
     EventListener.ev_amount := 10 ^ 18;
     EventListener.ev_nonce := 1;
     EventListener.ev_timestamp := 100;
     EventListener.ev_leafHash :=
       MessageLib.generateLeafHash sender recipient (10 ^ 18) 1 sepolia amoy 100;
     EventListener.transactionHash := "0x10c6" |}.

End VaultRuns.

(** The Amoy side after the transfer of [Scenario] was minted, and a burn by
    its recipient. *)
Module TokenRuns.
Import Evm Scenario.
Local Open Scope Z_scope.

Definition burner : env :=
  {| msg_sender := recipient; msg_value := 0; block_timestamp := 200 |}.

Definition burnEvent : EventListener.BridgeEvent :=
  {| EventListener.ev_sender := Samples.bob;
     EventListener.ev_recipient := Samples.alice;
     EventListener.ev_amount := 4 * 10 ^ 17;
     EventListener.ev_nonce := 1;
     EventListener.ev_timestamp := 200;
     EventListener.ev_leafHash :=
       MessageLib.generateLeafHash recipient sender (4 * 10 ^ 17) 1 amoy sepolia 200;
     EventListener.transactionHash := "0xb024" |}.

End TokenRuns.

(* ===================================================================== *)
(** * Predicates and auxiliary functions of the further statements *)
(* ===================================================================== *)

Section LedgerBooks.
Import Evm.
Local Open Scope Z_scope.

(** Nonces and amounts of the [BridgingInitiated] events of a vault log, and
    the amounts of its [BridgingCompleted] and [EmergencyWithdrawal] events,
    in the order of the log. *)
Definition lockNonces (evs : list BridgeVault.event) : list Z :=
  omap (fun ev => match ev with
                  | BridgeVault.BridgingInitiated _ _ _ n _ _ => Some n
                  | _ => None
                  end) evs.

Definition lockedAmounts (evs : list BridgeVault.event) : list Z :=
  omap (fun ev => match ev with
                  | BridgeVault.BridgingInitiated _ _ a _ _ _ => Some a
                  | _ => None
                  end) evs.

Definition unlockedAmounts (evs : list BridgeVault.event) : list Z :=
  omap (fun ev => match ev with
                  | BridgeVault.BridgingCompleted _ a _ _ => Some a
                  | _ => None
                  end) evs.

Definition withdrawnAmounts (evs : list BridgeVault.event) : list Z :=
  omap (fun ev => match ev with
                  | BridgeVault.EmergencyWithdrawal _ a => Some a
                  | _ => None
                  end) evs.

(** The same for the [TokensBurned] and [TokensMinted] events of a token log. *)
Definition burnNonces (evs : list BridgeToken.event) : list Z :=
  omap (fun ev => match ev with
                  | BridgeToken.TokensBurned _ _ _ n _ _ => Some n
                  | _ => None
                  end) evs.

Definition burnedAmounts (evs : list BridgeToken.event) : list Z :=
  omap (fun ev => match ev with
                  | BridgeToken.TokensBurned _ _ a _ _ _ => Some a
                  | _ => None
                  end) evs.

Definition mintedAmounts (evs : list BridgeToken.event) : list Z :=
  omap (fun ev => match ev with
                  | BridgeToken.TokensMinted _ a _ _ _ => Some a
                  | _ => None
                  end) evs.

Definition sumZ (xs : list Z) : Z := foldr Z.add 0 xs.

(** The books of a vault agree with its log. *)
Definition vaultBooks (t : BridgeVault.state) : Prop :=
  1 <= BridgeVault.currentNonce t /\
  lockNonces (BridgeVault.events t) = seqZ 1 (BridgeVault.currentNonce t - 1) /\
  BridgeVault.totalBridgeTransactions t = BridgeVault.currentNonce t - 1 /\
  BridgeVault.totalLocked t = sumZ (lockedAmounts (BridgeVault.events t)) /\
  BridgeVault.totalUnlocked t = sumZ (unlockedAmounts (BridgeVault.events t)).

(** The books of a token agree with its log. *)
Definition tokenBooks (t : BridgeToken.state) : Prop :=
  1 <= BridgeToken.currentNonce t /\
  burnNonces (BridgeToken.events t) = seqZ 1 (BridgeToken.currentNonce t - 1) /\
  BridgeToken.totalBurnTransactions t = BridgeToken.currentNonce t - 1 /\
  BridgeToken.totalBurned t = sumZ (burnedAmounts (BridgeToken.events t)) /\
  BridgeToken.totalMinted t = sumZ (mintedAmounts (BridgeToken.events t)) /\
  BridgeToken.totalMintTransactions t =
    Z.of_nat (length (mintedAmounts (BridgeToken.events t))).

(** The validator's counter is the number of consumed nonces, and every
    valid root was announced. *)
Definition validatorBooks (s : BridgeValidator.state) : Prop :=
  map_Forall (fun _ used => used = true) (BridgeValidator.usedNonces s) /\
  BridgeValidator.validatedTransactions s =
    Z.of_nat (size (BridgeValidator.usedNonces s)) /\
  forall root, flag (BridgeValidator.validRoots s) root = true ->
               exists timestamp,
                 BridgeValidator.RootRegistered root timestamp ∈ BridgeValidator.events s.

(** A transaction as the chain admits it: not sent by the vault itself (it
    has no code that calls itself), with a value and amounts that are
    [uint256]. *)
Definition admitted (self : Z) (tx : env * VaultLedger.call) : Prop :=
  msg_sender (fst tx) <> self /\ 0 <= msg_value (fst tx) /\
  match snd tx with
  | VaultLedger.Unlock _ _ amount _ _ _ _ _ => 0 <= amount
  | VaultLedger.EmergencyWithdraw _ amount _ => 0 <= amount
  | _ => True
  end.

(** The vault holds what was locked and not unlocked, short of the emergency
    withdrawals. *)
Definition solvent (w : VaultLedger.world) : Prop :=
  BridgeVault.totalLocked (VaultLedger.vault w)
    - BridgeVault.totalUnlocked (VaultLedger.vault w)
  <= amountOf (VaultLedger.eth w) (VaultLedger.vaultAddress w)
     + sumZ (withdrawnAmounts (BridgeVault.events (VaultLedger.vault w))).

End LedgerBooks.

Section BridgedOnce.
Import Evm.

(** The nonces of the [TokensMinted] events of a token log and of the
    [BridgingCompleted] events of a vault log, in the order of the log. *)
Definition mintNonces (evs : list BridgeToken.event) : list Z :=
  omap (fun ev => match ev with
                  | BridgeToken.TokensMinted _ _ n _ _ => Some n
                  | _ => None
                  end) evs.

Definition unlockNonces (evs : list BridgeVault.event) : list Z :=
  omap (fun ev => match ev with
                  | BridgeVault.BridgingCompleted _ _ n _ => Some n
                  | _ => None
                  end) evs.

(** No nonce occurs twice in [nonces], and each is consumed on [v]. *)
Definition once (nonces : list Z) (v : BridgeValidator.state) : Prop :=
  NoDup nonces /\
  forall n, n ∈ nonces -> BridgeValidator.isNonceUsed n v = true.

End BridgedOnce.

Section ReplaySteps.
Import Js Database EventListener.


End ReplaySteps.

Section DriverCalls.
Import Js Database TransactionSubmitter.

(** The destination call for the row [tx]. *)
Definition destinationCall (tx : BridgeTransaction) (prf : list Z) (root : option Z)
  : request :=
  if bool_decide (destChain tx = "amoy") then Mint tx prf root else Unlock tx prf root.

(** The chain calls one [processTransaction] may make for [tx], in order: the
    query of the root, its registration, the destination call, with the
    proof and the root generated for [tx]. *)
Definition callsFor (tx : BridgeTransaction) (calls : list request) : Prop :=
  match generateProofForTransaction tx with
  | Throw _ => calls = []
  | Return p =>
      let ask := ValidRoots (destChain tx) (ProofGenerator.root p) in
      let register := RegisterRoot (destChain tx) (ProofGenerator.root p) in
      let send := destinationCall tx (ProofGenerator.proof p) (ProofGenerator.root p) in
      calls = [ask] \/ calls = [ask; register] \/
      calls = [ask; send] \/ calls = [ask; register; send]
  end.

(** The destination call for [tx] is the last of [calls]. *)
Definition sentLast (tx : BridgeTransaction) (calls : list request) : Prop :=
  exists p, generateProofForTransaction tx = Return p /\
            last calls = Some (destinationCall tx (ProofGenerator.proof p)
                                 (ProofGenerator.root p)).

(** How a polling round leaves a row it has processed. *)
Definition concluded (row : BridgeTransaction) : Prop :=
  status row = completed /\ is_Some (destTxHash row) \/
  status row = failed /\ is_Some (errorMessage row).

(** The rows [a] and [b] describe the same transfer. *)
Definition sameTransfer (a b : BridgeTransaction) : Prop :=
  id b = id a /\ txHash b = txHash a /\ sourceChain b = sourceChain a /\
  destChain b = destChain a /\ sender b = sender a /\ recipient b = recipient a /\
  amount b = amount a /\ nonce b = nonce a /\ timestamp b = timestamp a /\
  leafHash b = leafHash a /\ createdAt b = createdAt a.

End DriverCalls.

(* ===================================================================== *)
(** * Properties *)
(* ===================================================================== *)

(** ** Keccak-256 test vectors *)

(** The digest is computed only by [vm_compute]; proofs treat it as a black box. *)
Opaque Keccak.keccak256.

Example keccak256_empty :
  Keccak.keccak256 [] = 0xc5d2460186f7233c927e7db2dcc703c0e500b653ca82273b7bfad8045d85a470%Z.
Proof. vm_compute. reflexivity. Qed.

Example keccak256_abc :
  Keccak.keccak256 [97; 98; 99]%Z = 0x4e03657aea45a94fc7d47ba826c8d667c0d1e6e33a64a036ec44f58fa12d6c45%Z.
Proof. vm_compute. reflexivity. Qed.

Example keccak256_two_blocks :
  Keccak.keccak256 (repeat 97%Z 136) = 0xa6c4d403279fe3e0af03729caada8374b5ca54d8065329a3ebcaeb4b60aa386e%Z.
Proof. vm_compute. reflexivity. Qed.

Example keccak256_full_pad :
  Keccak.keccak256 (repeat 97%Z 135) = 0x34367dc248bbd832f4e3e69dfaac2f92638bd0bbd18f2912ba4ef454919cf446%Z.
Proof. vm_compute. reflexivity. Qed.


(* ===================================================================== *)
(** ** Merkle trees: every leaf verifies against the root *)
(* ===================================================================== *)

Section MerkleFacts.
Import MerkleTreeJs.
Local Open Scope Z_scope.

Lemma combine_hashPair a b : combine a b = MerkleProof._hashPair a b.
Proof.
  unfold combine, MerkleProof._hashPair, MerkleProof._efficientHash.
  destruct (Z.leb_spec a b), (Z.ltb_spec a b); try lia; try reflexivity.
  assert (a = b) by lia. subst. reflexivity.
Qed.

Lemma verifyStep_hashPair a b : verifyStep a b = MerkleProof._hashPair a b.
Proof. reflexivity. Qed.

Lemma hashPair_comm a b : MerkleProof._hashPair a b = MerkleProof._hashPair b a.
Proof.
  unfold MerkleProof._hashPair.
  destruct (Z.ltb_spec a b), (Z.ltb_spec b a); try lia; try reflexivity.
  assert (a = b) by lia. subst. reflexivity.
Qed.

Lemma combine_comm a b : combine a b = combine b a.
Proof. rewrite !combine_hashPair. apply hashPair_comm. Qed.

(** Lists taken two elements at a time. *)
Lemma list_pair_ind {A} (P : list A -> Prop) :
  P [] -> (forall a, P [a]) -> (forall a b l, P l -> P (a :: b :: l)) ->
  forall l, P l.
Proof.
  intros H0 H1 H2.
  assert (forall l, P l /\ forall a, P (a :: l)) as H.
  { induction l as [|x l [IH1 IH2]]; split; auto. }
  intro l. apply H.
Qed.

(** The parent of a node is the node itself when it has no sibling, and the
    combination of the two otherwise. *)
Lemma createLayer_lookup (nodes : list Z) :
  forall (i : nat) (x : Z),
    nodes !! i = Some x ->
    createLayer nodes !! (i / 2)%nat =
      Some (match nodes !! pairIndex i with
            | Some sibling => combine x sibling
            | None => x
            end).
Proof.
  induction nodes as [|a|a b l IH] using list_pair_ind; intros i x Hi.
  - discriminate.
  - destruct i as [|i]; [|destruct i; discriminate].
    injection Hi as ->. reflexivity.
  - destruct i as [|[|j]].
    + injection Hi as ->. reflexivity.
    + injection Hi as ->. cbn. f_equal. apply combine_comm.
    + change (S (S j) / 2)%nat with ((j + 1 * 2) / 2)%nat || idtac.
      replace (S (S j) / 2)%nat with (S (j / 2)).
      2:{ replace (S (S j)) with (j + 1 * 2)%nat by lia.
          rewrite Nat.div_add by lia. lia. }
      cbn [createLayer lookup list_lookup].
      change (createLayer l !! (j / 2)%nat = Some
               match (a :: b :: l) !! pairIndex (S (S j)) with
               | Some sibling => combine x sibling
               | None => x
               end).
      replace ((a :: b :: l) !! pairIndex (S (S j))) with (l !! pairIndex j).
      * apply IH. exact Hi.
      * unfold pairIndex. rewrite Nat.odd_succ_succ.
        destruct (Nat.odd j) eqn:Hodd.
        -- destruct j as [|j']; [discriminate|].
           replace (S (S (S j')) - 1)%nat with (S (S j')) by lia.
           replace (S j' - 1)%nat with j' by lia. reflexivity.
        -- replace (S (S j) + 1)%nat with (S (S (j + 1))) by lia. reflexivity.
Qed.

Lemma createLayer_length (nodes : list Z) :
  (1 < length nodes)%nat ->
  (0 < length (createLayer nodes) < length nodes)%nat.
Proof.
  induction nodes as [|a|a b l IH] using list_pair_ind; cbn; intros H; try lia.
  destruct l as [|c [|d l']]; cbn in *; try lia.
Qed.

Lemma createLayer_short (nodes : list Z) :
  (length nodes <= 1)%nat -> createLayer nodes = nodes.
Proof. destruct nodes as [|a [|b l]]; cbn; intros; try reflexivity; lia. Qed.

(** Folding a node through its proof gives the top node of the layers. *)
Lemma proofFrom_reaches_top :
  forall (fuel : nat) (nodes : list Z) (i : nat) (x : Z),
    (length nodes <= fuel)%nat ->
    nodes !! i = Some x ->
    topOf (nodes :: createHashes fuel nodes) =
      Some (fold_left combine (proofFrom (nodes :: createHashes fuel nodes) i) x).
Proof.
  induction fuel as [|f IH]; intros nodes i x Hlen Hi.
  - apply lookup_lt_Some in Hi. lia.
  - cbn [createHashes].
    destruct (1 <? length nodes)%nat eqn:Hgt.
    + apply Nat.ltb_lt in Hgt.
      pose proof (createLayer_length nodes Hgt) as Hl.
      pose proof (createLayer_lookup nodes i x Hi) as Hup.
      cbn zeta.
      set (up := createLayer nodes) in *.
      change (topOf (nodes :: up :: createHashes f up))
        with (topOf (up :: createHashes f up)).
      cbn [proofFrom]. fold (pairIndex i).
      destruct (nodes !! pairIndex i) as [sibling|] eqn:Hs.
      * cbn [fold_left]. apply IH; [lia | exact Hup].
      * apply IH; [lia | exact Hup].
    + apply Nat.ltb_ge in Hgt.
      destruct nodes as [|a [|b l]]; cbn in Hgt; try lia; try discriminate.
      destruct i as [|i]; [|destruct i; discriminate].
      injection Hi as ->. reflexivity.
Qed.

Lemma lastIndex_found (lvs : list Z) (leaf : Z) :
  forall (i : nat) (found : option nat),
    (forall k, found = Some k -> (k < i)%nat) ->
    (leaf ∈ lvs \/ is_Some found) ->
    exists k, lastIndex i lvs leaf found = Some k /\
              ((i <= k)%nat /\ lvs !! (k - i)%nat = Some leaf \/ found = Some k).
Proof.
  induction lvs as [|x rest IH]; intros i found Hlt Hin.
  - destruct Hin as [Hin | [k Hk]]; [inversion Hin|].
    exists k. cbn. auto.
  - cbn [lastIndex].
    destruct (Z.eqb_spec x leaf) as [->|Hne].
    + destruct (IH (S i) (Some i)) as [k [Hk Hcase]].
      * intros k [= <-]. lia.
      * right. eauto.
      * exists k. split; [exact Hk|]. left.
        destruct Hcase as [[Hle Hl] | [= <-]].
        -- split; [lia|]. replace (k - i)%nat with (S (k - S i)) by lia. exact Hl.
        -- split; [lia|]. replace (i - i)%nat with 0%nat by lia. reflexivity.
    + destruct (IH (S i) found) as [k [Hk Hcase]].
      * intros k Hk. specialize (Hlt k Hk). lia.
      * destruct Hin as [Hin | Hs]; [|auto].
        apply elem_of_cons in Hin as [->|Hin]; [contradiction|auto].
      * exists k. split; [exact Hk|].
        destruct Hcase as [[Hle Hl] | Hf]; [|auto].
        left. split; [lia|]. replace (k - i)%nat with (S (k - S i)) by lia. exact Hl.
Qed.

Lemma fold_combine_hashPair (p : list Z) :
  forall x, fold_left combine p x = MerkleProof.processProof p x.
Proof.
  unfold MerkleProof.processProof.
  induction p as [|s p IH]; intros x; [reflexivity|].
  cbn [fold_left]. rewrite combine_hashPair. apply IH.
Qed.

Lemma fold_verifyStep_hashPair (p : list Z) :
  forall x, fold_left verifyStep p x = MerkleProof.processProof p x.
Proof. reflexivity. Qed.

(** For a leaf of the tree, [getProof] followed by the fold of [verify]
    reaches [getRoot]. *)
Lemma getProof_verifies (lvs : list Z) (leaf : Z) :
  leaf ∈ lvs ->
  exists r, getRoot (new lvs) = Some r /\
            MerkleProof.processProof (getProof (new lvs) leaf) leaf = r.
Proof.
  intros Hin.
  destruct (lastIndex_found lvs leaf 0 None) as [k [Hk Hcase]]; [discriminate|auto|].
  destruct Hcase as [[_ Hl] | Hf]; [|discriminate].
  rewrite Nat.sub_0_r in Hl.
  pose proof (proofFrom_reaches_top (length lvs) lvs k leaf (le_n _) Hl) as Htop.
  rewrite fold_combine_hashPair in Htop.
  unfold getRoot, getProof, new. cbn [layers leaves]. rewrite Hk.
  eexists. split; [exact Htop|reflexivity].
Qed.

End MerkleFacts.

Section ProofGeneratorFacts.
Import ProofGenerator.
Local Open Scope Z_scope.

Lemma generateLeafHash_is_Some (tx : Transaction) :
  is_Some (Enc.BigInt (amount tx)) -> is_Some (generateLeafHash tx).
Proof.
  intros [a Ha]. unfold generateLeafHash, encode. rewrite Ha. cbn. eauto.
Qed.

Lemma buildMerkleTree_Some (txs : list Transaction) :
  Forall (fun x => is_Some (Enc.BigInt (amount x))) txs ->
  exists lvs, mapM generateLeafHash txs = Some lvs /\
              buildMerkleTree txs = Some (MerkleTreeJs.new lvs) /\
              Forall2 (fun x y => generateLeafHash x = Some y) txs lvs.
Proof.
  intros Hwf.
  assert (is_Some (mapM generateLeafHash txs)) as [lvs Hl].
  { apply mapM_is_Some. eapply Forall_impl; [exact Hwf|].
    intros x Hx. apply generateLeafHash_is_Some. exact Hx. }
  exists lvs. split; [exact Hl|]. split.
  - unfold buildMerkleTree. rewrite Hl. reflexivity.
  - apply mapM_Some_1. exact Hl.
Qed.

Lemma leaf_of_member (txs : list Transaction) (lvs : list Z) (t : Transaction) :
  Forall2 (fun x y => generateLeafHash x = Some y) txs lvs ->
  t ∈ txs ->
  exists leaf, generateLeafHash t = Some leaf /\ leaf ∈ lvs.
Proof.
  induction 1 as [|x y txs' lvs' Hxy _ IH]; intros Hin.
  - inversion Hin.
  - apply elem_of_cons in Hin as [->|Hin].
    + exists y. split; [exact Hxy|]. apply elem_of_cons. auto.
    + destruct (IH Hin) as [leaf [H1 H2]].
      exists leaf. split; [exact H1|]. apply elem_of_cons. auto.
Qed.

End ProofGeneratorFacts.

(** C1. For every list of transactions [txs] (each with an amount that
    [BigInt] reads) and every [t] in it: the leaf digest of [t], folded through
    the proof that [generateProof txs t] returns, is the root of the tree built
    over [txs]; the relayer's [verifyProof] and the ledger's
    [MerkleProof.verify] both accept it. *)
Theorem C1_inclusion_proof_verifies
    (txs : list ProofGenerator.Transaction) (t : ProofGenerator.Transaction) :
  t ∈ txs ->
  Forall (fun x => is_Some (Enc.BigInt (ProofGenerator.amount x))) txs ->
  exists leaf prf rt,
    ProofGenerator.generateLeafHash t = Some leaf /\
    ProofGenerator.generateProof txs t =
      Some {| ProofGenerator.proof := prf; ProofGenerator.root := Some rt |} /\
    ProofGenerator.getMerkleRoot txs = Some (Some rt) /\
    MerkleProof.processProof prf leaf = rt /\
    ProofGenerator.verifyProof leaf prf (Some rt) = true /\
    MerkleProof.verify prf rt leaf = true.
Proof.
  intros Hin Hwf.
  destruct (buildMerkleTree_Some txs Hwf) as [lvs [Hl [Htree Hall]]].
  destruct (leaf_of_member txs lvs t Hall Hin) as [leaf [Hleaf Hmem]].
  destruct (getProof_verifies lvs leaf Hmem) as [rt [Hroot Hfold]].
  exists leaf, (MerkleTreeJs.getProof (MerkleTreeJs.new lvs) leaf), rt.
  split; [exact Hleaf|]. split.
  { unfold ProofGenerator.generateProof. rewrite Htree. cbn. rewrite Hleaf. cbn.
    rewrite Hroot. reflexivity. }
  split.
  { unfold ProofGenerator.getMerkleRoot. rewrite Htree. cbn. rewrite Hroot. reflexivity. }
  split; [exact Hfold|]. split.
  - unfold ProofGenerator.verifyProof, MerkleTreeJs.verify.
    rewrite fold_verifyStep_hashPair, Hfold. apply Z.eqb_refl.
  - unfold MerkleProof.verify. rewrite Hfold. apply Z.eqb_refl.
Qed.

Lemma C1_inclusion_proof_verifies_witness :
  exists leaf prf rt,
    ProofGenerator.generateLeafHash Samples.tx3 = Some leaf /\
    ProofGenerator.generateProof [Samples.tx1; Samples.tx2; Samples.tx3] Samples.tx3 =
      Some {| ProofGenerator.proof := prf; ProofGenerator.root := Some rt |} /\
    ProofGenerator.getMerkleRoot [Samples.tx1; Samples.tx2; Samples.tx3] = Some (Some rt) /\
    MerkleProof.processProof prf leaf = rt /\
    ProofGenerator.verifyProof leaf prf (Some rt) = true /\
    MerkleProof.verify prf rt leaf = true.
Proof.
  apply (C1_inclusion_proof_verifies [Samples.tx1; Samples.tx2; Samples.tx3] Samples.tx3).
  - apply list_elem_of_further, list_elem_of_further, list_elem_of_here.
  - repeat constructor; eexists; vm_compute; reflexivity.
Defined.

(* ===================================================================== *)
(** ** Batch proofs against single proofs *)
(* ===================================================================== *)

Section BatchFacts.
Import ProofGenerator.
Local Open Scope Z_scope.

(** The single path accepts every member of the list. *)
Lemma generateProof_accepts (txs : list Transaction) (t : Transaction) :
  t ∈ txs ->
  Forall (fun x => is_Some (Enc.BigInt (amount x))) txs ->
  exists tree leaf p,
    buildMerkleTree txs = Some tree /\
    generateLeafHash t = Some leaf /\
    entryOf tree t = Some p /\
    generateProof txs t = Some p /\
    verifyProof leaf (proof p) (root p) = true.
Proof.
  intros Hin Hwf.
  destruct (buildMerkleTree_Some txs Hwf) as [lvs [Hl [Htree Hall]]].
  destruct (leaf_of_member txs lvs t Hall Hin) as [leaf [Hleaf Hmem]].
  destruct (getProof_verifies lvs leaf Hmem) as [rt [Hroot Hfold]].
  exists (MerkleTreeJs.new lvs), leaf,
    {| proof := MerkleTreeJs.getProof (MerkleTreeJs.new lvs) leaf; root := Some rt |}.
  split; [exact Htree|]. split; [exact Hleaf|]. split.
  { unfold entryOf. rewrite Hleaf. cbn. rewrite Hroot. reflexivity. }
  split.
  { unfold generateProof. rewrite Htree. cbn. rewrite Hleaf. cbn.
    rewrite Hroot. reflexivity. }
  cbn [proof root]. unfold verifyProof, MerkleTreeJs.verify.
  rewrite fold_verifyStep_hashPair, Hfold. apply Z.eqb_refl.
Qed.

(** A transaction whose amount [BigInt] does not read has no leaf. *)
Lemma generateLeafHash_is_Some_inv (tx : Transaction) :
  is_Some (generateLeafHash tx) -> is_Some (Enc.BigInt (amount tx)).
Proof.
  unfold generateLeafHash, encode. destruct (Enc.BigInt (amount tx)); [eauto|].
  intros [? H]. discriminate.
Qed.

Lemma buildMerkleTree_None (txs : list Transaction) :
  ~ Forall (fun x => is_Some (Enc.BigInt (amount x))) txs -> buildMerkleTree txs = None.
Proof.
  intros Hnot. unfold buildMerkleTree.
  destruct (mapM generateLeafHash txs) as [lvs|] eqn:Hl; [|reflexivity].
  exfalso. apply Hnot.
  assert (is_Some (mapM generateLeafHash txs)) as Hs by (rewrite Hl; eauto).
  apply mapM_is_Some in Hs. eapply Forall_impl; [exact Hs|].
  intros x Hx. apply generateLeafHash_is_Some_inv, Hx.
Qed.

(** The map holds, under each nonce of the list, the entry of the last
    transaction of the list that carries this nonce. *)
Lemma batch_entries (tree : MerkleTreeJs.MerkleTree) (txs : list Transaction) :
  Forall (fun x => is_Some (Enc.BigInt (amount x))) txs ->
  exists proofs,
    foldl (batchStep tree) (Some ∅) txs = Some proofs /\
    forall t, t ∈ txs ->
      exists u before after,
        txs = before ++ u :: after /\ nonce u = nonce t /\
        Forall (fun x => nonce x <> nonce t) after /\
        proofs !! nonce t = entryOf tree u.
Proof.
  induction txs as [|x txs IH] using rev_ind; intros Hwf.
  - exists ∅. split; [reflexivity|]. intros t Ht. inversion Ht.
  - apply Forall_app in Hwf as [Hwf Hx]. rewrite Forall_singleton in Hx.
    destruct (IH Hwf) as (proofs & Hfold & Hmem).
    destruct (generateLeafHash_is_Some x Hx) as [lx Hlx].
    exists (<[nonce x := {| proof := MerkleTreeJs.getProof tree lx;
                            root := MerkleTreeJs.getRoot tree |}]> proofs).
    split.
    { rewrite foldl_snoc, Hfold. unfold batchStep. cbn. rewrite Hlx. reflexivity. }
    intros t Ht.
    destruct (decide (nonce x = nonce t)) as [Heq|Hne].
    + exists x, txs, []. split; [reflexivity|]. split; [exact Heq|].
      split; [constructor|].
      rewrite <- Heq, lookup_insert_eq. unfold entryOf. rewrite Hlx. reflexivity.
    + apply elem_of_app in Ht as [Ht|Ht].
      2:{ apply list_elem_of_singleton in Ht. subst t. contradiction. }
      destruct (Hmem t Ht) as (u & before & after & Htxs & Hu & Hafter & Hlook).
      exists u, before, (after ++ [x]). split.
      { rewrite Htxs, <- app_assoc. reflexivity. }
      split; [exact Hu|]. split.
      { apply Forall_app. split; [exact Hafter|]. apply Forall_singleton. exact Hne. }
      rewrite lookup_insert_ne by exact Hne. exact Hlook.
Qed.

Lemma NoDup_fmap_eq {A B} (f : A -> B) (l : list A) (x y : A) :
  NoDup (f <$> l) -> x ∈ l -> y ∈ l -> f x = f y -> x = y.
Proof.
  induction l as [|a l IH]; intros Hnd Hx Hy Hf; [inversion Hx|].
  cbn in Hnd. apply NoDup_cons in Hnd as [Ha Hnd].
  apply elem_of_cons in Hx as [->|Hx]; apply elem_of_cons in Hy as [->|Hy].
  - reflexivity.
  - exfalso. apply Ha. rewrite Hf. apply list_elem_of_fmap. eauto.
  - exfalso. apply Ha. rewrite <- Hf. apply list_elem_of_fmap. eauto.
  - apply IH; assumption.
Qed.

End BatchFacts.

(** C9 as stated fails: in the batch [tx1; tx1'] both transfers carry nonce 1;
    the single path accepts [tx1], the batch path hands out the proof of
    [tx1'] for it, which is rejected. *)
Lemma C9_shared_nonce_counterexample :
  Batch.single [Samples.tx1; Samples.tx1'] Samples.tx1 = Some true /\
  Batch.batch [Samples.tx1; Samples.tx1'] Samples.tx1 = Some false.
Proof. split; vm_compute; reflexivity. Qed.

(** C9, amended. For every list of transactions [txs] and every [t] in it.
    When [BigInt] does not read the amount of some transaction of the list,
    both paths throw.  Otherwise the single path accepts [t], and the entry
    of [generateBatchProofs txs] under the nonce of [t] is the proof and root
    that [generateProof txs u] returns for [u], the last transaction of the
    list that carries the nonce of [t]; whenever [u] has the leaf of [t], this
    is what [generateProof txs t] returns and the batch path accepts [t] as
    well; with pairwise distinct nonces [u] is [t]. *)
Theorem C9_batch_entry_is_proof_of_last_with_nonce
    (txs : list ProofGenerator.Transaction) (t : ProofGenerator.Transaction) :
  t ∈ txs ->
  (~ Forall (fun x => is_Some (Enc.BigInt (ProofGenerator.amount x))) txs ->
   Batch.single txs t = None /\ Batch.batch txs t = None) /\
  (Forall (fun x => is_Some (Enc.BigInt (ProofGenerator.amount x))) txs ->
   exists proofs p u before after,
     txs = before ++ u :: after /\
     ProofGenerator.nonce u = ProofGenerator.nonce t /\
     Forall (fun x => ProofGenerator.nonce x <> ProofGenerator.nonce t) after /\
     ProofGenerator.generateBatchProofs txs = Some proofs /\
     proofs !! ProofGenerator.nonce t = Some p /\
     ProofGenerator.generateProof txs u = Some p /\
     Batch.single txs t = Some true /\
     (ProofGenerator.generateLeafHash u = ProofGenerator.generateLeafHash t ->
      ProofGenerator.generateProof txs t = Some p /\
      Batch.batch txs t = Some true /\
      Batch.batch txs t = Batch.single txs t) /\
     (NoDup (ProofGenerator.nonce <$> txs) -> u = t)).
Proof.
  intros Hin. split.
  { intros Hnot. pose proof (buildMerkleTree_None txs Hnot) as Htree.
    unfold Batch.single, Batch.batch, ProofGenerator.generateProof,
      ProofGenerator.generateBatchProofs.
    rewrite Htree. split; reflexivity. }
  intros Hwf.
  destruct (generateProof_accepts txs t Hin Hwf)
    as (tree & leaf & pt & Htree & Hleaf & Hentry & Hgen & Hver).
  destruct (batch_entries tree txs Hwf) as (proofs & Hfold & Hmem).
  destruct (Hmem t Hin) as (u & before & after & Htxs & Hu & Hafter & Hlook).
  assert (u ∈ txs) as Huin.
  { rewrite Htxs. apply elem_of_app. right. apply list_elem_of_here. }
  destruct (generateProof_accepts txs u Huin Hwf)
    as (tree' & leafu & pu & Htree' & Hleafu & Hentryu & Hgenu & _).
  rewrite Htree in Htree'. injection Htree' as <-.
  assert (ProofGenerator.generateBatchProofs txs = Some proofs) as Hbatch.
  { unfold ProofGenerator.generateBatchProofs. rewrite Htree. cbn. exact Hfold. }
  rewrite Hentryu in Hlook.
  assert (Batch.single txs t = Some true) as Hsingle.
  { unfold Batch.single. rewrite Hgen. cbn -[ProofGenerator.verifyProof].
    rewrite Hleaf. cbn -[ProofGenerator.verifyProof]. rewrite Hver. reflexivity. }
  exists proofs, pu, u, before, after.
  split; [exact Htxs|]. split; [exact Hu|]. split; [exact Hafter|].
  split; [exact Hbatch|]. split; [exact Hlook|]. split; [exact Hgenu|].
  split; [exact Hsingle|]. split.
  - intros Hsame.
    assert (pu = pt) as ->.
    { unfold entryOf in Hentry, Hentryu. rewrite Hsame in Hentryu.
      rewrite Hentry in Hentryu. injection Hentryu as <-. reflexivity. }
    assert (Batch.batch txs t = Some true) as Hb.
    { unfold Batch.batch. rewrite Hbatch. cbn -[ProofGenerator.verifyProof].
      rewrite Hlook. cbn -[ProofGenerator.verifyProof].
      rewrite Hleaf. cbn -[ProofGenerator.verifyProof]. rewrite Hver. reflexivity. }
    split; [exact Hgen|]. split; [exact Hb|]. rewrite Hb, Hsingle. reflexivity.
  - intros Hnd. exact (NoDup_fmap_eq ProofGenerator.nonce txs u t Hnd Huin Hin Hu).
Qed.

Lemma C9_batch_entry_is_proof_of_last_with_nonce_witness :
  (~ Forall (fun x => is_Some (Enc.BigInt (ProofGenerator.amount x)))
       [Samples.tx1; Samples.tx1'; Samples.tx2] ->
   Batch.single [Samples.tx1; Samples.tx1'; Samples.tx2] Samples.tx1 = None /\
   Batch.batch [Samples.tx1; Samples.tx1'; Samples.tx2] Samples.tx1 = None) /\
  (Forall (fun x => is_Some (Enc.BigInt (ProofGenerator.amount x)))
     [Samples.tx1; Samples.tx1'; Samples.tx2] ->
   exists proofs p u before after,
     [Samples.tx1; Samples.tx1'; Samples.tx2] = before ++ u :: after /\
     ProofGenerator.nonce u = ProofGenerator.nonce Samples.tx1 /\
     Forall (fun x => ProofGenerator.nonce x <> ProofGenerator.nonce Samples.tx1) after /\
     ProofGenerator.generateBatchProofs [Samples.tx1; Samples.tx1'; Samples.tx2]
       = Some proofs /\
     proofs !! ProofGenerator.nonce Samples.tx1 = Some p /\
     ProofGenerator.generateProof [Samples.tx1; Samples.tx1'; Samples.tx2] u = Some p /\
     Batch.single [Samples.tx1; Samples.tx1'; Samples.tx2] Samples.tx1 = Some true /\
     (ProofGenerator.generateLeafHash u = ProofGenerator.generateLeafHash Samples.tx1 ->
      ProofGenerator.generateProof [Samples.tx1; Samples.tx1'; Samples.tx2] Samples.tx1
        = Some p /\
      Batch.batch [Samples.tx1; Samples.tx1'; Samples.tx2] Samples.tx1 = Some true /\
      Batch.batch [Samples.tx1; Samples.tx1'; Samples.tx2] Samples.tx1 =
        Batch.single [Samples.tx1; Samples.tx1'; Samples.tx2] Samples.tx1) /\
     (NoDup (ProofGenerator.nonce <$> [Samples.tx1; Samples.tx1'; Samples.tx2]) ->
      u = Samples.tx1)).
Proof.
  apply (C9_batch_entry_is_proof_of_last_with_nonce
           [Samples.tx1; Samples.tx1'; Samples.tx2] Samples.tx1).
  apply list_elem_of_here.
Defined.

(* ===================================================================== *)
(** ** The relayer's byte concatenation is Solidity's packed encoding *)
(* ===================================================================== *)

Section EncodingFacts.
Import Enc.
Local Open Scope Z_scope.

Lemma hexVal_hexDigit d : is_nibble d -> hexVal (hexDigit d) = Some d.
Proof.
  unfold is_nibble. intros H.
  assert (d = 0 \/ d = 1 \/ d = 2 \/ d = 3 \/ d = 4 \/ d = 5 \/ d = 6 \/ d = 7 \/
          d = 8 \/ d = 9 \/ d = 10 \/ d = 11 \/ d = 12 \/ d = 13 \/ d = 14 \/ d = 15)
    as Hd by lia.
  repeat (destruct Hd as [-> | Hd]; [reflexivity|]). subst. reflexivity.
Qed.

Lemma hexVal_nibble c d : hexVal c = Some d -> is_nibble d.
Proof.
  unfold hexVal, is_nibble.
  repeat match goal with
         | |- context [if ?b then _ else _] => destruct b eqn:?
         end; intros [= <-]; lia.
Qed.

Lemma parseHexDigits_string_of_digits ds :
  Forall is_nibble ds -> parseHexDigits (string_of_digits ds) = Some ds.
Proof.
  induction 1 as [|d ds Hd _ IH]; [reflexivity|].
  cbn [string_of_digits fold_right parseHexDigits].
  rewrite (hexVal_hexDigit d Hd).
  change (fold_right _ EmptyString ds) with (string_of_digits ds).
  rewrite IH. reflexivity.
Qed.

Lemma parseHexDigits_spec s :
  forall ds, parseHexDigits s = Some ds ->
             Forall is_nibble ds /\ length ds = String.length s.
Proof.
  induction s as [|c s IH]; intros ds H.
  - injection H as <-. split; [constructor|reflexivity].
  - cbn [parseHexDigits] in H.
    destruct (hexVal c) as [d|] eqn:Hc; [|discriminate].
    destruct (parseHexDigits s) as [ds'|]; [|discriminate].
    injection H as <-. destruct (IH ds' eq_refl) as [Hn Hl]. split.
    + constructor; [eapply hexVal_nibble; eassumption | exact Hn].
    + cbn. rewrite Hl. reflexivity.
Qed.

Lemma parseHexDigits_padding (k : nat) (s : string) ds :
  parseHexDigits s = Some ds ->
  parseHexDigits (fold_right String s (repeat "0"%char k)) = Some (repeat 0 k ++ ds).
Proof.
  intros H. induction k as [|k IH]; [exact H|].
  cbn [repeat fold_right parseHexDigits app]. rewrite IH. reflexivity.
Qed.

Lemma string_length_padding (k : nat) (c : ascii) (s : string) :
  String.length (fold_right String s (repeat c k)) = (k + String.length s)%nat.
Proof. induction k as [|k IH]; cbn; [reflexivity|]. rewrite IH. reflexivity. Qed.

Lemma string_of_digits_length ds : String.length (string_of_digits ds) = length ds.
Proof. induction ds as [|d ds IH]; cbn; [reflexivity|]. f_equal. exact IH. Qed.

Lemma string_pair_ind (P : string -> Prop) :
  P EmptyString -> (forall a, P (String a EmptyString)) ->
  (forall a b r, P r -> P (String a (String b r))) ->
  forall s, P s.
Proof.
  intros H0 H1 H2.
  assert (forall s, P s /\ forall a, P (String a s)) as H.
  { induction s as [|c s [IH1 IH2]]; split; auto. }
  intro s. apply H.
Qed.

Lemma BufferFromHex_pairBytes s :
  forall ds, parseHexDigits s = Some ds -> BufferFromHex s = pairBytes ds.
Proof.
  induction s as [|a|a b s IH] using string_pair_ind; intros ds H.
  - injection H as <-. reflexivity.
  - cbn in H. destruct (hexVal a); [|discriminate]. injection H as <-. reflexivity.
  - cbn [parseHexDigits] in H.
    destruct (hexVal a) as [x|] eqn:Ha; [|discriminate].
    destruct (hexVal b) as [y|] eqn:Hb; [|discriminate].
    destruct (parseHexDigits s) as [ds'|] eqn:Hs; [|discriminate].
    injection H as <-.
    cbn [BufferFromHex pairBytes]. rewrite Ha, Hb. f_equal. apply IH. reflexivity.
Qed.

Lemma fold16_app ds1 ds2 acc : fold16 (ds1 ++ ds2) acc = fold16 ds2 (fold16 ds1 acc).
Proof. apply fold_left_app. Qed.

Lemma fold256_app bs1 bs2 acc : fold256 (bs1 ++ bs2) acc = fold256 bs2 (fold256 bs1 acc).
Proof. apply fold_left_app. Qed.

Lemma fold16_zeros k acc : fold16 (repeat 0 k) acc = acc * 16 ^ Z.of_nat k.
Proof.
  revert acc. induction k as [|k IH]; intros acc.
  - cbn. lia.
  - cbn [repeat]. unfold fold16 in *. cbn [fold_left]. rewrite IH.
    rewrite Nat2Z.inj_succ, Z.pow_succ_r by lia. lia.
Qed.

Lemma pairBytes_spec ds :
  forall acc, Nat.Even (length ds) -> Forall is_nibble ds ->
    fold256 (pairBytes ds) acc = fold16 ds acc /\
    Forall is_byte (pairBytes ds) /\
    (2 * length (pairBytes ds) = length ds)%nat.
Proof.
  induction ds as [|a|a b ds IH] using list_pair_ind; intros acc Hev Hn.
  - repeat split; constructor.
  - destruct Hev as [k Hk]. cbn in Hk. lia.
  - inversion Hn as [|? ? Ha Hn']; subst. inversion Hn' as [|? ? Hb Hn'']; subst.
    assert (Nat.Even (length ds)) as Hev'.
    { destruct Hev as [k Hk]. cbn in Hk. exists (k - 1)%nat. lia. }
    cbn [pairBytes].
    destruct (IH ((acc * 16 + a) * 16 + b) Hev' Hn'') as (H1 & H2 & H3).
    repeat split.
    + unfold fold256, fold16 in *. cbn [fold_left].
      replace (acc * 256 + (16 * a + b)) with ((acc * 16 + a) * 16 + b) by lia.
      exact H1.
    + constructor; [|exact H2]. unfold is_byte, is_nibble in *. lia.
    + cbn [length]. lia.
Qed.

Lemma fold256_bound bs :
  Forall is_byte bs -> 0 <= fold256 bs 0 < 256 ^ Z.of_nat (length bs).
Proof.
  induction bs as [|b bs IH] using rev_ind; intros H.
  - cbn. lia.
  - apply Forall_app in H as [H Hb]. rewrite Forall_singleton in Hb.
    rewrite fold256_app, length_app. cbn [length fold256 fold_left].
    unfold fold256 at 1. cbn [fold_left]. fold (fold256 bs 0).
    specialize (IH H). unfold is_byte in Hb.
    replace (Z.of_nat (length bs + 1)) with (Z.succ (Z.of_nat (length bs))) by lia.
    rewrite Z.pow_succ_r by lia. nia.
Qed.

(** Big-endian bytes of the value of a byte string are the byte string. *)
Lemma be_bytes_fold256 bs :
  Forall is_byte bs -> be_bytes (length bs) (fold256 bs 0) = bs.
Proof.
  induction bs as [|b bs IH] using rev_ind; intros H.
  - reflexivity.
  - apply Forall_app in H as [H Hb]. rewrite Forall_singleton in Hb.
    rewrite length_app. cbn [length]. replace (length bs + 1)%nat with (S (length bs)) by lia.
    cbn [be_bytes]. rewrite fold256_app. unfold fold256 at 1 3. cbn [fold_left].
    fold (fold256 bs 0). unfold is_byte in Hb.
    replace ((fold256 bs 0 * 256 + b) / 256) with (fold256 bs 0).
    2:{ rewrite Z.div_add_l by lia. rewrite Z.div_small by lia. lia. }
    replace ((fold256 bs 0 * 256 + b) mod 256) with b.
    2:{ rewrite Z.add_comm, Z.mod_add by lia. rewrite Z.mod_small by lia. reflexivity. }
    rewrite IH by exact H. reflexivity.
Qed.

(** A string of 2k hex digits decodes to the k big-endian bytes of its value. *)
Lemma BufferFromHex_be_bytes (k : nat) (s : string) ds :
  parseHexDigits s = Some ds ->
  String.length s = (2 * k)%nat ->
  BufferFromHex s = be_bytes k (fold16 ds 0).
Proof.
  intros Hp Hlen.
  destruct (parseHexDigits_spec s ds Hp) as [Hn Hl].
  assert (Nat.Even (length ds)) as Hev by (exists k; lia).
  destruct (pairBytes_spec ds 0 Hev Hn) as (Hv & Hb & Hk).
  rewrite (BufferFromHex_pairBytes s ds Hp), <- Hv.
  replace k with (length (pairBytes ds)) by lia.
  symmetry. apply be_bytes_fold256. exact Hb.
Qed.

(** *** Hex digits of a number *)

Lemma digitsLE_spec (fuel : nat) :
  forall n, 0 <= n < 2 ^ Z.of_nat fuel ->
    fold16 (rev (digitsLE fuel n)) 0 = n /\ Forall is_nibble (digitsLE fuel n).
Proof.
  induction fuel as [|f IH]; intros n Hn.
  - cbn in Hn. assert (n = 0) as -> by lia. split; [reflexivity|constructor].
  - cbn [digitsLE]. destruct (Z.ltb_spec n 16) as [Hlt|Hge].
    + split; [cbn; lia|]. constructor; [unfold is_nibble; lia|constructor].
    + assert (0 <= n / 16 < 2 ^ Z.of_nat f) as Hq.
      { split; [apply Z.div_pos; lia|].
        apply Z.div_lt_upper_bound; [lia|].
        rewrite Nat2Z.inj_succ, Z.pow_succ_r in Hn by lia. lia. }
      destruct (IH (n / 16) Hq) as [Hv Hd]. split.
      * cbn [rev]. rewrite fold16_app, Hv. cbn.
        pose proof (Z.div_mod n 16). lia.
      * constructor; [|exact Hd]. unfold is_nibble.
        pose proof (Z.mod_pos_bound n 16). lia.
Qed.

Lemma digitsLE_length (fuel : nat) :
  forall n (k : nat), (0 < k)%nat -> 0 <= n < 16 ^ Z.of_nat k ->
    (length (digitsLE fuel n) <= k)%nat.
Proof.
  induction fuel as [|f IH]; intros n k Hk Hn; [cbn; lia|].
  cbn [digitsLE]. destruct (Z.ltb_spec n 16) as [Hlt|Hge]; [cbn; lia|].
  cbn [length]. destruct k as [|k]; [lia|].
  destruct k as [|k].
  - cbn in Hn. lia.
  - assert (length (digitsLE f (n / 16)) <= S k)%nat; [|lia].
    apply IH; [lia|]. split; [apply Z.div_pos; lia|].
    apply Z.div_lt_upper_bound; [lia|].
    rewrite (Nat2Z.inj_succ (S k)), Z.pow_succ_r in Hn by lia. lia.
Qed.

Lemma log2_fuel n : 0 <= n -> 0 <= n < 2 ^ Z.of_nat (S (Z.to_nat (Z.log2 n))).
Proof.
  intros Hn. split; [exact Hn|].
  rewrite Nat2Z.inj_succ, Z2Nat.id by apply Z.log2_nonneg.
  destruct (Z.eq_dec n 0) as [->|Hne]; [cbn; lia|].
  apply Z.log2_spec. lia.
Qed.

(** [n.toString(16).padStart(64, '0')], decoded as hex, is the 32-byte
    big-endian word of [n]. *)
Lemma word_be_bytes n :
  0 <= n < 2 ^ 256 -> ProofGenerator.word n = be_bytes 32 n.
Proof.
  intros Hn. unfold ProofGenerator.word, toString16, padStart.
  destruct (Z.ltb_spec n 0) as [Hneg|_]; [lia|].
  set (ds := rev (digitsLE (S (Z.to_nat (Z.log2 n))) n)).
  destruct (digitsLE_spec _ n (log2_fuel n (proj1 Hn))) as [Hv Hd].
  assert (Forall is_nibble ds) as Hds by (apply Forall_rev; exact Hd).
  assert (length ds <= 64)%nat as Hlen.
  { unfold ds. rewrite length_rev. apply digitsLE_length; [lia|].
    change (16 ^ Z.of_nat 64) with (2 ^ 256). exact Hn. }
  rewrite string_of_digits_length.
  pose proof (parseHexDigits_padding (64 - length ds) _ _
                (parseHexDigits_string_of_digits ds Hds)) as Hp.
  rewrite (BufferFromHex_be_bytes 32 _ _ Hp).
  - rewrite fold16_app, fold16_zeros, Z.mul_0_l. fold ds in Hv.
    rewrite Hv. reflexivity.
  - rewrite string_length_padding, string_of_digits_length. lia.
Qed.

(** The 40 hex digits of an address string decode to its 20 bytes. *)
Lemma address_be_bytes (s : string) (a : Z) :
  addressOf s = Some a -> BufferFromHex (slice 2 s) = be_bytes 20 a.
Proof.
  unfold addressOf. intros H.
  destruct s as [|c0 [|c1 h]]; try discriminate.
  - destruct (Ascii.ascii_dec c0 "0"%char) as [->|]; [discriminate|].
    destruct c0 as [[] [] [] [] [] [] [] []]; discriminate.
  - destruct c0 as [[] [] [] [] [] [] [] []]; try discriminate.
    destruct c1 as [[] [] [] [] [] [] [] []]; try discriminate.
    destruct (String.length h =? 40)%nat eqn:Hlen; [|discriminate].
    apply Nat.eqb_eq in Hlen.
    destruct (parseHexDigits h) as [ds|] eqn:Hp; [|discriminate].
    injection H as <-. cbn [slice].
    apply (BufferFromHex_be_bytes 20 h ds Hp). lia.
Qed.

End EncodingFacts.

(** On integers below 2^256 the relayer's concatenation is the packed
    encoding. *)
Lemma encode_is_encodePacked
    (tx : ProofGenerator.Transaction) (sender recipient amount : Z) :
  Enc.addressOf (ProofGenerator.sender tx) = Some sender ->
  Enc.addressOf (ProofGenerator.recipient tx) = Some recipient ->
  Enc.BigInt (ProofGenerator.amount tx) = Some amount ->
  (0 <= amount < 2 ^ 256)%Z ->
  (0 <= ProofGenerator.nonce tx < 2 ^ 256)%Z ->
  (0 <= ProofGenerator.sourceChainId tx < 2 ^ 256)%Z ->
  (0 <= ProofGenerator.destinationChainId tx < 2 ^ 256)%Z ->
  (0 <= ProofGenerator.timestamp tx < 2 ^ 256)%Z ->
  ProofGenerator.encode tx =
    Some (MessageLib.encodePacked sender recipient amount (ProofGenerator.nonce tx)
            (ProofGenerator.sourceChainId tx) (ProofGenerator.destinationChainId tx)
            (ProofGenerator.timestamp tx)).
Proof.
  intros Hs Hr Ha Ra Rn Rsrc Rdst Rts.
  unfold ProofGenerator.encode, MessageLib.encodePacked. rewrite Ha.
  cbn [mbind option_bind].
  rewrite (address_be_bytes _ _ Hs), (address_be_bytes _ _ Hr).
  rewrite !word_be_bytes by assumption. reflexivity.
Qed.

(** C2 as stated fails on the four fields the relayer holds as JavaScript
    numbers: a nonce of 2^53 + 1 fits in 256 bits, the listener stores
    [Number(nonce)] = 2^53 for it, and the leaf the relayer computes (its
    single-leaf root) is not the leaf the contract computed and emitted. *)
Lemma C2_unsafe_nonce_counterexample :
  Database.nonce RelayRuns.farRow = (2 ^ 53)%Z /\
  EventListener.ev_leafHash RelayRuns.farEvent =
    MessageLib.generateLeafHash Scenario.sender Scenario.recipient Scenario.amount
      (2 ^ 53 + 1) Scenario.sepolia Scenario.amoy Scenario.lockTime /\
  (exists p r,
      TransactionSubmitter.generateProofForTransaction RelayRuns.farRow = Js.Return p /\
      ProofGenerator.proof p = [] /\ ProofGenerator.root p = Some r /\
      r <> EventListener.ev_leafHash RelayRuns.farEvent).
Proof.
  split; [vm_compute; reflexivity|]. split; [reflexivity|].
  eexists _, _. split; [vm_compute; reflexivity|].
  split; [reflexivity|]. split; [reflexivity|].
  vm_compute. discriminate.
Qed.

(** C2, amended. For a transaction whose sender and recipient strings write
    the 20-byte addresses [sender] and [recipient], whose amount string
    [BigInt] reads (decimal digits with an optional sign, or a 0x, 0o or 0b
    literal, white space around it allowed) as an [amount] that fits in 256
    bits, and whose four number fields (nonce, source and destination chain
    id, timestamp) are non-negative safe integers, below 2^53, the bytes that
    the relayer's [generateLeafHash] concatenates are exactly
    [abi.encodePacked(sender, recipient, amount, nonce, sourceChainId,
    destinationChainId, timestamp)], so the relayer and [MessageLib] compute
    the same digest. *)
Theorem C2_leaf_hash_matches_contract
    (tx : ProofGenerator.Transaction) (sender recipient amount : Z) :
  Enc.addressOf (ProofGenerator.sender tx) = Some sender ->
  Enc.addressOf (ProofGenerator.recipient tx) = Some recipient ->
  Enc.BigInt (ProofGenerator.amount tx) = Some amount ->
  (0 <= amount < 2 ^ 256)%Z ->
  (0 <= ProofGenerator.nonce tx < 2 ^ 53)%Z ->
  (0 <= ProofGenerator.sourceChainId tx < 2 ^ 53)%Z ->
  (0 <= ProofGenerator.destinationChainId tx < 2 ^ 53)%Z ->
  (0 <= ProofGenerator.timestamp tx < 2 ^ 53)%Z ->
  ProofGenerator.encode tx =
    Some (MessageLib.encodePacked sender recipient amount (ProofGenerator.nonce tx)
            (ProofGenerator.sourceChainId tx) (ProofGenerator.destinationChainId tx)
            (ProofGenerator.timestamp tx)) /\
  ProofGenerator.generateLeafHash tx =
    Some (MessageLib.generateLeafHash sender recipient amount (ProofGenerator.nonce tx)
            (ProofGenerator.sourceChainId tx) (ProofGenerator.destinationChainId tx)
            (ProofGenerator.timestamp tx)).
Proof.
  intros Hs Hr Ha Ra Rn Rsrc Rdst Rts.
  assert (2 ^ 53 < 2 ^ 256)%Z as Hlt by (apply Z.pow_lt_mono_r; lia).
  assert (ProofGenerator.encode tx =
          Some (MessageLib.encodePacked sender recipient amount (ProofGenerator.nonce tx)
                  (ProofGenerator.sourceChainId tx) (ProofGenerator.destinationChainId tx)
                  (ProofGenerator.timestamp tx))) as Henc.
  { apply encode_is_encodePacked; try assumption; lia. }
  split; [exact Henc|].
  unfold ProofGenerator.generateLeafHash, MessageLib.generateLeafHash.
  rewrite Henc. reflexivity.
Qed.

Lemma C2_leaf_hash_matches_contract_witness :
  (ProofGenerator.encode Samples.tx1 =
     Some (MessageLib.encodePacked 0x70997970C51812dc3A010C7d01b50e0d17dc79C8
             0x3C44CdDdB6a900fa2b585dd299e03d12FA4293BC 1000000000000000000
             1 11155111 80002 1700000000) /\
   ProofGenerator.generateLeafHash Samples.tx1 =
     Some (MessageLib.generateLeafHash 0x70997970C51812dc3A010C7d01b50e0d17dc79C8
             0x3C44CdDdB6a900fa2b585dd299e03d12FA4293BC 1000000000000000000
             1 11155111 80002 1700000000)) /\
  (ProofGenerator.encode Samples.tx1hex =
     Some (MessageLib.encodePacked 0x70997970C51812dc3A010C7d01b50e0d17dc79C8
             0x3C44CdDdB6a900fa2b585dd299e03d12FA4293BC 1000000000000000000
             1 11155111 80002 1700000000) /\
   ProofGenerator.generateLeafHash Samples.tx1hex =
     Some (MessageLib.generateLeafHash 0x70997970C51812dc3A010C7d01b50e0d17dc79C8
             0x3C44CdDdB6a900fa2b585dd299e03d12FA4293BC 1000000000000000000
             1 11155111 80002 1700000000)).
Proof.
  split.
  - apply (C2_leaf_hash_matches_contract Samples.tx1
             0x70997970C51812dc3A010C7d01b50e0d17dc79C8
             0x3C44CdDdB6a900fa2b585dd299e03d12FA4293BC 1000000000000000000);
      try (vm_compute; reflexivity); vm_compute; split; congruence.
  - apply (C2_leaf_hash_matches_contract Samples.tx1hex
             0x70997970C51812dc3A010C7d01b50e0d17dc79C8
             0x3C44CdDdB6a900fa2b585dd299e03d12FA4293BC 1000000000000000000);
      try (vm_compute; reflexivity); vm_compute; split; congruence.
Defined.

(* ===================================================================== *)
(** ** BridgeValidator: nonces, roots *)
(* ===================================================================== *)

(** Run the guards of a contract function in hypothesis [H]: case on each
    condition in turn, dropping the reverting branches when [H] says the call
    returned. *)
Ltac guards H :=
  repeat first
    [ progress (unfold Evm.require, Evm.add, Evm.sub in H)
    | match type of H with
      | context [if ?b then _ else _] => destruct b eqn:?; cbn in H; try discriminate H
      end
    | progress cbn in H ].

Section ValidatorFacts.
Import Evm BridgeValidator.
Local Open Scope Z_scope.

Lemma validateTransaction_used (e : env) (a b c n src dst ts : Z) (prf : list Z)
    (root : Z) (s : state) :
  flag (usedNonces s) n = true ->
  validateTransaction e a b c n src dst ts prf root s =
    Revert (if paused s then EnforcedPause else NonceAlreadyUsed n).
Proof.
  intros Hused. unfold validateTransaction, whenNotPaused.
  destruct (paused s); cbn; [reflexivity|].
  rewrite Hused. reflexivity.
Qed.

(** What a successful [validateTransaction] does. *)
Lemma validateTransaction_Ok (e : env) (a b c n src dst ts : Z) (prf : list Z)
    (root : Z) (s : state) (r : bool) (s' : state) :
  validateTransaction e a b c n src dst ts prf root s = Ok (r, s') ->
  paused s = false /\ flag (usedNonces s) n = false /\ flag (validRoots s) root = true /\
  MerkleProof.verify prf root (MessageLib.generateLeafHash a b c n src dst ts) = true /\
  r = true /\
  usedNonces s' = <[n := true]> (usedNonces s) /\
  validRoots s' = validRoots s /\ paused s' = paused s /\
  owner s' = owner s /\ relayer s' = relayer s.
Proof.
  unfold validateTransaction, whenNotPaused.
  destruct (paused s) eqn:Hp; cbn; [discriminate|].
  destruct (flag (usedNonces s) n) eqn:Hu; cbn; [discriminate|].
  destruct (flag (validRoots s) root) eqn:Hr; cbn; [|discriminate].
  destruct (MerkleProof.verify _ _ _) eqn:Hv; cbn; [|discriminate].
  unfold add. cbn. destruct (_ <=? MAX_UINT256); cbn; [|discriminate].
  intros [= <- <-]. cbn. rewrite Hp. repeat split.
Qed.

Lemma registerAll_usedNonces (now : Z) (roots : list Z) :
  forall s, usedNonces
              (foldl (fun s root => emit (RootRegistered root now)
                                      (set_validRoots (<[root := true]>) s)) s roots)
            = usedNonces s.
Proof.
  induction roots as [|r0 roots IH]; intros s; [reflexivity|].
  cbn [foldl]. rewrite IH. reflexivity.
Qed.

(** No entry point clears a used nonce. *)
Lemma exec_keeps_nonces (e : env) (c : call) (s s' : state) (n : Z) :
  exec e c s = Ok s' -> flag (usedNonces s) n = true -> flag (usedNonces s') n = true.
Proof.
  intros Hexec Hn. destruct c; cbn in Hexec.
  - unfold registerRoot, onlyRelayer, whenNotPaused, add in Hexec.
    guards Hexec.
    injection Hexec as <-. exact Hn.
  - destruct (validateTransaction _ _ _ _ _ _ _ _ _ _ _) as [[r s1]|] eqn:Hv;
      cbn in Hexec; [|discriminate].
    injection Hexec as <-.
    destruct (validateTransaction_Ok _ _ _ _ _ _ _ _ _ _ _ _ _ Hv)
      as (_ & _ & _ & _ & _ & Hu & _).
    rewrite Hu. unfold flag in *.
    destruct (decide (nonce = n)) as [->|Hne].
    + rewrite lookup_insert_eq. reflexivity.
    + rewrite lookup_insert_ne by exact Hne. exact Hn.
  - unfold updateRelayer, onlyOwner in Hexec.
    guards Hexec.
    injection Hexec as <-. exact Hn.
  - unfold pause, onlyOwner, whenNotPaused in Hexec.
    guards Hexec.
    injection Hexec as <-. exact Hn.
  - unfold unpause, onlyOwner, whenPaused in Hexec.
    guards Hexec.
    injection Hexec as <-. exact Hn.
  - unfold batchRegisterRoots, onlyRelayer, whenNotPaused, add in Hexec.
    guards Hexec.
    injection Hexec as <-. cbn. rewrite registerAll_usedNonces. exact Hn.
  - unfold invalidateRoot, onlyOwner in Hexec.
    guards Hexec.
    injection Hexec as <-. exact Hn.
  - unfold transferOwnership, onlyOwner in Hexec.
    guards Hexec.
    injection Hexec as <-. exact Hn.
  - unfold renounceOwnership, onlyOwner in Hexec.
    guards Hexec.
    injection Hexec as <-. exact Hn.
Qed.

Lemma step_keeps_nonces (s : state) (tx : env * call) (n : Z) :
  flag (usedNonces s) n = true -> flag (usedNonces (step s tx)) n = true.
Proof.
  intros Hn. unfold step, commit.
  destruct (exec (fst tx) (snd tx) s) as [s'|] eqn:Hexec; [|exact Hn].
  eapply exec_keeps_nonces; eassumption.
Qed.

Lemma run_keeps_nonces (txs : list (env * call)) :
  forall (s : state) (n : Z),
    flag (usedNonces s) n = true -> flag (usedNonces (run s txs)) n = true.
Proof.
  unfold run. induction txs as [|tx txs IH]; intros s n Hn; [exact Hn|].
  cbn [foldl]. apply IH, step_keeps_nonces, Hn.
Qed.

End ValidatorFacts.

(** C3 as stated fails on the error: once the owner has paused the validator,
    a call with the consumed nonce 1 is rejected by the pause guard, which
    runs first, and reverts with [EnforcedPause], not [NonceAlreadyUsed]. *)
Lemma C3_paused_counterexample :
  BridgeValidator.constructor (Scenario.at_ Scenario.deployer 0) Scenario.operator
    = Evm.Ok Scenario.genesis /\
  BridgeValidator.isNonceUsed 1 ScenarioRuns.consumedPaused = true /\
  BridgeValidator.validateTransaction (Scenario.at_ Scenario.stranger 63)
    Scenario.sender Scenario.recipient Scenario.amount 1 Scenario.sepolia Scenario.amoy
    Scenario.lockTime [] Scenario.leaf ScenarioRuns.consumedPaused
    = Evm.Revert Evm.EnforcedPause /\
  BridgeValidator.validateTransaction (Scenario.at_ Scenario.stranger 63)
    Scenario.sender Scenario.recipient Scenario.amount 1 Scenario.sepolia Scenario.amoy
    Scenario.lockTime [] Scenario.leaf ScenarioRuns.consumedPaused
    <> Evm.Revert (Evm.NonceAlreadyUsed 1).
Proof.
  split; [vm_compute; reflexivity|].
  split; [vm_compute; reflexivity|].
  split; [vm_compute; reflexivity|].
  vm_compute. discriminate.
Qed.

(** C3, amended. In every validator state in which nonce [n] is recorded in
    [usedNonces], every call of [validateTransaction] with nonce [n] reverts,
    whatever the other arguments, proof and root: with [NonceAlreadyUsed n]
    when the validator is not paused and with [EnforcedPause] when it is; the
    transaction leaves the whole state, [usedNonces], [validRoots] and
    [validatedTransactions] included, unchanged. *)
Theorem C3_used_nonce_rejected
    (s : BridgeValidator.state) (e : Evm.env)
    (sender recipient amount n sourceChainId destinationChainId timestamp : Z)
    (proof : list Z) (root : Z) :
  BridgeValidator.isNonceUsed n s = true ->
  BridgeValidator.validateTransaction e sender recipient amount n sourceChainId
      destinationChainId timestamp proof root s
    = Evm.Revert (if BridgeValidator.paused s then Evm.EnforcedPause
                  else Evm.NonceAlreadyUsed n) /\
  BridgeValidator.step s
      (e, BridgeValidator.ValidateTransaction sender recipient amount n sourceChainId
            destinationChainId timestamp proof root) = s.
Proof.
  intros Hused. unfold BridgeValidator.isNonceUsed in Hused.
  pose proof (validateTransaction_used e sender recipient amount n sourceChainId
                destinationChainId timestamp proof root s Hused) as Hrev.
  split; [exact Hrev|].
  unfold BridgeValidator.step. cbn [fst snd BridgeValidator.exec].
  rewrite Hrev. reflexivity.
Qed.

Lemma C3_used_nonce_rejected_witness :
  BridgeValidator.validateTransaction (Scenario.at_ Scenario.stranger 63)
      Scenario.sender Scenario.recipient Scenario.amount 1 Scenario.sepolia Scenario.amoy
      Scenario.lockTime [] Scenario.leaf ScenarioRuns.consumed
    = Evm.Revert (if BridgeValidator.paused ScenarioRuns.consumed then Evm.EnforcedPause
                  else Evm.NonceAlreadyUsed 1) /\
  BridgeValidator.step ScenarioRuns.consumed
      (Scenario.at_ Scenario.stranger 63,
       BridgeValidator.ValidateTransaction Scenario.sender Scenario.recipient
         Scenario.amount 1 Scenario.sepolia Scenario.amoy Scenario.lockTime []
         Scenario.leaf) = ScenarioRuns.consumed.
Proof.
  apply (C3_used_nonce_rejected ScenarioRuns.consumed).
  vm_compute. reflexivity.
Defined.

(** C4, evaluated. The relayer registers [leaf] at time 60 and again at time
    120: the second call returns, it does not revert; the root stays valid,
    [lastRootUpdate] moves to 120 and a second [RootRegistered] is logged. *)
Lemma C4_duplicate_root_is_accepted :
  BridgeValidator.isRootValid Scenario.leaf ScenarioRuns.registered = true /\
  Evm.reverted (BridgeValidator.registerRoot (Scenario.at_ Scenario.operator 120)
                  Scenario.leaf ScenarioRuns.registered) = false /\
  (let after := BridgeValidator.step ScenarioRuns.registered
                  (Scenario.at_ Scenario.operator 120,
                   BridgeValidator.RegisterRoot Scenario.leaf) in
   BridgeValidator.validRoots after = BridgeValidator.validRoots ScenarioRuns.registered /\
   BridgeValidator.lastRootUpdate after = 120%Z /\
   BridgeValidator.events after =
     BridgeValidator.events ScenarioRuns.registered ++
     [BridgeValidator.RootRegistered Scenario.leaf 120]).
Proof.
  split; [vm_compute; reflexivity|].
  split; [vm_compute; reflexivity|].
  cbv zeta. split; [vm_compute; reflexivity|].
  split; vm_compute; reflexivity.
Qed.

Section RootFacts.
Import Evm BridgeValidator.
Local Open Scope Z_scope.

Lemma registerRoot_Ok (e : env) (r : Z) (s s1 : state) :
  registerRoot e r s = Ok s1 ->
  flag (validRoots s1) r = true /\ usedNonces s1 = usedNonces s /\
  paused s1 = paused s /\ owner s1 = owner s.
Proof.
  intros H. unfold registerRoot, onlyRelayer, whenNotPaused in H. guards H.
  injection H as <-. cbn. unfold flag. rewrite lookup_insert_eq. repeat split.
Qed.

Lemma invalidateRoot_by_owner (e : env) (r : Z) (s : state) :
  msg_sender e = owner s ->
  step s (e, InvalidateRoot r) = set_validRoots (<[r := false]>) s.
Proof.
  intros Ho. unfold step. cbn [fst snd exec]. unfold invalidateRoot, onlyOwner.
  rewrite Ho, Z.eqb_refl. reflexivity.
Qed.

Lemma validateTransaction_invalid_root (e : env) (a b c n src dst ts : Z)
    (prf : list Z) (r : Z) (s : state) :
  flag (validRoots s) r = false ->
  reverted (validateTransaction e a b c n src dst ts prf r s) = true /\
  (paused s = false -> flag (usedNonces s) n = false ->
   validateTransaction e a b c n src dst ts prf r s = Revert InvalidRoot).
Proof.
  intros Hr. unfold validateTransaction, whenNotPaused.
  destruct (paused s); cbn; [split; [reflexivity|discriminate]|].
  destruct (flag (usedNonces s) n); cbn; [split; [reflexivity|discriminate]|].
  rewrite Hr. cbn. split; reflexivity.
Qed.

Lemma constructor_then_register (deployer operator t t' r : Z) :
  deployer <> 0 -> operator <> 0 -> 0 <= t -> t + 60 <= t' -> t + 60 <= MAX_UINT256 ->
  exists s s1,
    constructor {| msg_sender := deployer; msg_value := 0; block_timestamp := t |} operator
      = Ok s /\
    owner s = deployer /\
    registerRoot {| msg_sender := operator; msg_value := 0; block_timestamp := t' |} r s
      = Ok s1.
Proof.
  intros Hd Ho Ht Ht' Hmax.
  unfold constructor, require. cbn [msg_sender block_timestamp].
  destruct (Z.eqb_spec deployer 0) as [|_]; [contradiction|].
  destruct (Z.eqb_spec operator 0) as [|_]; [contradiction|].
  cbn. eexists. eexists. split; [reflexivity|]. split; [reflexivity|].
  unfold registerRoot, onlyRelayer, whenNotPaused, require, add, MIN_ROOT_UPDATE_DELAY.
  cbn. rewrite Z.eqb_refl. cbn.
  destruct (Z.leb_spec (t + 60) MAX_UINT256) as [_|]; [|lia]. cbn.
  destruct (Z.ltb_spec t' (t + 60)) as [|_]; [lia|]. cbn. reflexivity.
Qed.

End RootFacts.

(** C10. Root validity is not monotone while nonce consumption is: a freshly
    deployed validator accepts [registerRoot r] from its relayer once the
    update delay has passed; after any successful [registerRoot r] the root is
    valid, and an [invalidateRoot r] by the owner makes [isRootValid r] false,
    after which [validateTransaction] reverts for every proof against [r], with
    [InvalidRoot] for each call it accepted before; and no sequence of
    transactions to the validator clears a used nonce. *)
Theorem C10_roots_revocable_nonces_permanent :
  (forall deployer operator t t' r : Z,
      deployer <> 0%Z -> operator <> 0%Z -> (0 <= t)%Z -> (t + 60 <= t')%Z ->
      (t + 60 <= Evm.MAX_UINT256)%Z ->
      exists s s1,
        BridgeValidator.constructor
          {| Evm.msg_sender := deployer; Evm.msg_value := 0; Evm.block_timestamp := t |}
          operator = Evm.Ok s /\
        BridgeValidator.owner s = deployer /\
        BridgeValidator.registerRoot
          {| Evm.msg_sender := operator; Evm.msg_value := 0; Evm.block_timestamp := t' |}
          r s = Evm.Ok s1) /\
  (forall (s s1 : BridgeValidator.state) (e1 e2 : Evm.env) (r : Z),
      BridgeValidator.registerRoot e1 r s = Evm.Ok s1 ->
      Evm.msg_sender e2 = BridgeValidator.owner s1 ->
      let s2 := BridgeValidator.step s1 (e2, BridgeValidator.InvalidateRoot r) in
      BridgeValidator.isRootValid r s1 = true /\
      BridgeValidator.isRootValid r s2 = false /\
      (forall e a b c n src dst ts prf,
          Evm.reverted (BridgeValidator.validateTransaction e a b c n src dst ts prf r s2)
            = true) /\
      (forall e e' a b c n src dst ts prf res,
          BridgeValidator.validateTransaction e a b c n src dst ts prf r s1 = Evm.Ok res ->
          BridgeValidator.validateTransaction e' a b c n src dst ts prf r s2
            = Evm.Revert Evm.InvalidRoot)) /\
  (forall (s : BridgeValidator.state) (txs : list (Evm.env * BridgeValidator.call)) (n : Z),
      BridgeValidator.isNonceUsed n s = true ->
      BridgeValidator.isNonceUsed n (BridgeValidator.run s txs) = true).
Proof.
  split; [exact constructor_then_register|]. split.
  - intros s s1 e1 e2 r Hreg Hown s2.
    destruct (registerRoot_Ok e1 r s s1 Hreg) as (Hvalid & _).
    assert (s2 = BridgeValidator.set_validRoots (<[r := false]>) s1) as Hs2
      by (apply invalidateRoot_by_owner; exact Hown).
    assert (Evm.flag (BridgeValidator.validRoots s2) r = false) as Hinv.
    { rewrite Hs2. cbn. unfold Evm.flag. rewrite lookup_insert_eq. reflexivity. }
    split; [exact Hvalid|]. split; [exact Hinv|]. split.
    + intros. apply validateTransaction_invalid_root. exact Hinv.
    + intros e e' a b c n src dst ts prf [res s'] Hok.
      destruct (validateTransaction_Ok _ _ _ _ _ _ _ _ _ _ _ _ _ Hok)
        as (Hp & Hu & _).
      apply validateTransaction_invalid_root; [exact Hinv| |]; rewrite Hs2; assumption.
  - intros s txs n. apply run_keeps_nonces.
Qed.

Lemma C10_roots_revocable_nonces_permanent_witness :
  let s2 := BridgeValidator.step ScenarioRuns.registered
              (Scenario.at_ Scenario.deployer 61,
               BridgeValidator.InvalidateRoot Scenario.leaf) in
  BridgeValidator.isRootValid Scenario.leaf ScenarioRuns.registered = true /\
  BridgeValidator.isRootValid Scenario.leaf s2 = false /\
  (forall e a b c n src dst ts prf,
      Evm.reverted (BridgeValidator.validateTransaction e a b c n src dst ts prf
                      Scenario.leaf s2) = true) /\
  (forall e e' a b c n src dst ts prf res,
      BridgeValidator.validateTransaction e a b c n src dst ts prf Scenario.leaf
        ScenarioRuns.registered = Evm.Ok res ->
      BridgeValidator.validateTransaction e' a b c n src dst ts prf Scenario.leaf s2
        = Evm.Revert Evm.InvalidRoot).
Proof.
  apply (proj1 (proj2 C10_roots_revocable_nonces_permanent)
           Scenario.genesis ScenarioRuns.registered
           (Scenario.at_ Scenario.operator 60) (Scenario.at_ Scenario.deployer 61)
           Scenario.leaf).
  - vm_compute. reflexivity.
  - vm_compute. reflexivity.
Defined.

(* ===================================================================== *)
(** ** Nonce consumption and the value-changing effect *)
(* ===================================================================== *)

Section ValidatorOnlyFacts.
Import Evm BridgeValidator.
Local Open Scope Z_scope.

(** Only [validateTransaction] writes [usedNonces]. *)
Lemma exec_other_nonces (e : env) (c : call) (s s' : state) :
  is_validation c = false -> exec e c s = Ok s' -> usedNonces s' = usedNonces s.
Proof.
  intros Hc Hexec. destruct c; try discriminate Hc; cbn in Hexec.
  - unfold registerRoot, onlyRelayer, whenNotPaused in Hexec. guards Hexec.
    injection Hexec as <-. reflexivity.
  - unfold updateRelayer, onlyOwner in Hexec. guards Hexec.
    injection Hexec as <-. reflexivity.
  - unfold pause, onlyOwner, whenNotPaused in Hexec. guards Hexec.
    injection Hexec as <-. reflexivity.
  - unfold unpause, onlyOwner, whenPaused in Hexec. guards Hexec.
    injection Hexec as <-. reflexivity.
  - unfold batchRegisterRoots, onlyRelayer, whenNotPaused in Hexec. guards Hexec.
    injection Hexec as <-. cbn. apply registerAll_usedNonces.
  - unfold invalidateRoot, onlyOwner in Hexec. guards Hexec.
    injection Hexec as <-. reflexivity.
  - unfold transferOwnership, onlyOwner in Hexec. guards Hexec.
    injection Hexec as <-. reflexivity.
  - unfold renounceOwnership, onlyOwner in Hexec. guards Hexec.
    injection Hexec as <-. reflexivity.
Qed.

End ValidatorOnlyFacts.

Section TokenLedgerFacts.
Import Evm TokenLedger.
Local Open Scope Z_scope.

(** What a successful [mint] does: the nonce is consumed, the recipient is
    credited, the supply grows, and the mint is logged. *)
Lemma mint_Ok (self : Z) (e : env) (a b c n ts h : Z) (prf : list Z) (root : Z)
    (v v' : BridgeValidator.state) (t t' : BridgeToken.state) :
  BridgeToken.mint self e a b c n ts h prf root v t = Ok (v', t') ->
  BridgeValidator.usedNonces v' = <[n := true]> (BridgeValidator.usedNonces v) /\
  flag (BridgeValidator.usedNonces v) n = false /\
  BridgeToken.events t' =
    BridgeToken.events t ++
    [BridgeToken.Transfer 0 b c; BridgeToken.TokensMinted b c n h (block_timestamp e)] /\
  amountOf (BridgeToken.balances t') b = amountOf (BridgeToken.balances t) b + c /\
  BridgeToken.totalSupply t' = BridgeToken.totalSupply t + c.
Proof.
  intros H. unfold BridgeToken.mint, BridgeToken.whenNotPaused in H.
  destruct (BridgeToken.paused t); cbn in H; [discriminate|].
  unfold require at 1 2 3 4 in H.
  destruct (negb (b =? 0)); cbn in H; [|discriminate].
  destruct (negb (c <? BridgeToken.MIN_AMOUNT)); cbn in H; [|discriminate].
  destruct (negb (BridgeToken.maxMintAmount t <? c)); cbn in H; [|discriminate].
  destruct (negb (flag (BridgeToken.processedTransactions t) _)); cbn in H; [|discriminate].
  destruct (BridgeValidator.validateTransaction _ _ _ _ _ _ _ _ _ _ _)
    as [[isValid v1]|] eqn:Hv; cbn in H; [|discriminate].
  destruct (validateTransaction_Ok _ _ _ _ _ _ _ _ _ _ _ _ _ Hv)
    as (_ & Hfresh & _ & _ & -> & Hu & _).
  guards H.
  injection H as <- <-. cbn.
  split; [exact Hu|]. split; [exact Hfresh|]. split; [reflexivity|].
  split; [|reflexivity].
  unfold amountOf at 1. rewrite lookup_insert_eq. reflexivity.
Qed.

Lemma minted_more (w w' : world) (n : Z) (evs : list BridgeToken.event) :
  BridgeToken.events (token w') = BridgeToken.events (token w) ++ evs ->
  minted w n -> minted w' n.
Proof.
  intros Hev (r & a & h & ts & Hin). exists r, a, h, ts.
  rewrite Hev. apply elem_of_app. left. exact Hin.
Qed.

Lemma token_admin_events (e : env) (t t' : BridgeToken.state) (c : call) (w : world) :
  match c with
  | BurnForBridge a r => BridgeToken.burnForBridge e a r t = Ok t'
  | UpdateMaxMintAmount m => BridgeToken.updateMaxMintAmount e m t = Ok t'
  | PauseToken => BridgeToken.pause e t = Ok t'
  | UnpauseToken => BridgeToken.unpause e t = Ok t'
  | _ => False
  end ->
  exists evs, BridgeToken.events t' = BridgeToken.events t ++ evs.
Proof.
  destruct c; intros H; try contradiction.
  - unfold BridgeToken.burnForBridge, BridgeToken.whenNotPaused in H. guards H.
    injection H as <-. cbn. eauto.
  - unfold BridgeToken.updateMaxMintAmount, BridgeToken.onlyOwner in H. guards H.
    injection H as <-. cbn. eauto.
  - unfold BridgeToken.pause, BridgeToken.onlyOwner, BridgeToken.whenNotPaused in H.
    guards H. injection H as <-. cbn. eauto.
  - unfold BridgeToken.unpause, BridgeToken.onlyOwner, BridgeToken.whenPaused in H.
    guards H. injection H as <-. cbn. eauto.
Qed.

Lemma step_consistent (w : world) (tx : env * call) :
  direct_validation tx = false -> consistent w -> consistent (step w tx).
Proof.
  destruct tx as [e c]. unfold direct_validation, step, commit. cbn [fst snd].
  intros Hdirect Hinv.
  destruct (exec e c w) as [w'|] eqn:Hexec; [|exact Hinv].
  destruct c; cbn in Hexec.
  - destruct (BridgeToken.mint _ _ _ _ _ _ _ _ _ _ _ _) as [[v' t']|] eqn:Hm;
      cbn in Hexec; [|discriminate].
    injection Hexec as <-.
    destruct (mint_Ok _ _ _ _ _ _ _ _ _ _ _ _ _ _ Hm) as (Hu & _ & Hev & _).
    intros n Hn. cbn in Hn. rewrite Hu in Hn.
    destruct (decide (nonce = n)) as [->|Hne].
    + exists recipient, amount, sourceChainTxHash, (block_timestamp e).
      cbn. rewrite Hev. apply elem_of_app. right.
      apply list_elem_of_further, list_elem_of_here.
    + unfold flag in Hn. rewrite lookup_insert_ne in Hn by exact Hne.
      eapply minted_more; [|apply Hinv; exact Hn]. cbn. exact Hev.
  - destruct (BridgeToken.burnForBridge e amount recipient (token w)) as [t'|] eqn:Ht;
      cbn in Hexec; [|discriminate].
    injection Hexec as <-.
    destruct (token_admin_events e (token w) t' (BurnForBridge amount recipient) w Ht)
      as [evs Hev].
    intros n Hn. eapply minted_more; [|apply Hinv; exact Hn]. cbn. exact Hev.
  - destruct (BridgeToken.updateMaxMintAmount e newMax (token w)) as [t'|] eqn:Ht;
      cbn in Hexec; [|discriminate].
    injection Hexec as <-.
    destruct (token_admin_events e (token w) t' (UpdateMaxMintAmount newMax) w Ht)
      as [evs Hev].
    intros n Hn. eapply minted_more; [|apply Hinv; exact Hn]. cbn. exact Hev.
  - destruct (BridgeToken.pause e (token w)) as [t'|] eqn:Ht;
      cbn in Hexec; [|discriminate].
    injection Hexec as <-.
    destruct (token_admin_events e (token w) t' PauseToken w Ht) as [evs Hev].
    intros n Hn. eapply minted_more; [|apply Hinv; exact Hn]. cbn. exact Hev.
  - destruct (BridgeToken.unpause e (token w)) as [t'|] eqn:Ht;
      cbn in Hexec; [|discriminate].
    injection Hexec as <-.
    destruct (token_admin_events e (token w) t' UnpauseToken w Ht) as [evs Hev].
    intros n Hn. eapply minted_more; [|apply Hinv; exact Hn]. cbn. exact Hev.
  - destruct (BridgeValidator.exec e c (validator w)) as [v'|] eqn:Hv;
      cbn in Hexec; [|discriminate].
    injection Hexec as <-.
    assert (is_validation c = false) as Hc by (destruct c; auto).
    intros n Hn. cbn in Hn. rewrite (exec_other_nonces e c _ _ Hc Hv) in Hn.
    destruct (Hinv n Hn) as (r & a & h & ts & Hin). exists r, a, h, ts. exact Hin.
Qed.

Lemma run_consistent (txs : list (env * call)) :
  forall w, Forall (fun tx => direct_validation tx = false) txs ->
            consistent w -> consistent (run w txs).
Proof.
  unfold run. induction txs as [|tx txs IH]; intros w Hall Hinv; [exact Hinv|].
  inversion Hall as [|? ? Htx Hrest]; subst.
  cbn [foldl]. apply IH; [exact Hrest|]. apply step_consistent; assumption.
Qed.

Lemma deploy_consistent (d r va ta src chain now : Z) (w : world) :
  deploy d r va ta src chain now = Ok w -> consistent w.
Proof.
  unfold deploy, BridgeValidator.constructor, BridgeToken.constructor. intros H.
  guards H. injection H as <-. intros n Hn. cbn in Hn. discriminate.
Qed.

End TokenLedgerFacts.

Section VaultLedgerFacts.
Import Evm VaultLedger.
Local Open Scope Z_scope.

(** What a successful [unlock] does: the nonce is consumed, the ether leaves
    the vault for the recipient, and the unlock is logged. *)
Lemma unlock_Ok (self : Z) (e : env) (a b c n ts : Z) (prf : list Z) (root : Z)
    (accepts : bool) (v v' : BridgeValidator.state) (funds funds' : gmap Z Z)
    (t t' : BridgeVault.state) :
  BridgeVault.unlock self e a b c n ts prf root accepts v funds t = Ok (v', funds', t') ->
  BridgeValidator.usedNonces v' = <[n := true]> (BridgeValidator.usedNonces v) /\
  flag (BridgeValidator.usedNonces v) n = false /\
  BridgeVault.events t' =
    BridgeVault.events t ++ [BridgeVault.BridgingCompleted b c n (block_timestamp e)] /\
  funds' = BridgeVault.pay self b c funds /\
  c <= amountOf funds self /\
  BridgeVault.totalUnlocked t' = BridgeVault.totalUnlocked t + c.
Proof.
  intros H. unfold BridgeVault.unlock, BridgeVault.whenNotPaused in H.
  destruct (BridgeVault.paused t); cbn in H; [discriminate|].
  unfold require at 1 2 3 in H.
  destruct (negb (b =? 0)); cbn in H; [|discriminate].
  destruct (negb (c =? 0)); cbn in H; [|discriminate].
  destruct (negb (flag (BridgeVault.processedTransactions t) _)); cbn in H; [|discriminate].
  destruct (BridgeValidator.validateTransaction _ _ _ _ _ _ _ _ _ _ _)
    as [[isValid v1]|] eqn:Hv; cbn in H; [|discriminate].
  destruct (validateTransaction_Ok _ _ _ _ _ _ _ _ _ _ _ _ _ Hv)
    as (_ & Hfresh & _ & _ & -> & Hu & _).
  guards H.
  injection H as <- <- <-. cbn.
  split; [exact Hu|]. split; [exact Hfresh|]. split; [reflexivity|].
  split; [reflexivity|]. split; [|reflexivity].
  match goal with
  | Hs : (_ <=? amountOf funds self) && accepts = true |- _ =>
      apply andb_prop in Hs as [Hs _]; apply Z.leb_le in Hs; exact Hs
  end.
Qed.

Lemma pay_credits (self recipient amount : Z) (funds : gmap Z Z) :
  self <> recipient ->
  amountOf (BridgeVault.pay self recipient amount funds) recipient
    = amountOf funds recipient + amount /\
  amountOf (BridgeVault.pay self recipient amount funds) self
    = amountOf funds self - amount.
Proof.
  intros Hne. unfold BridgeVault.pay, amountOf. split.
  - rewrite lookup_insert_eq. cbn. rewrite lookup_insert_ne by exact Hne. reflexivity.
  - rewrite lookup_insert_ne by congruence. rewrite lookup_insert_eq. reflexivity.
Qed.

Lemma unlocked_more (w w' : world) (n : Z) (evs : list BridgeVault.event) :
  BridgeVault.events (vault w') = BridgeVault.events (vault w) ++ evs ->
  unlocked w n -> unlocked w' n.
Proof.
  intros Hev (r & a & ts & Hin). exists r, a, ts.
  rewrite Hev. apply elem_of_app. left. exact Hin.
Qed.

Lemma vault_other_events (e : env) (c : call) (w w' : world) :
  match c with
  | Unlock _ _ _ _ _ _ _ _ | Validator _ => False
  | _ => exec e c w = Ok w'
  end ->
  validator w' = validator w /\
  exists evs, BridgeVault.events (vault w') = BridgeVault.events (vault w) ++ evs.
Proof.
  destruct c; intros H; try contradiction; cbn in H.
  - destruct (BridgeVault.lock _ _ _ _ _) as [[f t']|] eqn:Hl; cbn in H; [|discriminate].
    injection H as <-. cbn. split; [reflexivity|].
    unfold BridgeVault.lock, BridgeVault.whenNotPaused in Hl. guards Hl.
    injection Hl as <- <-. cbn. eauto.
  - destruct (BridgeVault.updateMaxBridgeAmount _ _ _) as [t'|] eqn:Hl;
      cbn in H; [|discriminate].
    injection H as <-. cbn. split; [reflexivity|].
    unfold BridgeVault.updateMaxBridgeAmount, BridgeVault.onlyOwner in Hl. guards Hl.
    injection Hl as <-. cbn. eauto.
  - destruct (BridgeVault.pause _ _) as [t'|] eqn:Hl; cbn in H; [|discriminate].
    injection H as <-. cbn. split; [reflexivity|].
    unfold BridgeVault.pause, BridgeVault.onlyOwner, BridgeVault.whenNotPaused in Hl.
    guards Hl. injection Hl as <-. cbn. eauto.
  - destruct (BridgeVault.unpause _ _) as [t'|] eqn:Hl; cbn in H; [|discriminate].
    injection H as <-. cbn. split; [reflexivity|].
    unfold BridgeVault.unpause, BridgeVault.onlyOwner, BridgeVault.whenPaused in Hl.
    guards Hl. injection Hl as <-. cbn. eauto.
  - destruct (BridgeVault.emergencyWithdraw _ _ _ _ _ _ _) as [[f t']|] eqn:Hl;
      cbn in H; [|discriminate].
    injection H as <-. cbn. split; [reflexivity|].
    unfold BridgeVault.emergencyWithdraw, BridgeVault.onlyOwner, BridgeVault.whenPaused in Hl.
    guards Hl. injection Hl as <- <-. cbn. eauto.
  - destruct (BridgeVault.receive _ _ _ _) as [[f t']|] eqn:Hl; cbn in H; [|discriminate].
    injection H as <-. cbn. split; [reflexivity|].
    unfold BridgeVault.receive in Hl. guards Hl.
    injection Hl as <- <-. exists []. rewrite app_nil_r. reflexivity.
Qed.

Lemma step_settled (w : world) (tx : env * call) :
  direct_validation tx = false -> settled w -> settled (step w tx).
Proof.
  destruct tx as [e c]. unfold direct_validation, step, commit. cbn [fst snd].
  intros Hdirect Hinv.
  destruct (exec e c w) as [w'|] eqn:Hexec; [|exact Hinv].
  destruct c;
    try (match type of Hexec with
         | exec e ?c0 w = _ =>
             destruct (vault_other_events e c0 w w' Hexec) as [Hval [evs Hev]]
         end;
         intros n Hn; rewrite Hval in Hn;
         eapply unlocked_more; [exact Hev | apply Hinv; exact Hn]).
  - cbn in Hexec.
    destruct (BridgeVault.unlock _ _ _ _ _ _ _ _ _ _ _ _ _) as [[[v' f'] t']|] eqn:Hm;
      cbn in Hexec; [|discriminate].
    injection Hexec as <-.
    destruct (unlock_Ok _ _ _ _ _ _ _ _ _ _ _ _ _ _ _ _ Hm) as (Hu & _ & Hev & _).
    intros n Hn. cbn in Hn. rewrite Hu in Hn.
    destruct (decide (nonce = n)) as [->|Hne].
    + exists recipient, amount, (block_timestamp e).
      cbn. rewrite Hev. apply elem_of_app. right. apply list_elem_of_here.
    + unfold flag in Hn. rewrite lookup_insert_ne in Hn by exact Hne.
      eapply unlocked_more; [|apply Hinv; exact Hn]. cbn. exact Hev.
  - cbn in Hexec.
    destruct (BridgeValidator.exec e c (validator w)) as [v'|] eqn:Hv;
      cbn in Hexec; [|discriminate].
    injection Hexec as <-.
    assert (is_validation c = false) as Hc by (destruct c; auto).
    intros n Hn. cbn in Hn. rewrite (exec_other_nonces e c _ _ Hc Hv) in Hn.
    destruct (Hinv n Hn) as (r & a & ts & Hin). exists r, a, ts. exact Hin.
Qed.

Lemma run_settled (txs : list (env * call)) :
  forall w, Forall (fun tx => direct_validation tx = false) txs ->
            settled w -> settled (run w txs).
Proof.
  unfold run. induction txs as [|tx txs IH]; intros w Hall Hinv; [exact Hinv|].
  inversion Hall as [|? ? Htx Hrest]; subst.
  cbn [foldl]. apply IH; [exact Hrest|]. apply step_settled; assumption.
Qed.

Lemma deploy_settled (d r va ta dst chain now : Z) (funds : gmap Z Z) (w : world) :
  deploy d r va ta dst chain now funds = Ok w -> settled w.
Proof.
  unfold deploy, BridgeValidator.constructor, BridgeVault.constructor. intros H.
  guards H. injection H as <-. intros n Hn. cbn in Hn. discriminate.
Qed.

End VaultLedgerFacts.

(** C5 as stated fails: [validateTransaction] is open to every caller.  After
    the root is registered, a third party calls it on the validator with the
    transfer's data: nonce 1 is consumed while the token is untouched (no
    supply, no balance, no [TokensMinted]), and the mint of that transfer is
    rejected from then on. *)
Lemma C5_direct_validation_counterexample :
  TokenLedger.deploy Scenario.deployer Scenario.operator Scenario.validatorAddr
    Scenario.tokenAddr Scenario.sepolia Scenario.amoy 0 = Evm.Ok LedgerRuns.fresh /\
  BridgeValidator.isNonceUsed 1 (TokenLedger.validator LedgerRuns.bypassed) = true /\
  TokenLedger.token LedgerRuns.bypassed = LedgerRuns.freshToken /\
  BridgeToken.totalSupply (TokenLedger.token LedgerRuns.bypassed) = 0%Z /\
  Evm.amountOf (BridgeToken.balances (TokenLedger.token LedgerRuns.bypassed))
    Scenario.recipient = 0%Z /\
  ~ TokenLedger.minted LedgerRuns.bypassed 1 /\
  TokenLedger.exec (Scenario.at_ Scenario.operator 62) LedgerRuns.mintCall
    LedgerRuns.bypassed = Evm.Revert (Evm.NonceAlreadyUsed 1).
Proof.
  split; [vm_compute; reflexivity|].
  split; [vm_compute; reflexivity|].
  assert (TokenLedger.token LedgerRuns.bypassed = LedgerRuns.freshToken) as Htok
    by (vm_compute; reflexivity).
  split; [exact Htok|].
  split; [vm_compute; reflexivity|].
  split; [vm_compute; reflexivity|].
  split; [|vm_compute; reflexivity].
  intros (r & a & h & ts & Hin). rewrite Htok in Hin. cbn in Hin.
  apply list_elem_of_singleton in Hin. discriminate.
Qed.

(** C5, amended. As long as [validateTransaction] is reached only through
    [BridgeToken.mint] and [BridgeVault.unlock] (no call made on the validator
    directly), in every state reachable from deployment a consumed nonce has
    its mint, respectively its unlock, in the log; a successful [mint] or
    [unlock] consumes the nonce and applies the effect in the same
    transaction (balance credited and supply raised, ether moved from the
    vault to the recipient), and a reverted one changes nothing. *)
Theorem C5_consumption_with_effect_through_bridge :
  (forall d r va ta src chain now w0 txs n,
      TokenLedger.deploy d r va ta src chain now = Evm.Ok w0 ->
      Forall (fun tx => TokenLedger.direct_validation tx = false) txs ->
      BridgeValidator.isNonceUsed n (TokenLedger.validator (TokenLedger.run w0 txs)) = true ->
      TokenLedger.minted (TokenLedger.run w0 txs) n) /\
  (forall w e a b c n ts h prf root w',
      TokenLedger.exec e (TokenLedger.Mint a b c n ts h prf root) w = Evm.Ok w' ->
      BridgeValidator.isNonceUsed n (TokenLedger.validator w) = false /\
      BridgeValidator.isNonceUsed n (TokenLedger.validator w') = true /\
      TokenLedger.minted w' n /\
      Evm.amountOf (BridgeToken.balances (TokenLedger.token w')) b =
        (Evm.amountOf (BridgeToken.balances (TokenLedger.token w)) b + c)%Z /\
      BridgeToken.totalSupply (TokenLedger.token w') =
        (BridgeToken.totalSupply (TokenLedger.token w) + c)%Z) /\
  (forall w e c, Evm.reverted (TokenLedger.exec e c w) = true ->
                 TokenLedger.step w (e, c) = w) /\
  (forall d r va ta dst chain now funds w0 txs n,
      VaultLedger.deploy d r va ta dst chain now funds = Evm.Ok w0 ->
      Forall (fun tx => VaultLedger.direct_validation tx = false) txs ->
      BridgeValidator.isNonceUsed n (VaultLedger.validator (VaultLedger.run w0 txs)) = true ->
      VaultLedger.unlocked (VaultLedger.run w0 txs) n) /\
  (forall w e a b c n ts prf root accepts w',
      VaultLedger.exec e (VaultLedger.Unlock a b c n ts prf root accepts) w = Evm.Ok w' ->
      VaultLedger.vaultAddress w <> b ->
      BridgeValidator.isNonceUsed n (VaultLedger.validator w) = false /\
      BridgeValidator.isNonceUsed n (VaultLedger.validator w') = true /\
      VaultLedger.unlocked w' n /\
      Evm.amountOf (VaultLedger.eth w') b = (Evm.amountOf (VaultLedger.eth w) b + c)%Z /\
      Evm.amountOf (VaultLedger.eth w') (VaultLedger.vaultAddress w) =
        (Evm.amountOf (VaultLedger.eth w) (VaultLedger.vaultAddress w) - c)%Z) /\
  (forall w e c, Evm.reverted (VaultLedger.exec e c w) = true ->
                 VaultLedger.step w (e, c) = w).
Proof.
  split.
  { intros d r va ta src chain now w0 txs n Hd Hall Hn.
    exact (run_consistent txs w0 Hall (deploy_consistent _ _ _ _ _ _ _ _ Hd) n Hn). }
  split.
  { intros w e a b c n ts h prf root w' Hexec. cbn in Hexec.
    destruct (BridgeToken.mint _ _ _ _ _ _ _ _ _ _ _ _) as [[v' t']|] eqn:Hm;
      cbn in Hexec; [|discriminate].
    injection Hexec as <-.
    destruct (mint_Ok _ _ _ _ _ _ _ _ _ _ _ _ _ _ Hm) as (Hu & Hfresh & Hev & Hbal & Hsup).
    split; [exact Hfresh|]. split.
    { unfold BridgeValidator.isNonceUsed. cbn. rewrite Hu. unfold Evm.flag.
      rewrite lookup_insert_eq. reflexivity. }
    split.
    { exists b, c, h, (Evm.block_timestamp e). cbn. rewrite Hev.
      apply elem_of_app. right. apply list_elem_of_further, list_elem_of_here. }
    split; [exact Hbal|exact Hsup]. }
  split.
  { intros w e c Hrev. unfold TokenLedger.step. cbn [fst snd].
    destruct (TokenLedger.exec e c w); [discriminate|reflexivity]. }
  split.
  { intros d r va ta dst chain now funds w0 txs n Hd Hall Hn.
    exact (run_settled txs w0 Hall (deploy_settled _ _ _ _ _ _ _ _ _ Hd) n Hn). }
  split.
  { intros w e a b c n ts prf root accepts w' Hexec Hne. cbn in Hexec.
    destruct (BridgeVault.unlock _ _ _ _ _ _ _ _ _ _ _ _ _) as [[[v' f'] t']|] eqn:Hm;
      cbn in Hexec; [|discriminate].
    injection Hexec as <-.
    destruct (unlock_Ok _ _ _ _ _ _ _ _ _ _ _ _ _ _ _ _ Hm)
      as (Hu & Hfresh & Hev & -> & _ & _).
    split; [exact Hfresh|]. split.
    { unfold BridgeValidator.isNonceUsed. cbn. rewrite Hu. unfold Evm.flag.
      rewrite lookup_insert_eq. reflexivity. }
    split.
    { exists b, c, (Evm.block_timestamp e). cbn. rewrite Hev.
      apply elem_of_app. right. apply list_elem_of_here. }
    cbn. apply pay_credits. exact Hne. }
  intros w e c Hrev. unfold VaultLedger.step. cbn [fst snd].
  destruct (VaultLedger.exec e c w); [discriminate|reflexivity].
Qed.

Lemma C5_consumption_with_effect_through_bridge_witness :
  TokenLedger.minted LedgerRuns.bridged 1 /\
  VaultLedger.unlocked LedgerRuns.released 1.
Proof.
  split.
  - apply (proj1 C5_consumption_with_effect_through_bridge
             Scenario.deployer Scenario.operator Scenario.validatorAddr
             Scenario.tokenAddr Scenario.sepolia Scenario.amoy 0%Z LedgerRuns.fresh
             [LedgerRuns.registration; (Scenario.at_ Scenario.operator 61, LedgerRuns.mintCall)]
             1%Z).
    + vm_compute. reflexivity.
    + repeat constructor.
    + vm_compute. reflexivity.
  - apply (proj1 (proj2 (proj2 (proj2 C5_consumption_with_effect_through_bridge)))
             Scenario.deployer Scenario.operator Scenario.validatorAddr
             Scenario.vaultAddr Scenario.amoy Scenario.sepolia 0%Z LedgerRuns.funds
             LedgerRuns.freshSource
             [LedgerRuns.registrationBack;
              (Scenario.at_ Scenario.operator 61, LedgerRuns.unlockCall)]
             1%Z).
    + vm_compute. reflexivity.
    + repeat constructor.
    + vm_compute. reflexivity.
Defined.

(* ===================================================================== *)
(** ** The relayer's store *)
(* ===================================================================== *)

Section DatabaseFacts.
Import Js Database.
Local Open Scope Z_scope.

Lemma update_is_modify h s u now saved t :
  updateTransactionStatus h s u now saved t =
    (saved, modifyRow h (applyUpdates s now u) t).
Proof. reflexivity. Qed.

Lemma applyUpdates_keepsHash s now u : keepsHash (applyUpdates s now u).
Proof. intros r. reflexivity. Qed.

Lemma modifyRow_hashes h g t : keepsHash g -> txHash <$> modifyRow h g t = txHash <$> t.
Proof.
  intros Hg. unfold modifyRow. induction t as [|r t IH]; [reflexivity|].
  cbn. rewrite IH. f_equal. destruct (bool_decide _); [apply Hg|reflexivity].
Qed.

Lemma modifyRow_compose h g1 g2 t :
  keepsHash g1 -> modifyRow h g2 (modifyRow h g1 t) = modifyRow h (fun r => g2 (g1 r)) t.
Proof.
  intros Hg. unfold modifyRow. induction t as [|r t IH]; [reflexivity|].
  cbn. rewrite IH. f_equal.
  destruct (bool_decide (txHash r = h)) eqn:Hr.
  - rewrite Hg, Hr. reflexivity.
  - rewrite Hr. reflexivity.
Qed.

Lemma getTransaction_modify h h' g t :
  keepsHash g ->
  getTransaction h (modifyRow h' g t) =
    (fun r => if bool_decide (h = h') then g r else r) <$> getTransaction h t.
Proof.
  intros Hg. unfold getTransaction, modifyRow. induction t as [|r t IH]; [reflexivity|].
  cbn [fmap list_fmap find].
  destruct (bool_decide (txHash r = h')) eqn:Hr.
  - rewrite Hg. destruct (bool_decide (txHash r = h)) eqn:Hh.
    + apply bool_decide_eq_true in Hr, Hh. subst h h'.
      rewrite bool_decide_eq_true_2 by reflexivity. reflexivity.
    + exact IH.
  - destruct (bool_decide (txHash r = h)) eqn:Hh; [|exact IH].
    apply bool_decide_eq_true in Hh. apply bool_decide_eq_false in Hr. subst h.
    rewrite bool_decide_eq_false_2 by exact Hr. reflexivity.
Qed.

Lemma getTransaction_None h t : getTransaction h t = None <-> h ∉ txHash <$> t.
Proof.
  unfold getTransaction. induction t as [|r t IH]; cbn.
  - split; [intros _ H; inversion H|reflexivity].
  - destruct (bool_decide (txHash r = h)) eqn:Hr.
    + apply bool_decide_eq_true in Hr. split; [discriminate|].
      intros H. exfalso. apply H. rewrite Hr. apply list_elem_of_here.
    + apply bool_decide_eq_false in Hr. rewrite IH. split.
      * intros H Hin. apply elem_of_cons in Hin as [Heq|Hin]; [congruence|auto].
      * intros H Hin. apply H. apply list_elem_of_further. exact Hin.
Qed.

Lemma getTransaction_Some h t r : getTransaction h t = Some r -> r ∈ t /\ txHash r = h.
Proof.
  unfold getTransaction. induction t as [|x t IH]; cbn; [discriminate|].
  destruct (bool_decide (txHash x = h)) eqn:Hx.
  - intros [= <-]. apply bool_decide_eq_true in Hx. split; [apply list_elem_of_here|exact Hx].
  - intros H. destruct (IH H) as [Hin Hh]. split; [apply list_elem_of_further, Hin|exact Hh].
Qed.

(** Under the UNIQUE constraint a stored row is the one found by its hash. *)
Lemma unique_getTransaction t r : unique t -> r ∈ t -> getTransaction (txHash r) t = Some r.
Proof.
  unfold unique, getTransaction. induction t as [|x t IH]; intros Hnd Hin.
  - inversion Hin.
  - cbn in Hnd. apply NoDup_cons in Hnd as [Hx Hnd]. cbn.
    apply elem_of_cons in Hin as [->|Hin].
    + rewrite bool_decide_eq_true_2 by reflexivity. reflexivity.
    + destruct (bool_decide (txHash x = txHash r)) eqn:Hxr; [|apply IH; assumption].
      apply bool_decide_eq_true in Hxr. exfalso. apply Hx. rewrite Hxr.
      apply list_elem_of_fmap. eauto.
Qed.

Lemma getTransaction_snoc h t r :
  getTransaction h (t ++ [r]) =
    match getTransaction h t with
    | Some x => Some x
    | None => if bool_decide (txHash r = h) then Some r else None
    end.
Proof.
  unfold getTransaction. induction t as [|x t IH]; cbn; [reflexivity|].
  destruct (bool_decide (txHash x = h)); [reflexivity|exact IH].
Qed.

Lemma insertTransaction_spec tx saved t :
  getTransaction (txHash tx) t = None ->
  insertTransaction tx saved t =
    (match saved with
     | Return _ => Return (Z.of_nat (length t) + 1)
     | Throw m => Throw m
     end,
     t ++ [with_id (Z.of_nat (length t) + 1) tx]).
Proof. intros H. unfold insertTransaction. rewrite H. destruct saved; reflexivity. Qed.

Lemma unique_snoc t r : unique t -> getTransaction (txHash r) t = None -> unique (t ++ [r]).
Proof.
  unfold unique. intros Hnd Hnone. rewrite fmap_app. apply NoDup_app.
  split; [exact Hnd|]. split.
  - intros h Hin Hh. cbn in Hh. apply list_elem_of_singleton in Hh. subst h.
    apply getTransaction_None in Hnone. contradiction.
  - cbn. apply NoDup_singleton.
Qed.

(** The rows selected by status are stored rows with that status, each hash
    once. *)
Lemma selectByStatus_spec s t :
  unique t ->
  NoDup (txHash <$> selectByStatus s t) /\
  forall r, r ∈ selectByStatus s t -> r ∈ t /\ status r = s.
Proof.
  intros Hnd. unfold selectByStatus.
  pose proof (merge_sort_Permutation createdBefore (filter (fun r => status r = s) t)) as Hp.
  split.
  - rewrite Hp. unfold unique in Hnd. clear Hp.
    induction t as [|x t IH]; [constructor|].
    cbn in Hnd. apply NoDup_cons in Hnd as [Hx Hnd].
    rewrite filter_cons. destruct (decide (status x = s)); [|apply IH, Hnd].
    cbn. apply NoDup_cons. split; [|apply IH, Hnd].
    intros Hin. apply Hx. apply list_elem_of_fmap in Hin as (y & Hy & Hin).
    apply list_elem_of_filter in Hin as [_ Hin]. apply list_elem_of_fmap. eauto.
  - intros r Hr. rewrite Hp in Hr. apply list_elem_of_filter in Hr as [Hs Hin]. auto.
Qed.

End DatabaseFacts.

(* ===================================================================== *)
(** ** The event observer *)
(* ===================================================================== *)

Section ListenerFacts.
Import Js Database EventListener.
Local Open Scope Z_scope.

(** The handler has three outcomes: nothing on a missing or failed receipt,
    nothing on a stored hash, one new pending row otherwise, whatever
    [save()] finds. *)
Lemma onEvent_cases (source : ledger) (ev : BridgeEvent) (r : receipt)
    (saved : outcome unit) (now : Z) (t : table) :
  onEvent source ev r saved now t =
    match r, getTransaction (transactionHash ev) t with
    | ConfirmedReceipt, None =>
        t ++ [with_id (Z.of_nat (length t) + 1) (newRow source ev now)]
    | _, _ => t
    end.
Proof.
  unfold onEvent, waitForConfirmations.
  destruct r; try reflexivity.
  destruct (getTransaction (transactionHash ev) t) eqn:Hg; [reflexivity|].
  rewrite (insertTransaction_spec (newRow source ev now) saved t Hg). reflexivity.
Qed.

Lemma extends_refl t : extends t t.
Proof. split; auto. Qed.

Lemma extends_trans t1 t2 t3 : extends t1 t2 -> extends t2 t3 -> extends t1 t3.
Proof. intros [U1 G1] [U2 G2]. split; auto. Qed.

Lemma extends_snoc t r : getTransaction (txHash r) t = None -> extends t (t ++ [r]).
Proof.
  intros Hnone. split.
  - intros Hu. apply unique_snoc; assumption.
  - intros h row Hg. rewrite getTransaction_snoc, Hg. reflexivity.
Qed.

Lemma onEvent_extends source ev r saved now t :
  extends t (onEvent source ev r saved now t).
Proof.
  rewrite onEvent_cases.
  destruct r; try apply extends_refl.
  destruct (getTransaction (transactionHash ev) t) eqn:Hg; [apply extends_refl|].
  apply extends_snoc. exact Hg.
Qed.

Lemma historicalStep_extends source now t thrown found :
  extends t (fst (historicalStep source now (t, thrown) found)).
Proof.
  unfold historicalStep. destruct found as [ev saved].
  destruct thrown; [apply extends_refl|].
  destruct (getTransaction (transactionHash ev) t) eqn:Hg; [apply extends_refl|].
  rewrite (insertTransaction_spec (newRow source ev now) saved t Hg).
  destruct saved; cbn; apply extends_snoc; exact Hg.
Qed.

Lemma historical_extends source now evs :
  forall acc, extends (fst acc) (fst (foldl (historicalStep source now) acc evs)).
Proof.
  induction evs as [|ev evs IH]; intros [t thrown]; [apply extends_refl|].
  cbn [foldl]. eapply extends_trans; [apply historicalStep_extends|].
  apply IH.
Qed.

Lemma processHistoricalEvents_extends sep amoy now t :
  extends t (processHistoricalEvents sep amoy now t).
Proof.
  unfold processHistoricalEvents.
  eapply extends_trans; [|apply historical_extends].
  apply (historical_extends Sepolia now sep (t, false)).
Qed.

End ListenerFacts.
(* ===================================================================== *)
(** ** The relay driver *)
(* ===================================================================== *)

Section DriverFacts.
Import Js Database TransactionSubmitter.
Local Open Scope Z_scope.

Context {W : Type}.
Variable save : W -> outcome unit * W.
Variable validRoots : W -> string -> option Z -> outcome bool * W.
Variable sendTransaction : W -> request -> outcome string * W.
Variable meanwhile : W -> list arrival * W.

Local Abbreviation suspend := (TransactionSubmitter.suspend meanwhile).
Local Abbreviation setStatus := (TransactionSubmitter.setStatus save).
Local Abbreviation ensureRootRegistered :=
  (TransactionSubmitter.ensureRootRegistered validRoots sendTransaction meanwhile).
Local Abbreviation submitToDestinationChain :=
  (TransactionSubmitter.submitToDestinationChain sendTransaction meanwhile).
Local Abbreviation submitPhase :=
  (TransactionSubmitter.submitPhase save validRoots sendTransaction meanwhile).
Local Abbreviation processTransaction :=
  (TransactionSubmitter.processTransaction save validRoots sendTransaction meanwhile).
Local Abbreviation processOne :=
  (TransactionSubmitter.processOne save validRoots sendTransaction meanwhile).
Local Abbreviation processEach :=
  (TransactionSubmitter.processEach save validRoots sendTransaction meanwhile).

Lemma onlyFor_app h c1 c2 : onlyFor h c1 -> onlyFor h c2 -> onlyFor h (c1 ++ c2).
Proof.
  intros H1 H2 h' (tx & prf & root & Hh & Hin).
  destruct Hin as [Hin|Hin]; apply elem_of_app in Hin as [Hin|Hin].
  - apply H1. exists tx, prf, root. auto.
  - apply H2. exists tx, prf, root. auto.
  - apply H1. exists tx, prf, root. auto.
  - apply H2. exists tx, prf, root. auto.
Qed.

Lemma onlyFor_nil h : onlyFor h [].
Proof. intros h' (tx & prf & root & _ & [Hin|Hin]); inversion Hin. Qed.

Lemma rewrites_modify h g t : keepsHash g -> rewrites h g t (modifyRow h g t).
Proof.
  intros Hk. split.
  - unfold unique. rewrite modifyRow_hashes by exact Hk. auto.
  - intros k row Hrow. rewrite (getTransaction_modify _ _ _ _ Hk), Hrow. reflexivity.
Qed.

Lemma rewrites_extends h t t' : extends t t' -> rewrites h (fun r => r) t t'.
Proof.
  intros [Hu Hg]. split; [exact Hu|].
  intros k row Hrow. rewrite (Hg k row Hrow). destruct (bool_decide _); reflexivity.
Qed.

Lemma rewrites_compose h g1 g2 t1 t2 t3 :
  rewrites h g1 t1 t2 -> rewrites h g2 t2 t3 -> rewrites h (fun r => g2 (g1 r)) t1 t3.
Proof.
  intros [U1 G1] [U2 G2]. split; [auto|].
  intros k row Hrow. rewrite (G2 k _ (G1 k row Hrow)).
  destruct (bool_decide (k = h)); reflexivity.
Qed.

Lemma rewrites_holds h g t t' s0 s :
  rewrites h g t t' -> (forall r, status (g r) = s) -> holds h s0 t -> holds h s t'.
Proof.
  intros [_ RG] Hg (row & Hrow & _). exists (g row). split; [|apply Hg].
  rewrite (RG _ _ Hrow), bool_decide_eq_true_2 by reflexivity. reflexivity.
Qed.

Lemma rewrites_holds_other h k g t t' s :
  rewrites h g t t' -> k <> h -> holds k s t -> holds k s t'.
Proof.
  intros [_ RG] Hne (row & Hrow & Hs). exists row. split; [|exact Hs].
  rewrite (RG _ _ Hrow), bool_decide_eq_false_2 by exact Hne. reflexivity.
Qed.

Lemma extends_holds h s t t' : extends t t' -> holds h s t -> holds h s t'.
Proof. intros [_ Hk] (row & Hrow & Hs). exists row. split; [apply Hk, Hrow|exact Hs]. Qed.

(** *** The record of the writes

    [step] is the relation between the status a row has before a write and
    the one it has after it. *)

Variable step : Status -> Status -> bool.
Hypothesis step_same : forall s, step s s = true.
Hypothesis step_start : step pending processing = true.
Hypothesis step_again : step processing processing = true.
Hypothesis step_done : step processing completed = true.
Hypothesis step_fail : step processing failed = true.
Hypothesis step_late :
  step completed failed = true \/ forall w, fst (save w) = Return tt.

Lemma extends_moves t t' : extends t t' -> moves step t t'.
Proof.
  intros [Hu Hk]. split; [exact Hu|].
  intros h row Hrow. exists row. split; [apply Hk, Hrow|apply step_same].
Qed.

Lemma modify_moves h g t s :
  keepsHash g -> (forall r, status (g r) = s) ->
  (forall row, getTransaction h t = Some row -> step (status row) s = true) ->
  moves step t (modifyRow h g t).
Proof.
  intros Hk Hg Hpre. split; [apply (rewrites_modify h g t Hk)|].
  intros k row Hrow. rewrite (getTransaction_modify _ _ _ _ Hk), Hrow. cbn.
  eexists. split; [reflexivity|].
  destruct (bool_decide (k = h)) eqn:Hkh; [|apply step_same].
  apply bool_decide_eq_true in Hkh. subst k. rewrite Hg. apply Hpre, Hrow.
Qed.

Lemma last_nonempty (x : table) (l : list table) (d d' : table) :
  List.last (x :: l) d = List.last (x :: l) d'.
Proof.
  revert x. induction l as [|y l IH]; intros x; [reflexivity|].
  change (List.last (y :: l) d = List.last (y :: l) d'). apply IH.
Qed.

Lemma last_cons (x : table) (l : list table) (d : table) :
  List.last (x :: l) d = List.last l x.
Proof.
  destruct l as [|y l]; [reflexivity|].
  change (List.last (y :: l) d = List.last (y :: l) x). apply last_nonempty.
Qed.

Lemma chain_app (R : table -> table -> Prop) (tables1 tables2 : list table) :
  forall t, chain R t tables1 -> chain R (List.last tables1 t) tables2 ->
            chain R t (tables1 ++ tables2).
Proof.
  induction tables1 as [|t1 rest IH]; intros t H1 H2; [exact H2|].
  destruct H1 as [Hr H1]. cbn [app chain]. split; [exact Hr|].
  apply IH; [exact H1|]. rewrite last_cons in H2. exact H2.
Qed.

Lemma last_app_default (tables1 tables2 : list table) (t : table) :
  List.last (tables1 ++ tables2) t = List.last tables2 (List.last tables1 t).
Proof.
  revert t. induction tables1 as [|t1 rest IH]; intros t; [reflexivity|].
  cbn [app]. rewrite !last_cons. apply IH.
Qed.

Lemma logged_refl R (d : driver (W := W)) : logged R d d.
Proof. exists []. rewrite app_nil_r. repeat split. Qed.

Lemma logged_trans R (d1 d2 d3 : driver (W := W)) :
  logged R d1 d2 -> logged R d2 d3 -> logged R d1 d3.
Proof.
  intros (h12 & H12 & C12 & L12) (h23 & H23 & C23 & L23).
  exists (h12 ++ h23). split; [rewrite H23, H12, <- app_assoc; reflexivity|].
  split.
  - apply chain_app; [exact C12|]. rewrite <- L12. exact C23.
  - rewrite L23, L12, last_app_default. reflexivity.
Qed.

(** A driver that differs from [d] in fields other than the table and the
    record of the writes. *)
Lemma logged_same R (d d' : driver (W := W)) :
  db d' = db d -> history d' = history d -> logged R d d'.
Proof. intros Hd Hh. exists []. rewrite app_nil_r. repeat split; assumption. Qed.

Lemma wrote_logged R t (d : driver (W := W)) : R (db d) t -> logged R d (wrote t d).
Proof. intros Hr. exists [t]. repeat split. exact Hr. Qed.

Lemma handle_spec (seen : list arrival) :
  forall d : driver (W := W),
    extends (db d) (db (foldl handle d seen)) /\
    trace (foldl handle d seen) = trace d /\
    logged (moves step) d (foldl handle d seen).
Proof.
  induction seen as [|a seen IH]; intros d.
  - split; [apply extends_refl|]. split; [reflexivity|apply logged_refl].
  - cbn [foldl]. destruct (IH (handle d a)) as (He & Ht & Hl).
    pose proof (onEvent_extends (seenOn a) (event a) (found a) (stored a) (seenAt a) (db d))
      as Ha.
    split; [eapply extends_trans; [exact Ha|exact He]|].
    split; [exact Ht|].
    eapply logged_trans; [|exact Hl].
    apply wrote_logged, extends_moves, Ha.
Qed.

Lemma suspend_spec (d : driver (W := W)) :
  extends (db d) (db (suspend d)) /\ trace (suspend d) = trace d /\
  logged (moves step) d (suspend d).
Proof.
  unfold TransactionSubmitter.suspend. destruct (meanwhile (world d)) as [seen w].
  match goal with
  | |- context [foldl handle ?d0 seen] => destruct (handle_spec seen d0) as (He & Ht & Hl)
  end.
  split; [exact He|]. split; [exact Ht|].
  eapply logged_trans; [|exact Hl]. apply logged_same; reflexivity.
Qed.

(** A status write: the UPDATE on the table, recorded, whatever [save()]
    finds. *)
Lemma setStatus_spec h s u now (d : driver (W := W)) :
  fst (setStatus h s u now d) = fst (save (world d)) /\
  db (snd (setStatus h s u now d)) = modifyRow h (applyUpdates s now u) (db d) /\
  trace (snd (setStatus h s u now d)) = trace d /\
  history (snd (setStatus h s u now d)) =
    history d ++ [modifyRow h (applyUpdates s now u) (db d)].
Proof.
  unfold TransactionSubmitter.setStatus. destruct (save (world d)) as [saved w].
  rewrite update_is_modify. repeat split.
Qed.

Lemma setStatus_rewrites h s u now (d : driver (W := W)) :
  rewrites h (applyUpdates s now u) (db d) (db (snd (setStatus h s u now d))).
Proof.
  destruct (setStatus_spec h s u now d) as (_ & -> & _).
  apply rewrites_modify, applyUpdates_keepsHash.
Qed.

Lemma setStatus_logged h s u now (d : driver (W := W)) :
  (forall row, getTransaction h (db d) = Some row -> step (status row) s = true) ->
  logged (moves step) d (snd (setStatus h s u now d)).
Proof.
  intros Hpre. destruct (setStatus_spec h s u now d) as (_ & Hd & _ & Hh).
  exists [modifyRow h (applyUpdates s now u) (db d)].
  split; [exact Hh|]. split; [|exact Hd].
  split; [|exact I].
  apply (modify_moves h _ _ s); [apply applyUpdates_keepsHash|reflexivity|exact Hpre].
Qed.

Lemma holds_pre h s0 s t :
  holds h s0 t -> step s0 s = true ->
  forall row, getTransaction h t = Some row -> step (status row) s = true.
Proof. intros (r & Hr & Hs) Hstep row Hrow. congruence. Qed.

Lemma ensureRootRegistered_spec root chain (d d' : driver (W := W)) o :
  ensureRootRegistered root chain d = (o, d') ->
  extends (db d) (db d') /\
  (exists calls, trace d' = trace d ++ calls /\ forall h, onlyFor h calls) /\
  logged (moves step) d d'.
Proof.
  unfold TransactionSubmitter.ensureRootRegistered.
  destruct (validRoots (world d) chain root) as [isRegistered w] eqn:Hv.
  assert (forall h, onlyFor h [ValidRoots chain root]) as H1.
  { intros h h' (tx & prf & rt & _ & [Hin|Hin]);
      apply list_elem_of_singleton in Hin; discriminate. }
  assert (forall h, onlyFor h [ValidRoots chain root; RegisterRoot chain root]) as H2.
  { intros h h' (tx & prf & rt & _ & [Hin|Hin]);
      repeat (apply elem_of_cons in Hin as [Hin|Hin]; [discriminate|]); inversion Hin. }
  set (d0 := {| db := db d; world := w; trace := trace d ++ [ValidRoots chain root];
                history := history d |}).
  set (d1 := suspend d0).
  destruct (suspend_spec d0) as (He1 & Ht1 & Hl1).
  fold d1 in He1, Ht1, Hl1. unfold d0 in He1, Ht1. cbn [db trace] in He1, Ht1.
  assert (logged (moves step) d d1) as L1.
  { eapply logged_trans; [|exact Hl1]. apply logged_same; reflexivity. }
  destruct isRegistered as [[|]|m].
  - intros [= <- <-]. split; [exact He1|]. split; [rewrite Ht1; eauto|exact L1].
  - destruct (sendTransaction (world d1) (RegisterRoot chain root)) as [receipt w'] eqn:Hs.
    set (d2 := {| db := db d1; world := w';
                  trace := trace d1 ++ [RegisterRoot chain root];
                  history := history d1 |}).
    set (d3 := suspend d2).
    destruct (suspend_spec d2) as (He2 & Ht2 & Hl2).
    fold d3 in He2, Ht2, Hl2. unfold d2 in He2, Ht2. cbn [db trace] in He2, Ht2.
    assert (extends (db d) (db d3)) as He by (eapply extends_trans; eassumption).
    assert (trace d3 = trace d ++ [ValidRoots chain root; RegisterRoot chain root]) as Ht.
    { rewrite Ht2, Ht1, <- app_assoc. reflexivity. }
    assert (logged (moves step) d d3) as L3.
    { eapply logged_trans; [exact L1|]. eapply logged_trans; [|exact Hl2].
      apply logged_same; reflexivity. }
    destruct receipt; intros [= <- <-]; (split; [exact He|]);
      (split; [rewrite Ht; eauto|exact L3]).
  - intros [= <- <-]. split; [exact He1|]. split; [rewrite Ht1; eauto|exact L1].
Qed.

Lemma submitToDestinationChain_spec tx prf root (d d' : driver (W := W)) o :
  submitToDestinationChain tx prf root d = (o, d') ->
  extends (db d) (db d') /\
  (exists calls, trace d' = trace d ++ calls /\ onlyFor (txHash tx) calls) /\
  logged (moves step) d d'.
Proof.
  unfold TransactionSubmitter.submitToDestinationChain.
  destruct (sendTransaction _ _) as [receipt w] eqn:Hs.
  intros [= <- <-].
  match goal with
  | |- context [suspend ?d0] => destruct (suspend_spec d0) as (He & Ht & Hl)
  end.
  cbn [db trace] in He, Ht. split; [exact He|]. split.
  - eexists. split; [exact Ht|].
    intros h' (tx' & prf' & rt' & Hh & [Hin|Hin]);
      apply list_elem_of_singleton in Hin;
      destruct (bool_decide (destChain tx = "amoy")); inversion Hin; subst; reflexivity.
  - eapply logged_trans; [|exact Hl]. apply logged_same; reflexivity.
Qed.

(** Up to the settlement of the destination call the driver rewrites only
    the row of the transfer, leaving it processing with its destination
    reference as it was, and calls the chain for that transfer only; on a
    pending row every write is a step. *)
Lemma submitPhase_spec tx now (d d' : driver (W := W)) o :
  submitPhase tx now d = (o, d') ->
  exists g calls,
    rewrites (txHash tx) g (db d) (db d') /\
    (forall r, status (g r) = processing /\ destTxHash (g r) = destTxHash r) /\
    trace d' = trace d ++ calls /\ onlyFor (txHash tx) calls /\
    (holds (txHash tx) pending (db d) -> logged (moves step) d d').
Proof.
  unfold TransactionSubmitter.submitPhase.
  destruct (setStatus_spec (txHash tx) processing noUpdates now d) as (_ & Hd0 & Ht0 & _).
  pose proof (setStatus_rewrites (txHash tx) processing noUpdates now d) as R0.
  assert (holds (txHash tx) pending (db d) ->
          logged (moves step) d (snd (setStatus (txHash tx) processing noUpdates now d)))
    as L0.
  { intros Hp. apply setStatus_logged. exact (holds_pre _ _ _ _ Hp step_start). }
  destruct (setStatus (txHash tx) processing noUpdates now d) as [o0 d0].
  cbn [snd] in Hd0, Ht0, R0, L0.
  destruct o0 as [[]|m0].
  2:{ intros [= <- <-]. eexists _, []. split; [exact R0|].
      split; [intros r; split; reflexivity|].
      split; [rewrite Ht0, app_nil_r; reflexivity|]. split; [apply onlyFor_nil|exact L0]. }
  destruct (suspend_spec d0) as (He1 & Ht1 & Hl1).
  pose proof (rewrites_compose _ _ _ _ _ _ R0 (rewrites_extends _ _ _ He1)) as R1.
  assert (holds (txHash tx) pending (db d) -> logged (moves step) d (suspend d0)) as L1.
  { intros Hp. eapply logged_trans; [exact (L0 Hp)|exact Hl1]. }
  destruct (generateProofForTransaction tx) as [p|m].
  2:{ intros [= <- <-]. eexists _, [].
      split; [exact R1|]. split; [intros r; split; reflexivity|].
      split; [rewrite Ht1, Ht0, app_nil_r; reflexivity|].
      split; [apply onlyFor_nil|exact L1]. }
  set (u := {| u_proof := Some (Some (ProofGenerator.proof p));
               u_merkleRoot := Some (Some (ProofGenerator.root p));
               u_destTxHash := None; u_errorMessage := None |}).
  destruct (setStatus_spec (txHash tx) processing u now (suspend d0)) as (_ & Hd2 & Ht2 & _).
  pose proof (setStatus_rewrites (txHash tx) processing u now (suspend d0)) as R2'.
  pose proof (rewrites_compose _ _ _ _ _ _ R1 R2') as R2.
  assert (holds (txHash tx) pending (db d) ->
          logged (moves step) d (snd (setStatus (txHash tx) processing u now (suspend d0))))
    as L2.
  { intros Hp. eapply logged_trans; [exact (L1 Hp)|].
    apply setStatus_logged.
    assert (holds (txHash tx) processing (db (suspend d0))) as Hq.
    { exact (rewrites_holds _ _ _ _ _ _ R1 (fun r => eq_refl) Hp). }
    exact (holds_pre _ _ _ _ Hq step_again). }
  destruct (setStatus (txHash tx) processing u now (suspend d0)) as [o2 d2].
  cbn [snd] in Hd2, Ht2, R2', R2, L2.
  assert (trace d2 = trace d) as Ht by (rewrite Ht2, Ht1, Ht0; reflexivity).
  destruct o2 as [[]|m2].
  2:{ intros [= <- <-]. eexists _, [].
      split; [exact R2|]. split; [intros r; split; reflexivity|].
      split; [rewrite Ht, app_nil_r; reflexivity|].
      split; [apply onlyFor_nil|exact L2]. }
  destruct (ensureRootRegistered (ProofGenerator.root p) (destChain tx) d2)
    as [o3 d3] eqn:He.
  destruct (ensureRootRegistered_spec _ _ _ _ _ He) as (He3 & (c3 & Ht3 & Hc3) & Hl3).
  pose proof (rewrites_compose _ _ _ _ _ _ R2 (rewrites_extends _ _ _ He3)) as R3.
  assert (holds (txHash tx) pending (db d) -> logged (moves step) d d3) as L3.
  { intros Hp. eapply logged_trans; [exact (L2 Hp)|exact Hl3]. }
  destruct o3 as [[]|m3].
  - intros Hs.
    destruct (submitToDestinationChain_spec _ _ _ _ _ _ Hs)
      as (He4 & (c4 & Ht4 & Hc4) & Hl4).
    pose proof (rewrites_compose _ _ _ _ _ _ R3 (rewrites_extends _ _ _ He4)) as R4.
    eexists _, (c3 ++ c4). split; [exact R4|].
    split; [intros r; split; reflexivity|].
    split; [rewrite Ht4, Ht3, Ht, <- app_assoc; reflexivity|].
    split; [apply onlyFor_app; [apply Hc3|exact Hc4]|].
    intros Hp. eapply logged_trans; [exact (L3 Hp)|exact Hl4].
  - intros [= <- <-].
    eexists _, c3. split; [exact R3|].
    split; [intros r; split; reflexivity|].
    split; [rewrite Ht3, Ht; reflexivity|]. split; [apply Hc3|exact L3].
Qed.

(** [processTransaction] leaves the row processing, or completed; when it
    throws, the write of the catch is a step from that status. *)
Lemma processTransaction_spec tx now (d d' : driver (W := W)) o :
  processTransaction tx now d = (o, d') ->
  exists g calls s,
    rewrites (txHash tx) g (db d) (db d') /\
    (forall r, status (g r) = s) /\
    match o with
    | Return _ => s = completed
    | Throw _ => step s failed = true
    end /\
    trace d' = trace d ++ calls /\ onlyFor (txHash tx) calls /\
    (holds (txHash tx) pending (db d) -> logged (moves step) d d').
Proof.
  unfold TransactionSubmitter.processTransaction.
  destruct (submitPhase tx now d) as [o1 d1] eqn:Hs.
  destruct (submitPhase_spec _ _ _ _ _ Hs) as (g & calls & R & Hst & Htr & Hc & Hl).
  destruct o1 as [destTx|m].
  2:{ intros [= <- <-]. exists g, calls, processing.
      split; [exact R|]. split; [intros r; apply Hst|]. split; [exact step_fail|].
      split; [exact Htr|]. split; [exact Hc|exact Hl]. }
  set (u := {| u_proof := None; u_merkleRoot := None;
               u_destTxHash := Some (Some destTx); u_errorMessage := None |}).
  destruct (setStatus_spec (txHash tx) completed u now d1) as (Ho & _ & Ht2 & _).
  pose proof (setStatus_rewrites (txHash tx) completed u now d1) as R2.
  assert (holds (txHash tx) pending (db d) ->
          logged (moves step) d (snd (setStatus (txHash tx) completed u now d1))) as L2.
  { intros Hp. eapply logged_trans; [exact (Hl Hp)|].
    apply setStatus_logged.
    assert (holds (txHash tx) processing (db d1)) as Hq.
    { exact (rewrites_holds _ _ _ _ _ _ R (fun r => proj1 (Hst r)) Hp). }
    exact (holds_pre _ _ _ _ Hq step_done). }
  destruct (setStatus (txHash tx) completed u now d1) as [o2 d2].
  cbn [fst snd] in Ho, Ht2, R2, L2.
  intros [= <- <-]. eexists _, calls, completed.
  split; [exact (rewrites_compose _ _ _ _ _ _ R R2)|].
  split; [intros r; reflexivity|]. split.
  { destruct o2 as [[]|m2]; [reflexivity|].
    destruct step_late as [Hlate|Hsave]; [exact Hlate|].
    rewrite (Hsave (world d1)) in Ho. discriminate. }
  split; [rewrite Ht2; exact Htr|]. split; [exact Hc|exact L2].
Qed.

(** One iteration of the polling loop takes the row of its transfer to
    completed or failed and rewrites no other row. *)
Lemma processOne_spec tx now (d : driver (W := W)) :
  exists g calls,
    rewrites (txHash tx) g (db d) (db (snd (processOne now tx d))) /\
    (forall r, status (g r) = completed \/ status (g r) = failed) /\
    trace (snd (processOne now tx d)) = trace d ++ calls /\
    onlyFor (txHash tx) calls /\
    (holds (txHash tx) pending (db d) ->
     logged (moves step) d (snd (processOne now tx d))).
Proof.
  unfold TransactionSubmitter.processOne.
  destruct (processTransaction tx now d) as [o d1] eqn:Hp.
  destruct (processTransaction_spec _ _ _ _ _ Hp)
    as (g & calls & s & R & Hst & Ho & Htr & Hc & Hl).
  destruct o as [[]|m].
  - cbn [snd]. subst s. exists g, calls. split; [exact R|].
    split; [intros r; left; apply Hst|]. split; [exact Htr|]. split; [exact Hc|exact Hl].
  - set (u := {| u_proof := None; u_merkleRoot := None; u_destTxHash := None;
                 u_errorMessage := Some (Some m) |}).
    destruct (setStatus_spec (txHash tx) failed u now d1) as (_ & _ & Ht2 & _).
    pose proof (setStatus_rewrites (txHash tx) failed u now d1) as R2.
    eexists _, calls.
    split; [exact (rewrites_compose _ _ _ _ _ _ R R2)|].
    split; [intros r; right; reflexivity|].
    split; [rewrite Ht2; exact Htr|]. split; [exact Hc|].
    intros Hpend. eapply logged_trans; [exact (Hl Hpend)|].
    apply setStatus_logged.
    assert (holds (txHash tx) s (db d1)) as Hq.
    { exact (rewrites_holds _ _ _ _ _ _ R Hst Hpend). }
    exact (holds_pre _ _ _ _ Hq Ho).
Qed.

(** A round over a list of transfers: rows of other transfers stay as they
    are, the calls are for the transfers of the list, and on pending rows
    with pairwise distinct hashes every write is a step. *)
Lemma processEach_spec now (txs : list BridgeTransaction) :
  forall (d : driver (W := W)),
    let d' := snd (processEach now txs d) in
    (unique (db d) -> unique (db d')) /\
    (forall h row, getTransaction h (db d) = Some row ->
       exists row', getTransaction h (db d') = Some row' /\
                    (h ∉ txHash <$> txs -> row' = row)) /\
    (exists calls, trace d' = trace d ++ calls /\
                   forall h, submitted h calls -> h ∈ txHash <$> txs) /\
    (NoDup (txHash <$> txs) ->
     (forall tx, tx ∈ txs -> holds (txHash tx) pending (db d)) ->
     logged (moves step) d d').
Proof.
  induction txs as [|tx txs IH]; intros d; cbn zeta.
  - cbn. split; [auto|]. split; [intros h row Hg; eauto|]. split.
    + exists []. split; [rewrite app_nil_r; reflexivity|].
      intros h (? & ? & ? & _ & [H0|H0]); inversion H0.
    + intros _ _. apply logged_refl.
  - cbn [TransactionSubmitter.processEach].
    destruct (processOne_spec tx now d) as (g & calls & [RU RG] & Hst & Htr & Hc & Hl).
    destruct (processOne now tx d) as [o d1]. cbn [snd] in RU, RG, Htr, Hl.
    assert (forall h row, getTransaction h (db d) = Some row ->
              exists row', getTransaction h (db d1) = Some row' /\
                           (h <> txHash tx -> row' = row)) as Hone.
    { intros h row Hg. eexists. split; [apply (RG _ _ Hg)|].
      intros Hne. rewrite bool_decide_eq_false_2 by exact Hne. reflexivity. }
    assert (forall h, submitted h calls -> h ∈ txHash <$> tx :: txs) as Hcalls.
    { intros h Hs. rewrite (Hc h Hs). cbn. apply list_elem_of_here. }
    assert (NoDup (txHash <$> tx :: txs) ->
            (forall x, x ∈ tx :: txs -> holds (txHash x) pending (db d)) ->
            logged (moves step) d d1 /\
            (forall x, x ∈ txs -> holds (txHash x) pending (db d1))) as Hlog.
    { intros Hnd Hall. cbn in Hnd. apply NoDup_cons in Hnd as [Hfresh _].
      split; [apply Hl, Hall, list_elem_of_here|].
      intros x Hx. apply (rewrites_holds_other (txHash tx) _ g (db d)).
      - split; assumption.
      - intros Heq. apply Hfresh. rewrite <- Heq. apply list_elem_of_fmap. eauto.
      - apply Hall, list_elem_of_further, Hx. }
    destruct o as [[]|m].
    + destruct (IH d1) as (Hu & Hrows & (calls' & Htr' & Hc') & Hl'). cbn zeta in *.
      split; [auto|]. split; [|split].
      * intros h row Hg. destruct (Hone h row Hg) as (row1 & Hg1 & Hk1).
        destruct (Hrows h row1 Hg1) as (row2 & Hg2 & Hk2).
        exists row2. split; [exact Hg2|].
        intros Hnot. rewrite Hk2, Hk1; [reflexivity| |].
        -- intros ->. apply Hnot. cbn. apply list_elem_of_here.
        -- intros Hmem. apply Hnot. cbn. apply list_elem_of_further, Hmem.
      * exists (calls ++ calls'). split; [rewrite Htr', Htr, <- app_assoc; reflexivity|].
        intros h (t0 & prf & root & Hh0 & Hin).
        assert (submitted h calls \/ submitted h calls') as [Hs|Hs].
        { destruct Hin as [Hin|Hin]; apply elem_of_app in Hin as [Hin|Hin];
            [left|right|left|right]; exists t0, prf, root; auto. }
        -- apply Hcalls, Hs.
        -- cbn. apply list_elem_of_further, Hc', Hs.
      * intros Hnd Hall. destruct (Hlog Hnd Hall) as [L1 Hrest].
        eapply logged_trans; [exact L1|].
        apply Hl'; [|exact Hrest].
        cbn in Hnd. apply NoDup_cons in Hnd as [_ Hnd]. exact Hnd.
    + cbn [snd]. split; [exact RU|]. split; [|split].
      * intros h row Hg. destruct (Hone h row Hg) as (row1 & Hg1 & Hk1).
        exists row1. split; [exact Hg1|].
        intros Hnot. apply Hk1. intros ->. apply Hnot. cbn. apply list_elem_of_here.
      * exists calls. split; [exact Htr|exact Hcalls].
      * intros Hnd Hall. apply (Hlog Hnd Hall).
Qed.

End DriverFacts.
Section PipelineFacts.
Import Js Database TransactionSubmitter.
Local Open Scope Z_scope.

Context {W : Type}.
Variable save : W -> outcome unit * W.
Variable validRoots : W -> string -> option Z -> outcome bool * W.
Variable sendTransaction : W -> request -> outcome string * W.
Variable meanwhile : W -> list arrival * W.

Local Abbreviation processPendingTransactions :=
  (TransactionSubmitter.processPendingTransactions save validRoots sendTransaction meanwhile).
Local Abbreviation apply :=
  (TransactionSubmitter.apply save validRoots sendTransaction meanwhile).
Local Abbreviation run := (TransactionSubmitter.run save validRoots sendTransaction meanwhile).

Lemma forward_refl s : forward s s = true.
Proof. destruct s; reflexivity. Qed.

Lemma forward_trans a b c : forward a b = true -> forward b c = true -> forward a c = true.
Proof. destruct a, b, c; cbn; congruence. Qed.

Lemma next_forward a b : next a b = true -> forward a b = true.
Proof. destruct a, b; cbn; congruence. Qed.

Lemma next_nextOrRevoked a b : next a b = true -> nextOrRevoked a b = true.
Proof. destruct a, b; cbn; congruence. Qed.

Lemma extends_advances (d : driver (W := W)) (t : table) :
  extends (db d) t -> advances d (wrote t d).
Proof.
  intros [Hu Hg] Hunique. cbn. split; [auto|]. split.
  - intros h row Hrow. exists row. split; [apply Hg, Hrow|].
    split; [apply forward_refl|reflexivity].
  - exists []. split; [rewrite app_nil_r; reflexivity|].
    intros h (? & ? & ? & _ & [H0|H0]); inversion H0.
Qed.

(** The rows a round selects: pairwise distinct hashes, each stored and
    pending. *)
Lemma pending_selected (t : table) :
  unique t ->
  NoDup (txHash <$> getPendingTransactions t) /\
  forall h, h ∈ txHash <$> getPendingTransactions t ->
            exists row, row ∈ getPendingTransactions t /\ txHash row = h /\
                        getTransaction h t = Some row /\ status row = pending.
Proof.
  intros Hunique. unfold getPendingTransactions.
  destruct (selectByStatus_spec pending t Hunique) as [Hnd Hsel].
  split; [exact Hnd|].
  intros h Hin. apply list_elem_of_fmap in Hin as (tx & -> & Hin).
  destruct (Hsel tx Hin) as [Hmem Hst]. exists tx.
  split; [exact Hin|]. split; [reflexivity|].
  split; [apply unique_getTransaction; assumption|exact Hst].
Qed.

Lemma poll_advances now (d : driver (W := W)) :
  advances d (snd (processPendingTransactions now d)).
Proof.
  intros Hunique. unfold TransactionSubmitter.processPendingTransactions.
  destruct (pending_selected (db d) Hunique) as [_ Hpending].
  destruct (processEach_spec save validRoots sendTransaction meanwhile (fun _ _ => true)
              (fun _ => eq_refl) eq_refl eq_refl eq_refl eq_refl (or_introl eq_refl)
              now (getPendingTransactions (db d)) d)
    as (Hh & Hrows & (calls & Htr & Hc) & _).
  cbn zeta in *.
  split; [apply Hh, Hunique|]. split.
  - intros h row Hrow. destruct (Hrows h row Hrow) as (row' & Hrow' & Hout).
    exists row'. split; [exact Hrow'|].
    destruct (decide (h ∈ txHash <$> getPendingTransactions (db d))) as [Hmem|Hnot].
    + destruct (Hpending h Hmem) as (row0 & _ & _ & Hrow0 & Hst0).
      rewrite Hrow in Hrow0. injection Hrow0 as <-.
      rewrite Hst0. split; [reflexivity|congruence].
    + rewrite (Hout Hnot). split; [apply forward_refl|reflexivity].
  - exists calls. split; [exact Htr|]. intros h Hs row Hrow.
    destruct (Hpending h (Hc h Hs)) as (row0 & _ & _ & Hrow0 & Hst0). congruence.
Qed.

Lemma same_calls_advances (d d' : driver (W := W)) :
  extends (db d) (db d') -> trace d' = trace d -> advances d d'.
Proof.
  intros [Hu Hg] Ht Hunique. split; [auto|]. split.
  - intros h row Hrow. exists row. split; [apply Hg, Hrow|].
    split; [apply forward_refl|reflexivity].
  - exists []. split; [rewrite Ht, app_nil_r; reflexivity|].
    intros h (? & ? & ? & _ & [H0|H0]); inversion H0.
Qed.

Lemma replayStep_thrown source now (d : driver (W := W)) found :
  replayStep source now (d, true) found = (d, true) /\
  EventListener.historicalStep source now (db d, true) found = (db d, true).
Proof. destruct found as [ev saved]. split; reflexivity. Qed.

(** One iteration of the replay on the store of the driver: the table is the
    one the iteration of [processHistoricalEvents] computes, recorded; no
    call is made. *)
Lemma replayStep_one source now (d : driver (W := W)) found :
  let acc := replayStep source now (d, false) found in
  (db (fst acc), snd acc) = EventListener.historicalStep source now (db d, false) found /\
  trace (fst acc) = trace d /\
  history (fst acc) = history d ++ [db (fst acc)] /\
  extends (db d) (db (fst acc)).
Proof.
  cbn zeta. pose proof (historicalStep_extends source now (db d) false found) as He.
  unfold replayStep.
  destruct (EventListener.historicalStep source now (db d, false) found) as [t thrown].
  cbn [fst snd db trace history wrote] in *.
  split; [reflexivity|]. split; [reflexivity|]. split; [reflexivity|exact He].
Qed.

(** A loop of the replay: every table recorded keeps the rows of the one
    before. *)
Lemma replayStep_spec source now found :
  forall (d : driver (W := W)) (thrown : bool),
    let acc := foldl (replayStep source now) (d, thrown) found in
    (db (fst acc), snd acc) =
      foldl (EventListener.historicalStep source now) (db d, thrown) found /\
    trace (fst acc) = trace d /\
    exists tables, history (fst acc) = history d ++ tables /\
                   chain extends (db d) tables /\
                   db (fst acc) = List.last tables (db d).
Proof.
  induction found as [|x found IH]; intros d thrown; cbn zeta.
  - split; [reflexivity|]. split; [reflexivity|].
    exists []. rewrite app_nil_r. repeat split.
  - cbn [foldl]. destruct thrown.
    + destruct (replayStep_thrown source now d x) as [-> ->]. apply (IH d true).
    + destruct (replayStep_one source now d x) as (E & Ht & Hh & He). cbn zeta in *.
      destruct (replayStep source now (d, false) x) as [d1 thrown1].
      cbn [fst snd] in *. rewrite <- E.
      destruct (IH d1 thrown1) as (H1 & H2 & tables & H3 & H4 & H5). cbn zeta in *.
      split; [exact H1|]. split; [rewrite H2; exact Ht|].
      exists (db d1 :: tables).
      split; [rewrite H3, Hh, <- app_assoc; reflexivity|].
      split; [split; [exact He|exact H4]|].
      rewrite H5. symmetry. apply last_cons.
Qed.

Lemma replay_spec sep amoy now (d : driver (W := W)) :
  db (replay sep amoy now d) = EventListener.processHistoricalEvents sep amoy now (db d) /\
  trace (replay sep amoy now d) = trace d /\
  logged extends d (replay sep amoy now d).
Proof.
  unfold replay, EventListener.processHistoricalEvents.
  destruct (replayStep_spec EventListener.Sepolia now sep d false)
    as (H1 & H2 & tables1 & H3 & H4 & H5).
  cbn zeta in *.
  destruct (foldl (replayStep EventListener.Sepolia now) (d, false) sep) as [d1 thrown1].
  cbn [fst snd] in *.
  destruct (replayStep_spec EventListener.Amoy now amoy d1 thrown1)
    as (K1 & K2 & tables2 & K3 & K4 & K5).
  cbn zeta in *. rewrite <- H1.
  split; [rewrite <- K1; reflexivity|]. split; [rewrite K2; exact H2|].
  apply (logged_trans extends d d1); eexists; eauto.
Qed.

Lemma chain_weaken (R R' : table -> table -> Prop) (tables : list table) :
  (forall a b, R a b -> R' a b) -> forall t, chain R t tables -> chain R' t tables.
Proof.
  intros Hsub. induction tables as [|t1 rest IH]; intros t Hc; [exact I|].
  destruct Hc as [H1 Hc]. split; [apply Hsub, H1|apply IH, Hc].
Qed.

Lemma apply_advances (d : driver (W := W)) (o : op) : advances d (apply d o).
Proof.
  destruct o; cbn [TransactionSubmitter.apply].
  - apply extends_advances, onEvent_extends.
  - destruct (replay_spec sepoliaEvents amoyEvents now d) as (Hd & Ht & _).
    apply same_calls_advances; [|exact Ht].
    rewrite Hd. apply processHistoricalEvents_extends.
  - apply poll_advances.
Qed.

Lemma advances_trans (d1 d2 d3 : driver (W := W)) :
  advances d1 d2 -> advances d2 d3 -> advances d1 d3.
Proof.
  intros H12 H23 Hu1.
  destruct (H12 Hu1) as (Hu2 & Hrows12 & c12 & Ht12 & Hc12).
  destruct (H23 Hu2) as (Hu3 & Hrows23 & c23 & Ht23 & Hc23).
  split; [exact Hu3|]. split.
  - intros h row Hrow.
    destruct (Hrows12 h row Hrow) as (row2 & Hrow2 & Hf12 & Hk12).
    destruct (Hrows23 h row2 Hrow2) as (row3 & Hrow3 & Hf23 & Hk23).
    exists row3. split; [exact Hrow3|]. split; [eapply forward_trans; eassumption|].
    intros Hnp. rewrite <- (Hk12 Hnp). apply Hk23. rewrite (Hk12 Hnp). exact Hnp.
  - exists (c12 ++ c23). split; [rewrite Ht23, Ht12, <- app_assoc; reflexivity|].
    intros h (t0 & prf & root & Hh0 & Hin) row Hrow.
    assert (submitted h c12 \/ submitted h c23) as [Hs|Hs].
    { destruct Hin as [Hin|Hin]; apply elem_of_app in Hin as [Hin|Hin];
        [left|right|left|right]; exists t0, prf, root; auto. }
    + exact (Hc12 h Hs row Hrow).
    + destruct (Hrows12 h row Hrow) as (row2 & Hrow2 & Hf12 & _).
      pose proof (Hc23 h Hs row2 Hrow2) as Hp. rewrite Hp in Hf12.
      destruct (status row); try discriminate. reflexivity.
Qed.

Lemma advances_refl (d : driver (W := W)) : advances d d.
Proof.
  intros Hu. split; [exact Hu|]. split.
  - intros h row Hrow. exists row. split; [exact Hrow|].
    split; [apply forward_refl|reflexivity].
  - exists []. split; [rewrite app_nil_r; reflexivity|].
    intros h (? & ? & ? & _ & [H0|H0]); inversion H0.
Qed.

Lemma run_advances (ops : list op) : forall d : driver (W := W), advances d (run d ops).
Proof.
  unfold TransactionSubmitter.run.
  induction ops as [|o ops IH]; intros d; [apply advances_refl|].
  cbn [foldl]. eapply advances_trans; [apply apply_advances|apply IH].
Qed.

(** *** Write by write *)

Variable step : Status -> Status -> bool.
Hypothesis step_same : forall s, step s s = true.
Hypothesis step_start : step pending processing = true.
Hypothesis step_again : step processing processing = true.
Hypothesis step_done : step processing completed = true.
Hypothesis step_fail : step processing failed = true.
Hypothesis step_late :
  step completed failed = true \/ forall w, fst (save w) = Return tt.

Lemma poll_logged now (d : driver (W := W)) :
  unique (db d) -> logged (moves step) d (snd (processPendingTransactions now d)).
Proof.
  intros Hunique. unfold TransactionSubmitter.processPendingTransactions.
  destruct (pending_selected (db d) Hunique) as [Hnd Hpending].
  destruct (processEach_spec save validRoots sendTransaction meanwhile step
              step_same step_start step_again step_done step_fail step_late
              now (getPendingTransactions (db d)) d)
    as (_ & _ & _ & Hl).
  apply Hl; [exact Hnd|].
  intros tx Hin.
  destruct (Hpending (txHash tx)) as (row & _ & _ & Hrow & Hst).
  { apply list_elem_of_fmap. eauto. }
  exists row. split; assumption.
Qed.

Lemma apply_logged (d : driver (W := W)) (o : op) :
  unique (db d) -> logged (moves step) d (apply d o).
Proof.
  intros Hunique. destruct o; cbn [TransactionSubmitter.apply].
  - apply wrote_logged, (extends_moves step step_same), onEvent_extends.
  - destruct (replay_spec sepoliaEvents amoyEvents now d) as (_ & _ & tables & Hh & Hc & Hl).
    exists tables. split; [exact Hh|]. split; [|exact Hl].
    exact (chain_weaken extends (moves step) tables (extends_moves step step_same) _ Hc).
  - apply poll_logged, Hunique.
Qed.

Lemma run_logged (ops : list op) :
  forall d : driver (W := W), unique (db d) -> logged (moves step) d (run d ops).
Proof.
  unfold TransactionSubmitter.run.
  induction ops as [|o ops IH]; intros d Hunique; [apply logged_refl|].
  cbn [foldl]. eapply logged_trans; [apply apply_logged, Hunique|].
  apply IH. exact (proj1 (apply_advances d o Hunique)).
Qed.

End PipelineFacts.

Section ChainFacts.
Import Js Database.

Lemma moves_weaken (step step' : Status -> Status -> bool) (t t' : table) :
  (forall a b, step a b = true -> step' a b = true) -> moves step t t' -> moves step' t t'.
Proof.
  intros Hsub [Hu Hrows]. split; [exact Hu|].
  intros h row Hrow. destruct (Hrows h row Hrow) as (row' & Hrow' & Hs). eauto.
Qed.

Lemma moves_forward_trans (t1 t2 t3 : table) :
  moves forward t1 t2 -> moves forward t2 t3 -> moves forward t1 t3.
Proof.
  intros [U1 R1] [U2 R2]. split; [auto|].
  intros h row Hrow. destruct (R1 h row Hrow) as (row2 & Hrow2 & H12).
  destruct (R2 h row2 Hrow2) as (row3 & Hrow3 & H23).
  exists row3. split; [exact Hrow3|]. eapply forward_trans; eassumption.
Qed.

(** Steps of the lifecycle in a row take every stored transfer forward. *)
Lemma chain_next_forward (tables : list table) :
  forall t, chain (moves next) t tables -> moves forward t (List.last tables t).
Proof.
  induction tables as [|t1 rest IH]; intros t Hc.
  - split; [auto|]. intros h row Hrow. exists row. split; [exact Hrow|apply forward_refl].
  - destruct Hc as [H1 Hc]. rewrite last_cons.
    eapply moves_forward_trans; [|apply IH, Hc].
    exact (moves_weaken next forward _ _ next_forward H1).
Qed.

End ChainFacts.

(* ===================================================================== *)
(** ** The relay pipeline: status lifecycle, restart, observation *)
(* ===================================================================== *)

(** C6 as stated fails: the disk is full once the mint has settled.  The
    driver applies the UPDATE that marks the transfer completed, [save()]
    throws, and the catch of the polling loop marks the same transfer failed:
    two successive tables of the store hold it as completed and as failed,
    the mint having been sent. *)
Lemma C6_save_failure_counterexample :
  exists earlier t1 t2 later,
    TransactionSubmitter.history RelayRuns.interrupted = earlier ++ t1 :: t2 :: later /\
    holds "0x10c4" Database.completed t1 /\
    holds "0x10c4" Database.failed t2 /\
    holds "0x10c4" Database.failed (TransactionSubmitter.db RelayRuns.interrupted) /\
    TransactionSubmitter.submitted "0x10c4"
      (TransactionSubmitter.trace RelayRuns.interrupted).
Proof.
  set (hs := TransactionSubmitter.history RelayRuns.interrupted).
  assert (exists t1 t2, drop 5 hs = [t1; t2] /\
            holds "0x10c4" Database.completed t1 /\
            holds "0x10c4" Database.failed t2 /\
            holds "0x10c4" Database.failed (TransactionSubmitter.db RelayRuns.interrupted))
    as (t1 & t2 & Hd & H1 & H2 & H3).
  { vm_compute. eexists _, _. split; [reflexivity|].
    split; [|split]; eexists; (split; [reflexivity|reflexivity]). }
  exists (take 5 hs), t1, t2, []. split.
  { rewrite <- Hd. symmetry. apply take_drop. }
  split; [exact H1|]. split; [exact H2|]. split; [exact H3|].
  eexists _, _, _. split; [|left; vm_compute; do 2 apply list_elem_of_further;
                            apply list_elem_of_here].
  reflexivity.
Qed.

(** C6, amended. For every sequence of pipeline operations (live
    observation, replay of past events, rounds of the polling loop, with any
    behaviour of the chains, of the file system and of the listener's handlers
    run while the driver is suspended) started on a store with unique hashes,
    the tables the store goes through, write by write, are such that each
    keeps every transfer of the one before, with the same status or the next
    one in the order pending, processing (the code's name for
    proof_building), then completed or failed, or, the one departure, failed
    after completed.  When the [save()] of every status write returns, there
    is no departure: no write takes a transfer back, completed and failed are
    terminal, and from the first table to the last every transfer has the
    same or a later status. *)
Theorem C6_each_write_moves_forward {W : Type}
    (save : W -> Js.outcome unit * W)
    (validRoots : W -> string -> option Z -> Js.outcome bool * W)
    (sendTransaction : W -> TransactionSubmitter.request -> Js.outcome string * W)
    (meanwhile : W -> list TransactionSubmitter.arrival * W)
    (t : list Database.BridgeTransaction) (w : W) (ops : list TransactionSubmitter.op) :
  Database.unique t ->
  let d' := TransactionSubmitter.run save validRoots sendTransaction meanwhile
              (TransactionSubmitter.start t w) ops in
  exists tables,
    TransactionSubmitter.history d' = t :: tables /\
    TransactionSubmitter.db d' = List.last tables t /\
    chain (moves nextOrRevoked) t tables /\
    ((forall w0, fst (save w0) = Js.Return tt) ->
     chain (moves next) t tables /\ moves forward t (TransactionSubmitter.db d')).
Proof.
  intros Hu d'.
  assert (forall s, next s s = true) as Hsame by (intros []; reflexivity).
  assert (forall s, nextOrRevoked s s = true) as Hsame' by (intros []; reflexivity).
  destruct (run_logged save validRoots sendTransaction meanwhile nextOrRevoked
              Hsame' eq_refl eq_refl eq_refl eq_refl (or_introl eq_refl)
              ops (TransactionSubmitter.start t w) Hu)
    as (tables & Hh & Hc & Hl).
  exists tables. split; [exact Hh|]. split; [exact Hl|]. split; [exact Hc|].
  intros Hsave.
  destruct (run_logged save validRoots sendTransaction meanwhile next
              Hsame eq_refl eq_refl eq_refl eq_refl (or_intror Hsave)
              ops (TransactionSubmitter.start t w) Hu)
    as (tables' & Hh' & Hc' & _).
  fold d' in Hh, Hh'. rewrite Hh in Hh'. cbn in Hh'. injection Hh' as <-.
  split; [exact Hc'|]. fold d' in Hl. rewrite Hl. apply chain_next_forward, Hc'.
Qed.

Lemma C6_each_write_moves_forward_witness :
  exists tables,
    TransactionSubmitter.history RelayRuns.polled = RelayRuns.observed :: tables /\
    TransactionSubmitter.db RelayRuns.polled = List.last tables RelayRuns.observed /\
    chain (moves nextOrRevoked) RelayRuns.observed tables /\
    ((forall w0, fst (RelayRuns.saves w0) = Js.Return tt) ->
     chain (moves next) RelayRuns.observed tables /\
     moves forward RelayRuns.observed (TransactionSubmitter.db RelayRuns.polled)).
Proof.
  apply (C6_each_write_moves_forward RelayRuns.saves RelayRuns.rootsUnknown RelayRuns.settles
           RelayRuns.busy RelayRuns.observed [] [TransactionSubmitter.Poll 2000]).
  vm_compute. apply NoDup_singleton.
Defined.

(** C7 as stated fails: the driver stops after the destination call for the
    observed lock has settled (the mint is among the settled calls) and before
    the completed status is written; the restarted relayer replays the event
    and polls twice, and the transfer is still processing, with no
    destination reference: it is not marked completed. *)
Lemma C7_restart_counterexample :
  fst RelayRuns.beforeCrash = Js.Return "0xd357" /\
  TransactionSubmitter.submitted "0x10c4" (TransactionSubmitter.world RelayRuns.crashed) /\
  (Database.status <$>
     Database.getTransaction "0x10c4" (TransactionSubmitter.db RelayRuns.restarted))
    = Some Database.processing /\
  (Database.destTxHash <$>
     Database.getTransaction "0x10c4" (TransactionSubmitter.db RelayRuns.restarted))
    = Some None /\
  (Database.status <$>
     Database.getTransaction "0x10c4" (TransactionSubmitter.db RelayRuns.restarted))
    <> Some Database.completed.
Proof.
  split; [vm_compute; reflexivity|]. split.
  { eexists _, _, _. split; [|left; vm_compute; apply list_elem_of_further, list_elem_of_here].
    reflexivity. }
  split; [vm_compute; reflexivity|].
  split; [vm_compute; reflexivity|].
  vm_compute. discriminate.
Qed.

(** C7, amended. When the driver stops after the destination call of a
    stored transfer has settled and before the completed status is written,
    the transfer is left processing with its destination reference unchanged;
    a relayer restarted on that store, whatever it observes, replays and polls
    and whatever the chains and the file system answer, never submits the
    destination call for it again, and never changes its row: the polling
    loop reads pending rows only, and neither the destination reference nor
    the ledger's nonce state is consulted, so the transfer is not marked
    completed. *)
Theorem C7_crashed_transfer_stays_processing {W : Type}
    (save : W -> Js.outcome unit * W)
    (validRoots : W -> string -> option Z -> Js.outcome bool * W)
    (sendTransaction : W -> TransactionSubmitter.request -> Js.outcome string * W)
    (meanwhile : W -> list TransactionSubmitter.arrival * W)
    (tx : Database.BridgeTransaction) (now : Z)
    (d d' : TransactionSubmitter.driver) (destTx : string) (w' : W)
    (ops : list TransactionSubmitter.op) :
  Database.unique (TransactionSubmitter.db d) ->
  tx ∈ TransactionSubmitter.db d ->
  TransactionSubmitter.submitPhase save validRoots sendTransaction meanwhile tx now d
    = (Js.Return destTx, d') ->
  exists row,
    Database.getTransaction (Database.txHash tx) (TransactionSubmitter.db d') = Some row /\
    Database.status row = Database.processing /\
    Database.destTxHash row = Database.destTxHash tx /\
    let restarted :=
      TransactionSubmitter.run save validRoots sendTransaction meanwhile
        (TransactionSubmitter.start (TransactionSubmitter.db d') w') ops in
    Database.getTransaction (Database.txHash tx) (TransactionSubmitter.db restarted)
      = Some row /\
    ~ TransactionSubmitter.submitted (Database.txHash tx)
        (TransactionSubmitter.trace restarted).
Proof.
  intros Hu Hin Hphase.
  destruct (submitPhase_spec save validRoots sendTransaction meanwhile (fun _ _ => true)
              (fun _ => eq_refl) eq_refl eq_refl eq_refl eq_refl _ _ _ _ _ Hphase)
    as (g & calls & [RU RG] & Hst & _).
  pose proof (unique_getTransaction _ _ Hu Hin) as Hget.
  assert (Database.getTransaction (Database.txHash tx) (TransactionSubmitter.db d')
          = Some (g tx)) as Hget'.
  { rewrite (RG _ _ Hget), bool_decide_eq_true_2 by reflexivity. reflexivity. }
  pose proof (RU Hu) as Hu'.
  destruct (Hst tx) as [Hproc Hdest].
  exists (g tx). split; [exact Hget'|]. split; [exact Hproc|]. split; [exact Hdest|].
  cbn zeta.
  destruct (run_advances save validRoots sendTransaction meanwhile ops
              (TransactionSubmitter.start (TransactionSubmitter.db d') w') Hu')
    as (_ & Hrows & calls' & Htr & Hc).
  destruct (Hrows _ _ Hget') as (row' & Hrow' & _ & Hkeep).
  assert (Database.status (g tx) <> Database.pending) as Hnp by (rewrite Hproc; discriminate).
  split; [rewrite Hrow', (Hkeep Hnp); reflexivity|].
  rewrite Htr. cbn [TransactionSubmitter.trace TransactionSubmitter.start app].
  intros Hs. apply Hnp. exact (Hc _ Hs _ Hget').
Qed.

Lemma C7_crashed_transfer_stays_processing_witness :
  exists row,
    Database.getTransaction (Database.txHash RelayRuns.lockRow)
      (TransactionSubmitter.db RelayRuns.crashed) = Some row /\
    Database.status row = Database.processing /\
    Database.destTxHash row = Database.destTxHash RelayRuns.lockRow /\
    let restarted :=
      TransactionSubmitter.run RelayRuns.saves RelayRuns.rootsUnknown RelayRuns.settles
        RelayRuns.busy
        (TransactionSubmitter.start (TransactionSubmitter.db RelayRuns.crashed)
           (TransactionSubmitter.world RelayRuns.crashed))
        [TransactionSubmitter.Replay (EventListener.allSaved [RelayRuns.lockEvent]) [] 3000;
         TransactionSubmitter.Poll 4000; TransactionSubmitter.Poll 5000] in
    Database.getTransaction (Database.txHash RelayRuns.lockRow)
      (TransactionSubmitter.db restarted) = Some row /\
    ~ TransactionSubmitter.submitted (Database.txHash RelayRuns.lockRow)
        (TransactionSubmitter.trace restarted).
Proof.
  apply (C7_crashed_transfer_stays_processing RelayRuns.saves RelayRuns.rootsUnknown
           RelayRuns.settles RelayRuns.busy RelayRuns.lockRow 2000
           (TransactionSubmitter.start RelayRuns.observed [])
           RelayRuns.crashed "0xd357").
  - vm_compute. apply NoDup_singleton.
  - vm_compute. apply list_elem_of_here.
  - vm_compute. reflexivity.
Defined.

(** C8 as stated fails: an event with the zero address as recipient and a
    zero amount, once confirmed, is stored as a pending transfer. *)
Lemma C8_malformed_event_counterexample :
  exists row,
    Database.getTransaction "0xbad0"
      (EventListener.onEvent EventListener.Sepolia RelayRuns.malformedEvent
         EventListener.ConfirmedReceipt (Js.Return tt) 1000 []) = Some row /\
    Database.status row = Database.pending /\
    Database.recipient row = "0x0000000000000000000000000000000000000000" /\
    Database.amount row = "0" /\
    Enc.addressOf (Database.recipient row) = Some 0%Z.
Proof.
  eexists. split; [vm_compute; reflexivity|].
  repeat split; vm_compute; reflexivity.
Qed.

(** C8, amended. The event observer checks no field of an event.  An event
    whose receipt is confirmed and whose transaction hash is not stored yet is
    persisted as a pending transfer with the event's sender, recipient and
    amount, whatever they are, a zero recipient or an out-of-bounds amount
    included, the row being in the relayer's database whatever the write of
    the database file finds; nothing is persisted only when the receipt is
    missing or failed or the hash is already stored. *)
Theorem C8_observer_persists_without_validation
    (source : EventListener.ledger) (ev : EventListener.BridgeEvent)
    (r : EventListener.receipt) (saved : Js.outcome unit) (now : Z)
    (t : list Database.BridgeTransaction) :
  (r = EventListener.ConfirmedReceipt ->
   Database.getTransaction (EventListener.transactionHash ev) t = None ->
   exists row,
     EventListener.onEvent source ev r saved now t = t ++ [row] /\
     Database.getTransaction (EventListener.transactionHash ev)
       (EventListener.onEvent source ev r saved now t) = Some row /\
     Database.status row = Database.pending /\
     Database.sender row = EventListener.ev_sender ev /\
     Database.recipient row = EventListener.ev_recipient ev /\
     Database.amount row = Js.toString (EventListener.ev_amount ev)) /\
  (r <> EventListener.ConfirmedReceipt ->
   EventListener.onEvent source ev r saved now t = t) /\
  (is_Some (Database.getTransaction (EventListener.transactionHash ev) t) ->
   EventListener.onEvent source ev r saved now t = t).
Proof.
  rewrite onEvent_cases. split; [|split].
  - intros -> Hnone. rewrite Hnone. eexists. split; [reflexivity|].
    split; [|repeat split].
    rewrite getTransaction_snoc, Hnone. cbn.
    rewrite bool_decide_eq_true_2 by reflexivity. reflexivity.
  - intros Hr. destruct r; try reflexivity. contradiction.
  - intros [row Hrow]. rewrite Hrow. destruct r; reflexivity.
Qed.

Lemma C8_observer_persists_without_validation_witness :
  exists row,
    EventListener.onEvent EventListener.Amoy RelayRuns.malformedEvent
      EventListener.ConfirmedReceipt (Js.Return tt) 1000 RelayRuns.observed
      = RelayRuns.observed ++ [row] /\
    Database.getTransaction (EventListener.transactionHash RelayRuns.malformedEvent)
      (EventListener.onEvent EventListener.Amoy RelayRuns.malformedEvent
         EventListener.ConfirmedReceipt (Js.Return tt) 1000 RelayRuns.observed) = Some row /\
    Database.status row = Database.pending /\
    Database.sender row = EventListener.ev_sender RelayRuns.malformedEvent /\
    Database.recipient row = EventListener.ev_recipient RelayRuns.malformedEvent /\
    Database.amount row = Js.toString (EventListener.ev_amount RelayRuns.malformedEvent).
Proof.
  apply (proj1 (C8_observer_persists_without_validation EventListener.Amoy
                  RelayRuns.malformedEvent EventListener.ConfirmedReceipt (Js.Return tt) 1000
                  RelayRuns.observed)).
  - reflexivity.
  - vm_compute. reflexivity.
Defined.

(* ===================================================================== *)
(** * Further properties of the code *)
(* ===================================================================== *)

(** ** Amounts as decimal strings *)

Section DecimalFacts.
Import Enc Js.
Local Open Scope Z_scope.

Lemma decVal_hexDigit d : 0 <= d < 10 -> decVal (hexDigit d) = Some d.
Proof.
  intros H.
  assert (d = 0 \/ d = 1 \/ d = 2 \/ d = 3 \/ d = 4 \/ d = 5 \/ d = 6 \/ d = 7 \/
          d = 8 \/ d = 9) as Hd by lia.
  repeat (destruct Hd as [-> | Hd]; [reflexivity|]). subst. reflexivity.
Qed.

Lemma digits10_spec (fuel : nat) :
  forall n, 0 <= n < 2 ^ Z.of_nat fuel ->
    fold_left (fun a d => a * 10 + d) (rev (digits10 fuel n)) 0 = n /\
    Forall (fun d => 0 <= d < 10) (digits10 fuel n).
Proof.
  induction fuel as [|f IH]; intros n Hn.
  - cbn in Hn. assert (n = 0) as -> by lia. split; [reflexivity|constructor].
  - cbn [digits10]. destruct (Z.ltb_spec n 10) as [Hlt|Hge].
    + split; [cbn; lia|]. constructor; [lia|constructor].
    + assert (0 <= n / 10 < 2 ^ Z.of_nat f) as Hq.
      { split; [apply Z.div_pos; lia|].
        apply Z.div_lt_upper_bound; [lia|].
        rewrite Nat2Z.inj_succ, Z.pow_succ_r in Hn by lia. lia. }
      destruct (IH (n / 10) Hq) as [Hv Hd]. split.
      * cbn [rev]. rewrite fold_left_app, Hv. cbn.
        pose proof (Z.div_mod n 10). lia.
      * constructor; [|exact Hd].
        pose proof (Z.mod_pos_bound n 10). lia.
Qed.

Lemma parseDec_digits ds :
  forall acc, Forall (fun d => 0 <= d < 10) ds ->
    parseDec (fold_right (fun d s => String (hexDigit d) s) EmptyString ds) acc =
      Some (fold_left (fun a d => a * 10 + d) ds acc).
Proof.
  induction ds as [|d ds IH]; intros acc Hds; [reflexivity|].
  apply Forall_cons in Hds as [Hd Hds].
  cbn [fold_right parseDec fold_left]. rewrite (decVal_hexDigit d Hd). apply IH, Hds.
Qed.

Ltac digit_cases d :=
  let Hd := fresh "Hd" in
  assert (d = 0 \/ d = 1 \/ d = 2 \/ d = 3 \/ d = 4 \/ d = 5 \/ d = 6 \/ d = 7 \/
          d = 8 \/ d = 9) as Hd by lia;
  repeat (destruct Hd as [-> | Hd]; [reflexivity|]); subst; reflexivity.

Lemma isWhiteSpace_digit d : 0 <= d < 10 -> isWhiteSpace (hexDigit d) = false.
Proof. intros H. digit_cases d. Qed.

Lemma radixOf_digit d : 0 <= d < 10 -> radixOf (hexDigit d) = None.
Proof. intros H. digit_cases d. Qed.

Lemma signedDecimal_digit d r :
  0 <= d < 10 -> signedDecimal (String (hexDigit d) r) = parseDec (String (hexDigit d) r) 0.
Proof. intros H. digit_cases d. Qed.

(** A string of decimal digits has no white space to skip. *)
Lemma trim_digits ds :
  Forall (fun d => 0 <= d < 10) ds ->
  trim (fold_right (fun d s => String (hexDigit d) s) EmptyString ds) =
    fold_right (fun d s => String (hexDigit d) s) EmptyString ds.
Proof.
  intros Hds. unfold trim.
  assert (trimStart (fold_right (fun d s => String (hexDigit d) s) EmptyString ds) =
          fold_right (fun d s => String (hexDigit d) s) EmptyString ds) as ->.
  { destruct Hds as [|d ds Hd _]; [reflexivity|].
    cbn [fold_right trimStart]. rewrite (isWhiteSpace_digit d Hd). reflexivity. }
  induction Hds as [|d ds Hd Hds IH]; [reflexivity|].
  cbn [fold_right trimEnd]. rewrite IH.
  destruct Hds as [|d' ds' _ _]; cbn [fold_right]; [|reflexivity].
  rewrite (isWhiteSpace_digit d Hd). reflexivity.
Qed.

(** [BigInt] reads back what [toString] prints. *)
Lemma BigInt_toString (n : Z) : 0 <= n -> BigInt (toString n) = Some n.
Proof.
  intros Hn. unfold toString.
  destruct (digits10_spec _ n (log2_fuel n Hn)) as [Hv Hd].
  set (ds := rev (digits10 (S (Z.to_nat (Z.log2 n))) n)) in *.
  assert (Forall (fun d => 0 <= d < 10) ds) as Hds by (apply Forall_rev; exact Hd).
  assert (ds <> []) as Hne.
  { unfold ds. cbn [digits10]. destruct (n <? 10); cbn; [discriminate|].
    intros H. apply app_eq_nil in H as [_ H]. discriminate. }
  pose proof (parseDec_digits ds 0 Hds) as Hp. rewrite Hv in Hp.
  unfold BigInt. rewrite (trim_digits ds Hds).
  destruct ds as [|d0 ds]; [contradiction|].
  pose proof Hds as Hall. apply Forall_cons in Hds as [Hd0 Hds].
  rewrite <- Hp.
  destruct ds as [|d1 ds]; [apply (signedDecimal_digit d0 EmptyString Hd0)|].
  apply Forall_cons in Hds as [Hd1 Hds].
  destruct ds as [|d2 ds].
  { apply (signedDecimal_digit d0 _ Hd0). }
  cbn [fold_right]. rewrite (radixOf_digit d1 Hd1).
  destruct (Ascii.eqb (hexDigit d0) "0"); apply (signedDecimal_digit d0 _ Hd0).
Qed.

End DecimalFacts.

(** X1. The listener stores the amount of an event as [amount.toString()]
    and the proof generator reads it with [BigInt]: for every event with a
    non-negative amount the value read from the stored row is the amount of
    the event, and [generateLeafHash] does not throw on a transaction that
    carries the stored amount. *)
Theorem X1_stored_amount_reads_back
    (source : EventListener.ledger) (ev : EventListener.BridgeEvent) (now : Z) :
  (0 <= EventListener.ev_amount ev)%Z ->
  let row := EventListener.newRow source ev now in
  Enc.BigInt (Database.amount row) = Some (EventListener.ev_amount ev) /\
  (forall tr, ProofGenerator.amount tr = Database.amount row ->
              is_Some (ProofGenerator.generateLeafHash tr)).
Proof.
  intros Hn row.
  assert (Enc.BigInt (Database.amount row) = Some (EventListener.ev_amount ev)) as H.
  { unfold row. cbn [EventListener.newRow Database.amount]. apply BigInt_toString, Hn. }
  split; [exact H|].
  intros tr Htr. apply generateLeafHash_is_Some. rewrite Htr, H. eauto.
Qed.

Lemma X1_stored_amount_reads_back_witness :
  let row := EventListener.newRow EventListener.Sepolia RelayRuns.lockEvent 1000 in
  Enc.BigInt (Database.amount row) = Some (EventListener.ev_amount RelayRuns.lockEvent) /\
  (forall tr, ProofGenerator.amount tr = Database.amount row ->
              is_Some (ProofGenerator.generateLeafHash tr)).
Proof.
  apply (X1_stored_amount_reads_back EventListener.Sepolia RelayRuns.lockEvent 1000).
  vm_compute. discriminate.
Defined.

(* ===================================================================== *)
(** ** MessageLib: packed bytes and the message codec *)
(* ===================================================================== *)

Section WordFacts.
Import Enc.
Local Open Scope Z_scope.

Lemma be_bytes_length (n : nat) : forall v, length (be_bytes n v) = n.
Proof.
  induction n as [|k IH]; intros v; [reflexivity|].
  cbn [be_bytes]. rewrite length_app, IH. cbn. lia.
Qed.

Lemma be_bytes_bytes (n : nat) : forall v, Forall is_byte (be_bytes n v).
Proof.
  induction n as [|k IH]; intros v; [constructor|].
  cbn [be_bytes]. apply Forall_app. split; [apply IH|].
  constructor; [|constructor]. unfold is_byte.
  pose proof (Z.mod_pos_bound v 256). lia.
Qed.

(** Reading the bytes of a value that fits gives the value back. *)
Lemma fold256_be_bytes (n : nat) :
  forall v, 0 <= v < 256 ^ Z.of_nat n -> fold256 (be_bytes n v) 0 = v.
Proof.
  induction n as [|k IH]; intros v Hv.
  - cbn in Hv. cbn. lia.
  - cbn [be_bytes]. rewrite fold256_app.
    rewrite Nat2Z.inj_succ, Z.pow_succ_r in Hv by lia.
    rewrite IH.
    + cbn. pose proof (Z.div_mod v 256). lia.
    + split; [apply Z.div_pos; lia|]. apply Z.div_lt_upper_bound; lia.
Qed.

Lemma be_bytes_inj (n : nat) (v w : Z) :
  0 <= v < 256 ^ Z.of_nat n -> 0 <= w < 256 ^ Z.of_nat n ->
  be_bytes n v = be_bytes n w -> v = w.
Proof.
  intros Hv Hw H.
  rewrite <- (fold256_be_bytes n v Hv), <- (fold256_be_bytes n w Hw), H. reflexivity.
Qed.

Lemma app_inj_length {A} (a b c d : list A) :
  length a = length c -> a ++ b = c ++ d -> a = c /\ b = d.
Proof. intros Hl H. apply app_inj_1 in H; [exact H|exact Hl]. Qed.

End WordFacts.

Section MessageFacts.
Import Enc BridgeMessages.
Local Open Scope Z_scope.

Lemma wordAt_here (w rest : list Z) :
  length w = 32%nat -> wordAt 0 (w ++ rest) = fold256 w 0.
Proof.
  intros Hl. unfold wordAt. replace (32 * 0)%nat with 0%nat by lia.
  rewrite drop_0, take_app_length' by (symmetry; exact Hl). reflexivity.
Qed.

Lemma wordAt_next (k : nat) (w rest : list Z) :
  length w = 32%nat -> wordAt (S k) (w ++ rest) = wordAt k rest.
Proof.
  intros Hl. unfold wordAt.
  replace (32 * S k)%nat with (32 + 32 * k)%nat by lia.
  rewrite drop_app_add' by (symmetry; exact Hl). reflexivity.
Qed.

Lemma wordAt_bound (k : nat) (data : list Z) :
  Forall is_byte data -> 0 <= wordAt k data < 2 ^ 256.
Proof.
  intros Hd. unfold wordAt.
  assert (Forall is_byte (take 32 (drop (32 * k) data))) as Hb
    by (apply Forall_take, Forall_drop, Hd).
  pose proof (fold256_bound _ Hb) as [H0 H1]. split; [exact H0|].
  eapply Z.lt_le_trans; [exact H1|].
  change (2 ^ 256) with (256 ^ Z.of_nat 32).
  apply Z.pow_le_mono_r; [lia|]. apply inj_le. rewrite length_take. lia.
Qed.

End MessageFacts.

(** X2. [abi.encodePacked] of the seven fields always has 200 bytes, and on
    values of the fields' types it is injective: two messages with the same
    packed bytes are the same message, so two different transfers can share a
    leaf hash only through a collision of keccak256. *)
Theorem X2_packed_encoding_injective (a b : BridgeMessages.BridgeMessage) :
  BridgeMessages.typed a -> BridgeMessages.typed b ->
  MessageLib.encodePacked (BridgeMessages.sender a) (BridgeMessages.recipient a)
    (BridgeMessages.amount a) (BridgeMessages.nonce a) (BridgeMessages.sourceChainId a)
    (BridgeMessages.destinationChainId a) (BridgeMessages.timestamp a) =
  MessageLib.encodePacked (BridgeMessages.sender b) (BridgeMessages.recipient b)
    (BridgeMessages.amount b) (BridgeMessages.nonce b) (BridgeMessages.sourceChainId b)
    (BridgeMessages.destinationChainId b) (BridgeMessages.timestamp b) ->
  a = b /\
  length (MessageLib.encodePacked (BridgeMessages.sender a) (BridgeMessages.recipient a)
            (BridgeMessages.amount a) (BridgeMessages.nonce a)
            (BridgeMessages.sourceChainId a) (BridgeMessages.destinationChainId a)
            (BridgeMessages.timestamp a)) = 200%nat.
Proof.
  intros Ha Hb H. split.
  - destruct a as [a1 a2 a3 a4 a5 a6 a7], b as [b1 b2 b3 b4 b5 b6 b7].
    unfold BridgeMessages.typed in Ha, Hb. cbn in Ha, Hb.
    cbn [BridgeMessages.sender BridgeMessages.recipient BridgeMessages.amount
         BridgeMessages.nonce BridgeMessages.sourceChainId
         BridgeMessages.destinationChainId BridgeMessages.timestamp] in H.
    destruct Ha as (A1 & A2 & A3 & A4 & A5 & A6 & A7).
    destruct Hb as (B1 & B2 & B3 & B4 & B5 & B6 & B7).
    unfold MessageLib.encodePacked in H.
    change (2 ^ 160)%Z with (256 ^ Z.of_nat 20)%Z in *.
    change (2 ^ 256)%Z with (256 ^ Z.of_nat 32)%Z in *.
    apply app_inj_length in H as [H1 H]; [|rewrite !be_bytes_length; reflexivity].
    apply app_inj_length in H as [H2 H]; [|rewrite !be_bytes_length; reflexivity].
    apply app_inj_length in H as [H3 H]; [|rewrite !be_bytes_length; reflexivity].
    apply app_inj_length in H as [H4 H]; [|rewrite !be_bytes_length; reflexivity].
    apply app_inj_length in H as [H5 H]; [|rewrite !be_bytes_length; reflexivity].
    apply app_inj_length in H as [H6 H7]; [|rewrite !be_bytes_length; reflexivity].
    apply be_bytes_inj in H1, H2, H3, H4, H5, H6, H7; try assumption.
    subst. reflexivity.
  - unfold MessageLib.encodePacked. rewrite !length_app, !be_bytes_length. reflexivity.
Qed.

Lemma X2_packed_encoding_injective_witness :
  let m := {| BridgeMessages.sender := Scenario.sender;
              BridgeMessages.recipient := Scenario.recipient;
              BridgeMessages.amount := Scenario.amount;
              BridgeMessages.nonce := 1;
              BridgeMessages.sourceChainId := Scenario.sepolia;
              BridgeMessages.destinationChainId := Scenario.amoy;
              BridgeMessages.timestamp := Scenario.lockTime |} in
  m = m /\
  length (MessageLib.encodePacked Scenario.sender Scenario.recipient Scenario.amount 1
            Scenario.sepolia Scenario.amoy Scenario.lockTime) = 200%nat.
Proof.
  intros m. apply (X2_packed_encoding_injective m m); try reflexivity;
    vm_compute; repeat split; congruence.
Defined.

(** X3. [decodeMessage] undoes [encodeMessage]: a message whose fields are
    values of their types, encoded and followed by any further bytes, decodes
    to itself.  Data shorter than seven words is rejected, and whatever
    [decodeMessage] returns from bytes has fields of their types. *)
Theorem X3_message_codec_round_trip
    (m : BridgeMessages.BridgeMessage) (rest data : list Z) :
  BridgeMessages.typed m ->
  Forall Enc.is_byte data ->
  BridgeMessages.decodeMessage (BridgeMessages.encodeMessage m ++ rest) = Some m /\
  ((length data < 224)%nat -> BridgeMessages.decodeMessage data = None) /\
  (forall m', BridgeMessages.decodeMessage data = Some m' -> BridgeMessages.typed m').
Proof.
  intros Hm Hdata. split; [|split].
  - destruct m as [a1 a2 a3 a4 a5 a6 a7].
    unfold BridgeMessages.typed in Hm. cbn in Hm.
    destruct Hm as (A1 & A2 & A3 & A4 & A5 & A6 & A7).
    assert (2 ^ 160 < 2 ^ 256)%Z as Hlt by (apply Z.pow_lt_mono_r; lia).
    unfold BridgeMessages.decodeMessage, BridgeMessages.encodeMessage. cbn [BridgeMessages.sender
      BridgeMessages.recipient BridgeMessages.amount BridgeMessages.nonce
      BridgeMessages.sourceChainId BridgeMessages.destinationChainId
      BridgeMessages.timestamp].
    rewrite <- !app_assoc.
    assert (forall v, length (Enc.be_bytes 32 v) = 32%nat) as L
      by (intros v; apply be_bytes_length).
    assert (forall v, (0 <= v < 2 ^ 256)%Z -> Enc.fold256 (Enc.be_bytes 32 v) 0 = v) as F
      by (intros v Hv; apply (fold256_be_bytes 32 v Hv)).
    rewrite !wordAt_next, !wordAt_here by apply L.
    rewrite !F by lia.
    rewrite !length_app, !L.
    destruct (_ <? 224)%nat eqn:Hlen; [apply Nat.ltb_lt in Hlen; lia|].
    destruct (Z.leb_spec (2 ^ 160) a1); [lia|].
    destruct (Z.leb_spec (2 ^ 160) a2); [lia|].
    reflexivity.
  - intros Hlen. unfold BridgeMessages.decodeMessage.
    apply Nat.ltb_lt in Hlen. rewrite Hlen. reflexivity.
  - intros m'. unfold BridgeMessages.decodeMessage.
    destruct (_ <? 224)%nat; [discriminate|].
    destruct (Z.leb_spec (2 ^ 160) (BridgeMessages.wordAt 0 data)); [discriminate|].
    destruct (Z.leb_spec (2 ^ 160) (BridgeMessages.wordAt 1 data)); [discriminate|].
    intros [= <-]. unfold BridgeMessages.typed.
    cbn [BridgeMessages.sender BridgeMessages.recipient BridgeMessages.amount
         BridgeMessages.nonce BridgeMessages.sourceChainId
         BridgeMessages.destinationChainId BridgeMessages.timestamp].
    pose proof (wordAt_bound 0 data Hdata). pose proof (wordAt_bound 1 data Hdata).
    pose proof (wordAt_bound 2 data Hdata). pose proof (wordAt_bound 3 data Hdata).
    pose proof (wordAt_bound 4 data Hdata). pose proof (wordAt_bound 5 data Hdata).
    pose proof (wordAt_bound 6 data Hdata).
    lia.
Qed.

Lemma X3_message_codec_round_trip_witness :
  let m := {| BridgeMessages.sender := Scenario.sender;
              BridgeMessages.recipient := Scenario.recipient;
              BridgeMessages.amount := Scenario.amount;
              BridgeMessages.nonce := 1;
              BridgeMessages.sourceChainId := Scenario.sepolia;
              BridgeMessages.destinationChainId := Scenario.amoy;
              BridgeMessages.timestamp := Scenario.lockTime |} in
  BridgeMessages.decodeMessage (BridgeMessages.encodeMessage m ++ [1; 2; 3]%Z) = Some m /\
  ((length [255%Z] < 224)%nat -> BridgeMessages.decodeMessage [255%Z] = None) /\
  (forall m', BridgeMessages.decodeMessage [255%Z] = Some m' -> BridgeMessages.typed m').
Proof.
  intros m. apply (X3_message_codec_round_trip m [1; 2; 3]%Z [255%Z]).
  - vm_compute. repeat split; congruence.
  - constructor; [|constructor]. unfold Enc.is_byte. lia.
Defined.

(* ===================================================================== *)
(** ** MerkleProof: multi-proofs *)
(* ===================================================================== *)

Section MultiProofFacts.
Import Evm MultiProof.
Local Open Scope Z_scope.

Lemma at_index_Some (xs : list Z) (i : nat) (x : Z) :
  xs !! i = Some x -> at_index xs i = Ok x.
Proof. intros H. unfold at_index. rewrite H. reflexivity. Qed.

(** From the second iteration on, with one leaf and no flag set, each
    iteration pairs the last hash written with the next proof element. *)
Lemma loop_chain (leaf : list Z) (proof : list Z) :
  length leaf = 1%nat ->
  forall (rest done : list Z) (j : nat) (hs : list Z) (h : Z),
    proof = done ++ rest ->
    length done = S j ->
    length hs = length proof ->
    hs !! j = Some h ->
    exists c,
      loop proof leaf (S j) (replicate (length rest) false)
        {| hashes := hs; leafPos := 1; hashPos := j; proofPos := S j |} = Ok c /\
      hashes c !! (length proof - 1)%nat = Some (MerkleProof.processProof rest h).
Proof.
  intros Hleaf. induction rest as [|y rest IH]; intros done j hs h Hp Hd Hl Hh.
  - cbn. eexists. split; [reflexivity|]. cbn.
    rewrite Hp, app_nil_r, Hd. replace (S j - 1)%nat with j by lia. exact Hh.
  - cbn [length replicate loop]. unfold iteration, take. cbn [leafPos hashPos proofPos hashes].
    rewrite Hleaf. cbn [Nat.ltb Nat.leb].
    assert (proof !! S j = Some y) as Hy.
    { rewrite Hp, lookup_app_r by lia. rewrite Hd, Nat.sub_diag. reflexivity. }
    rewrite (at_index_Some _ _ _ Hh). cbn -[MerkleProof._hashPair loop].
    rewrite (at_index_Some _ _ _ Hy). cbn -[MerkleProof._hashPair loop].
    assert (S j < length hs)%nat as Hlt.
    { rewrite Hl. apply lookup_lt_Some in Hy. exact Hy. }
    destruct (IH (done ++ [y]) (S j) (<[S j := MerkleProof._hashPair h y]> hs)
                (MerkleProof._hashPair h y)) as (c & Hc & Hres).
    + rewrite <- app_assoc. exact Hp.
    + rewrite length_app, Hd. cbn. lia.
    + rewrite length_insert. exact Hl.
    + apply list_lookup_insert_eq. exact Hlt.
    + exists c. split; [exact Hc|exact Hres].
Qed.

Lemma processMultiProof_single (x : Z) (proof : list Z) (leaf : Z) :
  Z.of_nat (length (x :: proof)) < MAX_UINT256 ->
  processMultiProof (x :: proof) (replicate (length (x :: proof)) false) [leaf]
    = Ok (MerkleProof.processProof (x :: proof) leaf).
Proof.
  intros Hlen. unfold processMultiProof. rewrite !length_replicate.
  change (Z.of_nat (length [leaf])) with 1.
  set (n := Z.of_nat (length (x :: proof))) in *.
  assert (1 <= n) as Hn by (unfold n; cbn [length]; lia).
  unfold add, sub.
  destruct (Z.leb_spec (1 + n) MAX_UINT256) as [_|Hbad]; [|lia].
  cbn [mbind result_bind].
  destruct (Z.leb_spec 1 (1 + n)) as [_|Hbad]; [|lia].
  cbn [mbind result_bind].
  replace (1 + n - 1) with n by lia.
  rewrite Z.eqb_refl. cbn [require mbind result_bind].
  destruct (Z.leb_spec 1 n) as [_|Hbad]; [|lia].
  cbn [length replicate loop]. unfold iteration, take.
  cbn [leafPos hashPos proofPos hashes length Nat.ltb Nat.leb].
  rewrite (at_index_Some [leaf] 0 leaf eq_refl). cbn -[MerkleProof._hashPair loop].
  destruct (loop_chain [leaf] (x :: proof) eq_refl proof [x] 0%nat
              (MerkleProof._hashPair leaf x :: replicate (length proof) 0)
              (MerkleProof._hashPair leaf x)) as (c & Hc & Hres);
    try reflexivity.
  - cbn [length]. rewrite length_replicate. reflexivity.
  - rewrite Hc. cbn [mbind result_bind]. unfold at_index.
    replace (Z.to_nat (n - 1)) with (length (x :: proof) - 1)%nat by (unfold n; lia).
    rewrite Hres. reflexivity.
Qed.

Lemma processMultiProof_no_flags (proof leaves : list Z) :
  reverted (processMultiProof proof [] leaves) = true.
Proof.
  unfold processMultiProof, add, sub. cbn [length].
  destruct (_ <=? MAX_UINT256); [|reflexivity]. cbn [mbind result_bind].
  destruct (Z.leb_spec 1 (Z.of_nat (length leaves) + Z.of_nat (length proof)));
    [|reflexivity].
  cbn [mbind result_bind]. unfold require.
  destruct (_ =? _); reflexivity.
Qed.

End MultiProofFacts.

(** X4. A multi-proof for one leaf with no flag set computes what
    [processProof] computes, so [multiProofVerify] and [verify] agree on it,
    provided the proof is not empty.  With an empty [proofFlags] array
    [processMultiProof] never returns: the tree of a single leaf, which
    [verify] accepts with an empty proof, makes it fail on [totalHashes - 1]. *)
Theorem X4_multiproof_of_one_leaf (proof : list Z) (leaf : Z) :
  proof <> [] ->
  (Z.of_nat (length proof) < Evm.MAX_UINT256)%Z ->
  MultiProof.processMultiProof proof (replicate (length proof) false) [leaf]
    = Evm.Ok (MerkleProof.processProof proof leaf) /\
  (forall root,
      MultiProof.multiProofVerify proof (replicate (length proof) false) root [leaf]
        = Evm.Ok (MerkleProof.verify proof root leaf)) /\
  (forall proof' leaves,
      Evm.reverted (MultiProof.processMultiProof proof' [] leaves) = true) /\
  MultiProof.processMultiProof [] [] [leaf] = Evm.Revert (Evm.Panic 0x11) /\
  MerkleProof.verify [] leaf leaf = true.
Proof.
  intros Hne Hlen. destruct proof as [|x proof]; [contradiction|].
  pose proof (processMultiProof_single x proof leaf Hlen) as Hp.
  split; [exact Hp|]. split.
  - intros root. unfold MultiProof.multiProofVerify. rewrite Hp. reflexivity.
  - split; [apply processMultiProof_no_flags|]. split; [reflexivity|].
    unfold MerkleProof.verify, MerkleProof.processProof. cbn. apply Z.eqb_refl.
Qed.

Lemma X4_multiproof_of_one_leaf_witness :
  MultiProof.processMultiProof [7; 8]%Z (replicate 2 false) [5%Z]
    = Evm.Ok (MerkleProof.processProof [7; 8]%Z 5) /\
  (forall root,
      MultiProof.multiProofVerify [7; 8]%Z (replicate 2 false) root [5%Z]
        = Evm.Ok (MerkleProof.verify [7; 8]%Z root 5)) /\
  (forall proof' leaves,
      Evm.reverted (MultiProof.processMultiProof proof' [] leaves) = true) /\
  MultiProof.processMultiProof [] [] [5%Z] = Evm.Revert (Evm.Panic 0x11) /\
  MerkleProof.verify [] 5 5 = true.
Proof.
  apply (X4_multiproof_of_one_leaf [7; 8]%Z 5); [discriminate|vm_compute; reflexivity].
Defined.

(* ===================================================================== *)
(** ** BridgeValidator: registration, access, books *)
(* ===================================================================== *)

Section ValidatorMoreFacts.
Import Evm BridgeValidator.
Local Open Scope Z_scope.

Lemma registerAll_fields (now : Z) (roots : list Z) :
  forall s,
    let s' := foldl (fun s root => emit (RootRegistered root now)
                                     (set_validRoots (<[root := true]>) s)) s roots in
    usedNonces s' = usedNonces s /\
    validatedTransactions s' = validatedTransactions s /\
    lastRootUpdate s' = lastRootUpdate s /\ relayer s' = relayer s /\
    owner s' = owner s /\ paused s' = paused s /\
    events s' = events s ++ ((fun root => RootRegistered root now) <$> roots) /\
    (forall root, flag (validRoots s') root =
                  if bool_decide (root ∈ roots) then true else flag (validRoots s) root).
Proof.
  induction roots as [|r roots IH]; intros s; cbn zeta.
  - cbn. rewrite app_nil_r. repeat split; reflexivity.
  - cbn [foldl]. specialize (IH (emit (RootRegistered r now)
                                   (set_validRoots (<[r := true]>) s))).
    cbn zeta in IH. destruct IH as (H1 & H2 & H3 & H4 & H5 & H6 & H7 & H8).
    rewrite H1, H2, H3, H4, H5, H6, H7. cbn. rewrite <- app_assoc.
    repeat split; try reflexivity.
    intros root. rewrite H8. cbn. unfold flag.
    destruct (decide (root = r)) as [->|Hne].
    + rewrite lookup_insert_eq. cbn.
      rewrite (bool_decide_eq_true_2 (r ∈ r :: roots)) by apply list_elem_of_here.
      destruct (bool_decide _); reflexivity.
    + rewrite lookup_insert_ne by congruence.
      destruct (bool_decide (root ∈ roots)) eqn:Hin.
      * apply bool_decide_eq_true_1 in Hin.
        rewrite bool_decide_eq_true_2; [reflexivity|]. apply list_elem_of_further, Hin.
      * apply bool_decide_eq_false_1 in Hin.
        rewrite bool_decide_eq_false_2; [reflexivity|].
        intros H. apply elem_of_cons in H as [H|H]; [congruence|contradiction].
Qed.

Lemma batchRegisterRoots_Ok (e : env) (roots : list Z) (s s' : state) :
  batchRegisterRoots e roots s = Ok s' ->
  msg_sender e = relayer s /\ paused s = false /\
  lastRootUpdate s + 60 <= block_timestamp e /\
  usedNonces s' = usedNonces s /\
  validatedTransactions s' = validatedTransactions s /\
  lastRootUpdate s' = block_timestamp e /\ relayer s' = relayer s /\
  owner s' = owner s /\ paused s' = paused s /\
  events s' = events s ++ ((fun root => RootRegistered root (block_timestamp e)) <$> roots) /\
  (forall root, flag (validRoots s') root =
                if bool_decide (root ∈ roots) then true else flag (validRoots s) root).
Proof.
  unfold batchRegisterRoots, onlyRelayer, whenNotPaused, MIN_ROOT_UPDATE_DELAY.
  intros H.
  destruct (Z.eqb_spec (msg_sender e) (relayer s)) as [Hr|]; cbn in H; [|discriminate].
  destruct (paused s) eqn:Hp; cbn in H; [discriminate|].
  unfold add in H. destruct (_ <=? MAX_UINT256); cbn in H; [|discriminate].
  destruct (Z.ltb_spec (block_timestamp e) (lastRootUpdate s + 60)) as [|Hd];
    cbn in H; [discriminate|].
  injection H as <-.
  destruct (registerAll_fields (block_timestamp e) roots s)
    as (H1 & H2 & H3 & H4 & H5 & H6 & H7 & H8).
  cbn. rewrite H1, H2, H4, H5, H6, H7. repeat split; try assumption; try reflexivity.
Qed.

Lemma registerRoot_inv (e : env) (root : Z) (s s' : state) :
  registerRoot e root s = Ok s' ->
  msg_sender e = relayer s /\ paused s = false /\
  lastRootUpdate s + 60 <= block_timestamp e /\
  s' = emit (RootRegistered root (block_timestamp e))
         (set_lastRootUpdate (block_timestamp e) (set_validRoots (<[root := true]>) s)).
Proof.
  unfold registerRoot, onlyRelayer, whenNotPaused, MIN_ROOT_UPDATE_DELAY.
  intros H.
  destruct (Z.eqb_spec (msg_sender e) (relayer s)) as [Hr|]; cbn in H; [|discriminate].
  destruct (paused s) eqn:Hp; cbn in H; [discriminate|].
  unfold add in H. destruct (_ <=? MAX_UINT256); cbn in H; [|discriminate].
  destruct (Z.ltb_spec (block_timestamp e) (lastRootUpdate s + 60)) as [|Hd];
    cbn in H; [discriminate|].
  injection H as <-. repeat split; assumption.
Qed.

(** A call made before the delay has elapsed reverts. *)
Lemma too_soon (e : env) (s : state) (c : call) :
  block_timestamp e < lastRootUpdate s + 60 ->
  match c with RegisterRoot _ | BatchRegisterRoots _ => True | _ => False end ->
  reverted (exec e c s) = true /\
  (msg_sender e = relayer s -> paused s = false -> lastRootUpdate s + 60 <= MAX_UINT256 ->
   exec e c s = Revert RootUpdateTooSoon).
Proof.
  intros Hsoon Hc.
  assert (forall k : Z -> result state,
             reverted (_ ← onlyRelayer e s; _ ← whenNotPaused s;
                       deadline ← add (lastRootUpdate s) MIN_ROOT_UPDATE_DELAY;
                       _ ← require (negb (block_timestamp e <? deadline)) RootUpdateTooSoon;
                       k deadline) = true /\
             (msg_sender e = relayer s -> paused s = false ->
              lastRootUpdate s + 60 <= MAX_UINT256 ->
              (_ ← onlyRelayer e s; _ ← whenNotPaused s;
               deadline ← add (lastRootUpdate s) MIN_ROOT_UPDATE_DELAY;
               _ ← require (negb (block_timestamp e <? deadline)) RootUpdateTooSoon;
               k deadline) = Revert RootUpdateTooSoon)) as Hgen.
  { intros k. unfold onlyRelayer, whenNotPaused, MIN_ROOT_UPDATE_DELAY, add, require.
    split.
    - destruct (msg_sender e =? relayer s); cbn; [|reflexivity].
      destruct (paused s); cbn; [reflexivity|].
      destruct (_ <=? MAX_UINT256); cbn; [|reflexivity].
      destruct (Z.ltb_spec (block_timestamp e) (lastRootUpdate s + 60)); cbn;
        [reflexivity|lia].
    - intros Hr Hp Hmax. rewrite Hr, Z.eqb_refl, Hp. cbn.
      destruct (Z.leb_spec (lastRootUpdate s + 60) MAX_UINT256); [|lia]. cbn.
      destruct (Z.ltb_spec (block_timestamp e) (lastRootUpdate s + 60)); cbn;
        [reflexivity|lia]. }
  destruct c; try contradiction; cbn [exec].
  - apply (Hgen (fun _ => Ok _)).
  - apply (Hgen (fun _ => Ok _)).
Qed.

End ValidatorMoreFacts.

(** X5. Root registrations are rate-limited: after a successful
    [registerRoot] at time t, every [registerRoot] and [batchRegisterRoots]
    sent before t + 60 reverts and leaves the validator as it was, whatever
    the root; sent by the relayer to an unpaused validator it reverts with
    [RootUpdateTooSoon].  The constructor starts the same delay. *)
Theorem X5_root_registration_rate_limit
    (s s1 : BridgeValidator.state) (e1 e2 : Evm.env) (r1 : Z) (c : BridgeValidator.call) :
  BridgeValidator.registerRoot e1 r1 s = Evm.Ok s1 ->
  (Evm.block_timestamp e2 < Evm.block_timestamp e1 + 60)%Z ->
  match c with
  | BridgeValidator.RegisterRoot _ | BridgeValidator.BatchRegisterRoots _ => True
  | _ => False
  end ->
  Evm.reverted (BridgeValidator.exec e2 c s1) = true /\
  BridgeValidator.step s1 (e2, c) = s1 /\
  (Evm.msg_sender e2 = BridgeValidator.relayer s1 ->
   (Evm.block_timestamp e1 + 60 <= Evm.MAX_UINT256)%Z ->
   BridgeValidator.exec e2 c s1 = Evm.Revert Evm.RootUpdateTooSoon) /\
  (forall e0 operator s0,
      BridgeValidator.constructor e0 operator = Evm.Ok s0 ->
      (Evm.block_timestamp e2 < Evm.block_timestamp e0 + 60)%Z ->
      Evm.reverted (BridgeValidator.exec e2 c s0) = true).
Proof.
  intros Hreg Hsoon Hc.
  destruct (registerRoot_inv _ _ _ _ Hreg) as (Hr & Hp & Hd & ->).
  set (s1 := BridgeValidator.emit _ _) in *.
  assert (BridgeValidator.lastRootUpdate s1 = Evm.block_timestamp e1) as Hlast by reflexivity.
  assert (BridgeValidator.paused s1 = false) as Hp1 by exact Hp.
  destruct (too_soon e2 s1 c) as [Hrev Herr]; [rewrite Hlast; exact Hsoon|exact Hc|].
  split; [exact Hrev|]. split.
  - unfold BridgeValidator.step, Evm.commit. cbn [fst snd].
    destruct (BridgeValidator.exec e2 c s1); [discriminate|reflexivity].
  - split.
    + intros Hs Hmax. apply Herr; [exact Hs|exact Hp1|rewrite Hlast; exact Hmax].
    + intros e0 operator s0 Hcons Hsoon0.
      apply too_soon; [|exact Hc].
      unfold BridgeValidator.constructor in Hcons. guards Hcons.
      injection Hcons as <-. exact Hsoon0.
Qed.

Lemma X5_root_registration_rate_limit_witness :
  Evm.reverted (BridgeValidator.exec (Scenario.at_ Scenario.operator 100)
                  (BridgeValidator.RegisterRoot 7) ScenarioRuns.registered) = true /\
  BridgeValidator.step ScenarioRuns.registered
    (Scenario.at_ Scenario.operator 100, BridgeValidator.RegisterRoot 7)
    = ScenarioRuns.registered /\
  (Evm.msg_sender (Scenario.at_ Scenario.operator 100)
     = BridgeValidator.relayer ScenarioRuns.registered ->
   (Evm.block_timestamp (Scenario.at_ Scenario.operator 60) + 60 <= Evm.MAX_UINT256)%Z ->
   BridgeValidator.exec (Scenario.at_ Scenario.operator 100)
     (BridgeValidator.RegisterRoot 7) ScenarioRuns.registered
     = Evm.Revert Evm.RootUpdateTooSoon) /\
  (forall e0 operator s0,
      BridgeValidator.constructor e0 operator = Evm.Ok s0 ->
      (Evm.block_timestamp (Scenario.at_ Scenario.operator 100)
         < Evm.block_timestamp e0 + 60)%Z ->
      Evm.reverted (BridgeValidator.exec (Scenario.at_ Scenario.operator 100)
                      (BridgeValidator.RegisterRoot 7) s0) = true).
Proof.
  apply (X5_root_registration_rate_limit Scenario.genesis ScenarioRuns.registered
           (Scenario.at_ Scenario.operator 60) (Scenario.at_ Scenario.operator 100)
           Scenario.leaf (BridgeValidator.RegisterRoot 7)).
  - vm_compute. reflexivity.
  - vm_compute. reflexivity.
  - exact I.
Defined.

Section ValidatorBooksFacts.
Import Evm BridgeValidator.
Local Open Scope Z_scope.

Lemma books_more_events (s s' : state) (evs : list event) :
  usedNonces s' = usedNonces s ->
  validatedTransactions s' = validatedTransactions s ->
  validRoots s' = validRoots s ->
  events s' = events s ++ evs ->
  validatorBooks s -> validatorBooks s'.
Proof.
  intros Hu Hv Hr He (B1 & B2 & B3). unfold validatorBooks.
  rewrite Hu, Hv, Hr, He. split; [exact B1|]. split; [exact B2|].
  intros root Hroot. destruct (B3 root Hroot) as [ts Hts].
  exists ts. apply elem_of_app. left. exact Hts.
Qed.

Lemma exec_books (e : env) (c : call) (s s' : state) :
  exec e c s = Ok s' -> validatorBooks s -> validatorBooks s'.
Proof.
  intros Hexec Hb. destruct c; cbn in Hexec.
  - destruct (registerRoot_inv _ _ _ _ Hexec) as (_ & _ & _ & ->).
    destruct Hb as (B1 & B2 & B3). split; [exact B1|]. split; [exact B2|].
    intros r Hr. cbn in Hr |- *. unfold flag in Hr.
    destruct (decide (r = root)) as [->|Hne].
    + exists (block_timestamp e). apply elem_of_app. right. apply list_elem_of_here.
    + rewrite lookup_insert_ne in Hr by congruence.
      destruct (B3 r Hr) as [ts Hts]. exists ts. apply elem_of_app. left. exact Hts.
  - destruct (validateTransaction _ _ _ _ _ _ _ _ _ _ _) as [[r s1]|] eqn:Hv;
      cbn in Hexec; [|discriminate].
    injection Hexec as <-.
    unfold validateTransaction, whenNotPaused in Hv.
    destruct (paused s) eqn:Hp; cbn in Hv; [discriminate|].
    destruct (flag (usedNonces s) nonce) eqn:Hu; cbn in Hv; [discriminate|].
    destruct (flag (validRoots s) root) eqn:Hr; cbn in Hv; [|discriminate].
    destruct (MerkleProof.verify _ _ _) eqn:Hver; cbn in Hv; [|discriminate].
    unfold add in Hv. cbn in Hv. destruct (_ <=? MAX_UINT256); cbn in Hv; [|discriminate].
    injection Hv as <- <-.
    destruct Hb as (B1 & B2 & B3).
    assert (usedNonces s !! nonce = None) as Hnone.
    { unfold flag in Hu. destruct (usedNonces s !! nonce) as [b|] eqn:Hl; [|reflexivity].
      rewrite (B1 _ _ Hl) in Hu. discriminate. }
    split; [|split]; cbn.
    + apply map_Forall_insert_2; [reflexivity|exact B1].
    + rewrite map_size_insert_None by exact Hnone. rewrite B2. lia.
    + intros r Hroot. destruct (B3 r Hroot) as [ts Hts]. exists ts.
      rewrite <- app_assoc. apply elem_of_app. left. exact Hts.
  - unfold updateRelayer, onlyOwner in Hexec. guards Hexec. injection Hexec as <-.
    eapply (books_more_events s); [reflexivity..|exact Hb].
  - unfold pause, onlyOwner, whenNotPaused in Hexec. guards Hexec. injection Hexec as <-.
    eapply (books_more_events s); [reflexivity..|exact Hb].
  - unfold unpause, onlyOwner, whenPaused in Hexec. guards Hexec. injection Hexec as <-.
    eapply (books_more_events s); [reflexivity..|exact Hb].
  - destruct (batchRegisterRoots_Ok _ _ _ _ Hexec)
      as (_ & _ & _ & Hu & Hv & _ & _ & _ & _ & He & Hr).
    destruct Hb as (B1 & B2 & B3). unfold validatorBooks. rewrite Hu, Hv, He.
    split; [exact B1|]. split; [exact B2|].
    intros r Hroot. rewrite Hr in Hroot.
    destruct (bool_decide (r ∈ roots)) eqn:Hin.
    + apply bool_decide_eq_true_1 in Hin. exists (block_timestamp e).
      apply elem_of_app. right. apply list_elem_of_fmap. exists r. split; [reflexivity|exact Hin].
    + destruct (B3 r Hroot) as [ts Hts]. exists ts. apply elem_of_app. left. exact Hts.
  - unfold invalidateRoot, onlyOwner in Hexec. guards Hexec. injection Hexec as <-.
    destruct Hb as (B1 & B2 & B3). split; [exact B1|]. split; [exact B2|].
    intros r Hr. cbn in Hr |- *. unfold flag in Hr.
    destruct (decide (r = root)) as [->|Hne].
    + rewrite lookup_insert_eq in Hr. discriminate.
    + rewrite lookup_insert_ne in Hr by congruence. exact (B3 r Hr).
  - unfold transferOwnership, onlyOwner in Hexec. guards Hexec. injection Hexec as <-.
    eapply (books_more_events s); [reflexivity..|exact Hb].
  - unfold renounceOwnership, onlyOwner in Hexec. guards Hexec. injection Hexec as <-.
    eapply (books_more_events s); [reflexivity..|exact Hb].
Qed.

Lemma run_books (txs : list (env * call)) :
  forall s, validatorBooks s -> validatorBooks (run s txs).
Proof.
  unfold run. induction txs as [|tx txs IH]; intros s Hb; [exact Hb|].
  cbn [foldl]. apply IH. unfold step, commit.
  destruct (exec (fst tx) (snd tx) s) as [s'|] eqn:Hexec; [|exact Hb].
  exact (exec_books _ _ _ _ Hexec Hb).
Qed.

End ValidatorBooksFacts.

(** X6. In every state a validator reaches from its deployment, whatever the
    transactions sent to it, the counter [validatedTransactions] (reported by
    [getInfo]) is the number of consumed nonces, and every root that
    [isRootValid] accepts was announced by a [RootRegistered] event. *)
Theorem X6_validator_books
    (e : Evm.env) (operator : Z) (s0 : BridgeValidator.state)
    (txs : list (Evm.env * BridgeValidator.call)) :
  BridgeValidator.constructor e operator = Evm.Ok s0 ->
  let s := BridgeValidator.run s0 txs in
  snd (fst (ValidatorViews.getInfo s)) = Z.of_nat (size (BridgeValidator.usedNonces s)) /\
  (forall n, BridgeValidator.isNonceUsed n s = true <->
             is_Some (BridgeValidator.usedNonces s !! n)) /\
  (forall root, BridgeValidator.isRootValid root s = true ->
                exists timestamp,
                  BridgeValidator.RootRegistered root timestamp ∈ BridgeValidator.events s).
Proof.
  intros Hcons s.
  assert (validatorBooks s0) as H0.
  { unfold BridgeValidator.constructor in Hcons. guards Hcons. injection Hcons as <-.
    split; [apply map_Forall_empty|]. split; [reflexivity|].
    intros root Hroot. discriminate Hroot. }
  destruct (run_books txs s0 H0) as (B1 & B2 & B3). fold s in B1, B2, B3.
  split; [exact B2|]. split; [|exact B3].
  intros n. unfold BridgeValidator.isNonceUsed, Evm.flag. split.
  - destruct (BridgeValidator.usedNonces s !! n); [eauto|discriminate].
  - intros [b Hb]. rewrite Hb. cbn. exact (B1 _ _ Hb).
Qed.

Lemma X6_validator_books_witness :
  let s := ScenarioRuns.consumed in
  snd (fst (ValidatorViews.getInfo s)) = Z.of_nat (size (BridgeValidator.usedNonces s)) /\
  (forall n, BridgeValidator.isNonceUsed n s = true <->
             is_Some (BridgeValidator.usedNonces s !! n)) /\
  (forall root, BridgeValidator.isRootValid root s = true ->
                exists timestamp,
                  BridgeValidator.RootRegistered root timestamp ∈ BridgeValidator.events s).
Proof.
  apply (X6_validator_books (Scenario.at_ Scenario.deployer 0) Scenario.operator
           Scenario.genesis
           [ (Scenario.at_ Scenario.operator 60, BridgeValidator.RegisterRoot Scenario.leaf);
             (Scenario.at_ Scenario.stranger 61, Scenario.validation Scenario.leaf) ]).
  vm_compute. reflexivity.
Defined.

(** X7. A successful [batchRegisterRoots] makes every listed root valid,
    leaves the validity of every other root as it was, emits one
    [RootRegistered] event per listed root in the order of the list, and
    restarts the registration delay, also when the list is empty.  A batch of
    one root behaves as [registerRoot] of that root, reverts included. *)
Theorem X7_batch_registration
    (e : Evm.env) (roots : list Z) (s s' : BridgeValidator.state) :
  BridgeValidator.batchRegisterRoots e roots s = Evm.Ok s' ->
  (forall root, root ∈ roots -> BridgeValidator.isRootValid root s' = true) /\
  (forall root, root ∉ roots ->
                BridgeValidator.isRootValid root s' = BridgeValidator.isRootValid root s) /\
  BridgeValidator.events s' =
    BridgeValidator.events s ++
    ((fun root => BridgeValidator.RootRegistered root (Evm.block_timestamp e)) <$> roots) /\
  BridgeValidator.lastRootUpdate s' = Evm.block_timestamp e /\
  BridgeValidator.usedNonces s' = BridgeValidator.usedNonces s /\
  (forall e1 root s1,
      BridgeValidator.batchRegisterRoots e1 [root] s1 = BridgeValidator.registerRoot e1 root s1).
Proof.
  intros H.
  destruct (batchRegisterRoots_Ok _ _ _ _ H)
    as (_ & _ & _ & Hu & _ & Hl & _ & _ & _ & He & Hr).
  split; [|split; [|split; [|split; [|split]]]].
  - intros root Hin. unfold BridgeValidator.isRootValid.
    rewrite Hr, bool_decide_eq_true_2 by exact Hin. reflexivity.
  - intros root Hout. unfold BridgeValidator.isRootValid.
    rewrite Hr, bool_decide_eq_false_2 by exact Hout. reflexivity.
  - exact He.
  - exact Hl.
  - exact Hu.
  - intros e1 root s1. reflexivity.
Qed.

Lemma X7_batch_registration_witness :
  exists s',
    BridgeValidator.batchRegisterRoots (Scenario.at_ Scenario.operator 60) [11; 12]%Z
      Scenario.genesis = Evm.Ok s' /\
    (forall root, root ∈ [11; 12]%Z -> BridgeValidator.isRootValid root s' = true) /\
    (forall root, root ∉ [11; 12]%Z ->
                  BridgeValidator.isRootValid root s'
                    = BridgeValidator.isRootValid root Scenario.genesis) /\
    BridgeValidator.events s' =
      BridgeValidator.events Scenario.genesis ++
      ((fun root => BridgeValidator.RootRegistered root
                      (Evm.block_timestamp (Scenario.at_ Scenario.operator 60)))
         <$> [11; 12]%Z) /\
    BridgeValidator.lastRootUpdate s'
      = Evm.block_timestamp (Scenario.at_ Scenario.operator 60) /\
    BridgeValidator.usedNonces s' = BridgeValidator.usedNonces Scenario.genesis /\
    (forall e1 root s1,
        BridgeValidator.batchRegisterRoots e1 [root] s1
          = BridgeValidator.registerRoot e1 root s1).
Proof.
  eexists. split; [vm_compute; reflexivity|].
  apply (X7_batch_registration (Scenario.at_ Scenario.operator 60) [11; 12]%Z
           Scenario.genesis).
  vm_compute. reflexivity.
Defined.

(** X8. An account that is neither the owner nor the relayer can change the
    validator only through [validateTransaction]: every other entry point
    reverts for it, with [InvalidRelayer] for the two registration functions
    and with [OwnableUnauthorizedAccount] for the owner's functions, and the
    state stays as it was. *)
Theorem X8_outsiders_are_rejected
    (s : BridgeValidator.state) (e : Evm.env) (c : BridgeValidator.call) :
  Evm.msg_sender e <> BridgeValidator.owner s ->
  Evm.msg_sender e <> BridgeValidator.relayer s ->
  is_validation c = false ->
  BridgeValidator.exec e c s =
    Evm.Revert (match c with
                | BridgeValidator.RegisterRoot _
                | BridgeValidator.BatchRegisterRoots _ => Evm.InvalidRelayer
                | _ => Evm.OwnableUnauthorizedAccount (Evm.msg_sender e)
                end) /\
  BridgeValidator.step s (e, c) = s.
Proof.
  intros Ho Hr Hc.
  assert ((Evm.msg_sender e =? BridgeValidator.owner s)%Z = false) as Ho'
    by (apply Z.eqb_neq; exact Ho).
  assert ((Evm.msg_sender e =? BridgeValidator.relayer s)%Z = false) as Hr'
    by (apply Z.eqb_neq; exact Hr).
  assert (forall err, BridgeValidator.exec e c s = Evm.Revert err ->
                      BridgeValidator.step s (e, c) = s) as Hstep.
  { intros err H. unfold BridgeValidator.step, Evm.commit. cbn [fst snd].
    rewrite H. reflexivity. }
  assert (BridgeValidator.exec e c s =
          Evm.Revert (match c with
                      | BridgeValidator.RegisterRoot _
                      | BridgeValidator.BatchRegisterRoots _ => Evm.InvalidRelayer
                      | _ => Evm.OwnableUnauthorizedAccount (Evm.msg_sender e)
                      end)) as Hexec.
  { destruct c; try discriminate Hc; cbn [BridgeValidator.exec];
      unfold BridgeValidator.registerRoot, BridgeValidator.batchRegisterRoots,
        BridgeValidator.updateRelayer, BridgeValidator.pause, BridgeValidator.unpause,
        BridgeValidator.invalidateRoot, BridgeValidator.transferOwnership,
        BridgeValidator.renounceOwnership, BridgeValidator.onlyRelayer,
        BridgeValidator.onlyOwner, Evm.require;
      rewrite ?Ho', ?Hr'; reflexivity. }
  split; [exact Hexec|]. exact (Hstep _ Hexec).
Qed.

Lemma X8_outsiders_are_rejected_witness :
  BridgeValidator.exec (Scenario.at_ Scenario.stranger 70) BridgeValidator.Pause
    ScenarioRuns.registered =
    Evm.Revert (Evm.OwnableUnauthorizedAccount
                  (Evm.msg_sender (Scenario.at_ Scenario.stranger 70))) /\
  BridgeValidator.step ScenarioRuns.registered
    (Scenario.at_ Scenario.stranger 70, BridgeValidator.Pause) = ScenarioRuns.registered.
Proof.
  apply (X8_outsiders_are_rejected ScenarioRuns.registered
           (Scenario.at_ Scenario.stranger 70) BridgeValidator.Pause);
    [vm_compute; discriminate|vm_compute; discriminate|reflexivity].
Defined.

(** X9. The view [verifyProof] predicts [validateTransaction]: on an unpaused
    validator, for a nonce not yet consumed and a counter that cannot
    overflow, [validateTransaction] succeeds exactly when [verifyProof]
    accepts the leaf that [generateLeafHash] computes from the arguments, and
    then it returns true and consumes the nonce. *)
Theorem X9_view_predicts_validation
    (s : BridgeValidator.state) (e : Evm.env)
    (sender recipient amount n src dst ts : Z) (proof : list Z) (root : Z) :
  BridgeValidator.paused s = false ->
  BridgeValidator.isNonceUsed n s = false ->
  (BridgeValidator.validatedTransactions s < Evm.MAX_UINT256)%Z ->
  let leaf := ValidatorViews.generateLeafHash sender recipient amount n src dst ts in
  let outcome := BridgeValidator.validateTransaction e sender recipient amount n
                   src dst ts proof root s in
  Evm.reverted outcome = negb (BridgeValidator.verifyProof leaf proof root s) /\
  (BridgeValidator.verifyProof leaf proof root s = true ->
   exists s', outcome = Evm.Ok (true, s') /\ BridgeValidator.isNonceUsed n s' = true).
Proof.
  intros Hp Hn Hc leaf outcome. unfold outcome, BridgeValidator.validateTransaction,
    BridgeValidator.whenNotPaused, BridgeValidator.verifyProof.
  unfold BridgeValidator.isNonceUsed in Hn. rewrite Hp, Hn. cbn [negb Evm.require].
  cbn [mbind Evm.result_bind].
  fold (ValidatorViews.generateLeafHash sender recipient amount n src dst ts). fold leaf.
  destruct (Evm.flag (BridgeValidator.validRoots s) root); cbn [negb Evm.require mbind
    Evm.result_bind Evm.reverted]; [|split; [reflexivity|discriminate]].
  destruct (MerkleProof.verify proof root leaf); cbn [negb Evm.require mbind
    Evm.result_bind Evm.reverted]; [|split; [reflexivity|discriminate]].
  unfold Evm.add. cbn [BridgeValidator.validatedTransactions BridgeValidator.set_usedNonces].
  destruct (Z.leb_spec (BridgeValidator.validatedTransactions s + 1) Evm.MAX_UINT256);
    [|lia].
  cbn [mbind Evm.result_bind Evm.reverted]. split; [reflexivity|].
  intros _. eexists. split; [reflexivity|].
  unfold BridgeValidator.isNonceUsed, Evm.flag. cbn. rewrite lookup_insert_eq. reflexivity.
Qed.

Lemma X9_view_predicts_validation_witness :
  let leaf := ValidatorViews.generateLeafHash Scenario.sender Scenario.recipient
                Scenario.amount 1 Scenario.sepolia Scenario.amoy Scenario.lockTime in
  let outcome := BridgeValidator.validateTransaction (Scenario.at_ Scenario.stranger 61)
                   Scenario.sender Scenario.recipient Scenario.amount 1
                   Scenario.sepolia Scenario.amoy Scenario.lockTime [] Scenario.leaf
                   ScenarioRuns.registered in
  Evm.reverted outcome
    = negb (BridgeValidator.verifyProof leaf [] Scenario.leaf ScenarioRuns.registered) /\
  (BridgeValidator.verifyProof leaf [] Scenario.leaf ScenarioRuns.registered = true ->
   exists s', outcome = Evm.Ok (true, s') /\ BridgeValidator.isNonceUsed 1 s' = true).
Proof.
  apply (X9_view_predicts_validation ScenarioRuns.registered
           (Scenario.at_ Scenario.stranger 61) Scenario.sender Scenario.recipient
           Scenario.amount 1 Scenario.sepolia Scenario.amoy Scenario.lockTime []
           Scenario.leaf); vm_compute; reflexivity.
Defined.

(* ===================================================================== *)
(** ** BridgeVault and BridgeToken: books, funds, replays *)
(* ===================================================================== *)

Section BooksFacts.
Import Evm.
Local Open Scope Z_scope.

Lemma seqZ_snoc (m n : Z) : 0 <= n -> seqZ m (n + 1) = seqZ m n ++ [m + n].
Proof.
  intros Hn. rewrite seqZ_app by lia. reflexivity.
Qed.

Lemma sumZ_snoc (xs : list Z) (a : Z) : sumZ (xs ++ [a]) = sumZ xs + a.
Proof.
  unfold sumZ. induction xs as [|x xs IH]; cbn; [lia|]. rewrite IH. lia.
Qed.

(** What a successful [lock] does. *)
Lemma lock_Ok (self : Z) (e : env) (recipient : Z) (eth eth' : gmap Z Z)
    (t t' : BridgeVault.state) :
  BridgeVault.lock self e recipient eth t = Ok (eth', t') ->
  BridgeVault.paused t = false /\ recipient <> 0 /\
  BridgeVault.MIN_BRIDGE_AMOUNT <= msg_value e <= BridgeVault.maxBridgeAmount t /\
  msg_value e <= amountOf eth (msg_sender e) /\
  eth' = BridgeVault.pay (msg_sender e) self (msg_value e) eth /\
  BridgeVault.currentNonce t' = BridgeVault.currentNonce t + 1 /\
  BridgeVault.totalLocked t' = BridgeVault.totalLocked t + msg_value e /\
  BridgeVault.totalUnlocked t' = BridgeVault.totalUnlocked t /\
  BridgeVault.totalBridgeTransactions t' = BridgeVault.totalBridgeTransactions t + 1 /\
  BridgeVault.sourceChainId t' = BridgeVault.sourceChainId t /\
  BridgeVault.destinationChainId t' = BridgeVault.destinationChainId t /\
  BridgeVault.events t' =
    BridgeVault.events t ++
    [BridgeVault.BridgingInitiated (msg_sender e) recipient (msg_value e)
       (BridgeVault.currentNonce t) (block_timestamp e)
       (MessageLib.generateLeafHash (msg_sender e) recipient (msg_value e)
          (BridgeVault.currentNonce t) (BridgeVault.sourceChainId t)
          (BridgeVault.destinationChainId t) (block_timestamp e))].
Proof.
  unfold BridgeVault.lock, BridgeVault.whenNotPaused, require, add. intros H.
  destruct (Z.leb_spec (msg_value e) (amountOf eth (msg_sender e))) as [Hf|];
    cbn [mbind result_bind negb] in H; [|discriminate].
  destruct (BridgeVault.paused t) eqn:Hp; cbn [mbind result_bind negb] in H; [discriminate|].
  destruct (Z.eqb_spec recipient 0) as [|Hr]; cbn [mbind result_bind negb] in H;
    [discriminate|].
  destruct (Z.ltb_spec (msg_value e) BridgeVault.MIN_BRIDGE_AMOUNT) as [|Hmin];
    cbn [mbind result_bind negb] in H; [discriminate|].
  destruct (Z.ltb_spec (BridgeVault.maxBridgeAmount t) (msg_value e)) as [|Hmax];
    cbn [mbind result_bind negb] in H; [discriminate|].
  destruct (BridgeVault.currentNonce t + 1 <=? MAX_UINT256);
    cbn [mbind result_bind negb] in H; [|discriminate].
  destruct (BridgeVault.totalLocked t + msg_value e <=? MAX_UINT256);
    cbn [mbind result_bind negb] in H; [|discriminate].
  destruct (BridgeVault.totalBridgeTransactions t + 1 <=? MAX_UINT256);
    cbn [mbind result_bind negb] in H; [|discriminate].
  injection H as <- <-. cbn. repeat split; try assumption; try reflexivity.
Qed.

End BooksFacts.

Section VaultBooksFacts.
Import Evm VaultLedger.
Local Open Scope Z_scope.

Lemma pay_amount (from to v : Z) (funds : gmap Z Z) (k : Z) :
  amountOf (BridgeVault.pay from to v funds) k =
    amountOf funds k - (if bool_decide (k = from) then v else 0)
                     + (if bool_decide (k = to) then v else 0).
Proof.
  unfold BridgeVault.pay, amountOf.
  destruct (decide (k = to)) as [Hto|Hto], (decide (k = from)) as [Hfrom|Hfrom].
  - subst. rewrite !lookup_insert_eq. cbn.
    rewrite !bool_decide_eq_true_2 by reflexivity. lia.
  - subst. rewrite lookup_insert_eq, lookup_insert_ne by congruence. cbn.
    rewrite bool_decide_eq_false_2, bool_decide_eq_true_2 by congruence. lia.
  - subst. rewrite lookup_insert_ne, lookup_insert_eq by congruence. cbn.
    rewrite bool_decide_eq_true_2, bool_decide_eq_false_2 by congruence. lia.
  - rewrite !lookup_insert_ne by congruence.
    rewrite !bool_decide_eq_false_2 by congruence. lia.
Qed.

(** What a successful [unlock] does to the vault. *)
Lemma unlock_fields (self : Z) (e : env) (a b c n ts : Z) (prf : list Z) (root : Z)
    (accepts : bool) (v v' : BridgeValidator.state) (funds funds' : gmap Z Z)
    (t t' : BridgeVault.state) :
  BridgeVault.unlock self e a b c n ts prf root accepts v funds t = Ok (v', funds', t') ->
  BridgeVault.currentNonce t' = BridgeVault.currentNonce t /\
  BridgeVault.totalLocked t' = BridgeVault.totalLocked t /\
  BridgeVault.totalBridgeTransactions t' = BridgeVault.totalBridgeTransactions t /\
  BridgeVault.totalUnlocked t' = BridgeVault.totalUnlocked t + c /\
  BridgeVault.events t' =
    BridgeVault.events t ++ [BridgeVault.BridgingCompleted b c n (block_timestamp e)] /\
  funds' = BridgeVault.pay self b c funds /\
  c <= amountOf funds self.
Proof.
  intros H. unfold BridgeVault.unlock, BridgeVault.whenNotPaused in H.
  destruct (BridgeVault.paused t); cbn in H; [discriminate|].
  unfold require at 1 2 3 in H.
  destruct (negb (b =? 0)); cbn in H; [|discriminate].
  destruct (negb (c =? 0)); cbn in H; [|discriminate].
  destruct (negb (flag (BridgeVault.processedTransactions t) _)); cbn in H; [|discriminate].
  destruct (BridgeValidator.validateTransaction _ _ _ _ _ _ _ _ _ _ _)
    as [[isValid v1]|] eqn:Hv; cbn in H; [|discriminate].
  guards H.
  injection H as <- <- <-. cbn. repeat split.
  match goal with
  | Hs : (_ <=? amountOf funds self) && accepts = true |- _ =>
      apply andb_prop in Hs as [Hs _]; apply Z.leb_le in Hs; exact Hs
  end.
Qed.

(** The calls that are neither [lock] nor [unlock] leave the books alone and
    add no lock or unlock event. *)
Lemma vault_admin_fields (e : env) (c : call) (w w' : world) :
  match c with
  | Lock _ | Unlock _ _ _ _ _ _ _ _ => False
  | _ => exec e c w = Ok w'
  end ->
  vaultAddress w' = vaultAddress w /\
  BridgeVault.currentNonce (vault w') = BridgeVault.currentNonce (vault w) /\
  BridgeVault.totalLocked (vault w') = BridgeVault.totalLocked (vault w) /\
  BridgeVault.totalUnlocked (vault w') = BridgeVault.totalUnlocked (vault w) /\
  BridgeVault.totalBridgeTransactions (vault w')
    = BridgeVault.totalBridgeTransactions (vault w) /\
  exists evs,
    BridgeVault.events (vault w') = BridgeVault.events (vault w) ++ evs /\
    lockNonces evs = [] /\ lockedAmounts evs = [] /\ unlockedAmounts evs = [] /\
    match c with
    | EmergencyWithdraw recipient amount _ =>
        withdrawnAmounts evs = [amount] /\
        eth w' = BridgeVault.pay (vaultAddress w) recipient amount (eth w)
    | Receive =>
        withdrawnAmounts evs = [] /\
        eth w' = BridgeVault.pay (msg_sender e) (vaultAddress w) (msg_value e) (eth w)
    | _ => withdrawnAmounts evs = [] /\ eth w' = eth w
    end.
Proof.
  destruct c; intros H; try contradiction; cbn in H.
  - destruct (BridgeVault.updateMaxBridgeAmount _ _ _) as [t'|] eqn:Hl;
      cbn in H; [|discriminate].
    injection H as <-. cbn.
    unfold BridgeVault.updateMaxBridgeAmount, BridgeVault.onlyOwner in Hl. guards Hl.
    injection Hl as <-. cbn. repeat split. eexists. repeat split.
  - destruct (BridgeVault.pause _ _) as [t'|] eqn:Hl; cbn in H; [|discriminate].
    injection H as <-. cbn.
    unfold BridgeVault.pause, BridgeVault.onlyOwner, BridgeVault.whenNotPaused in Hl.
    guards Hl. injection Hl as <-. cbn. repeat split. eexists. repeat split.
  - destruct (BridgeVault.unpause _ _) as [t'|] eqn:Hl; cbn in H; [|discriminate].
    injection H as <-. cbn.
    unfold BridgeVault.unpause, BridgeVault.onlyOwner, BridgeVault.whenPaused in Hl.
    guards Hl. injection Hl as <-. cbn. repeat split. eexists. repeat split.
  - destruct (BridgeVault.emergencyWithdraw _ _ _ _ _ _ _) as [[f t']|] eqn:Hl;
      cbn in H; [|discriminate].
    injection H as <-. cbn.
    unfold BridgeVault.emergencyWithdraw, BridgeVault.onlyOwner, BridgeVault.whenPaused in Hl.
    guards Hl. injection Hl as <- <-. cbn. repeat split. eexists. repeat split.
  - destruct (BridgeVault.receive _ _ _ _) as [[f t']|] eqn:Hl; cbn in H; [|discriminate].
    injection H as <-. cbn.
    unfold BridgeVault.receive in Hl. guards Hl.
    injection Hl as <- <-. repeat split. exists []. rewrite app_nil_r. repeat split.
  - destruct (BridgeValidator.exec e c (validator w)) as [v|]; cbn in H; [|discriminate].
    injection H as <-. cbn. repeat split. exists []. rewrite app_nil_r. repeat split.
Qed.

Lemma vault_exec_books (e : env) (c : call) (w w' : world) :
  exec e c w = Ok w' -> vaultBooks (vault w) -> vaultBooks (vault w').
Proof.
  intros H (B0 & B1 & B2 & B3 & B4).
  destruct c;
    try (match type of H with
         | exec _ ?c _ = _ =>
             destruct (vault_admin_fields e c w w' H)
               as (_ & Hn & HL & HU & HT & evs & He & E1 & E2 & E3 & _)
         end;
         unfold vaultBooks; rewrite Hn, HL, HU, HT, He;
         unfold lockNonces, lockedAmounts, unlockedAmounts in *;
         rewrite !omap_app, E1, E2, E3, !app_nil_r; repeat split; assumption).
  - cbn in H.
    destruct (BridgeVault.lock _ _ _ _ _) as [[f t']|] eqn:Hl; cbn in H; [|discriminate].
    injection H as <-. cbn [vault with_funds snd].
    destruct (lock_Ok _ _ _ _ _ _ _ Hl)
      as (_ & _ & _ & _ & _ & Hn & HL & HU & HT & _ & _ & He).
    unfold vaultBooks. rewrite Hn, HL, HU, HT, He.
    unfold lockNonces, lockedAmounts, unlockedAmounts in *. rewrite !omap_app. cbn [omap list_omap].
    rewrite !app_nil_r.
    replace (BridgeVault.currentNonce (vault w) + 1 - 1)
      with (BridgeVault.currentNonce (vault w) - 1 + 1) by lia.
    rewrite seqZ_snoc by lia. rewrite <- B1, sumZ_snoc, <- B3.
    repeat split; first [lia | exact B4 | f_equal; f_equal; lia].
  - cbn in H.
    destruct (BridgeVault.unlock _ _ _ _ _ _ _ _ _ _ _ _ _) as [[[v f] t']|] eqn:Hl;
      cbn in H; [|discriminate].
    injection H as <-. cbn [vault].
    destruct (unlock_fields _ _ _ _ _ _ _ _ _ _ _ _ _ _ _ _ Hl)
      as (Hn & HL & HT & HU & He & _).
    unfold vaultBooks. rewrite Hn, HL, HU, HT, He.
    unfold lockNonces, lockedAmounts, unlockedAmounts in *. rewrite !omap_app. cbn [omap list_omap].
    rewrite !app_nil_r, sumZ_snoc, <- B4. repeat split; assumption.
Qed.

Lemma vault_run_books (txs : list (env * call)) :
  forall w, vaultBooks (vault w) -> vaultBooks (vault (run w txs)).
Proof.
  unfold run. induction txs as [|tx txs IH]; intros w Hb; [exact Hb|].
  cbn [foldl]. apply IH. unfold step, commit.
  destruct (exec (fst tx) (snd tx) w) as [w'|] eqn:Hexec; [|exact Hb].
  exact (vault_exec_books _ _ _ _ Hexec Hb).
Qed.

End VaultBooksFacts.

Section VaultFundsFacts.
Import Evm VaultLedger.
Local Open Scope Z_scope.

Lemma exec_vaultAddress (e : env) (c : call) (w w' : world) :
  exec e c w = Ok w' -> vaultAddress w' = vaultAddress w.
Proof.
  intros H. destruct c; cbn in H.
  - destruct (BridgeVault.lock _ _ _ _ _) as [[f t']|]; cbn in H; [|discriminate].
    injection H as <-. reflexivity.
  - destruct (BridgeVault.unlock _ _ _ _ _ _ _ _ _ _ _ _ _) as [[[v f] t']|];
      cbn in H; [|discriminate].
    injection H as <-. reflexivity.
  - destruct (BridgeVault.updateMaxBridgeAmount _ _ _); cbn in H; [|discriminate].
    injection H as <-. reflexivity.
  - destruct (BridgeVault.pause _ _); cbn in H; [|discriminate].
    injection H as <-. reflexivity.
  - destruct (BridgeVault.unpause _ _); cbn in H; [|discriminate].
    injection H as <-. reflexivity.
  - destruct (BridgeVault.emergencyWithdraw _ _ _ _ _ _ _) as [[f t']|];
      cbn in H; [|discriminate].
    injection H as <-. reflexivity.
  - destruct (BridgeVault.receive _ _ _ _) as [[f t']|]; cbn in H; [|discriminate].
    injection H as <-. reflexivity.
  - destruct (BridgeValidator.exec e c (validator w)); cbn in H; [|discriminate].
    injection H as <-. reflexivity.
Qed.

Lemma exec_solvent (e : env) (c : call) (w w' : world) :
  exec e c w = Ok w' -> admitted (vaultAddress w) (e, c) -> solvent w -> solvent w'.
Proof.
  intros H (Hs & Hv & Hc) Hsol. cbn [fst snd] in Hs, Hv, Hc.
  unfold solvent in *. rewrite (exec_vaultAddress _ _ _ _ H).
  destruct c.
  - cbn in H.
    destruct (BridgeVault.lock _ _ _ _ _) as [[f t']|] eqn:Hl; cbn in H; [|discriminate].
    injection H as <-. cbn [vault eth with_funds fst snd].
    destruct (lock_Ok _ _ _ _ _ _ _ Hl)
      as (_ & _ & _ & _ & -> & _ & HL & HU & _ & _ & _ & He).
    rewrite HL, HU, He. unfold withdrawnAmounts in *. rewrite omap_app. cbn [omap list_omap].
    rewrite app_nil_r, pay_amount.
    rewrite bool_decide_eq_false_2 by congruence.
    rewrite bool_decide_eq_true_2 by reflexivity. lia.
  - cbn in H.
    destruct (BridgeVault.unlock _ _ _ _ _ _ _ _ _ _ _ _ _) as [[[v f] t']|] eqn:Hl;
      cbn in H; [|discriminate].
    injection H as <-. cbn [vault eth].
    destruct (unlock_fields _ _ _ _ _ _ _ _ _ _ _ _ _ _ _ _ Hl)
      as (_ & HL & _ & HU & He & -> & _).
    rewrite HL, HU, He. unfold withdrawnAmounts in *. rewrite omap_app. cbn [omap list_omap].
    rewrite app_nil_r, pay_amount.
    rewrite bool_decide_eq_true_2 by reflexivity.
    destruct (bool_decide (vaultAddress w = recipient)); lia.
  - match type of H with
    | exec _ ?c _ = _ => destruct (vault_admin_fields e c w w' H)
        as (_ & _ & HL & HU & _ & evs & He & _ & _ & _ & Hw & Heth)
    end.
    rewrite HL, HU, He, Heth. unfold withdrawnAmounts in *. rewrite omap_app, Hw, app_nil_r.
    exact Hsol.
  - match type of H with
    | exec _ ?c _ = _ => destruct (vault_admin_fields e c w w' H)
        as (_ & _ & HL & HU & _ & evs & He & _ & _ & _ & Hw & Heth)
    end.
    rewrite HL, HU, He, Heth. unfold withdrawnAmounts in *. rewrite omap_app, Hw, app_nil_r.
    exact Hsol.
  - match type of H with
    | exec _ ?c _ = _ => destruct (vault_admin_fields e c w w' H)
        as (_ & _ & HL & HU & _ & evs & He & _ & _ & _ & Hw & Heth)
    end.
    rewrite HL, HU, He, Heth. unfold withdrawnAmounts in *. rewrite omap_app, Hw, app_nil_r.
    exact Hsol.
  - match type of H with
    | exec _ ?c _ = _ => destruct (vault_admin_fields e c w w' H)
        as (_ & _ & HL & HU & _ & evs & He & _ & _ & _ & Hw & Heth)
    end.
    rewrite HL, HU, He, Heth. unfold withdrawnAmounts in *. rewrite omap_app, Hw.
    rewrite sumZ_snoc, pay_amount.
    rewrite bool_decide_eq_true_2 by reflexivity.
    destruct (bool_decide (vaultAddress w = recipient)); lia.
  - match type of H with
    | exec _ ?c _ = _ => destruct (vault_admin_fields e c w w' H)
        as (_ & _ & HL & HU & _ & evs & He & _ & _ & _ & Hw & Heth)
    end.
    rewrite HL, HU, He, Heth. unfold withdrawnAmounts in *. rewrite omap_app, Hw, app_nil_r.
    rewrite pay_amount.
    rewrite bool_decide_eq_false_2 by congruence.
    rewrite bool_decide_eq_true_2 by reflexivity. lia.
  - match type of H with
    | exec _ ?c _ = _ => destruct (vault_admin_fields e c w w' H)
        as (_ & _ & HL & HU & _ & evs & He & _ & _ & _ & Hw & Heth)
    end.
    rewrite HL, HU, He, Heth. unfold withdrawnAmounts in *. rewrite omap_app, Hw, app_nil_r.
    exact Hsol.
Qed.

Lemma run_solvent (txs : list (env * call)) :
  forall w, Forall (admitted (vaultAddress w)) txs -> solvent w ->
            solvent (run w txs) /\ vaultAddress (run w txs) = vaultAddress w.
Proof.
  unfold run. induction txs as [|[e c] txs IH]; intros w Hadm Hsol; [split; auto|].
  apply Forall_cons in Hadm as [Ha Hadm]. cbn [foldl].
  unfold step at 2 4, commit. cbn [fst snd].
  destruct (exec e c w) as [w'|] eqn:Hexec.
  - pose proof (exec_vaultAddress _ _ _ _ Hexec) as Hv.
    rewrite <- Hv in Hadm. destruct (IH w' Hadm (exec_solvent _ _ _ _ Hexec Ha Hsol)) as [H1 H2].
    split; [exact H1|]. rewrite H2. exact Hv.
  - apply IH; assumption.
Qed.

Lemma deploy_fields (d r va self dst chain now : Z) (funds : gmap Z Z) (w : world) :
  deploy d r va self dst chain now funds = Ok w ->
  vaultAddress w = self /\ eth w = funds /\
  BridgeVault.currentNonce (vault w) = 1 /\
  BridgeVault.totalLocked (vault w) = 0 /\ BridgeVault.totalUnlocked (vault w) = 0 /\
  BridgeVault.totalBridgeTransactions (vault w) = 0 /\
  BridgeVault.sourceChainId (vault w) = chain /\
  BridgeVault.destinationChainId (vault w) = dst /\
  BridgeVault.events (vault w) = [BridgeVault.OwnershipTransferred 0 d].
Proof.
  unfold deploy, BridgeValidator.constructor, BridgeVault.constructor. intros H.
  guards H. injection H as <-. cbn. repeat split.
Qed.

End VaultFundsFacts.

(** X10. The books of the vault agree with its log in every state it reaches
    from deployment: the [BridgingInitiated] events carry the nonces 1, 2, ...
    in order, without gap or repetition, up to [currentNonce - 1]; and in what
    [getStats] reports, [transactions] is [nonce - 1], [locked] is the sum of
    the locked amounts and [unlocked] the sum of the unlocked ones. *)
Theorem X10_vault_books
    (d r va self dst chain now : Z) (funds : gmap Z Z) (w0 : VaultLedger.world)
    (txs : list (Evm.env * VaultLedger.call)) :
  VaultLedger.deploy d r va self dst chain now funds = Evm.Ok w0 ->
  let w := VaultLedger.run w0 txs in
  let stats := VaultViews.getStats (VaultLedger.vaultAddress w) (VaultLedger.eth w)
                 (VaultLedger.vault w) in
  let log := BridgeVault.events (VaultLedger.vault w) in
  lockNonces log = seqZ 1 (VaultViews.nonce stats - 1) /\
  NoDup (lockNonces log) /\
  VaultViews.transactions stats = (VaultViews.nonce stats - 1)%Z /\
  VaultViews.locked stats = sumZ (lockedAmounts log) /\
  VaultViews.unlocked stats = sumZ (unlockedAmounts log).
Proof.
  intros Hd w stats log.
  destruct (deploy_fields _ _ _ _ _ _ _ _ _ Hd)
    as (_ & _ & Hn & HL & HU & HT & _ & _ & He).
  assert (vaultBooks (VaultLedger.vault w0)) as H0.
  { unfold vaultBooks. rewrite Hn, HL, HU, HT, He. repeat split. lia. }
  destruct (vault_run_books txs w0 H0) as (_ & B1 & B2 & B3 & B4).
  fold w in B1, B2, B3, B4. fold log in B1, B3, B4.
  split; [exact B1|]. split; [rewrite B1; apply NoDup_seqZ|].
  split; [exact B2|]. split; [exact B3|exact B4].
Qed.

Lemma X10_vault_books_witness :
  let w := VaultLedger.run VaultRuns.fresh [VaultRuns.lockOne; VaultRuns.lockTwo] in
  let stats := VaultViews.getStats (VaultLedger.vaultAddress w) (VaultLedger.eth w)
                 (VaultLedger.vault w) in
  let log := BridgeVault.events (VaultLedger.vault w) in
  lockNonces log = seqZ 1 (VaultViews.nonce stats - 1) /\
  NoDup (lockNonces log) /\
  VaultViews.transactions stats = (VaultViews.nonce stats - 1)%Z /\
  VaultViews.locked stats = sumZ (lockedAmounts log) /\
  VaultViews.unlocked stats = sumZ (unlockedAmounts log).
Proof.
  apply (X10_vault_books Scenario.deployer Scenario.operator Scenario.validatorAddr
           Scenario.vaultAddr Scenario.amoy Scenario.sepolia 0 VaultRuns.funds
           VaultRuns.fresh).
  vm_compute. reflexivity.
Defined.

(** X11. The vault stays solvent: in every state reached from a deployment
    by transactions the chain admits (none sent by the vault itself, values
    and amounts non-negative), the vault's balance is at least what was
    locked minus what was unlocked, short only of the amounts taken out by
    [emergencyWithdraw]; without emergency withdrawals every locked and not
    yet unlocked wei is still in the vault. *)
Theorem X11_vault_solvency
    (d r va self dst chain now : Z) (funds : gmap Z Z) (w0 : VaultLedger.world)
    (txs : list (Evm.env * VaultLedger.call)) :
  VaultLedger.deploy d r va self dst chain now funds = Evm.Ok w0 ->
  (0 <= Evm.amountOf funds self)%Z ->
  Forall (admitted self) txs ->
  let w := VaultLedger.run w0 txs in
  let stats := VaultViews.getStats (VaultLedger.vaultAddress w) (VaultLedger.eth w)
                 (VaultLedger.vault w) in
  let withdrawn := sumZ (withdrawnAmounts (BridgeVault.events (VaultLedger.vault w))) in
  (VaultViews.locked stats - VaultViews.unlocked stats
     <= VaultViews.balance stats + withdrawn)%Z /\
  (withdrawnAmounts (BridgeVault.events (VaultLedger.vault w)) = [] ->
   (VaultViews.locked stats - VaultViews.unlocked stats <= VaultViews.balance stats)%Z).
Proof.
  intros Hd Hf Hadm w stats withdrawn.
  destruct (deploy_fields _ _ _ _ _ _ _ _ _ Hd)
    as (Hself & Heth & _ & HL & HU & _ & _ & _ & He).
  assert (solvent w0) as H0.
  { unfold solvent. rewrite HL, HU, He, Heth, Hself. cbn. lia. }
  rewrite <- Hself in Hadm.
  destruct (run_solvent txs w0 Hadm H0) as [Hsol _]. fold w in Hsol.
  unfold solvent in Hsol. split; [exact Hsol|].
  intros Hnone. unfold withdrawn in Hsol. rewrite Hnone in Hsol. cbn in Hsol.
  cbn. lia.
Qed.

Lemma X11_vault_solvency_witness :
  let w := VaultLedger.run VaultRuns.fresh
             [ VaultRuns.lockOne; LedgerRuns.registrationBack;
               (Scenario.at_ Scenario.operator 161, LedgerRuns.unlockCall) ] in
  let stats := VaultViews.getStats (VaultLedger.vaultAddress w) (VaultLedger.eth w)
                 (VaultLedger.vault w) in
  let withdrawn := sumZ (withdrawnAmounts (BridgeVault.events (VaultLedger.vault w))) in
  (VaultViews.locked stats - VaultViews.unlocked stats
     <= VaultViews.balance stats + withdrawn)%Z /\
  (withdrawnAmounts (BridgeVault.events (VaultLedger.vault w)) = [] ->
   (VaultViews.locked stats - VaultViews.unlocked stats <= VaultViews.balance stats)%Z).
Proof.
  apply (X11_vault_solvency Scenario.deployer Scenario.operator Scenario.validatorAddr
           Scenario.vaultAddr Scenario.amoy Scenario.sepolia 0 VaultRuns.funds
           VaultRuns.fresh).
  - vm_compute. reflexivity.
  - vm_compute. discriminate.
  - repeat constructor; vm_compute; congruence.
Defined.

Section TokenBooksFacts.
Import Evm TokenLedger.
Local Open Scope Z_scope.

(** What a successful [burnForBridge] does. *)
Lemma burnForBridge_Ok (e : env) (amount recipient : Z) (t t' : BridgeToken.state) :
  BridgeToken.burnForBridge e amount recipient t = Ok t' ->
  BridgeToken.paused t = false /\ recipient <> 0 /\
  BridgeToken.MIN_AMOUNT <= amount <= amountOf (BridgeToken.balances t) (msg_sender e) /\
  BridgeToken.currentNonce t' = BridgeToken.currentNonce t + 1 /\
  BridgeToken.totalBurned t' = BridgeToken.totalBurned t + amount /\
  BridgeToken.totalBurnTransactions t' = BridgeToken.totalBurnTransactions t + 1 /\
  BridgeToken.totalMinted t' = BridgeToken.totalMinted t /\
  BridgeToken.totalMintTransactions t' = BridgeToken.totalMintTransactions t /\
  BridgeToken.sourceChainId t' = BridgeToken.sourceChainId t /\
  BridgeToken.destinationChainId t' = BridgeToken.destinationChainId t /\
  amountOf (BridgeToken.balances t') (msg_sender e)
    = amountOf (BridgeToken.balances t) (msg_sender e) - amount /\
  BridgeToken.events t' =
    BridgeToken.events t ++
    [BridgeToken.Transfer (msg_sender e) 0 amount;
     BridgeToken.TokensBurned (msg_sender e) recipient amount
       (BridgeToken.currentNonce t) (block_timestamp e)
       (MessageLib.generateLeafHash (msg_sender e) recipient amount
          (BridgeToken.currentNonce t) (BridgeToken.destinationChainId t)
          (BridgeToken.sourceChainId t) (block_timestamp e))].
Proof.
  unfold BridgeToken.burnForBridge, BridgeToken.whenNotPaused, require, add. intros H.
  destruct (BridgeToken.paused t) eqn:Hp; cbn [mbind result_bind negb] in H; [discriminate|].
  destruct (Z.eqb_spec recipient 0) as [|Hr]; cbn [mbind result_bind negb] in H;
    [discriminate|].
  destruct (Z.ltb_spec amount BridgeToken.MIN_AMOUNT) as [|Hmin];
    cbn [mbind result_bind negb] in H; [discriminate|].
  destruct (Z.leb_spec amount (amountOf (BridgeToken.balances t) (msg_sender e)))
    as [Hbal|]; cbn [mbind result_bind negb] in H; [|discriminate].
  destruct (BridgeToken.currentNonce t + 1 <=? MAX_UINT256);
    cbn [mbind result_bind negb] in H; [|discriminate].
  destruct (BridgeToken.totalBurned t + amount <=? MAX_UINT256);
    cbn [mbind result_bind negb] in H; [|discriminate].
  destruct (BridgeToken.totalBurnTransactions t + 1 <=? MAX_UINT256);
    cbn [mbind result_bind negb] in H; [|discriminate].
  destruct (msg_sender e =? 0); cbn [mbind result_bind negb] in H; [discriminate|].
  injection H as <-. cbn. repeat split; try assumption; try reflexivity.
  unfold amountOf at 1. rewrite lookup_insert_eq. reflexivity.
Qed.

(** What a successful [mint] does to the token's books. *)
Lemma mint_fields (self : Z) (e : env) (a b c n ts h : Z) (prf : list Z) (root : Z)
    (v v' : BridgeValidator.state) (t t' : BridgeToken.state) :
  BridgeToken.mint self e a b c n ts h prf root v t = Ok (v', t') ->
  BridgeToken.currentNonce t' = BridgeToken.currentNonce t /\
  BridgeToken.totalBurned t' = BridgeToken.totalBurned t /\
  BridgeToken.totalBurnTransactions t' = BridgeToken.totalBurnTransactions t /\
  BridgeToken.totalMinted t' = BridgeToken.totalMinted t + c /\
  BridgeToken.totalMintTransactions t' = BridgeToken.totalMintTransactions t + 1 /\
  BridgeToken.events t' =
    BridgeToken.events t ++
    [BridgeToken.Transfer 0 b c; BridgeToken.TokensMinted b c n h (block_timestamp e)].
Proof.
  intros H. unfold BridgeToken.mint, BridgeToken.whenNotPaused in H.
  destruct (BridgeToken.paused t); cbn in H; [discriminate|].
  unfold require at 1 2 3 4 in H.
  destruct (negb (b =? 0)); cbn in H; [|discriminate].
  destruct (negb (c <? BridgeToken.MIN_AMOUNT)); cbn in H; [|discriminate].
  destruct (negb (BridgeToken.maxMintAmount t <? c)); cbn in H; [|discriminate].
  destruct (negb (flag (BridgeToken.processedTransactions t) _)); cbn in H; [|discriminate].
  destruct (BridgeValidator.validateTransaction _ _ _ _ _ _ _ _ _ _ _)
    as [[isValid v1]|] eqn:Hv; cbn in H; [|discriminate].
  guards H.
  injection H as <- <-. cbn. repeat split.
Qed.

Lemma token_exec_books (e : env) (c : call) (w w' : world) :
  exec e c w = Ok w' -> tokenBooks (token w) -> tokenBooks (token w').
Proof.
  intros H (B0 & B1 & B2 & B3 & B4 & B5). destruct c; cbn in H.
  - destruct (BridgeToken.mint _ _ _ _ _ _ _ _ _ _ _ _) as [[v t']|] eqn:Hm;
      cbn in H; [|discriminate].
    injection H as <-. cbn [token].
    destruct (mint_fields _ _ _ _ _ _ _ _ _ _ _ _ _ _ Hm) as (Hn & HB & HT & HM & HC & He).
    unfold tokenBooks. rewrite Hn, HB, HT, HM, HC, He.
    unfold burnNonces, burnedAmounts, mintedAmounts in *.
    rewrite !omap_app. cbn [omap list_omap]. rewrite !app_nil_r, sumZ_snoc, <- B4.
    rewrite length_app, B5. cbn [length]. repeat split; try assumption; lia.
  - destruct (BridgeToken.burnForBridge _ _ _ _) as [t'|] eqn:Hb; cbn in H; [|discriminate].
    injection H as <-. cbn [token with_token].
    destruct (burnForBridge_Ok _ _ _ _ _ Hb)
      as (_ & _ & _ & Hn & HB & HT & HM & HC & _ & _ & _ & He).
    unfold tokenBooks. rewrite Hn, HB, HT, HM, HC, He.
    unfold burnNonces, burnedAmounts, mintedAmounts in *.
    rewrite !omap_app. cbn [omap list_omap]. rewrite !app_nil_r, sumZ_snoc, <- B3.
    replace (BridgeToken.currentNonce (token w) + 1 - 1)
      with (BridgeToken.currentNonce (token w) - 1 + 1) by lia.
    rewrite seqZ_snoc by lia. rewrite <- B1.
    repeat split; first [lia | assumption | f_equal; f_equal; lia].
  - destruct (BridgeToken.updateMaxMintAmount _ _ _) as [t'|] eqn:Hb;
      cbn in H; [|discriminate].
    injection H as <-. cbn [token with_token].
    unfold BridgeToken.updateMaxMintAmount, BridgeToken.onlyOwner in Hb. guards Hb.
    injection Hb as <-. unfold tokenBooks. cbn.
    unfold burnNonces, burnedAmounts, mintedAmounts in *.
    rewrite !omap_app. cbn [omap list_omap]. rewrite !app_nil_r.
    repeat split; assumption.
  - destruct (BridgeToken.pause _ _) as [t'|] eqn:Hb; cbn in H; [|discriminate].
    injection H as <-. cbn [token with_token].
    unfold BridgeToken.pause, BridgeToken.onlyOwner, BridgeToken.whenNotPaused in Hb.
    guards Hb. injection Hb as <-. unfold tokenBooks. cbn.
    unfold burnNonces, burnedAmounts, mintedAmounts in *.
    rewrite !omap_app. cbn [omap list_omap]. rewrite !app_nil_r.
    repeat split; assumption.
  - destruct (BridgeToken.unpause _ _) as [t'|] eqn:Hb; cbn in H; [|discriminate].
    injection H as <-. cbn [token with_token].
    unfold BridgeToken.unpause, BridgeToken.onlyOwner, BridgeToken.whenPaused in Hb.
    guards Hb. injection Hb as <-. unfold tokenBooks. cbn.
    unfold burnNonces, burnedAmounts, mintedAmounts in *.
    rewrite !omap_app. cbn [omap list_omap]. rewrite !app_nil_r.
    repeat split; assumption.
  - destruct (BridgeValidator.exec e c (validator w)) as [v|]; cbn in H; [|discriminate].
    injection H as <-. cbn [token]. repeat split; assumption.
Qed.

Lemma token_run_books (txs : list (env * call)) :
  forall w, tokenBooks (token w) -> tokenBooks (token (run w txs)).
Proof.
  unfold run. induction txs as [|tx txs IH]; intros w Hb; [exact Hb|].
  cbn [foldl]. apply IH. unfold step, commit.
  destruct (exec (fst tx) (snd tx) w) as [w'|] eqn:Hexec; [|exact Hb].
  exact (token_exec_books _ _ _ _ Hexec Hb).
Qed.

End TokenBooksFacts.

(** X12. The books of the token agree with its log in every state it reaches
    from deployment through the bridge's entry points: the [TokensBurned]
    events carry the nonces 1, 2, ... in order, without gap or repetition, up
    to [currentNonce - 1]; and in what [getStats] reports, [burnTxs] is
    [nonce - 1], [burned] and [minted] are the sums of the burned and of the
    minted amounts, and [mintTxs] is the number of [TokensMinted] events. *)
Theorem X12_token_books
    (d r va self src chain now : Z) (w0 : TokenLedger.world)
    (txs : list (Evm.env * TokenLedger.call)) :
  TokenLedger.deploy d r va self src chain now = Evm.Ok w0 ->
  let w := TokenLedger.run w0 txs in
  let stats := TokenViews.getStats (TokenLedger.token w) in
  let log := BridgeToken.events (TokenLedger.token w) in
  burnNonces log = seqZ 1 (TokenViews.nonce stats - 1) /\
  NoDup (burnNonces log) /\
  TokenViews.burnTxs stats = (TokenViews.nonce stats - 1)%Z /\
  TokenViews.burned stats = sumZ (burnedAmounts log) /\
  TokenViews.minted stats = sumZ (mintedAmounts log) /\
  TokenViews.mintTxs stats = Z.of_nat (length (mintedAmounts log)).
Proof.
  intros Hd w stats log.
  assert (tokenBooks (TokenLedger.token w0)) as H0.
  { unfold TokenLedger.deploy, BridgeValidator.constructor, BridgeToken.constructor in Hd.
    guards Hd. injection Hd as <-. unfold tokenBooks. cbn. repeat split. lia. }
  destruct (token_run_books txs w0 H0) as (_ & B1 & B2 & B3 & B4 & B5).
  fold w in B1, B2, B3, B4, B5. fold log in B1, B3, B4, B5.
  split; [exact B1|]. split; [rewrite B1; apply NoDup_seqZ|].
  split; [exact B2|]. split; [exact B3|]. split; [exact B4|exact B5].
Qed.

Lemma X12_token_books_witness :
  let w := TokenLedger.run LedgerRuns.fresh
             [ LedgerRuns.registration; (Scenario.at_ Scenario.operator 61, LedgerRuns.mintCall);
               (Scenario.at_ Scenario.recipient 90,
                TokenLedger.BurnForBridge (4 * 10 ^ 17) Scenario.sender) ] in
  let stats := TokenViews.getStats (TokenLedger.token w) in
  let log := BridgeToken.events (TokenLedger.token w) in
  burnNonces log = seqZ 1 (TokenViews.nonce stats - 1) /\
  NoDup (burnNonces log) /\
  TokenViews.burnTxs stats = (TokenViews.nonce stats - 1)%Z /\
  TokenViews.burned stats = sumZ (burnedAmounts log) /\
  TokenViews.minted stats = sumZ (mintedAmounts log) /\
  TokenViews.mintTxs stats = Z.of_nat (length (mintedAmounts log)).
Proof.
  apply (X12_token_books Scenario.deployer Scenario.operator Scenario.validatorAddr
           Scenario.tokenAddr Scenario.sepolia Scenario.amoy 0 LedgerRuns.fresh).
  vm_compute. reflexivity.
Defined.

(* ===================================================================== *)
(** ** From a lock or a burn to the relayer's proof, and to the mint *)
(* ===================================================================== *)

Section RelayedLeafFacts.
Import Enc Js Database EventListener TransactionSubmitter.
Local Open Scope Z_scope.

(** Below 2^53 the conversion to a JavaScript number is exact. *)
Lemma Number_exact (n : Z) : 0 <= n < 2 ^ 53 -> Number n = n.
Proof.
  intros Hn. unfold Number.
  assert (Z.log2 n < 53) as Hl.
  { destruct (Z.eq_dec n 0) as [->|Hne]; [cbn; lia|].
    apply Z.log2_lt_pow2; lia. }
  destruct (Z.leb_spec (Z.log2 n - 52) 0); [reflexivity|lia].
Qed.

(** The tree of one transaction: its leaf is the root and the proof is empty. *)
Lemma generateProof_single (tr : ProofGenerator.Transaction) (leaf : Z) :
  ProofGenerator.generateLeafHash tr = Some leaf ->
  ProofGenerator.generateProof [tr] tr =
    Some {| ProofGenerator.proof := []; ProofGenerator.root := Some leaf |}.
Proof.
  intros H. unfold ProofGenerator.generateProof, ProofGenerator.buildMerkleTree.
  cbn [mapM]. rewrite H. cbn -[MerkleTreeJs.getProof MerkleTreeJs.getRoot MerkleTreeJs.new].
  unfold MerkleTreeJs.getProof, MerkleTreeJs.getRoot, MerkleTreeJs.new.
  cbn [MerkleTreeJs.leaves MerkleTreeJs.layers length MerkleTreeJs.createHashes Nat.ltb
       Nat.leb MerkleTreeJs.lastIndex].
  rewrite Z.eqb_refl. reflexivity.
Qed.

Lemma submitter_proof (source : ledger) (ev : BridgeEvent) (i now s r : Z) :
  addressOf (ev_sender ev) = Some s ->
  addressOf (ev_recipient ev) = Some r ->
  0 <= ev_amount ev < 2 ^ 256 ->
  0 <= ev_nonce ev < 2 ^ 53 ->
  0 <= ev_timestamp ev < 2 ^ 53 ->
  generateProofForTransaction (with_id i (newRow source ev now)) =
    Return {| ProofGenerator.proof := [];
              ProofGenerator.root :=
                Some (MessageLib.generateLeafHash s r (ev_amount ev) (ev_nonce ev)
                        (match source with Sepolia => sepoliaChainId | Amoy => amoyChainId end)
                        (match source with Sepolia => amoyChainId | Amoy => sepoliaChainId end)
                        (ev_timestamp ev)) |}.
Proof.
  intros Hs Hr Ha Hn Ht. unfold generateProofForTransaction.
  cbn [with_id newRow Database.sender Database.recipient Database.amount Database.nonce
       Database.timestamp Database.sourceChain Database.destChain].
  rewrite (Number_exact _ Hn), (Number_exact _ Ht).
  assert (2 ^ 53 < 2 ^ 256) as Hlt by (apply Z.pow_lt_mono_r; lia).
  set (tr := {| ProofGenerator.sender := ev_sender ev |}).
  assert (ProofGenerator.generateLeafHash tr =
          Some (MessageLib.generateLeafHash s r (ev_amount ev) (ev_nonce ev)
                  (ProofGenerator.sourceChainId tr) (ProofGenerator.destinationChainId tr)
                  (ev_timestamp ev))) as Hleaf.
  { unfold ProofGenerator.generateLeafHash, MessageLib.generateLeafHash.
    rewrite (encode_is_encodePacked tr s r (ev_amount ev)); try assumption.
    - reflexivity.
    - apply BigInt_toString. lia.
    - cbn. lia.
    - unfold tr. cbn [ProofGenerator.sourceChainId].
      destruct source; vm_compute; split; congruence.
    - unfold tr. cbn [ProofGenerator.destinationChainId].
      destruct source; vm_compute; split; congruence.
    - cbn. lia. }
  rewrite (generateProof_single tr _ Hleaf).
  unfold tr.
  cbn [ProofGenerator.sourceChainId ProofGenerator.destinationChainId chainName counterpart].
  destruct source; cbn [chainName counterpart];
    rewrite ?bool_decide_eq_true_2 by reflexivity;
    rewrite ?bool_decide_eq_false_2 by discriminate; reflexivity.
Qed.

End RelayedLeafFacts.

(** X13. From a lock to the relayer's proof.  When [lock] succeeds on a vault
    configured for Sepolia and Amoy, with a nonce and a block time below
    2^53, and the listener stores the event it emitted, the proof the
    submitter generates for the stored row is the tree of that one transfer:
    the proof is empty and the root is the very [leafHash] of the vault's
    [BridgingInitiated] event, which [MerkleProof.verify] accepts. *)
Theorem X13_lock_to_relayer_root
    (self : Z) (e : Evm.env) (recipient : Z) (funds funds' : gmap Z Z)
    (t t' : BridgeVault.state) (ev : EventListener.BridgeEvent) (i now : Z) :
  BridgeVault.lock self e recipient funds t = Evm.Ok (funds', t') ->
  BridgeVault.sourceChainId t = TransactionSubmitter.sepoliaChainId ->
  BridgeVault.destinationChainId t = TransactionSubmitter.amoyChainId ->
  (0 <= BridgeVault.currentNonce t < 2 ^ 53)%Z ->
  (0 <= Evm.block_timestamp e < 2 ^ 53)%Z ->
  (Evm.msg_value e < 2 ^ 256)%Z ->
  Enc.addressOf (EventListener.ev_sender ev) = Some (Evm.msg_sender e) ->
  Enc.addressOf (EventListener.ev_recipient ev) = Some recipient ->
  EventListener.ev_amount ev = Evm.msg_value e ->
  EventListener.ev_nonce ev = BridgeVault.currentNonce t ->
  EventListener.ev_timestamp ev = Evm.block_timestamp e ->
  exists leaf,
    last (BridgeVault.events t') =
      Some (BridgeVault.BridgingInitiated (Evm.msg_sender e) recipient (Evm.msg_value e)
              (BridgeVault.currentNonce t) (Evm.block_timestamp e) leaf) /\
    leaf = VaultViews.previewLeafHash (Evm.msg_sender e) recipient (Evm.msg_value e)
             (BridgeVault.currentNonce t) (Evm.block_timestamp e) t /\
    TransactionSubmitter.generateProofForTransaction
      (Database.with_id i (EventListener.newRow EventListener.Sepolia ev now)) =
      Js.Return {| ProofGenerator.proof := []; ProofGenerator.root := Some leaf |} /\
    MerkleProof.verify [] leaf leaf = true.
Proof.
  intros Hl Hsrc Hdst Hn Ht Hv Hs Hr Ea En Et.
  destruct (lock_Ok _ _ _ _ _ _ _ Hl)
    as (_ & _ & [Hmin _] & _ & _ & _ & _ & _ & _ & _ & _ & He).
  eexists. split; [rewrite He; apply last_snoc|]. split; [reflexivity|]. split.
  - rewrite (submitter_proof EventListener.Sepolia ev i now (Evm.msg_sender e) recipient
               Hs Hr).
    + rewrite Ea, En, Et, Hsrc, Hdst. reflexivity.
    + rewrite Ea. unfold BridgeVault.MIN_BRIDGE_AMOUNT in Hmin. lia.
    + rewrite En. exact Hn.
    + rewrite Et. exact Ht.
  - unfold MerkleProof.verify, MerkleProof.processProof. cbn [fold_left]. apply Z.eqb_refl.
Qed.

Lemma X13_lock_to_relayer_root_witness :
  exists leaf,
    last (BridgeVault.events
            (VaultLedger.vault (VaultLedger.run VaultRuns.fresh [VaultRuns.lockOne]))) =
      Some (BridgeVault.BridgingInitiated Scenario.sender Scenario.recipient (10 ^ 18) 1
              100 leaf) /\
    leaf = VaultViews.previewLeafHash Scenario.sender Scenario.recipient (10 ^ 18) 1 100
             LedgerRuns.freshVault /\
    TransactionSubmitter.generateProofForTransaction
      (Database.with_id 1
         (EventListener.newRow EventListener.Sepolia VaultRuns.lockOneEvent 1000)) =
      Js.Return {| ProofGenerator.proof := []; ProofGenerator.root := Some leaf |} /\
    MerkleProof.verify [] leaf leaf = true.
Proof.
  apply (X13_lock_to_relayer_root Scenario.vaultAddr (fst VaultRuns.lockOne)
           Scenario.recipient VaultRuns.funds
           (VaultLedger.eth (VaultLedger.run VaultRuns.fresh [VaultRuns.lockOne]))
           LedgerRuns.freshVault
           (VaultLedger.vault (VaultLedger.run VaultRuns.fresh [VaultRuns.lockOne]))
           VaultRuns.lockOneEvent 1 1000);
    try (vm_compute; reflexivity); vm_compute; split; congruence.
Defined.

(** X14. From a burn to the relayer's proof.  When [burnForBridge] succeeds
    on a token configured for Sepolia and Amoy, with a nonce and a block time
    below 2^53 and an amount that is a [uint256], and the listener stores the
    event it emitted, the proof the submitter generates for the stored row is
    empty and its root is the [leafHash] of the token's [TokensBurned] event,
    the leaf that the vault's [unlock] recomputes. *)
Theorem X14_burn_to_relayer_root
    (e : Evm.env) (amount recipient : Z) (t t' : BridgeToken.state)
    (ev : EventListener.BridgeEvent) (i now : Z) :
  BridgeToken.burnForBridge e amount recipient t = Evm.Ok t' ->
  BridgeToken.sourceChainId t = TransactionSubmitter.sepoliaChainId ->
  BridgeToken.destinationChainId t = TransactionSubmitter.amoyChainId ->
  (0 <= BridgeToken.currentNonce t < 2 ^ 53)%Z ->
  (0 <= Evm.block_timestamp e < 2 ^ 53)%Z ->
  (amount < 2 ^ 256)%Z ->
  Enc.addressOf (EventListener.ev_sender ev) = Some (Evm.msg_sender e) ->
  Enc.addressOf (EventListener.ev_recipient ev) = Some recipient ->
  EventListener.ev_amount ev = amount ->
  EventListener.ev_nonce ev = BridgeToken.currentNonce t ->
  EventListener.ev_timestamp ev = Evm.block_timestamp e ->
  exists leaf,
    last (BridgeToken.events t') =
      Some (BridgeToken.TokensBurned (Evm.msg_sender e) recipient amount
              (BridgeToken.currentNonce t) (Evm.block_timestamp e) leaf) /\
    leaf = TokenViews.previewBurnLeafHash (Evm.msg_sender e) recipient amount
             (BridgeToken.currentNonce t) (Evm.block_timestamp e) t /\
    TransactionSubmitter.generateProofForTransaction
      (Database.with_id i (EventListener.newRow EventListener.Amoy ev now)) =
      Js.Return {| ProofGenerator.proof := []; ProofGenerator.root := Some leaf |} /\
    MerkleProof.verify [] leaf leaf = true.
Proof.
  intros Hb Hsrc Hdst Hn Ht Hv Hs Hr Ea En Et.
  destruct (burnForBridge_Ok _ _ _ _ _ Hb)
    as (_ & _ & [Hmin _] & _ & _ & _ & _ & _ & _ & _ & _ & He).
  eexists. split.
  { rewrite He. change [?x; ?y] with ([x] ++ [y]). rewrite app_assoc. apply last_snoc. }
  split; [reflexivity|]. split.
  - rewrite (submitter_proof EventListener.Amoy ev i now (Evm.msg_sender e) recipient Hs Hr).
    + rewrite Ea, En, Et. unfold TokenViews.previewBurnLeafHash. rewrite Hsrc, Hdst.
      reflexivity.
    + rewrite Ea. unfold BridgeToken.MIN_AMOUNT in Hmin. lia.
    + rewrite En. exact Hn.
    + rewrite Et. exact Ht.
  - unfold MerkleProof.verify, MerkleProof.processProof. cbn [fold_left]. apply Z.eqb_refl.
Qed.

Lemma X14_burn_to_relayer_root_witness :
  exists leaf,
    last (BridgeToken.events
            (TokenLedger.token
               (TokenLedger.run LedgerRuns.bridged
                  [(TokenRuns.burner,
                    TokenLedger.BurnForBridge (4 * 10 ^ 17) Scenario.sender)]))) =
      Some (BridgeToken.TokensBurned Scenario.recipient Scenario.sender (4 * 10 ^ 17) 1
              200 leaf) /\
    leaf = TokenViews.previewBurnLeafHash Scenario.recipient Scenario.sender
             (4 * 10 ^ 17) 1 200 (TokenLedger.token LedgerRuns.bridged) /\
    TransactionSubmitter.generateProofForTransaction
      (Database.with_id 2 (EventListener.newRow EventListener.Amoy TokenRuns.burnEvent 1000)) =
      Js.Return {| ProofGenerator.proof := []; ProofGenerator.root := Some leaf |} /\
    MerkleProof.verify [] leaf leaf = true.
Proof.
  apply (X14_burn_to_relayer_root TokenRuns.burner (4 * 10 ^ 17) Scenario.sender
           (TokenLedger.token LedgerRuns.bridged)
           (TokenLedger.token
              (TokenLedger.run LedgerRuns.bridged
                 [(TokenRuns.burner,
                   TokenLedger.BurnForBridge (4 * 10 ^ 17) Scenario.sender)]))
           TokenRuns.burnEvent 2 1000);
    try (vm_compute; reflexivity); vm_compute; split; congruence.
Defined.

Section MintFacts.
Import Evm.
Local Open Scope Z_scope.

(** Conditions under which [mint] with the empty proof and the leaf itself
    as root succeeds. *)
Lemma mint_succeeds (self : Z) (e : env) (a b c n ts h leaf : Z)
    (v : BridgeValidator.state) (t : BridgeToken.state) :
  leaf = MessageLib.generateLeafHash a b c n (BridgeToken.sourceChainId t)
           (BridgeToken.destinationChainId t) ts ->
  BridgeToken.paused t = false -> b <> 0 ->
  BridgeToken.MIN_AMOUNT <= c <= BridgeToken.maxMintAmount t ->
  flag (BridgeToken.processedTransactions t) leaf = false ->
  BridgeValidator.paused v = false ->
  flag (BridgeValidator.usedNonces v) n = false ->
  flag (BridgeValidator.validRoots v) leaf = true ->
  BridgeValidator.validatedTransactions v + 1 <= MAX_UINT256 ->
  BridgeToken.totalMinted t + c <= MAX_UINT256 ->
  BridgeToken.totalMintTransactions t + 1 <= MAX_UINT256 ->
  BridgeToken.totalSupply t + c <= MAX_UINT256 ->
  exists v' t', BridgeToken.mint self e a b c n ts h [] leaf v t = Ok (v', t').
Proof.
  intros Hleaf Hpt Hb [Hmin Hmax] Hproc Hpv Hnonce Hroot H4 H1 H2 H3.
  assert (MerkleProof.verify [] leaf leaf = true) as Hver.
  { unfold MerkleProof.verify, MerkleProof.processProof. cbn [fold_left].
    apply Z.eqb_refl. }
  unfold BridgeToken.mint, BridgeValidator.validateTransaction, BridgeToken.whenNotPaused,
    BridgeValidator.whenNotPaused, require.
  rewrite <- Hleaf, Hver, Hpt, Hproc, Hpv, Hnonce, Hroot.
  cbn [negb mbind result_bind].
  destruct (Z.eqb_spec b 0) as [|_]; [contradiction|]. cbn [negb mbind result_bind].
  destruct (Z.ltb_spec c BridgeToken.MIN_AMOUNT) as [|_]; [lia|].
  cbn [negb mbind result_bind].
  destruct (Z.ltb_spec (BridgeToken.maxMintAmount t) c) as [|_]; [lia|].
  cbn [negb mbind result_bind].
  unfold add.
  cbn [BridgeValidator.validatedTransactions BridgeValidator.set_usedNonces].
  destruct (Z.leb_spec (BridgeValidator.validatedTransactions v + 1) MAX_UINT256) as [_|];
    [|lia].
  cbn [negb mbind result_bind].
  destruct (Z.leb_spec (BridgeToken.totalMinted t + c) MAX_UINT256) as [_|]; [|lia].
  cbn [negb mbind result_bind].
  destruct (Z.leb_spec (BridgeToken.totalMintTransactions t + 1) MAX_UINT256) as [_|];
    [|lia].
  cbn [negb mbind result_bind].
  destruct (Z.leb_spec (BridgeToken.totalSupply t + c) MAX_UINT256) as [_|]; [|lia].
  cbn [negb mbind result_bind]. eauto.
Qed.

End MintFacts.

(** X15. What the vault accepts, the token accepts.  For a successful [lock],
    a [mint] of the locked transfer with the empty proof and the lock's leaf
    as root succeeds on a token configured with the vault's chain ids,
    provided the leaf is registered as a root, the nonce is not consumed, the
    transfer was not minted before, neither contract is paused, the amount is
    within the token's maximum and no counter overflows: the recipient and
    minimum checks of [mint] never reject a transfer that [lock] let through.
    The recipient is credited with the locked amount and the nonce is
    consumed.  The leaf is also what the token's [previewMintLeafHash]
    computes for the transfer. *)
Theorem X15_locked_transfer_is_mintable
    (self : Z) (e : Evm.env) (recipient : Z) (funds funds' : gmap Z Z)
    (t t' : BridgeVault.state) (w : TokenLedger.world) (e2 : Evm.env) (h : Z) :
  BridgeVault.lock self e recipient funds t = Evm.Ok (funds', t') ->
  let leaf := VaultViews.previewLeafHash (Evm.msg_sender e) recipient (Evm.msg_value e)
                (BridgeVault.currentNonce t) (Evm.block_timestamp e) t in
  let token := TokenLedger.token w in
  let validator := TokenLedger.validator w in
  BridgeToken.sourceChainId token = BridgeVault.sourceChainId t ->
  BridgeToken.destinationChainId token = BridgeVault.destinationChainId t ->
  BridgeToken.paused token = false ->
  BridgeValidator.paused validator = false ->
  BridgeValidator.isRootValid leaf validator = true ->
  BridgeValidator.isNonceUsed (BridgeVault.currentNonce t) validator = false ->
  TokenViews.isTransactionProcessed leaf token = false ->
  (Evm.msg_value e <= BridgeToken.maxMintAmount token)%Z ->
  (BridgeToken.totalMinted token + Evm.msg_value e <= Evm.MAX_UINT256)%Z ->
  (BridgeToken.totalMintTransactions token + 1 <= Evm.MAX_UINT256)%Z ->
  (BridgeToken.totalSupply token + Evm.msg_value e <= Evm.MAX_UINT256)%Z ->
  (BridgeValidator.validatedTransactions validator + 1 <= Evm.MAX_UINT256)%Z ->
  exists w',
    TokenLedger.exec e2
      (TokenLedger.Mint (Evm.msg_sender e) recipient (Evm.msg_value e)
         (BridgeVault.currentNonce t) (Evm.block_timestamp e) h [] leaf) w = Evm.Ok w' /\
    Evm.amountOf (BridgeToken.balances (TokenLedger.token w')) recipient =
      (Evm.amountOf (BridgeToken.balances token) recipient + Evm.msg_value e)%Z /\
    BridgeValidator.isNonceUsed (BridgeVault.currentNonce t) (TokenLedger.validator w') = true /\
    TokenViews.previewMintLeafHash (Evm.msg_sender e) recipient (Evm.msg_value e)
      (BridgeVault.currentNonce t) (Evm.block_timestamp e) token = leaf.
Proof.
  intros Hl leaf token validator Hsrc Hdst Hpt Hpv Hroot Hnonce Hproc Hmax H1 H2 H3 H4.
  destruct (lock_Ok _ _ _ _ _ _ _ Hl) as (_ & Hr & [Hmin _] & _).
  assert (TokenViews.previewMintLeafHash (Evm.msg_sender e) recipient (Evm.msg_value e)
            (BridgeVault.currentNonce t) (Evm.block_timestamp e) token = leaf) as Hpreview.
  { unfold TokenViews.previewMintLeafHash. rewrite Hsrc, Hdst. reflexivity. }
  assert (leaf = MessageLib.generateLeafHash (Evm.msg_sender e) recipient (Evm.msg_value e)
                   (BridgeVault.currentNonce t) (BridgeToken.sourceChainId token)
                   (BridgeToken.destinationChainId token) (Evm.block_timestamp e)) as Hleaf.
  { rewrite Hsrc, Hdst. reflexivity. }
  clearbody leaf.
  destruct (mint_succeeds (TokenLedger.tokenAddress w) e2 (Evm.msg_sender e) recipient
              (Evm.msg_value e) (BridgeVault.currentNonce t) (Evm.block_timestamp e) h leaf
              validator token Hleaf Hpt Hr) as (v' & t1 & Hmint); try assumption.
  { split; [exact Hmin|exact Hmax]. }
  destruct (mint_Ok _ _ _ _ _ _ _ _ _ _ _ _ _ _ Hmint) as (Hu & _ & _ & Hbal & _).
  exists {| TokenLedger.tokenAddress := TokenLedger.tokenAddress w;
            TokenLedger.validator := v'; TokenLedger.token := t1 |}.
  split.
  - cbn [TokenLedger.exec]. fold token validator. rewrite Hmint. reflexivity.
  - cbn [TokenLedger.token TokenLedger.validator]. split; [exact Hbal|].
    split; [|exact Hpreview].
    unfold BridgeValidator.isNonceUsed, Evm.flag. rewrite Hu, lookup_insert_eq. reflexivity.
Qed.

Lemma X15_locked_transfer_is_mintable_witness :
  let leaf := VaultViews.previewLeafHash Scenario.sender Scenario.recipient (10 ^ 18) 1 100
                LedgerRuns.freshVault in
  let w := TokenLedger.run LedgerRuns.fresh
             [(Scenario.at_ Scenario.operator 60,
               TokenLedger.Validator (BridgeValidator.RegisterRoot leaf))] in
  exists w',
    TokenLedger.exec (Scenario.at_ Scenario.operator 61)
      (TokenLedger.Mint Scenario.sender Scenario.recipient (10 ^ 18) 1 100 0x10c6 [] leaf) w
      = Evm.Ok w' /\
    Evm.amountOf (BridgeToken.balances (TokenLedger.token w')) Scenario.recipient =
      (Evm.amountOf (BridgeToken.balances (TokenLedger.token w)) Scenario.recipient
         + 10 ^ 18)%Z /\
    BridgeValidator.isNonceUsed 1 (TokenLedger.validator w') = true /\
    TokenViews.previewMintLeafHash Scenario.sender Scenario.recipient (10 ^ 18) 1 100
      (TokenLedger.token w) = leaf.
Proof.
  intros leaf w.
  apply (X15_locked_transfer_is_mintable Scenario.vaultAddr (fst VaultRuns.lockOne)
           Scenario.recipient VaultRuns.funds
           (VaultLedger.eth (VaultLedger.run VaultRuns.fresh [VaultRuns.lockOne]))
           LedgerRuns.freshVault
           (VaultLedger.vault (VaultLedger.run VaultRuns.fresh [VaultRuns.lockOne]))
           w (Scenario.at_ Scenario.operator 61) 0x10c6);
    try (vm_compute; reflexivity); vm_compute; congruence.
Defined.

Section UnlockFacts.
Import Evm.
Local Open Scope Z_scope.

(** Conditions under which [unlock] with the empty proof and the leaf itself
    as root succeeds. *)
Lemma unlock_succeeds (self : Z) (e : env) (a b c n ts leaf : Z) (accepts : bool)
    (v : BridgeValidator.state) (funds : gmap Z Z) (t : BridgeVault.state) :
  leaf = MessageLib.generateLeafHash a b c n (BridgeVault.destinationChainId t)
           (BridgeVault.sourceChainId t) ts ->
  BridgeVault.paused t = false -> b <> 0 -> c <> 0 ->
  flag (BridgeVault.processedTransactions t) leaf = false ->
  BridgeValidator.paused v = false ->
  flag (BridgeValidator.usedNonces v) n = false ->
  flag (BridgeValidator.validRoots v) leaf = true ->
  BridgeValidator.validatedTransactions v + 1 <= MAX_UINT256 ->
  BridgeVault.totalUnlocked t + c <= MAX_UINT256 ->
  c <= amountOf funds self -> accepts = true ->
  exists v' t',
    BridgeVault.unlock self e a b c n ts [] leaf accepts v funds t =
      Ok (v', BridgeVault.pay self b c funds, t').
Proof.
  intros Hleaf Hpt Hb Hc Hproc Hpv Hnonce Hroot H4 H1 Hfunds ->.
  assert (MerkleProof.verify [] leaf leaf = true) as Hver.
  { unfold MerkleProof.verify, MerkleProof.processProof. cbn [fold_left].
    apply Z.eqb_refl. }
  unfold BridgeVault.unlock, BridgeValidator.validateTransaction, BridgeVault.whenNotPaused,
    BridgeValidator.whenNotPaused, require.
  rewrite <- Hleaf, Hver, Hpt, Hproc, Hpv, Hnonce, Hroot.
  cbn [negb mbind result_bind].
  destruct (Z.eqb_spec b 0) as [|_]; [contradiction|]. cbn [negb mbind result_bind].
  destruct (Z.eqb_spec c 0) as [|_]; [contradiction|]. cbn [negb mbind result_bind].
  unfold add.
  cbn [BridgeValidator.validatedTransactions BridgeValidator.set_usedNonces].
  destruct (Z.leb_spec (BridgeValidator.validatedTransactions v + 1) MAX_UINT256) as [_|];
    [|lia].
  cbn [negb mbind result_bind].
  destruct (Z.leb_spec (BridgeVault.totalUnlocked t + c) MAX_UINT256) as [_|]; [|lia].
  cbn [negb mbind result_bind].
  destruct (Z.leb_spec c (amountOf funds self)) as [_|]; [|lia].
  cbn [andb negb mbind result_bind]. eauto.
Qed.

End UnlockFacts.

(** X16. What the token burns, the vault unlocks.  For a successful
    [burnForBridge], an [unlock] of the burned transfer with the empty proof
    and the burn's leaf as root succeeds on a vault configured with the
    token's chain ids, provided the leaf is registered as a root, the nonce
    is not consumed, the transfer was not unlocked before, neither contract
    is paused, the vault holds the amount, the recipient accepts ether and no
    counter overflows: the recipient and amount checks of [unlock] never
    reject a transfer that [burnForBridge] let through, and [unlock] applies
    no maximum.  A recipient other than the vault receives the burned
    amount, which leaves the vault, and the nonce is consumed. *)
Theorem X16_burned_transfer_is_unlockable
    (e : Evm.env) (amount recipient : Z) (t t' : BridgeToken.state)
    (w : VaultLedger.world) (e2 : Evm.env) :
  BridgeToken.burnForBridge e amount recipient t = Evm.Ok t' ->
  let leaf := TokenViews.previewBurnLeafHash (Evm.msg_sender e) recipient amount
                (BridgeToken.currentNonce t) (Evm.block_timestamp e) t in
  let vault := VaultLedger.vault w in
  let validator := VaultLedger.validator w in
  BridgeVault.sourceChainId vault = BridgeToken.sourceChainId t ->
  BridgeVault.destinationChainId vault = BridgeToken.destinationChainId t ->
  BridgeVault.paused vault = false ->
  BridgeValidator.paused validator = false ->
  BridgeValidator.isRootValid leaf validator = true ->
  BridgeValidator.isNonceUsed (BridgeToken.currentNonce t) validator = false ->
  VaultViews.isTransactionProcessed leaf vault = false ->
  (amount <= VaultViews.getBalance (VaultLedger.vaultAddress w) (VaultLedger.eth w))%Z ->
  (BridgeVault.totalUnlocked vault + amount <= Evm.MAX_UINT256)%Z ->
  (BridgeValidator.validatedTransactions validator + 1 <= Evm.MAX_UINT256)%Z ->
  recipient <> VaultLedger.vaultAddress w ->
  exists w',
    VaultLedger.exec e2
      (VaultLedger.Unlock (Evm.msg_sender e) recipient amount (BridgeToken.currentNonce t)
         (Evm.block_timestamp e) [] leaf true) w = Evm.Ok w' /\
    Evm.amountOf (VaultLedger.eth w') recipient =
      (Evm.amountOf (VaultLedger.eth w) recipient + amount)%Z /\
    VaultViews.getBalance (VaultLedger.vaultAddress w') (VaultLedger.eth w') =
      (VaultViews.getBalance (VaultLedger.vaultAddress w) (VaultLedger.eth w) - amount)%Z /\
    BridgeValidator.isNonceUsed (BridgeToken.currentNonce t) (VaultLedger.validator w') = true.
Proof.
  intros Hburn leaf vault validator Hsrc Hdst Hpt Hpv Hroot Hnonce Hproc Hfunds H1 H4 Hne.
  destruct (burnForBridge_Ok _ _ _ _ _ Hburn) as (_ & Hr & [Hmin _] & _).
  assert (leaf = MessageLib.generateLeafHash (Evm.msg_sender e) recipient amount
                   (BridgeToken.currentNonce t) (BridgeVault.destinationChainId vault)
                   (BridgeVault.sourceChainId vault) (Evm.block_timestamp e)) as Hleaf.
  { rewrite Hsrc, Hdst. reflexivity. }
  clearbody leaf.
  assert (amount <> 0%Z) as Hnz.
  { assert (0 < BridgeToken.MIN_AMOUNT)%Z by reflexivity. lia. }
  destruct (unlock_succeeds (VaultLedger.vaultAddress w) e2 (Evm.msg_sender e) recipient
              amount (BridgeToken.currentNonce t) (Evm.block_timestamp e) leaf true
              validator (VaultLedger.eth w) vault Hleaf Hpt Hr Hnz)
    as (v' & t1 & Hunlock); try assumption; [reflexivity|].
  destruct (unlock_Ok _ _ _ _ _ _ _ _ _ _ _ _ _ _ _ _ Hunlock) as (Hu & _).
  destruct (pay_credits (VaultLedger.vaultAddress w) recipient amount (VaultLedger.eth w))
    as [Hcredit Hdebit]; [congruence|].
  exists {| VaultLedger.vaultAddress := VaultLedger.vaultAddress w;
            VaultLedger.validator := v'; VaultLedger.vault := t1;
            VaultLedger.eth := BridgeVault.pay (VaultLedger.vaultAddress w) recipient amount
                                 (VaultLedger.eth w) |}.
  split.
  - cbn [VaultLedger.exec]. fold vault validator. rewrite Hunlock. reflexivity.
  - cbn [VaultLedger.eth VaultLedger.validator VaultLedger.vaultAddress].
    split; [exact Hcredit|]. split; [exact Hdebit|].
    unfold BridgeValidator.isNonceUsed, Evm.flag. rewrite Hu, lookup_insert_eq. reflexivity.
Qed.

Lemma X16_burned_transfer_is_unlockable_witness :
  let leaf := TokenViews.previewBurnLeafHash Scenario.recipient Scenario.sender
                (4 * 10 ^ 17) 1 200 (TokenLedger.token LedgerRuns.bridged) in
  let w := VaultLedger.run LedgerRuns.freshSource
             [(Scenario.at_ Scenario.operator 260,
               VaultLedger.Validator (BridgeValidator.RegisterRoot leaf))] in
  exists w',
    VaultLedger.exec (Scenario.at_ Scenario.operator 261)
      (VaultLedger.Unlock Scenario.recipient Scenario.sender (4 * 10 ^ 17) 1 200 [] leaf
         true) w = Evm.Ok w' /\
    Evm.amountOf (VaultLedger.eth w') Scenario.sender =
      (Evm.amountOf (VaultLedger.eth w) Scenario.sender + 4 * 10 ^ 17)%Z /\
    VaultViews.getBalance (VaultLedger.vaultAddress w') (VaultLedger.eth w') =
      (VaultViews.getBalance (VaultLedger.vaultAddress w) (VaultLedger.eth w)
         - 4 * 10 ^ 17)%Z /\
    BridgeValidator.isNonceUsed 1 (VaultLedger.validator w') = true.
Proof.
  intros leaf w.
  apply (X16_burned_transfer_is_unlockable TokenRuns.burner (4 * 10 ^ 17) Scenario.sender
           (TokenLedger.token LedgerRuns.bridged)
           (TokenLedger.token
              (TokenLedger.run LedgerRuns.bridged
                 [(TokenRuns.burner,
                   TokenLedger.BurnForBridge (4 * 10 ^ 17) Scenario.sender)]))
           w (Scenario.at_ Scenario.operator 261));
    try (vm_compute; reflexivity); vm_compute; congruence.
Defined.

(* ===================================================================== *)
(** ** The store of the relayer *)
(* ===================================================================== *)

Section StoreFacts.
Import Js Database.
Local Open Scope Z_scope.

Lemma countByStatus_cons (s : Status) (r : BridgeTransaction) (t : table) :
  DatabaseStats.countByStatus s (r :: t) =
    (if decide (status r = s) then 1 else 0) + DatabaseStats.countByStatus s t.
Proof.
  unfold DatabaseStats.countByStatus. rewrite filter_cons.
  destruct (decide (status r = s)); cbn [length]; lia.
Qed.

Lemma countByStatus_sum (t : table) :
  Z.of_nat (length t) =
    DatabaseStats.countByStatus pending t + DatabaseStats.countByStatus processing t
    + DatabaseStats.countByStatus completed t + DatabaseStats.countByStatus failed t.
Proof.
  induction t as [|r t IH]; [reflexivity|].
  rewrite !countByStatus_cons. cbn [length]. rewrite Nat2Z.inj_succ, IH.
  destruct (status r);
    repeat match goal with |- context [decide ?P] => destruct (decide P) end;
    try congruence; lia.
Qed.

Lemma countByStatus_select (s : Status) (t : table) :
  DatabaseStats.countByStatus s t = Z.of_nat (length (selectByStatus s t)).
Proof.
  unfold DatabaseStats.countByStatus, selectByStatus.
  rewrite (Permutation_length (merge_sort_Permutation _ _)). reflexivity.
Qed.

Lemma createdBefore_sorted (l : table) : StronglySorted createdBefore (merge_sort createdBefore l).
Proof.
  apply Sorted_StronglySorted.
  - intros a b c. unfold createdBefore. lia.
  - assert (Total createdBefore) as Htotal by (intros a b; unfold createdBefore; lia).
    apply (Sorted_merge_sort createdBefore).
Qed.

Lemma selectByStatus_elem (s : Status) (t : table) (r : BridgeTransaction) :
  r ∈ selectByStatus s t <-> r ∈ t /\ status r = s.
Proof.
  unfold selectByStatus. rewrite merge_sort_Permutation, list_elem_of_filter. tauto.
Qed.

Lemma modifyRow_absent h g t : getTransaction h t = None -> modifyRow h g t = t.
Proof.
  unfold modifyRow, getTransaction. induction t as [|r t IH]; [reflexivity|].
  cbn [find fmap list_fmap]. destruct (bool_decide (txHash r = h)); [discriminate|].
  intros H. rewrite (IH H). reflexivity.
Qed.

End StoreFacts.

(** X17. The statistics of the store add up: in every table the total is the
    sum of the pending, processing, completed and failed counts; the pending
    and processing counts are the numbers of rows the two selections return;
    and a status update changes no total, whatever [save()] finds. *)
Theorem X17_stats_add_up
    (t : Database.table) (h : string) (s : Database.Status) (u : Database.Updates)
    (now : Z) (saved : Js.outcome unit) :
  let st := DatabaseStats.getStats t in
  DatabaseStats.total st =
    (DatabaseStats.pending st + DatabaseStats.processing st
     + DatabaseStats.completed st + DatabaseStats.failed st)%Z /\
  DatabaseStats.pending st = Z.of_nat (length (Database.getPendingTransactions t)) /\
  DatabaseStats.processing st = Z.of_nat (length (Database.getProcessingTransactions t)) /\
  DatabaseStats.total
    (DatabaseStats.getStats (snd (Database.updateTransactionStatus h s u now saved t)))
    = DatabaseStats.total st.
Proof.
  cbn zeta. unfold DatabaseStats.getStats.
  cbn [DatabaseStats.total DatabaseStats.pending DatabaseStats.processing
       DatabaseStats.completed DatabaseStats.failed].
  split; [apply countByStatus_sum|]. split; [apply countByStatus_select|].
  split; [apply countByStatus_select|].
  unfold Database.updateTransactionStatus. cbn [snd]. rewrite length_fmap. reflexivity.
Qed.

(** X18. A row inserted under a hash that is not stored gets the next id and
    is the row found by that hash afterwards; the id is returned when
    [save()] returns, and the error of [save()] is thrown, the row being in
    the table all the same, when it does not; the rows stored before are
    found as before and hashes stay unique; a second insertion under the same
    hash throws and leaves the table as it is. *)
Theorem X18_insert_then_lookup
    (tx : Database.BridgeTransaction) (saved : Js.outcome unit) (t : Database.table) :
  Database.getTransaction (Database.txHash tx) t = None ->
  exists t',
    Database.insertTransaction tx saved t =
      (match saved with
       | Js.Return _ => Js.Return (Z.of_nat (length t) + 1)%Z
       | Js.Throw m => Js.Throw m
       end, t') /\
    Database.getTransaction (Database.txHash tx) t' =
      Some (Database.with_id (Z.of_nat (length t) + 1) tx) /\
    (forall h row, Database.getTransaction h t = Some row ->
                   Database.getTransaction h t' = Some row) /\
    (Database.unique t -> Database.unique t') /\
    (forall tx2 saved2, Database.txHash tx2 = Database.txHash tx ->
                 Database.insertTransaction tx2 saved2 t' =
                   (Js.Throw "UNIQUE constraint failed: bridge_transactions.txHash", t')).
Proof.
  intros Hnone. eexists. split; [apply insertTransaction_spec, Hnone|].
  assert (Database.getTransaction (Database.txHash tx)
            (t ++ [Database.with_id (Z.of_nat (length t) + 1) tx]) =
          Some (Database.with_id (Z.of_nat (length t) + 1) tx)) as Hget.
  { rewrite getTransaction_snoc, Hnone. cbn [Database.with_id Database.txHash].
    rewrite bool_decide_eq_true_2 by reflexivity. reflexivity. }
  split; [exact Hget|]. split; [|split].
  - intros h row Hrow. rewrite getTransaction_snoc, Hrow. reflexivity.
  - intros Hu. apply unique_snoc; [exact Hu|exact Hnone].
  - intros tx2 saved2 H2. unfold Database.insertTransaction. rewrite H2, Hget. reflexivity.
Qed.

Lemma X18_insert_then_lookup_witness :
  exists t',
    Database.insertTransaction RelayRuns.lockRow (Js.Return tt) [] = (Js.Return 1%Z, t') /\
    Database.getTransaction "0x10c4" t' = Some (Database.with_id 1 RelayRuns.lockRow) /\
    (forall h row, Database.getTransaction h [] = Some row ->
                   Database.getTransaction h t' = Some row) /\
    (Database.unique [] -> Database.unique t') /\
    (forall tx2 saved2, Database.txHash tx2 = "0x10c4" ->
                 Database.insertTransaction tx2 saved2 t' =
                   (Js.Throw "UNIQUE constraint failed: bridge_transactions.txHash", t')).
Proof.
  apply (X18_insert_then_lookup RelayRuns.lockRow (Js.Return tt) []). reflexivity.
Defined.

(** X19. A status update rewrites the row stored under the hash and nothing
    else: that row gets the status, the clock reading and the fields given in
    the updates, keeping every other field; rows under other hashes are found
    unchanged; the stored hashes stay the same; and an update under a hash
    that is not stored leaves the table as it is, without an error of its
    own.  The table is rewritten whatever [save()] finds, and the call
    returns or throws as [save()] does. *)
Theorem X19_status_update
    (h : string) (s : Database.Status) (u : Database.Updates) (now : Z)
    (saved : Js.outcome unit) (t : Database.table) :
  let t' := snd (Database.updateTransactionStatus h s u now saved t) in
  Database.getTransaction h t' =
    Database.applyUpdates s now u <$> Database.getTransaction h t /\
  (forall k, k <> h -> Database.getTransaction k t' = Database.getTransaction k t) /\
  Database.txHash <$> t' = Database.txHash <$> t /\
  (Database.getTransaction h t = None -> t' = t) /\
  fst (Database.updateTransactionStatus h s u now saved t) = saved.
Proof.
  cbn zeta. rewrite update_is_modify. cbn [fst snd].
  pose proof (applyUpdates_keepsHash s now u) as Hk.
  split; [|split; [|split; [|split]]].
  - rewrite (getTransaction_modify _ _ _ _ Hk).
    rewrite bool_decide_eq_true_2 by reflexivity. reflexivity.
  - intros k Hne. rewrite (getTransaction_modify _ _ _ _ Hk).
    rewrite bool_decide_eq_false_2 by exact Hne.
    destruct (Database.getTransaction k t); reflexivity.
  - apply modifyRow_hashes, Hk.
  - apply modifyRow_absent.
  - reflexivity.
Qed.

(** X20. The selections by status return exactly the stored rows with that
    status, in the order of their creation time: every row of the result was
    created no later than the rows after it. *)
Theorem X20_pending_in_creation_order (t : Database.table) :
  StronglySorted Database.createdBefore (Database.getPendingTransactions t) /\
  (forall r, r ∈ Database.getPendingTransactions t <->
             r ∈ t /\ Database.status r = Database.pending) /\
  StronglySorted Database.createdBefore (Database.getProcessingTransactions t) /\
  (forall r, r ∈ Database.getProcessingTransactions t <->
             r ∈ t /\ Database.status r = Database.processing).
Proof.
  unfold Database.getPendingTransactions, Database.getProcessingTransactions.
  split; [apply createdBefore_sorted|]. split; [apply selectByStatus_elem|].
  split; [apply createdBefore_sorted|apply selectByStatus_elem].
Qed.

(* ===================================================================== *)
(** ** The listener: replay of past events *)
(* ===================================================================== *)

Section ReplayFacts.
Import Js Database EventListener.
Local Open Scope Z_scope.









End ReplayFacts.


(* ===================================================================== *)
(** ** The driver: one transfer, one round *)
(* ===================================================================== *)

Section RoundFacts.
Import Js Database TransactionSubmitter.
Local Open Scope Z_scope.

Context {W : Type}.
Variable save : W -> outcome unit * W.
Variable validRoots : W -> string -> option Z -> outcome bool * W.
Variable sendTransaction : W -> request -> outcome string * W.
Variable meanwhile : W -> list arrival * W.

Local Abbreviation suspend := (TransactionSubmitter.suspend meanwhile).
Local Abbreviation setStatus := (TransactionSubmitter.setStatus save).
Local Abbreviation ensureRootRegistered :=
  (TransactionSubmitter.ensureRootRegistered validRoots sendTransaction meanwhile).
Local Abbreviation submitToDestinationChain :=
  (TransactionSubmitter.submitToDestinationChain sendTransaction meanwhile).
Local Abbreviation submitPhase :=
  (TransactionSubmitter.submitPhase save validRoots sendTransaction meanwhile).
Local Abbreviation processTransaction :=
  (TransactionSubmitter.processTransaction save validRoots sendTransaction meanwhile).
Local Abbreviation processOne :=
  (TransactionSubmitter.processOne save validRoots sendTransaction meanwhile).
Local Abbreviation processEach :=
  (TransactionSubmitter.processEach save validRoots sendTransaction meanwhile).
Local Abbreviation processPendingTransactions :=
  (TransactionSubmitter.processPendingTransactions save validRoots sendTransaction meanwhile).

Lemma suspend_trace (d : driver (W := W)) : trace (suspend d) = trace d.
Proof. apply (suspend_spec meanwhile (fun _ _ => true) (fun _ => eq_refl)). Qed.

Lemma suspend_rows (d : driver (W := W)) : extends (db d) (db (suspend d)).
Proof. apply (suspend_spec meanwhile (fun _ _ => true) (fun _ => eq_refl)). Qed.

Lemma setStatus_trace h s u now (d : driver (W := W)) :
  trace (snd (setStatus h s u now d)) = trace d.
Proof. apply setStatus_spec. Qed.

Lemma setStatus_outcome h s u now (d : driver (W := W)) :
  fst (setStatus h s u now d) = fst (save (world d)).
Proof. apply setStatus_spec. Qed.

Lemma ensureRootRegistered_calls root chain (d : driver (W := W)) :
  trace (snd (ensureRootRegistered root chain d)) = trace d ++ [ValidRoots chain root] \/
  trace (snd (ensureRootRegistered root chain d)) =
    trace d ++ [ValidRoots chain root; RegisterRoot chain root].
Proof.
  unfold TransactionSubmitter.ensureRootRegistered.
  destruct (validRoots (world d) chain root) as [isRegistered w].
  match goal with
  | |- context [suspend ?d0] => pose proof (suspend_trace d0) as Ht; set (d1 := suspend d0) in *
  end.
  cbn [trace] in Ht.
  destruct isRegistered as [[|]|m]; cbn [snd]; [left; exact Ht| |left; exact Ht].
  destruct (sendTransaction (world d1) (RegisterRoot chain root)) as [receipt w1].
  match goal with
  | |- context [suspend ?d0] => pose proof (suspend_trace d0) as Ht2; set (d2 := suspend d0) in *
  end.
  cbn [trace] in Ht2. right.
  assert (trace d2 = trace d ++ [ValidRoots chain root; RegisterRoot chain root]) as E.
  { rewrite Ht2, Ht, <- app_assoc. reflexivity. }
  destruct receipt; exact E.
Qed.

Lemma submitToDestinationChain_calls tx prf root (d : driver (W := W)) :
  trace (snd (submitToDestinationChain tx prf root d)) =
    trace d ++ [destinationCall tx prf root].
Proof.
  unfold TransactionSubmitter.submitToDestinationChain, destinationCall.
  destruct (sendTransaction _ _) as [receipt w]. cbn [snd].
  rewrite suspend_trace. reflexivity.
Qed.

(** The calls of one [processTransaction]. *)
Lemma processTransaction_calls tx now (d : driver (W := W)) :
  exists calls,
    trace (snd (processTransaction tx now d)) = trace d ++ calls /\
    (calls = [] \/ callsFor tx calls) /\
    ((forall w, fst (save w) = Return tt) -> callsFor tx calls) /\
    (forall x, fst (processTransaction tx now d) = Return x -> sentLast tx calls).
Proof.
  unfold TransactionSubmitter.processTransaction, TransactionSubmitter.submitPhase,
    callsFor, sentLast.
  pose proof (setStatus_trace (txHash tx) processing noUpdates now d) as Ht0.
  pose proof (setStatus_outcome (txHash tx) processing noUpdates now d) as Ho0.
  destruct (setStatus (txHash tx) processing noUpdates now d) as [o0 d0].
  cbn [fst snd] in Ht0, Ho0.
  destruct o0 as [[]|m0]; cbn [fst snd].
  2:{ exists []. rewrite Ht0, app_nil_r. split; [reflexivity|]. split; [left; reflexivity|].
      split; [|discriminate].
      intros Hs. rewrite Hs in Ho0. discriminate. }
  pose proof (suspend_trace d0) as Ht1. rewrite Ht0 in Ht1.
  destruct (generateProofForTransaction tx) as [p|m]; cbn [fst snd].
  2:{ exists []. rewrite Ht1, app_nil_r. split; [reflexivity|]. split; [left; reflexivity|].
      split; [reflexivity|discriminate]. }
  match goal with
  | |- context [setStatus (txHash tx) processing ?u now (suspend d0)] =>
      pose proof (setStatus_trace (txHash tx) processing u now (suspend d0)) as Ht2;
      pose proof (setStatus_outcome (txHash tx) processing u now (suspend d0)) as Ho2;
      destruct (setStatus (txHash tx) processing u now (suspend d0)) as [o2 d2]
  end.
  cbn [fst snd] in Ht2, Ho2. rewrite Ht1 in Ht2.
  destruct o2 as [[]|m2]; cbn [fst snd].
  2:{ exists []. rewrite Ht2, app_nil_r. split; [reflexivity|]. split; [left; reflexivity|].
      split; [|discriminate].
      intros Hs. rewrite Hs in Ho2. discriminate. }
  pose proof (ensureRootRegistered_calls (ProofGenerator.root p) (destChain tx) d2) as He.
  destruct (ensureRootRegistered (ProofGenerator.root p) (destChain tx) d2) as [o3 d3].
  cbn [snd] in He. rewrite Ht2 in He.
  destruct o3 as [[]|m3]; cbn [fst snd].
  2:{ destruct He as [He|He]; rewrite He; eexists;
        (split; [reflexivity|]); (split; [right; auto|]); (split; [auto|discriminate]). }
  pose proof (submitToDestinationChain_calls tx (ProofGenerator.proof p)
                (ProofGenerator.root p) d3) as Hs.
  destruct (submitToDestinationChain tx (ProofGenerator.proof p)
              (ProofGenerator.root p) d3) as [o4 d4].
  cbn [snd] in Hs.
  destruct o4 as [destTx|m4]; cbn [fst snd].
  - rewrite setStatus_trace, Hs.
    destruct He as [He|He]; rewrite He, <- app_assoc; eexists; (split; [reflexivity|]);
      (split; [right; auto|]); (split; [auto|]); intros _ _; eexists; split; reflexivity.
  - rewrite Hs.
    destruct He as [He|He]; rewrite He, <- app_assoc; eexists; (split; [reflexivity|]);
      (split; [right; auto|]); (split; [auto|discriminate]).
Qed.

(** Up to the settlement of the destination call, the row of the transfer is
    processing, with its transfer data, its destination reference and its
    error message as they were. *)
Lemma submitPhase_rows tx now (d d' : driver (W := W)) o :
  submitPhase tx now d = (o, d') ->
  exists g,
    rewrites (txHash tx) g (db d) (db d') /\
    forall r, status (g r) = processing /\ destTxHash (g r) = destTxHash r /\
              errorMessage (g r) = errorMessage r /\ sameTransfer r (g r).
Proof.
  unfold TransactionSubmitter.submitPhase.
  pose proof (setStatus_rewrites save (txHash tx) processing noUpdates now d) as R0.
  destruct (setStatus (txHash tx) processing noUpdates now d) as [o0 d0].
  cbn [snd] in R0.
  destruct o0 as [[]|m0].
  2:{ intros [= <- <-]. eexists. split; [exact R0|].
      intros r. unfold sameTransfer. cbn. tauto. }
  pose proof (rewrites_compose _ _ _ _ _ _ R0 (rewrites_extends _ _ _ (suspend_rows d0)))
    as R1.
  destruct (generateProofForTransaction tx) as [p|m].
  2:{ intros [= <- <-]. eexists. split; [exact R1|].
      intros r. unfold sameTransfer. cbn. tauto. }
  match goal with
  | |- context [setStatus (txHash tx) processing ?u now (suspend d0)] =>
      pose proof (setStatus_rewrites save (txHash tx) processing u now (suspend d0)) as R2';
      destruct (setStatus (txHash tx) processing u now (suspend d0)) as [o2 d2]
  end.
  cbn [snd] in R2'.
  pose proof (rewrites_compose _ _ _ _ _ _ R1 R2') as R2.
  destruct o2 as [[]|m2].
  2:{ intros [= <- <-]. eexists. split; [exact R2|].
      intros r. unfold sameTransfer. cbn. tauto. }
  destruct (ensureRootRegistered (ProofGenerator.root p) (destChain tx) d2)
    as [o3 d3] eqn:He.
  destruct (ensureRootRegistered_spec validRoots sendTransaction meanwhile
              (fun _ _ => true) (fun _ => eq_refl) _ _ _ _ _ He) as (He3 & _).
  pose proof (rewrites_compose _ _ _ _ _ _ R2 (rewrites_extends _ _ _ He3)) as R3.
  destruct o3 as [[]|m3].
  - intros Hs.
    destruct (submitToDestinationChain_spec sendTransaction meanwhile
                (fun _ _ => true) (fun _ => eq_refl) _ _ _ _ _ _ Hs) as (He4 & _).
    pose proof (rewrites_compose _ _ _ _ _ _ R3 (rewrites_extends _ _ _ He4)) as R4.
    eexists. split; [exact R4|]. intros r. unfold sameTransfer. cbn. tauto.
  - intros [= <- <-]. eexists. split; [exact R3|].
    intros r. unfold sameTransfer. cbn. tauto.
Qed.

(** One iteration of the polling loop concludes the row of its transfer,
    also when it throws. *)
Lemma processOne_rows tx now (d : driver (W := W)) :
  exists g,
    rewrites (txHash tx) g (db d) (db (snd (processOne now tx d))) /\
    forall r, concluded (g r) /\ sameTransfer r (g r).
Proof.
  unfold TransactionSubmitter.processOne, TransactionSubmitter.processTransaction.
  destruct (submitPhase tx now d) as [o d1] eqn:Hs.
  destruct (submitPhase_rows _ _ _ _ _ Hs) as (g & R & Hg).
  destruct o as [destTx|m].
  - match goal with
    | |- context [setStatus (txHash tx) completed ?u now d1] =>
        pose proof (setStatus_rewrites save (txHash tx) completed u now d1) as R2';
        destruct (setStatus (txHash tx) completed u now d1) as [o2 d2]
    end.
    cbn [snd] in R2'.
    pose proof (rewrites_compose _ _ _ _ _ _ R R2') as R2.
    destruct o2 as [[]|m2].
    + cbn [snd]. eexists. split; [exact R2|].
      intros r. destruct (Hg r) as (_ & _ & _ & Hsame). split.
      * left. cbn. eauto.
      * unfold sameTransfer in *. cbn. exact Hsame.
    + match goal with
      | |- context [setStatus (txHash tx) failed ?u now d2] =>
          pose proof (setStatus_rewrites save (txHash tx) failed u now d2) as R3'
      end.
      eexists. split; [exact (rewrites_compose _ _ _ _ _ _ R2 R3')|].
      intros r. destruct (Hg r) as (_ & _ & _ & Hsame). split.
      * right. cbn. eauto.
      * unfold sameTransfer in *. cbn. exact Hsame.
  - match goal with
    | |- context [setStatus (txHash tx) failed ?u now d1] =>
        pose proof (setStatus_rewrites save (txHash tx) failed u now d1) as R2'
    end.
    eexists. split; [exact (rewrites_compose _ _ _ _ _ _ R R2')|].
    intros r. destruct (Hg r) as (_ & _ & _ & Hsame). split.
    + right. cbn. eauto.
    + unfold sameTransfer in *. cbn. exact Hsame.
Qed.

Lemma sameTransfer_refl (r : BridgeTransaction) : sameTransfer r r.
Proof. unfold sameTransfer. tauto. Qed.

(** Rows of transfers that are not in the list of a round stay as they
    are. *)
Lemma processEach_others now (txs : list BridgeTransaction) (d : driver (W := W)) h row :
  getTransaction h (db d) = Some row -> h ∉ txHash <$> txs ->
  getTransaction h (db (snd (processEach now txs d))) = Some row.
Proof.
  intros Hrow Hnot.
  destruct (processEach_spec save validRoots sendTransaction meanwhile (fun _ _ => true)
              (fun _ => eq_refl) eq_refl eq_refl eq_refl eq_refl (or_introl eq_refl)
              now txs d) as (_ & Hrows & _).
  destruct (Hrows h row Hrow) as (row' & Hrow' & Hsame).
  rewrite Hrow', (Hsame Hnot). reflexivity.
Qed.

(** A round concludes the rows of the transfers of its list, one after the
    other, as far as it gets. *)
Lemma processEach_rows now (txs : list BridgeTransaction) :
  forall (d : driver (W := W)) h row,
    NoDup (txHash <$> txs) ->
    getTransaction h (db d) = Some row -> h ∈ txHash <$> txs ->
    exists row', getTransaction h (db (snd (processEach now txs d))) = Some row' /\
                 sameTransfer row row' /\
                 (concluded row' \/ row' = row) /\
                 (fst (processEach now txs d) = Return tt -> concluded row').
Proof.
  induction txs as [|tx txs IH]; intros d h row Hnd Hrow Hin; [inversion Hin|].
  cbn in Hnd. apply NoDup_cons in Hnd as [Hfresh Hnd].
  cbn [TransactionSubmitter.processEach].
  destruct (processOne_rows tx now d) as (g & [_ RG] & Hg).
  pose proof (RG h row Hrow) as Hrow1.
  destruct (processOne now tx d) as [o d1]. cbn [snd] in Hrow1.
  cbn in Hin. apply elem_of_cons in Hin as [->|Hin].
  - rewrite bool_decide_eq_true_2 in Hrow1 by reflexivity.
    destruct (Hg row) as [Hc Hsame].
    exists (g row). split.
    { destruct o as [[]|m]; [apply processEach_others; assumption|exact Hrow1]. }
    split; [exact Hsame|]. split; [left; exact Hc|intros _; exact Hc].
  - assert (h <> txHash tx) as Hne by (intros ->; contradiction).
    rewrite bool_decide_eq_false_2 in Hrow1 by exact Hne.
    destruct o as [[]|m].
    + apply (IH _ _ _ Hnd Hrow1 Hin).
    + cbn [fst snd]. exists row. split; [exact Hrow1|].
      split; [apply sameTransfer_refl|]. split; [right; reflexivity|discriminate].
Qed.

(** When [save()] always returns, so does the round. *)
Lemma processOne_returns now tx (d : driver (W := W)) :
  (forall w, fst (save w) = Return tt) -> fst (processOne now tx d) = Return tt.
Proof.
  intros Hsave. unfold TransactionSubmitter.processOne.
  destruct (processTransaction tx now d) as [[[]|m] d1]; [reflexivity|].
  rewrite setStatus_outcome. apply Hsave.
Qed.

Lemma processEach_returns now (txs : list BridgeTransaction) :
  (forall w, fst (save w) = Return tt) ->
  forall d : driver (W := W), fst (processEach now txs d) = Return tt.
Proof.
  intros Hsave. induction txs as [|tx txs IH]; intros d; [reflexivity|].
  cbn [TransactionSubmitter.processEach].
  pose proof (processOne_returns now tx d Hsave) as Ho.
  destruct (processOne now tx d) as [o d1]. cbn [fst] in Ho. subst o. apply IH.
Qed.

End RoundFacts.

(** X22. A round of the polling loop, on a store with unique hashes, whatever
    the chains answer and whatever the listener stores meanwhile.  Every
    transfer that was pending when the round started is still stored, with
    its transfer data (id, hash, chains, parties, amount, nonce, timestamp,
    leaf, creation time) as it was, and its row is concluded (completed with
    a destination reference, or failed with an error message) or, when the
    round was left by an error before reaching it, as it was; when the round
    returns, every such row is concluded.  The round returns when the
    [save()] of every status write returns.  A row that is pending after the
    round was not stored when it started, or the round was left by an error
    and the row is as it was. *)
Theorem X22_poll_round_concludes {W : Type}
    (save : W -> Js.outcome unit * W)
    (validRoots : W -> string -> option Z -> Js.outcome bool * W)
    (sendTransaction : W -> TransactionSubmitter.request -> Js.outcome string * W)
    (meanwhile : W -> list TransactionSubmitter.arrival * W)
    (now : Z) (d : TransactionSubmitter.driver) :
  Database.unique (TransactionSubmitter.db d) ->
  let round := TransactionSubmitter.processPendingTransactions save validRoots
                 sendTransaction meanwhile now d in
  let d' := snd round in
  (forall h row,
     Database.getTransaction h (TransactionSubmitter.db d) = Some row ->
     Database.status row = Database.pending ->
     exists row',
       Database.getTransaction h (TransactionSubmitter.db d') = Some row' /\
       sameTransfer row row' /\
       (concluded row' \/ row' = row) /\
       (fst round = Js.Return tt -> concluded row')) /\
  ((forall w, fst (save w) = Js.Return tt) -> fst round = Js.Return tt) /\
  (forall r, r ∈ Database.getPendingTransactions (TransactionSubmitter.db d') ->
     Database.getTransaction (Database.txHash r) (TransactionSubmitter.db d) = None \/
     (Database.getTransaction (Database.txHash r) (TransactionSubmitter.db d) = Some r /\
      exists m, fst round = Js.Throw m)).
Proof.
  intros Hu round d'.
  assert (forall h row,
            Database.getTransaction h (TransactionSubmitter.db d) = Some row ->
            Database.status row = Database.pending ->
            exists row',
              Database.getTransaction h (TransactionSubmitter.db d') = Some row' /\
              sameTransfer row row' /\
              (concluded row' \/ row' = row) /\
              (fst round = Js.Return tt -> concluded row')) as Hdone.
  { intros h row Hrow Hst.
    destruct (selectByStatus_spec Database.pending _ Hu) as [Hnd _].
    apply (processEach_rows save validRoots sendTransaction meanwhile now _ d h row Hnd Hrow).
    destruct (getTransaction_Some _ _ _ Hrow) as [Hin <-].
    apply list_elem_of_fmap. exists row. split; [reflexivity|].
    apply selectByStatus_elem. auto. }
  split; [exact Hdone|]. split.
  { intros Hsave. apply processEach_returns, Hsave. }
  intros r Hr. apply selectByStatus_elem in Hr as [Hin Hst].
  destruct (poll_advances save validRoots sendTransaction meanwhile now d Hu)
    as (Hu' & Hrows & _).
  fold round in Hu', Hrows. fold d' in Hu', Hrows.
  pose proof (unique_getTransaction _ _ Hu' Hin) as Hget.
  destruct (Database.getTransaction (Database.txHash r) (TransactionSubmitter.db d))
    as [row0|] eqn:H0; [right|left; reflexivity].
  destruct (Database.status row0) eqn:Hs0.
  - destruct (Hdone _ _ H0 Hs0) as (row' & Hrow' & _ & Hc & Hret).
    rewrite Hget in Hrow'. injection Hrow' as <-.
    assert (~ concluded r) as Hnot.
    { intros [[Hc' _]|[Hc' _]]; congruence. }
    destruct Hc as [Hc|Hc]; [contradiction|]. subst row0.
    split; [reflexivity|].
    destruct (fst round) as [[]|m]; [|eauto].
    exfalso. apply Hnot, Hret. reflexivity.
  - exfalso. destruct (Hrows _ _ H0) as (row' & Hrow' & _ & Hsame).
    rewrite Hget in Hrow'. injection Hrow' as <-.
    rewrite Hsame in Hst by congruence. congruence.
  - exfalso. destruct (Hrows _ _ H0) as (row' & Hrow' & _ & Hsame).
    rewrite Hget in Hrow'. injection Hrow' as <-.
    rewrite Hsame in Hst by congruence. congruence.
  - exfalso. destruct (Hrows _ _ H0) as (row' & Hrow' & _ & Hsame).
    rewrite Hget in Hrow'. injection Hrow' as <-.
    rewrite Hsame in Hst by congruence. congruence.
Qed.

Lemma X22_poll_round_concludes_witness :
  let d := TransactionSubmitter.start RelayRuns.observed [] in
  let round := TransactionSubmitter.processPendingTransactions RelayRuns.diskFull
                 RelayRuns.rootsUnknown RelayRuns.settles RelayRuns.busy 2000 d in
  let d' := snd round in
  (forall h row,
     Database.getTransaction h (TransactionSubmitter.db d) = Some row ->
     Database.status row = Database.pending ->
     exists row',
       Database.getTransaction h (TransactionSubmitter.db d') = Some row' /\
       sameTransfer row row' /\
       (concluded row' \/ row' = row) /\
       (fst round = Js.Return tt -> concluded row')) /\
  ((forall w, fst (RelayRuns.diskFull w) = Js.Return tt) -> fst round = Js.Return tt) /\
  (forall r, r ∈ Database.getPendingTransactions (TransactionSubmitter.db d') ->
     Database.getTransaction (Database.txHash r) (TransactionSubmitter.db d) = None \/
     (Database.getTransaction (Database.txHash r) (TransactionSubmitter.db d) = Some r /\
      exists m, fst round = Js.Throw m)).
Proof.
  apply (X22_poll_round_concludes RelayRuns.diskFull RelayRuns.rootsUnknown RelayRuns.settles
           RelayRuns.busy 2000 (TransactionSubmitter.start RelayRuns.observed [])).
  vm_compute. apply NoDup_singleton.
Defined.

(** X23. The chain calls of one [processTransaction] are, in this order, the
    query of the generated root on the destination chain, possibly the
    registration of that root, and possibly the destination call (a mint for
    a transfer to Amoy, an unlock otherwise) with the generated proof and
    root, or no call at all: never a destination call before the query,
    never two destination calls.  When the [save()] of every status write
    returns, there is no call at all only when the proof cannot be
    generated, and the query is made whenever it can.  When
    [processTransaction] returns normally, the destination call was the last
    call made. *)
Theorem X23_calls_of_one_transfer {W : Type}
    (save : W -> Js.outcome unit * W)
    (validRoots : W -> string -> option Z -> Js.outcome bool * W)
    (sendTransaction : W -> TransactionSubmitter.request -> Js.outcome string * W)
    (meanwhile : W -> list TransactionSubmitter.arrival * W)
    (tx : Database.BridgeTransaction) (now : Z) (d : TransactionSubmitter.driver) :
  let r := TransactionSubmitter.processTransaction save validRoots sendTransaction meanwhile
             tx now d in
  exists calls,
    TransactionSubmitter.trace (snd r) = TransactionSubmitter.trace d ++ calls /\
    (calls = [] \/ callsFor tx calls) /\
    ((forall w, fst (save w) = Js.Return tt) -> callsFor tx calls) /\
    (forall x, fst r = Js.Return x -> sentLast tx calls).
Proof. apply processTransaction_calls. Qed.

(* ===================================================================== *)
(** ** One mint and one unlock per nonce *)
(* ===================================================================== *)

Section OnceFacts.
Import Evm.
Local Open Scope Z_scope.

Lemma once_snoc (nonces : list Z) (n : Z) (v v' : BridgeValidator.state) :
  BridgeValidator.usedNonces v' = <[n := true]> (BridgeValidator.usedNonces v) ->
  flag (BridgeValidator.usedNonces v) n = false ->
  once nonces v -> once (nonces ++ [n]) v'.
Proof.
  intros Hu Hfresh [Hnd Hused]. unfold once, BridgeValidator.isNonceUsed in *. split.
  - apply NoDup_app. split; [exact Hnd|]. split; [|apply NoDup_singleton].
    intros m Hm Hin. apply list_elem_of_singleton in Hin. subst m.
    rewrite (Hused n Hm) in Hfresh. discriminate.
  - intros m Hm. rewrite Hu. unfold flag.
    destruct (decide (n = m)) as [->|Hne]; [rewrite lookup_insert_eq; reflexivity|].
    rewrite lookup_insert_ne by exact Hne.
    apply elem_of_app in Hm as [Hm|Hm]; [apply Hused, Hm|].
    apply list_elem_of_singleton in Hm. congruence.
Qed.

Lemma once_validator (e : env) (c : BridgeValidator.call) (nonces : list Z)
    (v v' : BridgeValidator.state) :
  BridgeValidator.exec e c v = Ok v' -> once nonces v -> once nonces v'.
Proof.
  intros Hexec [Hnd Hused]. split; [exact Hnd|].
  intros n Hn. unfold BridgeValidator.isNonceUsed.
  apply (exec_keeps_nonces e c v v' n Hexec), Hused, Hn.
Qed.

Lemma token_exec_once (e : env) (c : TokenLedger.call) (w w' : TokenLedger.world) :
  TokenLedger.exec e c w = Ok w' ->
  once (mintNonces (BridgeToken.events (TokenLedger.token w))) (TokenLedger.validator w) ->
  once (mintNonces (BridgeToken.events (TokenLedger.token w'))) (TokenLedger.validator w').
Proof.
  intros H Hinv. destruct c; cbn in H.
  - destruct (BridgeToken.mint _ _ _ _ _ _ _ _ _ _ _ _) as [[v t']|] eqn:Hm;
      cbn in H; [|discriminate].
    injection H as <-. cbn [TokenLedger.token TokenLedger.validator].
    destruct (mint_Ok _ _ _ _ _ _ _ _ _ _ _ _ _ _ Hm) as (Hu & Hfresh & He & _).
    rewrite He. unfold mintNonces. rewrite omap_app. cbn [omap list_omap].
    exact (once_snoc _ _ _ _ Hu Hfresh Hinv).
  - destruct (BridgeToken.burnForBridge _ _ _ _) as [t'|] eqn:Hb; cbn in H; [|discriminate].
    injection H as <-. cbn [TokenLedger.token TokenLedger.validator TokenLedger.with_token].
    destruct (burnForBridge_Ok _ _ _ _ _ Hb) as (_ & _ & _ & _ & _ & _ & _ & _ & _ & _ & _ & He).
    rewrite He. unfold mintNonces in *. rewrite omap_app. cbn [omap list_omap].
    rewrite app_nil_r. exact Hinv.
  - destruct (BridgeToken.updateMaxMintAmount _ _ _) as [t'|] eqn:Hb;
      cbn in H; [|discriminate].
    injection H as <-. cbn [TokenLedger.token TokenLedger.validator TokenLedger.with_token].
    unfold BridgeToken.updateMaxMintAmount, BridgeToken.onlyOwner in Hb. guards Hb.
    injection Hb as <-. cbn [BridgeToken.events BridgeToken.with_admin].
    unfold mintNonces in *. rewrite omap_app. cbn [omap list_omap].
    rewrite app_nil_r. exact Hinv.
  - destruct (BridgeToken.pause _ _) as [t'|] eqn:Hb; cbn in H; [|discriminate].
    injection H as <-. cbn [TokenLedger.token TokenLedger.validator TokenLedger.with_token].
    unfold BridgeToken.pause, BridgeToken.onlyOwner, BridgeToken.whenNotPaused in Hb.
    guards Hb. injection Hb as <-. cbn [BridgeToken.events BridgeToken.with_admin].
    unfold mintNonces in *. rewrite omap_app. cbn [omap list_omap].
    rewrite app_nil_r. exact Hinv.
  - destruct (BridgeToken.unpause _ _) as [t'|] eqn:Hb; cbn in H; [|discriminate].
    injection H as <-. cbn [TokenLedger.token TokenLedger.validator TokenLedger.with_token].
    unfold BridgeToken.unpause, BridgeToken.onlyOwner, BridgeToken.whenPaused in Hb.
    guards Hb. injection Hb as <-. cbn [BridgeToken.events BridgeToken.with_admin].
    unfold mintNonces in *. rewrite omap_app. cbn [omap list_omap].
    rewrite app_nil_r. exact Hinv.
  - destruct (BridgeValidator.exec e c (TokenLedger.validator w)) as [v|] eqn:Hv;
      cbn in H; [|discriminate].
    injection H as <-. cbn [TokenLedger.token TokenLedger.validator].
    exact (once_validator _ _ _ _ _ Hv Hinv).
Qed.

Lemma token_run_once (txs : list (env * TokenLedger.call)) :
  forall w,
    once (mintNonces (BridgeToken.events (TokenLedger.token w))) (TokenLedger.validator w) ->
    once (mintNonces (BridgeToken.events (TokenLedger.token (TokenLedger.run w txs))))
      (TokenLedger.validator (TokenLedger.run w txs)).
Proof.
  unfold TokenLedger.run. induction txs as [|tx txs IH]; intros w Hb; [exact Hb|].
  cbn [foldl]. apply IH. unfold TokenLedger.step, commit.
  destruct (TokenLedger.exec (fst tx) (snd tx) w) as [w'|] eqn:Hexec; [|exact Hb].
  exact (token_exec_once _ _ _ _ Hexec Hb).
Qed.

Lemma vault_other_unlocks (e : env) (c : VaultLedger.call) (w w' : VaultLedger.world) :
  match c with
  | VaultLedger.Unlock _ _ _ _ _ _ _ _ | VaultLedger.Validator _ => False
  | _ => VaultLedger.exec e c w = Ok w'
  end ->
  VaultLedger.validator w' = VaultLedger.validator w /\
  unlockNonces (BridgeVault.events (VaultLedger.vault w')) =
    unlockNonces (BridgeVault.events (VaultLedger.vault w)).
Proof.
  assert (forall evs extra, unlockNonces extra = [] ->
                            unlockNonces (evs ++ extra) = unlockNonces evs) as Hskip.
  { intros evs extra Hx. unfold unlockNonces in *. rewrite omap_app, Hx, app_nil_r.
    reflexivity. }
  destruct c; intros H; try contradiction; cbn in H.
  - destruct (BridgeVault.lock _ _ _ _ _) as [[f t']|] eqn:Hl; cbn in H; [|discriminate].
    injection H as <-. cbn. split; [reflexivity|].
    destruct (lock_Ok _ _ _ _ _ _ _ Hl) as (_ & _ & _ & _ & _ & _ & _ & _ & _ & _ & _ & He).
    rewrite He. apply Hskip. reflexivity.
  - destruct (BridgeVault.updateMaxBridgeAmount _ _ _) as [t'|] eqn:Hl;
      cbn in H; [|discriminate].
    injection H as <-. cbn. split; [reflexivity|].
    unfold BridgeVault.updateMaxBridgeAmount, BridgeVault.onlyOwner in Hl. guards Hl.
    injection Hl as <-. cbn. apply Hskip. reflexivity.
  - destruct (BridgeVault.pause _ _) as [t'|] eqn:Hl; cbn in H; [|discriminate].
    injection H as <-. cbn. split; [reflexivity|].
    unfold BridgeVault.pause, BridgeVault.onlyOwner, BridgeVault.whenNotPaused in Hl.
    guards Hl. injection Hl as <-. cbn. apply Hskip. reflexivity.
  - destruct (BridgeVault.unpause _ _) as [t'|] eqn:Hl; cbn in H; [|discriminate].
    injection H as <-. cbn. split; [reflexivity|].
    unfold BridgeVault.unpause, BridgeVault.onlyOwner, BridgeVault.whenPaused in Hl.
    guards Hl. injection Hl as <-. cbn. apply Hskip. reflexivity.
  - destruct (BridgeVault.emergencyWithdraw _ _ _ _ _ _ _) as [[f t']|] eqn:Hl;
      cbn in H; [|discriminate].
    injection H as <-. cbn. split; [reflexivity|].
    unfold BridgeVault.emergencyWithdraw, BridgeVault.onlyOwner, BridgeVault.whenPaused in Hl.
    guards Hl. injection Hl as <- <-. cbn. apply Hskip. reflexivity.
  - destruct (BridgeVault.receive _ _ _ _) as [[f t']|] eqn:Hl; cbn in H; [|discriminate].
    injection H as <-. cbn. split; [reflexivity|].
    unfold BridgeVault.receive in Hl. guards Hl.
    injection Hl as <- <-. reflexivity.
Qed.

Lemma vault_exec_once (e : env) (c : VaultLedger.call) (w w' : VaultLedger.world) :
  VaultLedger.exec e c w = Ok w' ->
  once (unlockNonces (BridgeVault.events (VaultLedger.vault w))) (VaultLedger.validator w) ->
  once (unlockNonces (BridgeVault.events (VaultLedger.vault w'))) (VaultLedger.validator w').
Proof.
  intros H Hinv.
  destruct c;
    try (match type of H with
         | VaultLedger.exec e ?c0 w = _ =>
             destruct (vault_other_unlocks e c0 w w' H) as [Hval Hev]
         end;
         rewrite Hval, Hev; exact Hinv).
  - cbn in H.
    destruct (BridgeVault.unlock _ _ _ _ _ _ _ _ _ _ _ _ _) as [[[v f] t']|] eqn:Hm;
      cbn in H; [|discriminate].
    injection H as <-. cbn [VaultLedger.vault VaultLedger.validator].
    destruct (unlock_Ok _ _ _ _ _ _ _ _ _ _ _ _ _ _ _ _ Hm) as (Hu & Hfresh & He & _).
    rewrite He. unfold unlockNonces. rewrite omap_app. cbn [omap list_omap].
    exact (once_snoc _ _ _ _ Hu Hfresh Hinv).
  - cbn in H.
    destruct (BridgeValidator.exec e c (VaultLedger.validator w)) as [v|] eqn:Hv;
      cbn in H; [|discriminate].
    injection H as <-. cbn [VaultLedger.vault VaultLedger.validator].
    exact (once_validator _ _ _ _ _ Hv Hinv).
Qed.

Lemma vault_run_once (txs : list (env * VaultLedger.call)) :
  forall w,
    once (unlockNonces (BridgeVault.events (VaultLedger.vault w))) (VaultLedger.validator w) ->
    once (unlockNonces (BridgeVault.events (VaultLedger.vault (VaultLedger.run w txs))))
      (VaultLedger.validator (VaultLedger.run w txs)).
Proof.
  unfold VaultLedger.run. induction txs as [|tx txs IH]; intros w Hb; [exact Hb|].
  cbn [foldl]. apply IH. unfold VaultLedger.step, commit.
  destruct (VaultLedger.exec (fst tx) (snd tx) w) as [w'|] eqn:Hexec; [|exact Hb].
  exact (vault_exec_once _ _ _ _ Hexec Hb).
Qed.

End OnceFacts.

(** X24. No nonce is minted twice.  In every state the Amoy side reaches
    from its deployment, whatever the transactions sent to the token and to
    its validator, calls of [validateTransaction] by third parties included,
    the [TokensMinted] events carry pairwise distinct nonces, and the nonce
    of each is consumed on the validator. *)
Theorem X24_one_mint_per_nonce
    (d r va self src chain now : Z) (w0 : TokenLedger.world)
    (txs : list (Evm.env * TokenLedger.call)) :
  TokenLedger.deploy d r va self src chain now = Evm.Ok w0 ->
  let w := TokenLedger.run w0 txs in
  NoDup (mintNonces (BridgeToken.events (TokenLedger.token w))) /\
  forall n, n ∈ mintNonces (BridgeToken.events (TokenLedger.token w)) ->
            BridgeValidator.isNonceUsed n (TokenLedger.validator w) = true.
Proof.
  intros Hd w. apply (token_run_once txs w0).
  unfold TokenLedger.deploy, BridgeValidator.constructor, BridgeToken.constructor in Hd.
  guards Hd. injection Hd as <-. cbn. split; [constructor|].
  intros n Hn. inversion Hn.
Qed.

Lemma X24_one_mint_per_nonce_witness :
  let w := TokenLedger.run LedgerRuns.fresh
             [ LedgerRuns.registration; (Scenario.at_ Scenario.operator 61, LedgerRuns.mintCall);
               (Scenario.at_ Scenario.operator 62, LedgerRuns.mintCall) ] in
  NoDup (mintNonces (BridgeToken.events (TokenLedger.token w))) /\
  forall n, n ∈ mintNonces (BridgeToken.events (TokenLedger.token w)) ->
            BridgeValidator.isNonceUsed n (TokenLedger.validator w) = true.
Proof.
  apply (X24_one_mint_per_nonce Scenario.deployer Scenario.operator Scenario.validatorAddr
           Scenario.tokenAddr Scenario.sepolia Scenario.amoy 0 LedgerRuns.fresh).
  vm_compute. reflexivity.
Defined.

(** X25. No nonce is unlocked twice.  In every state the Sepolia side
    reaches from its deployment, whatever the transactions sent to the vault
    and to its validator, the [BridgingCompleted] events carry pairwise
    distinct nonces, and the nonce of each is consumed on the validator. *)
Theorem X25_one_unlock_per_nonce
    (d r va self dst chain now : Z) (funds : gmap Z Z) (w0 : VaultLedger.world)
    (txs : list (Evm.env * VaultLedger.call)) :
  VaultLedger.deploy d r va self dst chain now funds = Evm.Ok w0 ->
  let w := VaultLedger.run w0 txs in
  NoDup (unlockNonces (BridgeVault.events (VaultLedger.vault w))) /\
  forall n, n ∈ unlockNonces (BridgeVault.events (VaultLedger.vault w)) ->
            BridgeValidator.isNonceUsed n (VaultLedger.validator w) = true.
Proof.
  intros Hd w. apply (vault_run_once txs w0).
  destruct (deploy_fields _ _ _ _ _ _ _ _ _ Hd) as (_ & _ & _ & _ & _ & _ & _ & _ & He).
  rewrite He. split; [constructor|]. intros n Hn. inversion Hn.
Qed.

Lemma X25_one_unlock_per_nonce_witness :
  let w := VaultLedger.run LedgerRuns.freshSource
             [ LedgerRuns.registrationBack;
               (Scenario.at_ Scenario.operator 61, LedgerRuns.unlockCall);
               (Scenario.at_ Scenario.operator 62, LedgerRuns.unlockCall) ] in
  NoDup (unlockNonces (BridgeVault.events (VaultLedger.vault w))) /\
  forall n, n ∈ unlockNonces (BridgeVault.events (VaultLedger.vault w)) ->
            BridgeValidator.isNonceUsed n (VaultLedger.validator w) = true.
Proof.
  apply (X25_one_unlock_per_nonce Scenario.deployer Scenario.operator Scenario.validatorAddr
           Scenario.vaultAddr Scenario.amoy Scenario.sepolia 0 LedgerRuns.funds
           LedgerRuns.freshSource).
  vm_compute. reflexivity.
Defined.

(* ===================================================================== *)
(** ** The table of roots *)
(* ===================================================================== *)

Section RootTableFacts.
Import Js MerkleRoots.
Local Open Scope Z_scope.

Lemma getUnregisteredRoots_elem (c : string) (t : table) (row : MerkleRoot) :
  row ∈ getUnregisteredRoots c t <-> row ∈ t /\ chain row = c /\ registered row = false.
Proof.
  unfold getUnregisteredRoots. rewrite merge_sort_Permutation, list_elem_of_filter. tauto.
Qed.

Lemma markRootAsRegistered_other (r tx : string) (saved : outcome unit) (t : table) :
  r ∉ root <$> t -> snd (markRootAsRegistered r tx saved t) = t.
Proof.
  unfold markRootAsRegistered. cbn [snd].
  induction t as [|x t IH]; intros Hr; [reflexivity|].
  cbn [fmap list_fmap] in *. rewrite not_elem_of_cons in Hr. destruct Hr as [Hx Hr].
  rewrite bool_decide_eq_false_2 by congruence. f_equal. apply IH, Hr.
Qed.

End RootTableFacts.

(** X26. The table of roots: a root that is not stored is inserted under the
    next id as an unregistered root of its chain, the id being returned when
    [save()] returns and the error of [save()] thrown otherwise, and
    inserting it again throws and leaves the table as it is; once it is
    marked as registered it is no longer among the unregistered roots, and
    the unregistered roots of every chain are those stored before the
    insertion, whatever [save()] finds. *)
Theorem X26_root_table_round_trip
    (r c registrationTx : string) (count now : Z) (saved again marked : Js.outcome unit)
    (t : MerkleRoots.table) :
  r ∉ MerkleRoots.root <$> t ->
  exists t',
    MerkleRoots.insertMerkleRoot r c count now saved t =
      (match saved with
       | Js.Return _ => Js.Return (Z.of_nat (length t) + 1)%Z
       | Js.Throw m => Js.Throw m
       end, t') /\
    (exists row, row ∈ MerkleRoots.getUnregisteredRoots c t' /\
                 MerkleRoots.root row = r /\
                 MerkleRoots.id row = (Z.of_nat (length t) + 1)%Z /\
                 MerkleRoots.transactionCount row = count /\
                 MerkleRoots.createdAt row = now) /\
    MerkleRoots.insertMerkleRoot r c count now again t' =
      (Js.Throw "UNIQUE constraint failed: merkle_roots.root", t') /\
    (forall c' row,
       row ∈ MerkleRoots.getUnregisteredRoots c'
               (snd (MerkleRoots.markRootAsRegistered r registrationTx marked t')) <->
       row ∈ MerkleRoots.getUnregisteredRoots c' t).
Proof.
  intros Hr. unfold MerkleRoots.insertMerkleRoot.
  rewrite bool_decide_eq_false_2 by exact Hr. cbn zeta. eexists. split.
  { destruct saved; reflexivity. }
  split; [|split].
  - eexists. split.
    + apply getUnregisteredRoots_elem.
      split; [apply elem_of_app; right; apply list_elem_of_here|].
      split; reflexivity.
    + repeat split.
  - rewrite bool_decide_eq_true_2; [reflexivity|].
    rewrite fmap_app. apply elem_of_app. right. apply list_elem_of_here.
  - intros c' row. rewrite !getUnregisteredRoots_elem.
    unfold MerkleRoots.markRootAsRegistered. cbn [snd]. rewrite fmap_app.
    pose proof (markRootAsRegistered_other r registrationTx marked t Hr) as Hother.
    unfold MerkleRoots.markRootAsRegistered in Hother. cbn [snd] in Hother.
    rewrite Hother.
    cbn [fmap list_fmap MerkleRoots.root]. rewrite bool_decide_eq_true_2 by reflexivity.
    rewrite elem_of_app, list_elem_of_singleton. split.
    + intros [[Hin|Heq] [Hc Hreg]]; [auto|]. subst row. cbn in Hreg. discriminate.
    + intros [Hin Hrest]. auto.
Qed.

Lemma X26_root_table_round_trip_witness :
  exists t',
    MerkleRoots.insertMerkleRoot "0xr007" "amoy" 1 5000 (Js.Return tt) [] =
      (Js.Return 1%Z, t') /\
    (exists row, row ∈ MerkleRoots.getUnregisteredRoots "amoy" t' /\
                 MerkleRoots.root row = "0xr007" /\
                 MerkleRoots.id row = 1%Z /\
                 MerkleRoots.transactionCount row = 1%Z /\
                 MerkleRoots.createdAt row = 5000%Z) /\
    MerkleRoots.insertMerkleRoot "0xr007" "amoy" 1 5000
      (Js.Throw "ENOSPC: no space left on device, write") t' =
      (Js.Throw "UNIQUE constraint failed: merkle_roots.root", t') /\
    (forall c' row,
       row ∈ MerkleRoots.getUnregisteredRoots c'
               (snd (MerkleRoots.markRootAsRegistered "0xr007" "0x4e91" (Js.Return tt) t')) <->
       row ∈ MerkleRoots.getUnregisteredRoots c' []).
Proof.
  apply (X26_root_table_round_trip "0xr007" "amoy" "0x4e91" 1 5000 (Js.Return tt)
           (Js.Throw "ENOSPC: no space left on device, write") (Js.Return tt) []).
  intros H. inversion H.
Defined.
